(** * eth-tx-history: a shallow embedding of the aggregation core

    The development follows the layout of the Go sources:
    - [strconv], [big], [time]: the parts of the Go standard library
      the program calls, modelled from their documented behaviour;
    - [models]: pkg/models (the canonical transaction);
    - [api]: pkg/api (unit conversion, retrying transport, pagination);
    - [app]: package main (whole-range and batch orchestration);
    - [csv], [utils]: the writer and the reader of encoding/csv and
      pkg/utils (the CSV export).

    Conventions.  Go's [int], [int64] and [time.Duration] are 64-bit
    two's-complement integers: they are carried as [Z] and every
    arithmetic step that can overflow is wrapped with [wrap64].
    A Go [string] is a byte sequence and is carried as [string].
    A [*big.Int] may be nil and is carried as [option Z].  A run-time
    panic is an explicit outcome ([Panic]).  Numbers of [math/big] grow
    without bound here: the library's limit on exponents (operands
    beyond 2^(2^31) in magnitude) is outside the model. *)

From Stdlib Require Import ZArith List String Ascii Bool Lia.
From Stdlib Require Decimal DecimalFacts DecimalPos DecimalN.
Import ListNotations.

Local Open Scope string_scope.
Local Open Scope Z_scope.

(** ** Machine integers *)

Definition wrap64 (z : Z) : Z := (z + 2 ^ 63) mod 2 ^ 64 - 2 ^ 63.
Definition uwrap64 (z : Z) : Z := z mod 2 ^ 64.
Definition maxInt64 : Z := 2 ^ 63 - 1.
Definition minInt64 : Z := - 2 ^ 63.

Definition byte_of (c : ascii) : Z := Z.of_N (N_of_ascii c).
Definition is_digit (c : ascii) : bool := (48 <=? byte_of c) && (byte_of c <=? 57).

(** Decimal digits of a natural number, most significant first
    (the digit sequence of [strconv.Itoa] and of [nat.utoa]). *)
Fixpoint uint_digits (u : Decimal.uint) : list Z :=
  match u with
  | Decimal.Nil => []
  | Decimal.D0 u => 0 :: uint_digits u
  | Decimal.D1 u => 1 :: uint_digits u
  | Decimal.D2 u => 2 :: uint_digits u
  | Decimal.D3 u => 3 :: uint_digits u
  | Decimal.D4 u => 4 :: uint_digits u
  | Decimal.D5 u => 5 :: uint_digits u
  | Decimal.D6 u => 6 :: uint_digits u
  | Decimal.D7 u => 7 :: uint_digits u
  | Decimal.D8 u => 8 :: uint_digits u
  | Decimal.D9 u => 9 :: uint_digits u
  end.

Definition utoa (n : Z) : list Z := uint_digits (N.to_uint (Z.to_N n)).

Definition digit_char (d : Z) : ascii := ascii_of_N (Z.to_N (48 + d mod 10)).

Fixpoint digits_string (ds : list Z) : string :=
  match ds with
  | [] => EmptyString
  | d :: ds => String (digit_char d) (digits_string ds)
  end.

(** ** Outcomes of a computation that may panic *)

Inductive exec (A : Type) : Type :=
| Ret (a : A)
| Panic (msg : string).
Arguments Ret {A} a.
Arguments Panic {A} msg.

Definition exec_bind {A B} (m : exec A) (k : A -> exec B) : exec B :=
  match m with
  | Ret a => k a
  | Panic msg => Panic msg
  end.

Declare Scope exec_scope.
Delimit Scope exec_scope with exec.
Notation "x <- m ;; k" := (exec_bind m (fun x => k))
  (at level 100, m at next level, right associativity) : exec_scope.

Definition nil_deref : string :=
  "runtime error: invalid memory address or nil pointer dereference".

(** ** strconv *)

Module strconv.

Inductive ErrKind := ErrSyntax | ErrRange.

Record NumError := { Func : string; Num : string; Err : ErrKind }.

Definition syntaxError (fn str : string) : NumError :=
  {| Func := fn; Num := str; Err := ErrSyntax |}.
Definition rangeError (fn str : string) : NumError :=
  {| Func := fn; Num := str; Err := ErrRange |}.

Definition maxUint64 : Z := 2 ^ 64 - 1.

(** The digit loop of [ParseUint] for base 10 and bitSize 64.  A byte
    that is not a decimal digit is a syntax error (a letter has a digit
    value of at least 10, which the base rejects; an underscore is only
    accepted with base 0). *)
Fixpoint ParseUint_loop (s : string) (n : Z) : Z * option ErrKind :=
  match s with
  | EmptyString => (n, None)
  | String c rest =>
      if is_digit c then
        let d := byte_of c - 48 in
        let cutoff := maxUint64 / 10 + 1 in
        let maxVal := uwrap64 (uwrap64 (2 ^ 64) - 1) in
        if n >=? cutoff then (maxVal, Some ErrRange)
        else
          let n := uwrap64 (n * 10) in
          let n1 := uwrap64 (n + d) in
          if (n1 <? n) || (n1 >? maxVal) then (maxVal, Some ErrRange)
          else ParseUint_loop rest n1
      else (0, Some ErrSyntax)
  end.

Definition ParseUint (s : string) : Z * option ErrKind :=
  match s with
  | EmptyString => (0, Some ErrSyntax)
  | _ => ParseUint_loop s 0
  end.

(** [ParseInt s 10 64] *)
Definition ParseInt_as (fn : string) (s : string) : Z * option NumError :=
  match s with
  | EmptyString => (0, Some (syntaxError fn s))
  | String c rest =>
      let s0 := s in
      let neg := Ascii.eqb c "-" in
      let s := if Ascii.eqb c "+" || neg then rest else s in
      let (un, err) := ParseUint s in
      match err with
      | Some ErrSyntax => (0, Some (syntaxError fn s0))
      | _ =>
          let cutoff := 2 ^ 63 in
          if negb neg && (un >=? cutoff) then (cutoff - 1, Some (rangeError fn s0))
          else if neg && (un >? cutoff) then (- cutoff, Some (rangeError fn s0))
          else
            let n := wrap64 un in
            (if neg then wrap64 (- n) else n, None)
      end
  end.

Definition ParseInt (s : string) : Z * option NumError := ParseInt_as "ParseInt" s.

(** The fast path of [Atoi]: at most 18 bytes, so the value fits. *)
Fixpoint Atoi_loop (s : string) (n : Z) : option Z :=
  match s with
  | EmptyString => Some n
  | String c rest =>
      let ch := (byte_of c - 48) mod 256 in
      if ch >? 9 then None else Atoi_loop rest (wrap64 (wrap64 (n * 10) + ch))
  end.

(** [Atoi] on a platform whose [int] has 64 bits. *)
Definition Atoi (s : string) : Z * option NumError :=
  let sLen := Z.of_nat (String.length s) in
  if (0 <? sLen) && (sLen <? 19) then
    match s with
    | EmptyString => (0, Some (syntaxError "Atoi" s))
    | String c rest =>
        let signed := Ascii.eqb c "-" || Ascii.eqb c "+" in
        let body := if signed then rest else s in
        if signed && (Z.of_nat (String.length body) <? 1) then (0, Some (syntaxError "Atoi" s))
        else
          match Atoi_loop body 0 with
          | None => (0, Some (syntaxError "Atoi" s))
          | Some n => (if Ascii.eqb c "-" then wrap64 (- n) else n, None)
          end
    end
  else ParseInt_as "Atoi" s.

(** [Itoa] / [FormatInt _ 10] *)
Definition Itoa (i : Z) : string :=
  if i <? 0 then String "-" (digits_string (utoa (- i))) else digits_string (utoa i).

End strconv.

(** ** math/big *)

Module big.

Definition bitLen (n : Z) : Z := if n <=? 0 then 0 else Z.log2 n + 1.

(** *** big.Int.  A [*big.Int] is a pointer: [None] is nil. *)

Definition Int := option Z.

Definition NewInt (x : Z) : Int := Some x.

(** The digits consumed by [nat.scan] in base 10: the longest run of
    decimal digits, its value, and what is left unread. *)
Fixpoint scan_digits (s : string) (acc count : Z) : Z * Z * string :=
  match s with
  | EmptyString => (acc, count, s)
  | String c rest =>
      if is_digit c then scan_digits rest (acc * 10 + (byte_of c - 48)) (count + 1)
      else (acc, count, s)
  end.

(** [new(big.Int).SetString(s, 10)]: an optional sign, then at least
    one digit, and nothing after.  On failure the returned pointer is
    nil and the flag is false. *)
Definition SetString (s : string) : Int * bool :=
  match s with
  | EmptyString => (None, false)
  | String c rest =>
      let neg := Ascii.eqb c "-" in
      let body := if neg || Ascii.eqb c "+" then rest else s in
      let '(abs, count, unread) := scan_digits body 0 0 in
      if count =? 0 then (None, false)
      else
        match unread with
        | EmptyString => (Some (if neg then - abs else abs), true)
        | String _ _ => (None, false)
        end
  end.

(** [new(big.Int).Mul(x, y)] reads both operands through their pointers. *)
Definition Mul (x y : Int) : exec Int :=
  match x, y with
  | Some a, Some b => Ret (Some (a * b))
  | _, _ => Panic nil_deref
  end.

(** [new(big.Int).Exp(x, y, nil)]: x**y, and 1 when y <= 0. *)
Definition Exp (x y : Int) : exec Int :=
  match x, y with
  | Some a, Some b => Ret (Some (if b <=? 0 then 1 else a ^ b))
  | _, _ => Panic nil_deref
  end.

(** *** big.Float.  A finite non-zero value is
    (-1)^neg * (mant / 2^bitLen mant) * 2^exp, the mantissa being read
    as a binary fraction in [1/2, 1) as in the library; [prec] is the
    number of mantissa bits results are rounded to.  The rounding mode
    of a fresh Float is ToNearestEven. *)

Inductive form := zero | finite | inf.

Record Float := mkFloat
  { prec : Z; neg : bool; fform : form; mant : Z; exp : Z }.

(** [Float.round]: cut a mantissa to [p] bits.  The rounding bit is the
    first dropped bit, the sticky bit says whether anything non-zero
    follows it ([sbit] reports a non-zero remainder below the mantissa). *)
Definition round (p : Z) (m e : Z) (sbit : bool) : Z * Z :=
  let bits := bitLen m in
  if bits <=? p then (m, e)
  else
    let r := bits - p - 1 in
    let rbit := Z.testbit m r in
    let sbit := sbit || negb (Z.land m (Z.ones r) =? 0) in
    let t := Z.shiftr m (r + 1) in
    let inc := rbit && (sbit || Z.odd t) in
    if inc then
      let t1 := t + 1 in
      if bitLen t1 >? p then (Z.shiftr t1 1, e + 1) else (t1, e)
    else (t, e).

(** [new(big.Float).SetInt(x)]: exact, with precision max(x.BitLen(), 64).
    The library keeps precision and exponent in 32 bits and turns an
    operand of more than MaxExp = 2^31 - 1 bits into an infinity
    ([setExpAndRound]); the definition is for operands below that
    size, that is for numerals of less than 646 million digits. *)
Definition SetInt (x : Int) : exec Float :=
  match x with
  | None => Panic nil_deref
  | Some v =>
      let bits := bitLen (Z.abs v) in
      let p := Z.max bits 64 in
      if v =? 0 then Ret (mkFloat p false zero 0 0)
      else
        let (m, e) := round p (Z.abs v) bits false in
        Ret (mkFloat p (v <? 0) finite m e)
  end.

(** [Float.uquo]: the quotient of the mantissas is computed with at
    least one bit more than the precision, the remainder feeds the
    sticky bit, and the result is rounded.  (The library works in whole
    machine words and so may carry more low bits; the rounded result
    does not depend on how many.) *)
Definition uquo (p : Z) (x y : Float) : Z * Z :=
  let bx := bitLen (mant x) in
  let bY := bitLen (mant y) in
  let d := Z.max 0 (p + 1 + bY - bx) in
  let xadj := Z.shiftl (mant x) d in
  let q := xadj / mant y in
  let r := xadj mod mant y in
  let e := exp x - exp y - (bx + d - bY) + bitLen q in
  round p q e (negb (r =? 0)).

(** [new(big.Float).Quo(x, y)] *)
Definition Quo (x y : Float) : exec Float :=
  let p := Z.max (prec x) (prec y) in
  let ng := xorb (neg x) (neg y) in
  match fform x, fform y with
  | finite, finite =>
      let (m, e) := uquo p x y in Ret (mkFloat p ng finite m e)
  | zero, zero | inf, inf => Panic "division of zero by zero or infinity by infinity"
  | zero, _ | _, inf => Ret (mkFloat p ng zero 0 0)
  | _, _ => Ret (mkFloat p ng inf 0 0)
  end.

(** *** Decimal conversion ([decimal.go], [ftoa.go]).  A decimal is
    0.mant * 10^dexp with no trailing zero in [dmant]. *)

Record decimal := mkDecimal { dmant : list Z; dexp : Z }.

Fixpoint drop_zeros (ds : list Z) : list Z :=
  match ds with
  | 0 :: ds' => drop_zeros ds'
  | _ => ds
  end.

Fixpoint drop_nines (ds : list Z) : list Z :=
  match ds with
  | d :: ds' => if d >=? 9 then drop_nines ds' else ds
  | [] => []
  end.

Definition trim_digits (ds : list Z) : list Z := rev (drop_zeros (rev ds)).

Definition dlen (x : decimal) : Z := Z.of_nat (List.length (dmant x)).

(** [decimal.init m shift]: the exact decimal expansion of m * 2^shift.
    A right shift by s bits is an exact division by 2^s, whose digits
    are those of m * 5^s with the point moved s places. *)
Definition decimal_init (m shift : Z) : decimal :=
  if m =? 0 then mkDecimal [] 0
  else if shift <? 0 then
    let s := utoa (m * 5 ^ (- shift)) in
    mkDecimal (trim_digits s) (Z.of_nat (List.length s) + shift)
  else
    let s := utoa (m * 2 ^ shift) in
    mkDecimal (trim_digits s) (Z.of_nat (List.length s)).

Definition digit_at (x : decimal) (i : Z) : Z :=
  if (0 <=? i) && (i <? dlen x) then nth (Z.to_nat i) (dmant x) 0 else 0.

Definition shouldRoundUp (x : decimal) (n : Z) : bool :=
  if (digit_at x n =? 5) && (n + 1 =? dlen x) then
    (0 <? n) && Z.odd (digit_at x (n - 1))
  else digit_at x n >=? 5.

Definition roundUp (x : decimal) (n : Z) : decimal :=
  if (n <? 0) || (n >=? dlen x) then x
  else
    match drop_nines (rev (firstn (Z.to_nat n) (dmant x))) with
    | [] => mkDecimal [1] (dexp x + 1)
    | d :: front => mkDecimal (rev front ++ [d + 1]) (dexp x)
    end.

Definition roundDown (x : decimal) (n : Z) : decimal :=
  if (n <? 0) || (n >=? dlen x) then x
  else
    match trim_digits (firstn (Z.to_nat n) (dmant x)) with
    | [] => mkDecimal [] 0
    | ds => mkDecimal ds (dexp x)
    end.

Definition dround (x : decimal) (n : Z) : decimal :=
  if (n <? 0) || (n >=? dlen x) then x
  else if shouldRoundUp x n then roundUp x n else roundDown x n.

(** [roundShortest]: the least number of digits that still identifies
    the value among the Floats of its precision. *)
Fixpoint shortest_loop (ds : list Z) (i : Z) (d lower upper : decimal)
    (inclusive : bool) : decimal :=
  match ds with
  | [] => d
  | m :: rest =>
      let l := digit_at lower i in
      let u := digit_at upper i in
      let okdown := negb (l =? m) || (inclusive && (i + 1 =? dlen lower)) in
      let okup := negb (m =? u) && (inclusive || (m + 1 <? u) || (i + 1 <? dlen upper)) in
      if okdown && okup then dround d (i + 1)
      else if okdown then roundDown d (i + 1)
      else if okup then roundUp d (i + 1)
      else shortest_loop rest (i + 1) d lower upper inclusive
  end.

Definition roundShortest (d : decimal) (x : Float) : decimal :=
  match dmant d with
  | [] => d
  | _ =>
      let e := exp x - bitLen (mant x) in
      let s := bitLen (mant x) - (prec x + 1) in
      let m := if s <? 0 then Z.shiftl (mant x) (- s)
               else if 0 <? s then Z.shiftr (mant x) s else mant x in
      let e := e + s in
      let lower := decimal_init (m - 1) e in
      let upper := decimal_init (m + 1) e in
      let inclusive := Z.land m 2 =? 0 in
      shortest_loop (dmant d) 0 d lower upper inclusive
  end.

Fixpoint fraction_digits (d : decimal) (i : Z) (count : nat) : list Z :=
  match count with
  | O => []
  | S count' => digit_at d i :: fraction_digits d (i + 1) count'
  end.

(** [fmtF]: %f layout, integer part padded with zeros, then [prec]
    fractional digits. *)
Definition fmtF (prec : Z) (d : decimal) : string :=
  let int_part :=
    if 0 <? dexp d then
      let m := Z.min (dlen d) (dexp d) in
      digits_string (firstn (Z.to_nat m) (dmant d) ++ repeat 0 (Z.to_nat (dexp d - m)))
    else "0" in
  if 0 <? prec then
    int_part ++ "." ++ digits_string (fraction_digits d (dexp d) (Z.to_nat prec))
  else int_part.

(** [x.Text('f', prec)] *)
Definition Text_f (x : Float) (prec : Z) : string :=
  match fform x with
  | inf => if neg x then "-Inf" else "+Inf"
  | f =>
      let sign := if neg x then "-" else "" in
      let d := match f with
               | finite => decimal_init (mant x) (exp x - bitLen (mant x))
               | _ => mkDecimal [] 0
               end in
      if prec <? 0 then
        let d := roundShortest d x in
        sign ++ fmtF (Z.max (dlen d - dexp d) 0) d
      else
        sign ++ fmtF prec (dround d (dexp d + prec))
  end.

End big.

(** ** time *)

Module time.

Definition Duration := Z.
Definition Nanosecond : Duration := 1.
Definition Millisecond : Duration := 1000000.
Definition Second : Duration := 1000000000.

(** A [time.Time] is either the zero value or an instant given by
    seconds and nanoseconds since the Unix epoch. *)
Inductive Time :=
| Zero
| Instant (sec nsec : Z).

Definition Unix (sec nsec : Z) : Time :=
  if (nsec <? 0) || (nsec >=? 1000000000) then
    Instant (wrap64 (sec + nsec / 1000000000)) (nsec mod 1000000000)
  else Instant sec nsec.

End time.

(** ** Errors.  Go's [error] values met in the program: parse errors
    of [strconv], errors built with [fmt.Errorf] (format and integer
    arguments, or format and wrapped error for [%w]), and errors handed
    over by net/http, io, encoding/json and os. *)

Inductive error :=
| NumError (e : strconv.NumError)
| Errorf (format : string) (args : list Z)
| ErrorfS (format : string) (arg : string)
| Wrapf (format : string) (inner : error)
| External (what : string).

(** ** pkg/models *)

Module models.

Definition TransactionType := string.

Definition TypeEthTransfer : TransactionType := "ETH_TRANSFER".
Definition TypeERC20Transfer : TransactionType := "ERC20_TRANSFER".
Definition TypeERC721Transfer : TransactionType := "ERC721_TRANSFER".
Definition TypeERC1155Transfer : TransactionType := "ERC1155_TRANSFER".
Definition TypeContractCall : TransactionType := "CONTRACT_CALL".
Definition TypeInternalTx : TransactionType := "INTERNAL_TRANSFER".

Record Transaction := mkTransaction
  { Hash : string;
    Timestamp : time.Time;
    From : string;
    To : string;
    Type_ : TransactionType;
    AssetContractAddr : string;
    AssetSymbol : string;
    TokenID : string;
    Value : string;
    GasFee : string }.

(** [models.Transaction{}] *)
Definition zeroTransaction : Transaction :=
  mkTransaction "" time.Zero "" "" "" "" "" "" "" "".

(** [t.CSVRecord()].  The text of [t.Timestamp.Format(time.RFC3339)]
    depends on the time zone of the host; it is given by
    [Format_RFC3339]. *)
Definition CSVRecord (Format_RFC3339 : time.Time -> string) (t : Transaction)
    : list string :=
  [ Hash t;
    Format_RFC3339 (Timestamp t);
    From t;
    To t;
    Type_ t;
    AssetContractAddr t;
    AssetSymbol t;
    TokenID t;
    Value t;
    GasFee t ].

(** [CSVHeaders()] *)
Definition CSVHeaders : list string :=
  [ "Transaction Hash";
    "Date & Time";
    "From Address";
    "To Address";
    "Transaction Type";
    "Asset Contract Address";
    "Asset Symbol / Name";
    "Token ID";
    "Value / Amount";
    "Gas Fee (ETH)" ].

End models.

(** ** pkg/api: raw records *)

Module NormalTransaction.
Record t := mk
  { BlockNumber : string; TimeStamp : string; Hash : string; From : string;
    To : string; Value : string; GasPrice : string; GasUsed : string;
    IsError : string; ContractAddress : string; CumulativeGasUsed : string }.
End NormalTransaction.

Module InternalTransaction.
Record t := mk
  { BlockNumber : string; TimeStamp : string; Hash : string; From : string;
    To : string; Value : string; ContractAddress : string; Type_ : string;
    IsError : string }.
End InternalTransaction.

Module ERC20Transaction.
Record t := mk
  { BlockNumber : string; TimeStamp : string; Hash : string; From : string;
    To : string; Value : string; ContractAddress : string; TokenName : string;
    TokenSymbol : string; TokenDecimal : string; GasPrice : string;
    GasUsed : string }.
End ERC20Transaction.

Module ERC721Transaction.
Record t := mk
  { BlockNumber : string; TimeStamp : string; Hash : string; From : string;
    To : string; TokenID : string; ContractAddress : string; TokenName : string;
    TokenSymbol : string; GasPrice : string; GasUsed : string }.
End ERC721Transaction.

(** ** pkg/api: conversion to the canonical model *)

Module convert.

Local Open Scope exec_scope.

Definition converted := (models.Transaction * option error)%type.

(** [new(big.Float).SetInt(new(big.Int).Exp(big.NewInt(10), big.NewInt(18), nil))] *)
Definition weiPerEth : exec big.Float :=
  e <- big.Exp (big.NewInt 10) (big.NewInt 18) ;;
  big.SetInt e.

(** [new(big.Float).Quo(new(big.Float).SetInt(x), y).Text('f', digits)] *)
Definition quoText (x : big.Int) (y : big.Float) (digits : Z) : exec string :=
  xf <- big.SetInt x ;;
  q <- big.Quo xf y ;;
  Ret (big.Text_f q digits).

Definition ConvertNormalTxToModel (tx : NormalTransaction.t) : exec converted :=
  let (timestamp, err) := strconv.ParseInt (NormalTransaction.TimeStamp tx) in
  match err with
  | Some e => Ret (models.zeroTransaction, Some (NumError e))
  | None =>
      let (gasPrice, _) := big.SetString (NormalTransaction.GasPrice tx) in
      let (gasUsed, _) := big.SetString (NormalTransaction.GasUsed tx) in
      gasFee <- big.Mul gasPrice gasUsed ;;
      weiPerEth <- weiPerEth ;;
      gasFeeStr <- quoText gasFee weiPerEth 18 ;;
      let (valueWei, _) := big.SetString (NormalTransaction.Value tx) in
      valueStr <- quoText valueWei weiPerEth 18 ;;
      Ret ({| models.Hash := NormalTransaction.Hash tx;
              models.Timestamp := time.Unix timestamp 0;
              models.From := NormalTransaction.From tx;
              models.To := NormalTransaction.To tx;
              models.Type_ := models.TypeEthTransfer;
              models.AssetContractAddr := "";
              models.AssetSymbol := "";
              models.TokenID := "";
              models.Value := valueStr;
              models.GasFee := gasFeeStr |}, None)
  end.

Definition ConvertInternalTxToModel (tx : InternalTransaction.t) : exec converted :=
  let (timestamp, err) := strconv.ParseInt (InternalTransaction.TimeStamp tx) in
  match err with
  | Some e => Ret (models.zeroTransaction, Some (NumError e))
  | None =>
      let (valueWei, _) := big.SetString (InternalTransaction.Value tx) in
      weiPerEth <- weiPerEth ;;
      valueStr <- quoText valueWei weiPerEth 18 ;;
      Ret ({| models.Hash := InternalTransaction.Hash tx;
              models.Timestamp := time.Unix timestamp 0;
              models.From := InternalTransaction.From tx;
              models.To := InternalTransaction.To tx;
              models.Type_ := models.TypeInternalTx;
              models.AssetContractAddr := "";
              models.AssetSymbol := "";
              models.TokenID := "";
              models.Value := valueStr;
              models.GasFee := "0" |}, None)
  end.

Definition ConvertERC20TxToModel (tx : ERC20Transaction.t) : exec converted :=
  let (timestamp, err) := strconv.ParseInt (ERC20Transaction.TimeStamp tx) in
  match err with
  | Some e => Ret (models.zeroTransaction, Some (NumError e))
  | None =>
      let (gasPrice, _) := big.SetString (ERC20Transaction.GasPrice tx) in
      let (gasUsed, _) := big.SetString (ERC20Transaction.GasUsed tx) in
      gasFee <- big.Mul gasPrice gasUsed ;;
      weiPerEth <- weiPerEth ;;
      gasFeeStr <- quoText gasFee weiPerEth 18 ;;
      let (tokenDecimals, _) := strconv.Atoi (ERC20Transaction.TokenDecimal tx) in
      let (tokenValue, _) := big.SetString (ERC20Transaction.Value tx) in
      pow <- big.Exp (big.NewInt 10) (big.NewInt tokenDecimals) ;;
      divisor <- big.SetInt pow ;;
      valueStr <- quoText tokenValue divisor tokenDecimals ;;
      Ret ({| models.Hash := ERC20Transaction.Hash tx;
              models.Timestamp := time.Unix timestamp 0;
              models.From := ERC20Transaction.From tx;
              models.To := ERC20Transaction.To tx;
              models.Type_ := models.TypeERC20Transfer;
              models.AssetContractAddr := ERC20Transaction.ContractAddress tx;
              models.AssetSymbol := ERC20Transaction.TokenSymbol tx;
              models.TokenID := "";
              models.Value := valueStr;
              models.GasFee := gasFeeStr |}, None)
  end.

Definition ConvertERC721TxToModel (tx : ERC721Transaction.t) : exec converted :=
  let (timestamp, err) := strconv.ParseInt (ERC721Transaction.TimeStamp tx) in
  match err with
  | Some e => Ret (models.zeroTransaction, Some (NumError e))
  | None =>
      let (gasPrice, _) := big.SetString (ERC721Transaction.GasPrice tx) in
      let (gasUsed, _) := big.SetString (ERC721Transaction.GasUsed tx) in
      gasFee <- big.Mul gasPrice gasUsed ;;
      weiPerEth <- weiPerEth ;;
      gasFeeStr <- quoText gasFee weiPerEth 18 ;;
      Ret ({| models.Hash := ERC721Transaction.Hash tx;
              models.Timestamp := time.Unix timestamp 0;
              models.From := ERC721Transaction.From tx;
              models.To := ERC721Transaction.To tx;
              models.Type_ := models.TypeERC721Transfer;
              models.AssetContractAddr := ERC721Transaction.ContractAddress tx;
              models.AssetSymbol := ERC721Transaction.TokenSymbol tx;
              models.TokenID := ERC721Transaction.TokenID tx;
              models.Value := "1";
              models.GasFee := gasFeeStr |}, None)
  end.

End convert.

(** ** The outside world

    Everything the program does to its environment is recorded in a
    trace of events, newest first.  What the environment answers (the
    remote service, the JSON decoder, the file system) is given by an
    [Env], whose answers may depend on the whole history. *)

Inductive arg :=
| AInt (i : Z)
| AStr (s : string)
| AErr (e : error)
| ADuration (d : time.Duration)
| APercent (processed total : Z).

Inductive event :=
| EvGet (base : string) (params : list (string * string))
| EvSleep (d : time.Duration)
| EvPrint (format : string) (args : list arg)
| EvLog (format : string) (args : list arg)
| EvMkdirAll (dir : string)
| EvExport (txs : list models.Transaction) (dir file : string).

Definition trace := list event.

Inductive HttpReply :=
| ConnError (err : error)
| Response (StatusCode : Z) (body : error + string).

Record APIResponse := mkAPIResponse
  { Status : string; Message : string; Result : string }.

Record Env := mkEnv
  { http_Get : trace -> string -> list (string * string) -> HttpReply;
    Unmarshal_APIResponse : string -> error + APIResponse;
    Unmarshal_Normal : string -> error + list NormalTransaction.t;
    Unmarshal_Internal : string -> error + list InternalTransaction.t;
    Unmarshal_ERC20 : string -> error + list ERC20Transaction.t;
    Unmarshal_ERC721 : string -> error + list ERC721Transaction.t;
    os_MkdirAll : trace -> string -> option error;
    utils_ExportTransactionsToCSV :
      trace -> list models.Transaction -> string -> string -> option error }.

Inductive res (A : Type) : Type :=
| Val (a : A)
| Panicked (msg : string)
| Exited (code : Z)
| OutOfFuel
| Blocked.
Arguments Val {A} a.
Arguments Panicked {A} msg.
Arguments Exited {A} code.
Arguments OutOfFuel {A}.
Arguments Blocked {A}.

Definition io (A : Type) : Type := trace -> res A * trace.

Definition ret {A} (a : A) : io A := fun tr => (Val a, tr).

Definition bind {A B} (m : io A) (k : A -> io B) : io B :=
  fun tr =>
    match m tr with
    | (Val a, tr') => k a tr'
    | (Panicked msg, tr') => (Panicked msg, tr')
    | (Exited code, tr') => (Exited code, tr')
    | (OutOfFuel, tr') => (OutOfFuel, tr')
    | (Blocked, tr') => (Blocked, tr')
    end.

Declare Scope io_scope.
Delimit Scope io_scope with io.
Notation "x <- m ;; k" := (bind m (fun x => k))
  (at level 100, m at next level, right associativity) : io_scope.
Notation "' pat <- m ;; k" := (bind m (fun x => match x with pat => k end))
  (at level 100, pat pattern, m at next level, right associativity) : io_scope.
Notation "m ;;; k" := (bind m (fun _ => k))
  (at level 100, right associativity) : io_scope.

Definition emit (e : event) : io unit := fun tr => (Val tt, e :: tr).
Definition out_of_fuel {A} : io A := fun tr => (OutOfFuel, tr).
Definition blocked {A} : io A := fun tr => (Blocked, tr).
Definition panic {A} (msg : string) : io A := fun tr => (Panicked msg, tr).

Definition fmt_Printf (format : string) (args : list arg) : io unit :=
  emit (EvPrint format args).
Definition log_Printf (format : string) (args : list arg) : io unit :=
  emit (EvLog format args).
(** [log.Fatalf] prints and then calls [os.Exit(1)]. *)
Definition log_Fatalf {A} (format : string) (args : list arg) : io A :=
  fun tr => (Exited 1, EvLog format args :: tr).
Definition time_Sleep (d : time.Duration) : io unit := emit (EvSleep d).

Definition len {A} (l : list A) : Z := Z.of_nat (List.length l).

(** ** pkg/api: the client *)

Module api.

Local Open Scope io_scope.

Definition EtherscanBaseURL : string := "https://api.etherscan.io/api".

Record EtherscanClient := mkClient
  { ApiKey : string;
    BaseURL : string;
    MaxRetries : Z;
    RetryDelay : time.Duration;
    HTTPClient_Timeout : time.Duration }.

Definition NewEtherscanClient (apiKey : string) : EtherscanClient :=
  {| ApiKey := apiKey;
     BaseURL := EtherscanBaseURL;
     MaxRetries := 3;
     RetryDelay := time.Second * 1;
     HTTPClient_Timeout := time.Second * 10 |}.

Definition DefaultPage : Z := 1.
Definition DefaultOffset : Z := 1000.

Section WithEnv.

Variable E : Env.
(** The number of iterations each loop may take before the model gives
    up with [OutOfFuel]. *)
Variable fuel : nat.

(** [c.HTTPClient.Get(url)], the URL being [base?params.Encode()]. *)
Definition HTTPClient_Get (base : string) (params : list (string * string)) : io HttpReply :=
  fun tr => (Val (http_Get E tr base params), EvGet base params :: tr).

(** The loop of [makeRequest]; [retries] and [delay] are its locals. *)
Fixpoint makeRequest_loop (n : nat) (c : EtherscanClient) (base : string)
    (params : list (string * string)) (retries : Z) (delay : time.Duration)
    : io (string * option error) :=
  match n with
  | O => out_of_fuel
  | S n' =>
      if retries <=? MaxRetries c then
        reply <- HTTPClient_Get base params ;;
        match reply with
        | ConnError err =>
            let retries := wrap64 (retries + 1) in
            if retries >? MaxRetries c then ret ("", Some err)
            else
              fmt_Printf "Request failed (attempt %d/%d): %s. Retrying in %v...\n"
                [AInt retries; AInt (MaxRetries c); AErr err; ADuration delay] ;;;
              time_Sleep delay ;;;
              makeRequest_loop n' c base params retries (wrap64 (delay * 2))
        | Response StatusCode body =>
            if (StatusCode =? 429) || (StatusCode >=? 500) then
              let retries := wrap64 (retries + 1) in
              if retries >? MaxRetries c then
                ret ("", Some (Errorf "API request failed with status code: %d after %d retries"
                                 [StatusCode; wrap64 (retries - 1)]))
              else
                fmt_Printf "Rate limit hit or server error (attempt %d/%d): status %d. Retrying in %v...\n"
                  [AInt retries; AInt (MaxRetries c); AInt StatusCode; ADuration delay] ;;;
                time_Sleep delay ;;;
                makeRequest_loop n' c base params retries (wrap64 (delay * 2))
            else if negb (StatusCode =? 200) then
              ret ("", Some (Errorf "API request failed with status code: %d" [StatusCode]))
            else
              match body with
              | inl err => ret ("", Some err)
              | inr b => ret (b, None)
              end
        end
      else
        ret ("", Some (Errorf "failed to make API request after %d retries" [MaxRetries c]))
  end.

Definition makeRequest (c : EtherscanClient) (base : string)
    (params : list (string * string)) : io (string * option error) :=
  makeRequest_loop fuel c base params 0 (RetryDelay c).

(** What differs between the four category fetchers: the [action]
    parameter, the record type with its JSON decoder, and the words
    used in progress messages. *)
Section Fetcher.

Context {T : Type}.
Variable action : string.
Variable unmarshal : string -> error + list T.
Variable what : string.

Definition requestWithRetry (c : EtherscanClient) (params : list (string * string))
    : io (error + list T) :=
  '(body, err) <- makeRequest c (BaseURL c) params ;;
  match err with
  | Some e => ret (inl e)
  | None =>
      match Unmarshal_APIResponse E body with
      | inl e => ret (inl e)
      | inr apiResp =>
          if negb (String.eqb (Status apiResp) "1") then
            ret (inl (ErrorfS "API returned error: %s" (Message apiResp)))
          else
            match unmarshal (Result apiResp) with
            | inl e => ret (inl e)
            | inr result => ret (inr result)
            end
      end
  end.

Definition page_params (c : EtherscanClient) (address : string)
    (startBlock endBlock page offset : Z) : list (string * string) :=
  [ ("module", "account");
    ("action", action);
    ("address", address);
    ("startblock", strconv.Itoa startBlock);
    ("endblock", strconv.Itoa endBlock);
    ("page", strconv.Itoa page);
    ("offset", strconv.Itoa offset);
    ("sort", "asc");
    ("apikey", ApiKey c) ].

Definition GetPaginated (c : EtherscanClient) (address : string)
    (startBlock endBlock page offset : Z) : io (list T * option error) :=
  r <- requestWithRetry c (page_params c address startBlock endBlock page offset) ;;
  match r with
  | inl err => ret ([], Some err)
  | inr transactions =>
      (if 0 <? len transactions then
         fmt_Printf ("Fetched %d " ++ what ++ " (page %d)\n")
           [AInt (len transactions); AInt page]
       else ret tt) ;;;
      ret (transactions, None)
  end.

Definition Get (c : EtherscanClient) (address : string) (startBlock endBlock : Z)
    : io (list T * option error) :=
  GetPaginated c address startBlock endBlock DefaultPage DefaultOffset.

(** The loop of [GetAll...]; [page] and [allTransactions] are its locals. *)
Fixpoint GetAll_loop (n : nat) (c : EtherscanClient) (address : string)
    (startBlock endBlock : Z) (page : Z) (allTransactions : list T)
    : io (list T * option error) :=
  match n with
  | O => out_of_fuel
  | S n' =>
      let batchSize := DefaultOffset in
      fmt_Printf ("Fetching " ++ what ++ " page %d...\n") [AInt page] ;;;
      '(transactions, err) <- GetPaginated c address startBlock endBlock page batchSize ;;
      match err with
      | Some e => ret ([], Some e)
      | None =>
          let allTransactions := (allTransactions ++ transactions)%list in
          if len transactions <? batchSize then
            fmt_Printf ("Total " ++ what ++ " fetched: %d\n") [AInt (len allTransactions)] ;;;
            ret (allTransactions, None)
          else
            let page := wrap64 (page + 1) in
            time_Sleep (200 * time.Millisecond) ;;;
            GetAll_loop n' c address startBlock endBlock page allTransactions
      end
  end.

Definition GetAll (c : EtherscanClient) (address : string) (startBlock endBlock : Z)
    : io (list T * option error) :=
  GetAll_loop fuel c address startBlock endBlock 1 [].

End Fetcher.

Definition GetNormalTransactionsPaginated :=
  GetPaginated "txlist" (Unmarshal_Normal E) "normal transactions".
Definition GetNormalTransactions :=
  Get "txlist" (Unmarshal_Normal E) "normal transactions".
Definition GetAllNormalTransactions :=
  GetAll "txlist" (Unmarshal_Normal E) "normal transactions".

Definition GetInternalTransactionsPaginated :=
  GetPaginated "txlistinternal" (Unmarshal_Internal E) "internal transactions".
Definition GetInternalTransactions :=
  Get "txlistinternal" (Unmarshal_Internal E) "internal transactions".
Definition GetAllInternalTransactions :=
  GetAll "txlistinternal" (Unmarshal_Internal E) "internal transactions".

Definition GetERC20TransfersPaginated :=
  GetPaginated "tokentx" (Unmarshal_ERC20 E) "ERC20 token transfers".
Definition GetERC20Transfers :=
  Get "tokentx" (Unmarshal_ERC20 E) "ERC20 token transfers".
Definition GetAllERC20Transfers :=
  GetAll "tokentx" (Unmarshal_ERC20 E) "ERC20 token transfers".

Definition GetERC721TransfersPaginated :=
  GetPaginated "tokennfttx" (Unmarshal_ERC721 E) "ERC721 NFT transfers".
Definition GetERC721Transfers :=
  Get "tokennfttx" (Unmarshal_ERC721 E) "ERC721 NFT transfers".
Definition GetAllERC721Transfers :=
  GetAll "tokennfttx" (Unmarshal_ERC721 E) "ERC721 NFT transfers".

End WithEnv.

End api.

(** ** package main *)

Module app.

Local Open Scope io_scope.

Definition defaultOutputDir : string := "./output".
Definition defaultStartBlock : Z := 0.
Definition defaultEndBlock : Z := 999999999.
Definition maxConcurrentRequests : Z := 4.

(** The command-line flags after [flag.Parse()]. *)
Record Flags := mkFlags
  { address : string;
    apiKey : string;
    outputDir : string;
    startBlock : Z;
    endBlock : Z;
    batchBlocks : Z }.

Section WithEnv.

Variable E : Env.
Variable fuel : nat.

(** [utils.ExportTransactionsToCSV(txs, filepath.Join(dir, file))]:
    file output, answered by the environment. *)
Definition ExportTransactionsToCSV (txs : list models.Transaction) (dir file : string)
    : io (option error) :=
  fun tr => (Val (utils_ExportTransactionsToCSV E tr txs dir file), EvExport txs dir file :: tr).

Definition MkdirAll (dir : string) : io (option error) :=
  fun tr => (Val (os_MkdirAll E tr dir), EvMkdirAll dir :: tr).

(** *** Conversion loops.  In whole-range mode a record that fails to
    convert is reported and skipped; in batch mode it is skipped. *)

Fixpoint convert_logged {T} (conv : T -> exec convert.converted) (hash : T -> string)
    (warning : string) (txs : list T) (allTxs : list models.Transaction)
    : io (list models.Transaction) :=
  match txs with
  | [] => ret allTxs
  | tx :: rest =>
      match conv tx with
      | Panic msg => panic msg
      | Ret (model, Some err) =>
          log_Printf warning [AStr (hash tx); AErr err] ;;;
          convert_logged conv hash warning rest allTxs
      | Ret (model, None) =>
          convert_logged conv hash warning rest (allTxs ++ [model])
      end
  end.

Fixpoint convert_quiet {T} (conv : T -> exec convert.converted)
    (txs : list T) (batchTxs : list models.Transaction)
    : io (list models.Transaction) :=
  match txs with
  | [] => ret batchTxs
  | tx :: rest =>
      match conv tx with
      | Panic msg => panic msg
      | Ret (convertedTx, None) => convert_quiet conv rest (batchTxs ++ [convertedTx])
      | Ret (convertedTx, Some _) => convert_quiet conv rest batchTxs
      end
  end.

(** *** Whole-range mode.

    The four goroutines run concurrently.  What matters to the rest of
    [main] is which value each call of [GetAll...] returned and in what
    order the goroutines wrote to the shared error channel; these are
    the parameters [fetched] and [sched] (the goroutines in the order
    in which they report).  Every interleaving of the four goroutines
    is an instance of some [sched]. *)

Inductive task := TNormal | TInternal | TERC20 | TERC721.

Record fetched := mkFetched
  { fetchedNormal : list NormalTransaction.t * option error;
    fetchedInternal : list InternalTransaction.t * option error;
    fetchedERC20 : list ERC20Transaction.t * option error;
    fetchedERC721 : list ERC721Transaction.t * option error }.

(** The buffered channels and the wait group counter. *)
Record channels := mkChannels
  { normalTxCh : list (list NormalTransaction.t);
    internalTxCh : list (list InternalTransaction.t);
    erc20TxCh : list (list ERC20Transaction.t);
    erc721TxCh : list (list ERC721Transaction.t);
    errorCh : list error;
    wg : Z }.

(** A send on a buffered channel of capacity [cap]; it blocks when the
    buffer is full. *)
Definition send {A} (cap : Z) (buf : list A) (v : A) : io (list A) :=
  if len buf <? cap then ret (buf ++ [v])%list else blocked.

Definition goroutine (t : task) (f : fetched) (ch : channels) : io channels :=
  match t with
  | TNormal =>
      fmt_Printf "Starting to fetch normal ETH transactions...\n" [] ;;;
      let '(txs, err) := fetchedNormal f in
      match err with
      | Some e =>
          errs <- send 4 (errorCh ch) (Wrapf "error fetching normal transactions: %w" e) ;;
          out <- send 1 (normalTxCh ch) [] ;;
          ret (mkChannels out (internalTxCh ch) (erc20TxCh ch) (erc721TxCh ch) errs (wg ch - 1))
      | None =>
          out <- send 1 (normalTxCh ch) txs ;;
          ret (mkChannels out (internalTxCh ch) (erc20TxCh ch) (erc721TxCh ch) (errorCh ch) (wg ch - 1))
      end
  | TInternal =>
      fmt_Printf "Starting to fetch internal transactions...\n" [] ;;;
      let '(txs, err) := fetchedInternal f in
      match err with
      | Some e =>
          errs <- send 4 (errorCh ch) (Wrapf "error fetching internal transactions: %w" e) ;;
          out <- send 1 (internalTxCh ch) [] ;;
          ret (mkChannels (normalTxCh ch) out (erc20TxCh ch) (erc721TxCh ch) errs (wg ch - 1))
      | None =>
          out <- send 1 (internalTxCh ch) txs ;;
          ret (mkChannels (normalTxCh ch) out (erc20TxCh ch) (erc721TxCh ch) (errorCh ch) (wg ch - 1))
      end
  | TERC20 =>
      fmt_Printf "Starting to fetch ERC-20 token transfers...\n" [] ;;;
      let '(txs, err) := fetchedERC20 f in
      match err with
      | Some e =>
          errs <- send 4 (errorCh ch) (Wrapf "error fetching ERC-20 transfers: %w" e) ;;
          out <- send 1 (erc20TxCh ch) [] ;;
          ret (mkChannels (normalTxCh ch) (internalTxCh ch) out (erc721TxCh ch) errs (wg ch - 1))
      | None =>
          out <- send 1 (erc20TxCh ch) txs ;;
          ret (mkChannels (normalTxCh ch) (internalTxCh ch) out (erc721TxCh ch) (errorCh ch) (wg ch - 1))
      end
  | TERC721 =>
      fmt_Printf "Starting to fetch ERC-721 NFT transfers...\n" [] ;;;
      let '(txs, err) := fetchedERC721 f in
      match err with
      | Some e =>
          errs <- send 4 (errorCh ch) (Wrapf "error fetching ERC-721 transfers: %w" e) ;;
          out <- send 1 (erc721TxCh ch) [] ;;
          ret (mkChannels (normalTxCh ch) (internalTxCh ch) (erc20TxCh ch) out errs (wg ch - 1))
      | None =>
          out <- send 1 (erc721TxCh ch) txs ;;
          ret (mkChannels (normalTxCh ch) (internalTxCh ch) (erc20TxCh ch) out (errorCh ch) (wg ch - 1))
      end
  end.

Fixpoint run_goroutines (sched : list task) (f : fetched) (ch : channels) : io channels :=
  match sched with
  | [] => ret ch
  | t :: rest => ch' <- goroutine t f ch ;; run_goroutines rest f ch'
  end.

(** A receive from a buffered channel; it blocks on an empty buffer. *)
Definition recv {A} (buf : list A) : io A :=
  match buf with
  | v :: _ => ret v
  | [] => blocked
  end.

(** [main] from [wg.Wait()] on. *)
Definition main_collect (fl : Flags) (ch : channels) : io unit :=
  if negb (wg ch =? 0) then blocked
  else
    match errorCh ch with
    | err :: _ => log_Fatalf "Error: %v" [AErr err]
    | [] =>
        let allTxs := [] in
        normalTxs <- recv (normalTxCh ch) ;;
        allTxs <- convert_logged convert.ConvertNormalTxToModel NormalTransaction.Hash
                    "Warning: Failed to process normal transaction %s: %v" normalTxs allTxs ;;
        internalTxs <- recv (internalTxCh ch) ;;
        allTxs <- convert_logged convert.ConvertInternalTxToModel InternalTransaction.Hash
                    "Warning: Failed to process internal transaction %s: %v" internalTxs allTxs ;;
        erc20Txs <- recv (erc20TxCh ch) ;;
        allTxs <- convert_logged convert.ConvertERC20TxToModel ERC20Transaction.Hash
                    "Warning: Failed to process ERC20 transaction %s: %v" erc20Txs allTxs ;;
        erc721Txs <- recv (erc721TxCh ch) ;;
        allTxs <- convert_logged convert.ConvertERC721TxToModel ERC721Transaction.Hash
                    "Warning: Failed to process ERC721 transaction %s: %v" erc721Txs allTxs ;;
        fmt_Printf "Total transactions processed: %d\n" [AInt (len allTxs)] ;;;
        fmt_Printf "Total transactions: %d\n" [AInt (len allTxs)] ;;;
        merr <- MkdirAll (outputDir fl) ;;
        match merr with
        | Some err => log_Fatalf "Error creating output directory: %v" [AErr err]
        | None =>
            let file := address fl ++ "_tx_history.csv" in
            xerr <- ExportTransactionsToCSV allTxs (outputDir fl) file ;;
            match xerr with
            | Some err => log_Fatalf "Error exporting to CSV: %v" [AErr err]
            | None =>
                fmt_Printf "Exported transaction history to %s\n" [AStr (outputDir fl); AStr file]
            end
        end
    end.

Definition main_whole_range (fl : Flags) (sched : list task) (f : fetched) : io unit :=
  ch <- run_goroutines sched f (mkChannels [] [] [] [] [] 4) ;;
  main_collect fl ch.

(** *** Batch mode *)

(** One category of one chunk: fetch, then convert what was fetched. *)
Definition batch_category {T} (get : io (list T * option error))
    (conv : T -> exec convert.converted) (warning : string)
    (currentStart currentEnd : Z) (batchTxs : list models.Transaction)
    : io (list models.Transaction) :=
  '(txs, err) <- get ;;
  match err with
  | Some e =>
      fmt_Printf warning [AInt currentStart; AInt currentEnd; AErr e] ;;;
      ret batchTxs
  | None => convert_quiet conv txs batchTxs
  end.

Fixpoint processInBatches_loop (n : nat) (client : api.EtherscanClient) (address : string)
    (endBlock batchSize : Z) (outputDir : string) (totalBlocks : Z)
    (currentStart : Z) (allTxs : list models.Transaction) (processedBlocks : Z)
    : io (list models.Transaction) :=
  match n with
  | O => out_of_fuel
  | S n' =>
      if currentStart <? endBlock then
        let currentEnd := wrap64 (currentStart + batchSize) in
        let currentEnd := if currentEnd >? endBlock then endBlock else currentEnd in
        fmt_Printf "\n=== Processing blocks %d to %d (%d%% complete) ===\n"
          [AInt currentStart; AInt currentEnd; APercent processedBlocks totalBlocks] ;;;
        let batchTxs := [] in
        fmt_Printf "Fetching normal transactions for batch...\n" [] ;;;
        batchTxs <- batch_category
          (api.GetAllNormalTransactions E fuel client address currentStart currentEnd)
          convert.ConvertNormalTxToModel
          "Warning: Error fetching normal transactions for block range %d-%d: %v\n"
          currentStart currentEnd batchTxs ;;
        fmt_Printf "Fetching internal transactions for batch...\n" [] ;;;
        batchTxs <- batch_category
          (api.GetAllInternalTransactions E fuel client address currentStart currentEnd)
          convert.ConvertInternalTxToModel
          "Warning: Error fetching internal transactions for block range %d-%d: %v\n"
          currentStart currentEnd batchTxs ;;
        fmt_Printf "Fetching ERC20 transfers for batch...\n" [] ;;;
        batchTxs <- batch_category
          (api.GetAllERC20Transfers E fuel client address currentStart currentEnd)
          convert.ConvertERC20TxToModel
          "Warning: Error fetching ERC20 transfers for block range %d-%d: %v\n"
          currentStart currentEnd batchTxs ;;
        fmt_Printf "Fetching ERC721 transfers for batch...\n" [] ;;;
        batchTxs <- batch_category
          (api.GetAllERC721Transfers E fuel client address currentStart currentEnd)
          convert.ConvertERC721TxToModel
          "Warning: Error fetching ERC721 transfers for block range %d-%d: %v\n"
          currentStart currentEnd batchTxs ;;
        let allTxs := (allTxs ++ batchTxs)%list in
        let file := address ++ "_tx_history_blocks_" ++ strconv.Itoa currentStart
                    ++ "_" ++ strconv.Itoa currentEnd ++ ".csv" in
        werr <- ExportTransactionsToCSV batchTxs outputDir file ;;
        match werr with
        | Some err => fmt_Printf "Warning: Error saving intermediate results: %v\n" [AErr err]
        | None => fmt_Printf "Saved intermediate results to %s\n" [AStr outputDir; AStr file]
        end ;;;
        let processedBlocks := wrap64 (processedBlocks + wrap64 (currentEnd - currentStart)) in
        processInBatches_loop n' client address endBlock batchSize outputDir totalBlocks
          (wrap64 (currentStart + batchSize)) allTxs processedBlocks
      else ret allTxs
  end.

Definition processInBatches (client : api.EtherscanClient) (address : string)
    (startBlock endBlock batchSize : Z) (outputDir : string) : io unit :=
  let totalBlocks := wrap64 (endBlock - startBlock) in
  allTxs <- processInBatches_loop fuel client address endBlock batchSize outputDir
              totalBlocks startBlock [] 0 ;;
  let file := address ++ "_tx_history_full.csv" in
  xerr <- ExportTransactionsToCSV allTxs outputDir file ;;
  match xerr with
  | Some err => log_Fatalf "Error exporting to CSV: %v" [AErr err]
  | None =>
      fmt_Printf "\nComplete! Exported %d transactions to %s\n"
        [AInt (len allTxs); AStr outputDir; AStr file]
  end.

(** [main] *)
Definition main (fl : Flags) (sched : list task) (f : fetched) : io unit :=
  if String.eqb (address fl) "" then
    log_Fatalf "Error: Ethereum wallet address is required. Use -address flag." []
  else if String.eqb (apiKey fl) "" then
    log_Fatalf "Error: Etherscan API key is required. Use -apikey flag or set ETHERSCAN_API_KEY environment variable." []
  else
    let client := api.NewEtherscanClient (apiKey fl) in
    fmt_Printf "Fetching transactions for address: %s\n" [AStr (address fl)] ;;;
    fmt_Printf "Block range: %d to %d\n" [AInt (startBlock fl); AInt (endBlock fl)] ;;;
    if 0 <? batchBlocks fl then
      processInBatches client (address fl) (startBlock fl) (endBlock fl)
        (batchBlocks fl) (outputDir fl)
    else main_whole_range fl sched f.

End WithEnv.

End app.

(** ** encoding/csv

    *** The writer

    A [csv.Writer] with its default settings: the separator is a comma
    and a record ends with a line feed ([UseCRLF] is false). *)

Module csv.

Definition quote : ascii := ascii_of_nat 34.
Definition comma : ascii := ascii_of_nat 44.
Definition LF : ascii := ascii_of_nat 10.
Definition CR : ascii := ascii_of_nat 13.

(** A byte that forces a field into quotes. *)
Definition special (c : ascii) : bool :=
  Ascii.eqb c LF || Ascii.eqb c CR || Ascii.eqb c quote || Ascii.eqb c comma.

Fixpoint has_special (field : string) : bool :=
  match field with
  | EmptyString => false
  | String c rest => special c || has_special rest
  end.

(** [unicode.IsSpace] of the first rune of the field, as decoded by
    [utf8.DecodeRuneInString].  The white space characters are U+0009
    to U+000D, U+0020, U+0085, U+00A0, U+1680, U+2000 to U+200A,
    U+2028, U+2029, U+202F, U+205F and U+3000; each is recognised by
    its UTF-8 encoding (a malformed encoding decodes to U+FFFD, which
    is no space). *)
Definition first_rune_is_space (field : string) : bool :=
  match field with
  | EmptyString => false
  | String c1 rest1 =>
      let b1 := byte_of c1 in
      if b1 <? 128 then ((9 <=? b1) && (b1 <=? 13)) || (b1 =? 32)
      else
        match rest1 with
        | EmptyString => false
        | String c2 rest2 =>
            let b2 := byte_of c2 in
            if b1 =? 194 then (b2 =? 133) || (b2 =? 160)
            else
              match rest2 with
              | EmptyString => false
              | String c3 _ =>
                  let b3 := byte_of c3 in
                  ((b1 =? 225) && (b2 =? 154) && (b3 =? 128))
                  || ((b1 =? 226) && (b2 =? 128)
                      && (((128 <=? b3) && (b3 <=? 138)) || (b3 =? 168) || (b3 =? 169)
                          || (b3 =? 175)))
                  || ((b1 =? 226) && (b2 =? 129) && (b3 =? 159))
                  || ((b1 =? 227) && (b2 =? 128) && (b3 =? 128))
              end
        end
  end.

(** [w.fieldNeedsQuotes(field)] *)
Definition fieldNeedsQuotes (field : string) : bool :=
  if String.eqb field "" then false
  else if String.eqb field "\." then true
  else if has_special field then true
  else first_rune_is_space field.

(** The inside of a quoted field: a quote is doubled, every other byte
    (carriage return and line feed included) is copied. *)
Fixpoint escape (field : string) : string :=
  match field with
  | EmptyString => EmptyString
  | String c rest =>
      if Ascii.eqb c quote then String quote (String quote (escape rest))
      else String c (escape rest)
  end.

Definition writeField (field : string) : string :=
  if fieldNeedsQuotes field then String quote (escape field ++ String quote EmptyString)
  else field.

(** The fields of a record from the n-th on: a comma goes before every
    field but the first. *)
Fixpoint writeFields (first : bool) (record : list string) : string :=
  match record with
  | [] => EmptyString
  | field :: rest =>
      (if first then EmptyString else String comma EmptyString)
      ++ writeField field ++ writeFields false rest
  end.

(** The bytes [w.Write(record)] hands to the buffered writer. *)
Definition Write (record : list string) : string :=
  writeFields true record ++ String LF EmptyString.

(** *** The reader

    A [csv.Reader] as [csv.NewReader] returns it: the separator is a
    comma, there is no comment character, [FieldsPerRecord] is 0, and
    [LazyQuotes] and [TrimLeadingSpace] are false. *)

Inductive ParseError := ErrBareQuote | ErrQuote | ErrFieldCount.

(** The end of [readLine]: a line that ends with a carriage return and
    a line feed loses the carriage return. *)
Fixpoint normalizeNL (line : string) : string :=
  match line with
  | EmptyString => EmptyString
  | String c rest =>
      if Ascii.eqb c CR && String.eqb rest (String LF EmptyString) then rest
      else String c (normalizeNL rest)
  end.

(** A last line without line feed loses a trailing carriage return. *)
Fixpoint dropCR (line : string) : string :=
  match line with
  | EmptyString => EmptyString
  | String c rest =>
      if Ascii.eqb c CR && String.eqb rest EmptyString then EmptyString
      else String c (dropCR rest)
  end.

(** The lines that successive calls of [readLine] return for the unread
    [input]: each runs up to and including the next line feed and is
    normalised; what follows the last line feed, if anything, is the
    last line.  [line] holds the bytes of the line being gathered. *)
Fixpoint readLines (input line : string) : list string :=
  match input with
  | EmptyString => if String.eqb line EmptyString then [] else [dropCR line]
  | String c rest =>
      if Ascii.eqb c LF then
        normalizeNL (line ++ String LF EmptyString) :: readLines rest EmptyString
      else readLines rest (line ++ String c EmptyString)
  end.

(** Where [parseField] stands in a line: before a field, inside a
    non-quoted field, inside a quoted field, or just after a quote
    met inside a quoted field. *)
Inductive place := FieldStart | NonQuoted | Quoted | AfterQuote.

(** What the fields loop of [readRecord] makes of one line: the record
    is complete, or the line ran out inside a quoted field (whose
    bytes so far are [field]), or the line is malformed. *)
Inductive lineResult :=
| Complete (fields : list string)
| Unfinished (fields : list string) (field : string)
| Malformed (err : ParseError).

(** The fields loop of [readRecord] over the bytes of one line.
    A field that begins with a quote is a quoted field.
    A non-quoted field runs to the next comma or to the end of the
    line, the final line feed left out; a quote inside it is
    [ErrBareQuote].  In a quoted field a doubled quote stands for one
    quote; a single quote ends the field and must be followed by a
    comma or by the end of the line, anything else is [ErrQuote];
    every other byte, the line feed that ends the line included,
    belongs to the field. *)
Fixpoint parseLine (line : string) (at_ : place) (field : string) (fields : list string)
    : lineResult :=
  match line with
  | EmptyString =>
      match at_ with
      | Quoted => Unfinished fields field
      | _ => Complete (fields ++ [field])
      end
  | String c rest =>
      let lastNL := Ascii.eqb c LF && String.eqb rest EmptyString in
      match at_ with
      | FieldStart =>
          if Ascii.eqb c quote then parseLine rest Quoted EmptyString fields
          else if Ascii.eqb c comma then parseLine rest FieldStart EmptyString (fields ++ [field])
          else if lastNL then Complete (fields ++ [field])
          else parseLine rest NonQuoted (field ++ String c EmptyString) fields
      | NonQuoted =>
          if Ascii.eqb c comma then parseLine rest FieldStart EmptyString (fields ++ [field])
          else if lastNL then Complete (fields ++ [field])
          else if Ascii.eqb c quote then Malformed ErrBareQuote
          else parseLine rest NonQuoted (field ++ String c EmptyString) fields
      | Quoted =>
          if Ascii.eqb c quote then parseLine rest AfterQuote field fields
          else parseLine rest Quoted (field ++ String c EmptyString) fields
      | AfterQuote =>
          if Ascii.eqb c quote then
            parseLine rest Quoted (field ++ String quote EmptyString) fields
          else if Ascii.eqb c comma then
            parseLine rest FieldStart EmptyString (fields ++ [field])
          else if lastNL then Complete (fields ++ [field])
          else Malformed ErrQuote
      end
  end.

(** A line that [readRecord] skips: it holds a line feed at most. *)
Definition emptyLine (line : string) : bool :=
  String.eqb line EmptyString || String.eqb line (String LF EmptyString).

(** [ReadAll]: [readRecord] until the input is used up.  [lines] are
    the lines still unread.  [pending] holds the fields and the bytes
    of the quoted field of a record whose line ran out inside quotes:
    the next line continues the field, and the end of the input there
    is [ErrQuote].  Between records empty lines are skipped.  The first
    record sets [FieldsPerRecord]; a later record with another number
    of fields is [ErrFieldCount].  An error ends the reading and no
    records are returned. *)
Fixpoint readRecords (lines : list string) (pending : option (list string * string))
    (FieldsPerRecord : nat) (records : list (list string))
    : ParseError + list (list string) :=
  match lines with
  | [] =>
      match pending with
      | None => inr records
      | Some _ => inl ErrQuote
      end
  | line :: rest =>
      let parsed :=
        match pending with
        | None =>
            if emptyLine line then None
            else Some (parseLine line FieldStart EmptyString [])
        | Some (fields, field) => Some (parseLine line Quoted field fields)
        end in
      match parsed with
      | None => readRecords rest None FieldsPerRecord records
      | Some (Complete fields) =>
          if (0 <? FieldsPerRecord)%nat then
            if (List.length fields =? FieldsPerRecord)%nat then
              readRecords rest None FieldsPerRecord (records ++ [fields])
            else inl ErrFieldCount
          else readRecords rest None (List.length fields) (records ++ [fields])
      | Some (Unfinished fields field) =>
          readRecords rest (Some (fields, field)) FieldsPerRecord records
      | Some (Malformed err) => inl err
      end
  end.

(** [csv.NewReader(r).ReadAll()] on a file holding [input]. *)
Definition ReadAll (input : string) : ParseError + list (list string) :=
  readRecords (readLines input EmptyString) None 0 [].

End csv.

(** ** pkg/utils

    The file system and the buffered writer between the CSV writer and
    the file are outside the program.  They are given by a [Host]:
    whether a directory can be made and a file created, and whether
    handing a record to the writer reports an error (which it does when
    its buffer runs full and cannot be written out).  [Flush] and
    [Close] run when the function returns and their results are
    dropped. *)

Module utils.

Record Host := mkHost
  { Format_RFC3339 : time.Time -> string;
    filepath_Dir : string -> string;
    MkdirAll : string -> Z -> option error;
    Create : string -> option error;
    (** the bytes handed over so far, then the record *)
    Writer_Write : string -> string -> option error }.

(** What a call leaves behind: its result, whether the file was
    created, and the bytes handed to the writer. *)
Record outcome := mkOutcome
  { result : option error;
    created : bool;
    written : string }.

Section WithHost.

Variable H : Host.

(** The loop over the transactions; [written] is what the writer has
    been given so far. *)
Fixpoint write_records (transactions : list models.Transaction) (written : string)
    : outcome :=
  match transactions with
  | [] => mkOutcome None true written
  | tx :: rest =>
      let line := csv.Write (models.CSVRecord (Format_RFC3339 H) tx) in
      match Writer_Write H written line with
      | Some err => mkOutcome (Some (Wrapf "failed to write transaction record: %w" err))
                      true written
      | None => write_records rest (written ++ line)
      end
  end.

Definition ExportTransactionsToCSV (transactions : list models.Transaction)
    (filePath : string) : outcome :=
  let dir := filepath_Dir H filePath in
  match MkdirAll H dir 493 with
  | Some err => mkOutcome (Some (Wrapf "failed to create directory: %w" err)) false ""
  | None =>
      match Create H filePath with
      | Some err => mkOutcome (Some (Wrapf "failed to create CSV file: %w" err)) false ""
      | None =>
          let header := csv.Write models.CSVHeaders in
          match Writer_Write H "" header with
          | Some err => mkOutcome (Some (Wrapf "failed to write CSV header: %w" err)) true ""
          | None => write_records transactions header
          end
      end
  end.

End WithHost.

End utils.

(** * Specification vocabulary

    The notions the properties below are stated with.  None of them is
    used by the embedding above. *)

(** ** Decimal integer strings *)

Fixpoint all_digits (s : string) : bool :=
  match s with
  | EmptyString => true
  | String c rest => is_digit c && all_digits rest
  end.

Fixpoint digits_value (s : string) (acc : Z) : Z :=
  match s with
  | EmptyString => acc
  | String c rest => digits_value rest (acc * 10 + (byte_of c - 48))
  end.

(** The sign and the digits of a numeral. *)
Definition numeral_sign (s : string) : bool :=
  match s with
  | String c _ => Ascii.eqb c "-"
  | EmptyString => false
  end.

Definition numeral_body (s : string) : string :=
  match s with
  | String c rest => if Ascii.eqb c "+" || Ascii.eqb c "-" then rest else s
  | EmptyString => s
  end.

(** An integer string: an optional sign followed by one or more decimal
    digits. *)
Definition integer_string (s : string) : bool :=
  negb (String.eqb (numeral_body s) "") && all_digits (numeral_body s).

Definition integer_value (s : string) : Z :=
  let v := digits_value (numeral_body s) 0 in
  if numeral_sign s then - v else v.

(** A valid timestamp: an integer string whose value is a signed
    64-bit integer, which is what a Unix time in seconds is. *)
Definition int64_string (s : string) : bool :=
  integer_string s && (minInt64 <=? integer_value s) && (integer_value s <=? maxInt64).

(** An amount field that is not an integer string. *)
Definition malformed (s : string) : Prop := integer_string s = false.

(** The decimal text the specification asks of the unit converter:
    w / 10^scale written in full, with exactly [scale] digits after the
    point. *)
Definition exact_decimal (w : Z) (scale : nat) : string :=
  let unit := 10 ^ Z.of_nat scale in
  let frac := utoa (w mod unit) in
  digits_string (utoa (w / unit)) ++ "." ++
  digits_string (repeat 0 (scale - List.length frac) ++ frac).

(** 10^18 as the [big.Float] the conversions divide by. *)
Definition weiPerEth_float : big.Float :=
  big.mkFloat 64 false big.finite 1000000000000000000 60.

(** A decimal text with [n] digits after the point. *)
Definition has_fraction_digits (s : string) (n : nat) : Prop :=
  exists ip fr,
    s = ip ++ "." ++ fr /\ all_digits ip = true /\ all_digits fr = true /\
    String.length fr = n.

(** ** Reading a trace: its events in the order they happened *)

Definition gets (tr : trace) : list (string * list (string * string)) :=
  flat_map (fun e => match e with EvGet b p => [(b, p)] | _ => [] end) (rev tr).

Definition sleeps (tr : trace) : list time.Duration :=
  flat_map (fun e => match e with EvSleep d => [d] | _ => [] end) (rev tr).

Definition exports (tr : trace) : list (list models.Transaction * string * string) :=
  flat_map (fun e => match e with EvExport txs d f => [(txs, d, f)] | _ => [] end) (rev tr).

(** ** The four categories as one family *)

Definition raw (t : app.task) : Type :=
  match t with
  | app.TNormal => NormalTransaction.t
  | app.TInternal => InternalTransaction.t
  | app.TERC20 => ERC20Transaction.t
  | app.TERC721 => ERC721Transaction.t
  end.

Definition conv_of (t : app.task) : raw t -> exec convert.converted :=
  match t with
  | app.TNormal => convert.ConvertNormalTxToModel
  | app.TInternal => convert.ConvertInternalTxToModel
  | app.TERC20 => convert.ConvertERC20TxToModel
  | app.TERC721 => convert.ConvertERC721TxToModel
  end.

Definition timestamp_of (t : app.task) : raw t -> string :=
  match t with
  | app.TNormal => NormalTransaction.TimeStamp
  | app.TInternal => InternalTransaction.TimeStamp
  | app.TERC20 => ERC20Transaction.TimeStamp
  | app.TERC721 => ERC721Transaction.TimeStamp
  end.

Definition hash_of (t : app.task) : raw t -> string :=
  match t with
  | app.TNormal => NormalTransaction.Hash
  | app.TInternal => InternalTransaction.Hash
  | app.TERC20 => ERC20Transaction.Hash
  | app.TERC721 => ERC721Transaction.Hash
  end.

Definition GetAll_of (E : Env) (fuel : nat) (t : app.task)
    : api.EtherscanClient -> string -> Z -> Z -> io (list (raw t) * option error) :=
  match t with
  | app.TNormal => api.GetAllNormalTransactions E fuel
  | app.TInternal => api.GetAllInternalTransactions E fuel
  | app.TERC20 => api.GetAllERC20Transfers E fuel
  | app.TERC721 => api.GetAllERC721Transfers E fuel
  end.

Definition action_of (t : app.task) : string :=
  match t with
  | app.TNormal => "txlist"
  | app.TInternal => "txlistinternal"
  | app.TERC20 => "tokentx"
  | app.TERC721 => "tokennfttx"
  end.

Definition Unmarshal_of (E : Env) (t : app.task) : string -> error + list (raw t) :=
  match t with
  | app.TNormal => Unmarshal_Normal E
  | app.TInternal => Unmarshal_Internal E
  | app.TERC20 => Unmarshal_ERC20 E
  | app.TERC721 => Unmarshal_ERC721 E
  end.

Definition all_tasks : list app.task :=
  [app.TNormal; app.TInternal; app.TERC20; app.TERC721].

(** ** The retrying transport *)

(** The replies after which [makeRequest] tries again. *)
Definition retryable (r : HttpReply) : bool :=
  match r with
  | ConnError _ => true
  | Response s _ => (s =? 429) || (s >=? 500)
  end.

(** What [makeRequest] returns on a reply it does not retry. *)
Definition settle (r : HttpReply) : string * option error :=
  match r with
  | ConnError err => ("", Some err)
  | Response s body =>
      if negb (s =? 200) then
        ("", Some (Errorf "API request failed with status code: %d" [s]))
      else
        match body with
        | inl err => ("", Some err)
        | inr b => (b, None)
        end
  end.

(** The delay before the i-th retry (counting from 0): the initial
    delay doubled i times in 64-bit arithmetic. *)
Fixpoint backoff (d : time.Duration) (i : nat) : time.Duration :=
  match i with
  | O => d
  | S i' => backoff (wrap64 (d * 2)) i'
  end.

(** ** Pagination *)

(** The remote serves [records] as the page requested by [request]:
    whenever that request arrives it answers 200 with a body that
    decodes to a successful envelope holding these records. *)
Definition serves {T} (E : Env) (unmarshal : string -> error + list T)
    (base : string) (request : list (string * string)) (records : list T) : Prop :=
  forall h, exists body msg rawResult,
    http_Get E h base request = Response 200 (inr body) /\
    Unmarshal_APIResponse E body = inr (mkAPIResponse "1" msg rawResult) /\
    unmarshal rawResult = inr records.

(** The progress message of [Get...Paginated]. *)
Definition progress {T} (what : string) (p : Z) (records : list T) : list event :=
  if 0 <? len records then
    [EvPrint ("Fetched %d " ++ what ++ " (page %d)\n") [AInt (len records); AInt p]]
  else [].

(** The page numbers p, p+1, ..., p+count-1. *)
Definition pages_from (p : Z) (count : nat) : list Z :=
  map (fun i => p + Z.of_nat i) (seq 0 count).

(** The request for page [p] of category [t]. *)
Definition request_of (t : app.task) (c : api.EtherscanClient) (address : string)
    (startBlock endBlock p : Z) : list (string * string) :=
  api.page_params (action_of t) c address startBlock endBlock p api.DefaultOffset.

(** ** Whole-range mode *)

Definition fetch_error (t : app.task) (f : app.fetched) : option error :=
  match t with
  | app.TNormal => snd (app.fetchedNormal f)
  | app.TInternal => snd (app.fetchedInternal f)
  | app.TERC20 => snd (app.fetchedERC20 f)
  | app.TERC721 => snd (app.fetchedERC721 f)
  end.

Definition report (t : app.task) (e : error) : error :=
  match t with
  | app.TNormal => Wrapf "error fetching normal transactions: %w" e
  | app.TInternal => Wrapf "error fetching internal transactions: %w" e
  | app.TERC20 => Wrapf "error fetching ERC-20 transfers: %w" e
  | app.TERC721 => Wrapf "error fetching ERC-721 transfers: %w" e
  end.

(** The errors on the shared channel, in the order they were recorded. *)
Definition recorded_errors (sched : list app.task) (f : app.fetched) : list error :=
  flat_map (fun t => match fetch_error t f with
                     | Some e => [report t e]
                     | None => []
                     end) sched.

Definition starting (t : app.task) : event :=
  match t with
  | app.TNormal => EvPrint "Starting to fetch normal ETH transactions...\n" []
  | app.TInternal => EvPrint "Starting to fetch internal transactions...\n" []
  | app.TERC20 => EvPrint "Starting to fetch ERC-20 token transfers...\n" []
  | app.TERC721 => EvPrint "Starting to fetch ERC-721 NFT transfers...\n" []
  end.

Definition task_eqb (a b : app.task) : bool :=
  match a, b with
  | app.TNormal, app.TNormal | app.TInternal, app.TInternal
  | app.TERC20, app.TERC20 | app.TERC721, app.TERC721 => true
  | _, _ => false
  end.

(** A schedule runs each of the four goroutines once. *)
Definition is_schedule (sched : list app.task) : bool :=
  match sched with
  | [a; b; c; d] =>
      negb (task_eqb a b) && negb (task_eqb a c) && negb (task_eqb a d) &&
      negb (task_eqb b c) && negb (task_eqb b d) && negb (task_eqb c d)
  | _ => false
  end.

(** What a goroutine puts on its result channel. *)
Definition payload {A} (r : list A * option error) : list A :=
  match snd r with
  | Some _ => []
  | None => fst r
  end.

(** The warning [main] logs for a record of category [t]. *)
Definition warning_of (t : app.task) : string :=
  match t with
  | app.TNormal => "Warning: Failed to process normal transaction %s: %v"
  | app.TInternal => "Warning: Failed to process internal transaction %s: %v"
  | app.TERC20 => "Warning: Failed to process ERC20 transaction %s: %v"
  | app.TERC721 => "Warning: Failed to process ERC721 transaction %s: %v"
  end.

(** ** Batch mode *)

(** A fetch that succeeds with [records], or fails, whatever happened
    before it. *)
Definition returns {T} (get : io (list T * option error)) (records : list T) : Prop :=
  forall tr, exists tr', get tr = (Val (records, None), tr').

Definition fails {T} (get : io (list T * option error)) : Prop :=
  forall tr, exists l e tr', get tr = (Val (l, Some e), tr').

(** A record converts when the conversion returns a transaction. *)
Definition converts {T} (conv : T -> exec convert.converted) (tx : T) : Prop :=
  exists m, conv tx = Ret (m, None).

(** The transaction a record converts to. *)
Definition model_of {T} (conv : T -> exec convert.converted) (tx : T) : models.Transaction :=
  match conv tx with
  | Ret (m, _) => m
  | Panic _ => models.zeroTransaction
  end.

(** What one category adds to a chunk. *)
Definition category_models (failed : bool) (t : app.task) (records : list (raw t))
    : list models.Transaction :=
  if failed then [] else map (model_of (conv_of t)) records.

(** The state of the remote for one category of one chunk: the fetch
    fails, or it succeeds with records that all convert. *)
Definition category_state (E : Env) (fuel : nat) (client : api.EtherscanClient)
    (address : string) (s e : Z) (failed : bool) (t : app.task)
    (records : list (raw t)) : Prop :=
  if failed then fails (GetAll_of E fuel t client address s e)
  else returns (GetAll_of E fuel t client address s e) records /\
       Forall (converts (conv_of t)) records.

(** The chunks of [startBlock, endBlock): chunk j starts at
    startBlock + j * batchSize and is clipped to endBlock. *)
Definition chunk_start (startBlock batchSize : Z) (j : nat) : Z :=
  startBlock + Z.of_nat j * batchSize.

Definition chunk_end (startBlock endBlock batchSize : Z) (j : nat) : Z :=
  Z.min (chunk_start startBlock batchSize j + batchSize) endBlock.

Definition n_chunks (startBlock endBlock batchSize : Z) : nat :=
  Z.to_nat ((endBlock - startBlock + batchSize - 1) / batchSize).

Definition chunk_file (address : string) (startBlock endBlock batchSize : Z) (j : nat) : string :=
  address ++ "_tx_history_blocks_" ++ strconv.Itoa (chunk_start startBlock batchSize j)
  ++ "_" ++ strconv.Itoa (chunk_end startBlock endBlock batchSize j) ++ ".csv".

(** The transactions of chunk j, categories in the order they are
    fetched, a failed category adding nothing. *)
Definition chunk_models (failed : nat -> app.task -> bool)
    (records : nat -> forall t : app.task, list (raw t)) (j : nat)
    : list models.Transaction :=
  flat_map (fun t => category_models (failed j t) t (records j t)) all_tasks.

(** Only category [cfail] of chunk [i] fails. *)
Definition only_failure (i : nat) (cfail : app.task) (j : nat) (t : app.task) : bool :=
  Nat.eqb j i && task_eqb t cfail.

(** ** Further vocabulary: more ways of reading a trace *)

Definition mkdirs (tr : trace) : list string :=
  flat_map (fun e => match e with EvMkdirAll d => [d] | _ => [] end) (rev tr).

Definition logs (tr : trace) : list (string * list arg) :=
  flat_map (fun e => match e with EvLog f a => [(f, a)] | _ => [] end) (rev tr).


(** [tr'] is [tr] followed by further events, all of which satisfy [P]. *)
Definition only_adds (P : event -> Prop) (tr tr' : trace) : Prop :=
  exists l, tr' = (l ++ tr)%list /\ Forall P l.

(** A computation that, from every trace, only adds events satisfying [P],
    however it ends. *)
Definition adds {A} (P : event -> Prop) (m : io A) : Prop :=
  forall tr, only_adds P tr (snd (m tr)).

(** Events that leave the file system alone. *)
Definition no_file_event (e : event) : Prop :=
  match e with
  | EvMkdirAll _ | EvExport _ _ _ => False
  | _ => True
  end.

(** What one call of [makeRequest] may do: requests for its URL, sleeps
    of the retry delay doubled some number of times, and prints. *)
Definition transport_event (c : api.EtherscanClient) (base : string)
    (params : list (string * string)) (e : event) : Prop :=
  match e with
  | EvGet b p => b = base /\ p = params
  | EvSleep d => exists i, d = backoff (api.RetryDelay c) i
  | EvPrint _ _ => True
  | _ => False
  end.

(** What a fetcher of category [t] may do for one address and block
    range: requests to the client's base URL for some page of that
    range, the pause between pages or a retry delay, and prints. *)
Definition fetch_event (t : app.task) (c : api.EtherscanClient) (address : string)
    (startBlock endBlock : Z) (e : event) : Prop :=
  match e with
  | EvGet b p =>
      b = api.BaseURL c /\
      exists page, p = request_of t c address startBlock endBlock page
  | EvSleep d => d = 200 * time.Millisecond \/ exists i, d = backoff (api.RetryDelay c) i
  | EvPrint _ _ => True
  | _ => False
  end.

(** The single-page fetchers as families over the category. *)
Definition GetPaginated_of (E : Env) (fuel : nat) (t : app.task)
    : api.EtherscanClient -> string -> Z -> Z -> Z -> Z -> io (list (raw t) * option error) :=
  match t with
  | app.TNormal => api.GetNormalTransactionsPaginated E fuel
  | app.TInternal => api.GetInternalTransactionsPaginated E fuel
  | app.TERC20 => api.GetERC20TransfersPaginated E fuel
  | app.TERC721 => api.GetERC721TransfersPaginated E fuel
  end.

Definition Get_of (E : Env) (fuel : nat) (t : app.task)
    : api.EtherscanClient -> string -> Z -> Z -> io (list (raw t) * option error) :=
  match t with
  | app.TNormal => api.GetNormalTransactions E fuel
  | app.TInternal => api.GetInternalTransactions E fuel
  | app.TERC20 => api.GetERC20Transfers E fuel
  | app.TERC721 => api.GetERC721Transfers E fuel
  end.

(** The remote answers [request] with HTTP status [s], whatever happened
    before. *)
Definition answers_status (E : Env) (base : string) (request : list (string * string))
    (s : Z) : Prop :=
  forall h, exists body, http_Get E h base request = Response s body.

(** The remote answers [request] with status 200 and an envelope whose
    status field is [status] and whose message is [msg]. *)
Definition answers_envelope (E : Env) (base : string) (request : list (string * string))
    (status msg : string) : Prop :=
  forall h, exists body rawResult,
    http_Get E h base request = Response 200 (inr body) /\
    Unmarshal_APIResponse E body = inr (mkAPIResponse status msg rawResult).

(** ** Whole-range mode: what reaches the output *)

Definition fetched_records (t : app.task) (f : app.fetched) : list (raw t) :=
  match t with
  | app.TNormal => fst (app.fetchedNormal f)
  | app.TInternal => fst (app.fetchedInternal f)
  | app.TERC20 => fst (app.fetchedERC20 f)
  | app.TERC721 => fst (app.fetchedERC721 f)
  end.

(** The transactions of the records that convert, in the order of the
    records. *)
Definition survivors {T} (conv : T -> exec convert.converted) (txs : list T)
    : list models.Transaction :=
  flat_map (fun tx => match conv tx with
                      | Ret (m, None) => [m]
                      | _ => []
                      end) txs.

(** The warnings for the records whose conversion returns an error, in
    the order of the records. *)
Definition warnings {T} (conv : T -> exec convert.converted) (hash : T -> string)
    (warning : string) (txs : list T) : list (string * list arg) :=
  flat_map (fun tx => match conv tx with
                      | Ret (_, Some e) => [(warning, [AStr (hash tx); AErr e])]
                      | _ => []
                      end) txs.

(** A record whose conversion panics. *)
Definition panics {T} (conv : T -> exec convert.converted) (tx : T) : Prop :=
  exists msg, conv tx = Panic msg.

(** What whole-range mode exports for the fetched records [f]. *)
Definition whole_range_models (f : app.fetched) : list models.Transaction :=
  flat_map (fun t => survivors (conv_of t) (fetched_records t f)) all_tasks.

Definition whole_range_warnings (f : app.fetched) : list (string * list arg) :=
  flat_map (fun t => warnings (conv_of t) (hash_of t) (warning_of t) (fetched_records t f))
    all_tasks.

(** The log events of a list of messages, in the order of the list. *)
Definition log_events (ws : list (string * list arg)) : list event :=
  map (fun w => EvLog (fst w) (snd w)) ws.

(** What [main] prints before it starts fetching. *)
Definition banner (fl : app.Flags) : list event :=
  [EvPrint "Block range: %d to %d\n" [AInt (app.startBlock fl); AInt (app.endBlock fl)];
   EvPrint "Fetching transactions for address: %s\n" [AStr (app.address fl)]].

(** ** Reading CSV back *)

Definition starts_with_LF (s : string) : bool :=
  match s with
  | String c _ => Ascii.eqb c csv.LF
  | EmptyString => false
  end.

(** A field as the reader returns it: a carriage return that stands
    directly before a line feed is gone, every other byte is kept. *)
Fixpoint drop_CR_before_LF (s : string) : string :=
  match s with
  | EmptyString => EmptyString
  | String c rest =>
      if Ascii.eqb c csv.CR && starts_with_LF rest then drop_CR_before_LF rest
      else String c (drop_CR_before_LF rest)
  end.

(** The lines of a text cut after each line feed and left as they
    are; [line] holds the bytes of the line being gathered. *)
Fixpoint plain_lines (input line : string) : list string :=
  match input with
  | EmptyString => if String.eqb line EmptyString then [] else [line]
  | String c rest =>
      if Ascii.eqb c csv.LF then
        (line ++ String csv.LF EmptyString)%string :: plain_lines rest EmptyString
      else plain_lines rest (line ++ String c EmptyString)%string
  end.

(** How the reader parses a line, given what the lines before left
    pending. *)
Definition parse_from (pending : option (list string * string)) (line : string)
    : csv.lineResult :=
  match pending with
  | None => csv.parseLine line csv.FieldStart EmptyString []
  | Some (fields, field) => csv.parseLine line csv.Quoted field fields
  end.

(** After the bytes [line] of the current line the reader stands at
    [at_] with [field] and [fields]. *)
Definition reaches (pending : option (list string * string)) (line : string)
    (at_ : csv.place) (field : string) (fields : list string) : Prop :=
  forall more, parse_from pending (line ++ more) = csv.parseLine more at_ field fields.

(** The line being gathered is not one the reader would skip. *)
Definition in_record (pending : option (list string * string)) (line : string) : Prop :=
  pending <> None \/ line <> EmptyString.

(** The text of a list of records: their lines one after the other. *)
Fixpoint csv_text (records : list (list string)) : string :=
  match records with
  | [] => EmptyString
  | r :: rest => csv.Write r ++ csv_text rest
  end.

(** The rows of an export: the header and one record per transaction. *)
Definition csv_rows (H : utils.Host) (transactions : list models.Transaction)
    : list (list string) :=
  models.CSVHeaders :: map (models.CSVRecord (utils.Format_RFC3339 H)) transactions.

(** A host on which [handed] records can be handed to the writer of a
    fresh file without an error. *)
Definition writes_succeed (H : utils.Host) (rows : list (list string)) : Prop :=
  forall done rest row,
    rows = (done ++ row :: rest)%list ->
    utils.Writer_Write H (csv_text done) (csv.Write row) = None.

(** ** Decimal digits *)

Definition digit_Z (d : DecimalFacts.digits) : Z :=
  match d with
  | DecimalFacts.d0 => 0 | DecimalFacts.d1 => 1 | DecimalFacts.d2 => 2
  | DecimalFacts.d3 => 3 | DecimalFacts.d4 => 4 | DecimalFacts.d5 => 5
  | DecimalFacts.d6 => 6 | DecimalFacts.d7 => 7 | DecimalFacts.d8 => 8
  | DecimalFacts.d9 => 9
  end.

(** The number a list of digits denotes, most significant digit first. *)
Definition lval (ds : list Z) : Z := fold_left (fun acc d => acc * 10 + d) ds 0.

(** A list of decimal digits. *)
Definition digit_list (ds : list Z) : Prop := Forall (fun d => 0 <= d <= 9) ds.

(** The [c] low digits of [b], most significant first, zeros included. *)
Fixpoint fixed_digits (c : nat) (b : Z) : list Z :=
  match c with
  | O => []
  | S c' => fixed_digits c' (b / 10) ++ [b mod 10]
  end.

(** The decimal for the number n / 10^k, n > 0, as [decimal.init] and
    [decimal.round] leave it: the digits of n without trailing zeros,
    and the position of the point. *)
Definition canon (n : Z) (k : Z) : big.decimal :=
  big.mkDecimal (big.trim_digits (utoa n)) (Z.of_nat (List.length (utoa n)) - k).

(** The one-digit numeral of a digit. *)
Definition digit_uint (b : Z) : Decimal.uint :=
  match b with
  | 0 => Decimal.D0 Decimal.Nil | 1 => Decimal.D1 Decimal.Nil | 2 => Decimal.D2 Decimal.Nil
  | 3 => Decimal.D3 Decimal.Nil | 4 => Decimal.D4 Decimal.Nil | 5 => Decimal.D5 Decimal.Nil
  | 6 => Decimal.D6 Decimal.Nil | 7 => Decimal.D7 Decimal.Nil | 8 => Decimal.D8 Decimal.Nil
  | _ => Decimal.D9 Decimal.Nil
  end.

(** The digit of [ds] at position [i], zero outside the list. *)
Definition dig (ds : list Z) (i : Z) : Z :=
  if (0 <=? i) && (i <? Z.of_nat (List.length ds)) then nth (Z.to_nat i) ds 0 else 0.

(** The digits at positions i, i+1, ..., i+count-1. *)
Fixpoint window (ds : list Z) (i : Z) (count : nat) : list Z :=
  match count with
  | O => []
  | S count' => dig ds i :: window ds (i + 1) count'
  end.

Definition what_of (t : app.task) : string :=
  match t with
  | app.TNormal => "normal transactions"
  | app.TInternal => "internal transactions"
  | app.TERC20 => "ERC20 token transfers"
  | app.TERC721 => "ERC721 NFT transfers"
  end.

(** The transactions of the first [n] chunks. *)
Definition batch_models (failed : nat -> app.task -> bool)
    (records : nat -> forall t : app.task, list (raw t)) (n : nat)
    : list models.Transaction :=
  flat_map (chunk_models failed records) (seq 0 n).

(** ** Sample records and remotes, used to instantiate the theorems *)

Module sample.

Definition normal (value gasPrice gasUsed : string) : NormalTransaction.t :=
  NormalTransaction.mk "12345" "1630000000" "0x123abc" "0xsender" "0xreceiver"
    value gasPrice gasUsed "0" "" "".

Definition internal (value : string) : InternalTransaction.t :=
  InternalTransaction.mk "12345" "1630000000" "0x456" "0xcontract" "0xuser"
    value "" "call" "0".

Definition erc20 (value tokenDecimal gasPrice gasUsed : string) : ERC20Transaction.t :=
  ERC20Transaction.mk "12345" "1630000000" "0x789" "0xabc" "0xdef" value
    "0xtoken" "Test Token" "TEST" tokenDecimal gasPrice gasUsed.

Definition erc721 (gasPrice gasUsed : string) : ERC721Transaction.t :=
  ERC721Transaction.mk "12345" "1630000000" "0x789ghi" "0xsender" "0xreceiver"
    "12345" "0xnft" "NFT" "NFT" gasPrice gasUsed.

Definition bad_timestamp : NormalTransaction.t :=
  NormalTransaction.mk "12345" "invalid" "0xbad" "0xsender" "0xreceiver"
    "1" "1" "1" "0" "" "".

Definition one (t : app.task) : raw t :=
  match t with
  | app.TNormal => normal "1000000000000000000" "20000000000" "21000"
  | app.TInternal => internal "500000000000000000"
  | app.TERC20 => erc20 "1000000000000000000" "18" "20000000000" "65000"
  | app.TERC721 => erc721 "20000000000" "120000"
  end.

Fixpoint query (key : string) (params : list (string * string)) : string :=
  match params with
  | [] => ""
  | (k, v) :: rest => if String.eqb k key then v else query key rest
  end.

(** The decoder of the sample remotes: the envelope is always
    successful and carries the body as its result; the result "full"
    decodes to a thousand records, anything else to one. *)
Definition decode (t : app.task) (result : string) : error + list (raw t) :=
  inr (if String.eqb result "full" then repeat (one t) 1000 else [one t]).

Definition env (get : list (string * string) -> HttpReply) : Env :=
  {| http_Get := fun _ _ params => get params;
     Unmarshal_APIResponse := fun body => inr (mkAPIResponse "1" "OK" body);
     Unmarshal_Normal := decode app.TNormal;
     Unmarshal_Internal := decode app.TInternal;
     Unmarshal_ERC20 := decode app.TERC20;
     Unmarshal_ERC721 := decode app.TERC721;
     os_MkdirAll := fun _ _ => None;
     utils_ExportTransactionsToCSV := fun _ _ _ _ => None |}.

(** A remote holding 1001 records of every category: page 1 is full,
    every other page holds one record. *)
Definition paged : Env :=
  env (fun params =>
         Response 200 (inr (if String.eqb (query "page" params) "1" then "full" else "last"))).

(** A remote that is overloaded: every request is answered 503. *)
Definition overloaded : Env :=
  env (fun _ => Response 503 (inr "")).

(** A remote that rejects token transfers of the range starting at
    block 0 and serves one record for everything else. *)
Definition partial : Env :=
  env (fun params =>
         if String.eqb (query "action" params) "tokentx"
            && String.eqb (query "startblock" params) "0"
         then Response 403 (inr "")
         else Response 200 (inr "last")).

Definition client : api.EtherscanClient := api.NewEtherscanClient "key".

Definition flags : app.Flags :=
  app.mkFlags "0xwallet" "key" "./output" 0 999999999 0.

(** Four fetch results, the ERC-20 one a failure. *)
Definition fetched_one_failure : app.fetched :=
  app.mkFetched ([one app.TNormal], None) ([one app.TInternal], None)
    ([], Some (Errorf "API request failed with status code: %d" [403]))
    ([one app.TERC721], None).

End sample.

(** ** Further scenarios *)

Module scenario.

(** A remote that answers 503 to the first [n] requests it ever
    receives and serves one record afterwards. *)
Definition flaky (n : nat) : Env :=
  {| http_Get := fun h _ _ =>
       if (List.length (gets h) <? n)%nat then Response 503 (inr "")
       else Response 200 (inr "last");
     Unmarshal_APIResponse := fun body => inr (mkAPIResponse "1" "OK" body);
     Unmarshal_Normal := sample.decode app.TNormal;
     Unmarshal_Internal := sample.decode app.TInternal;
     Unmarshal_ERC20 := sample.decode app.TERC20;
     Unmarshal_ERC721 := sample.decode app.TERC721;
     os_MkdirAll := fun _ _ => None;
     utils_ExportTransactionsToCSV := fun _ _ _ _ => None |}.

(** A remote that has nothing for any query and says so the way the
    service does: status "0" in a 200 reply. *)
Definition nothing_found : Env :=
  {| http_Get := fun _ _ _ => Response 200 (inr "none");
     Unmarshal_APIResponse := fun body => inr (mkAPIResponse "0" "No transactions found" "[]");
     Unmarshal_Normal := sample.decode app.TNormal;
     Unmarshal_Internal := sample.decode app.TInternal;
     Unmarshal_ERC20 := sample.decode app.TERC20;
     Unmarshal_ERC721 := sample.decode app.TERC721;
     os_MkdirAll := fun _ _ => None;
     utils_ExportTransactionsToCSV := fun _ _ _ _ => None |}.

(** A remote whose first page of every query is full and whose second
    page is refused with status 403. *)
Definition second_page_refused : Env :=
  sample.env (fun params =>
    if String.eqb (sample.query "page" params) "1" then Response 200 (inr "full")
    else Response 403 (inr "")).

(** A remote on which every page of every query is full. *)
Definition bottomless : Env :=
  sample.env (fun _ => Response 200 (inr "full")).

(** Four successful fetch results; the second normal record has a
    timestamp that does not parse. *)
Definition fetched_ok : app.fetched :=
  app.mkFetched ([sample.one app.TNormal; sample.bad_timestamp], None)
    ([sample.one app.TInternal], None)
    ([sample.one app.TERC20], None)
    ([sample.one app.TERC721], None).

(** Four successful fetch results; the internal record has an empty
    value. *)
Definition fetched_malformed : app.fetched :=
  app.mkFetched ([sample.one app.TNormal], None)
    ([sample.internal ""], None)
    ([sample.one app.TERC20], None)
    ([sample.one app.TERC721], None).

(** An environment in which the output directory cannot be made. *)
Definition read_only : Env :=
  {| http_Get := fun _ _ _ => Response 200 (inr "last");
     Unmarshal_APIResponse := fun body => inr (mkAPIResponse "1" "OK" body);
     Unmarshal_Normal := sample.decode app.TNormal;
     Unmarshal_Internal := sample.decode app.TInternal;
     Unmarshal_ERC20 := sample.decode app.TERC20;
     Unmarshal_ERC721 := sample.decode app.TERC721;
     os_MkdirAll := fun _ _ => Some (External "mkdir ./output: read-only file system");
     utils_ExportTransactionsToCSV := fun _ _ _ _ => None |}.


End scenario.

(** Hosts for the CSV export. *)
Module host.

(** A host on which everything succeeds; times are shown as their
    number of seconds. *)
Definition sound : utils.Host :=
  {| utils.Format_RFC3339 := fun t => match t with
                                      | time.Zero => "0001-01-01T00:00:00Z"
                                      | time.Instant sec _ => strconv.Itoa sec
                                      end;
     utils.filepath_Dir := fun _ => "./output";
     utils.MkdirAll := fun _ _ => None;
     utils.Create := fun _ => None;
     utils.Writer_Write := fun _ _ => None |}.

(** A host on which the directory cannot be made. *)
Definition read_only : utils.Host :=
  {| utils.Format_RFC3339 := utils.Format_RFC3339 sound;
     utils.filepath_Dir := fun _ => "./output";
     utils.MkdirAll := fun _ _ => Some (External "read-only file system");
     utils.Create := fun _ => None;
     utils.Writer_Write := fun _ _ => None |}.

(** A host whose writer fails once more than [n] bytes have been
    handed to it. *)
Definition full_after (n : nat) : utils.Host :=
  {| utils.Format_RFC3339 := utils.Format_RFC3339 sound;
     utils.filepath_Dir := fun _ => "./output";
     utils.MkdirAll := fun _ _ => None;
     utils.Create := fun _ => None;
     utils.Writer_Write := fun done _ =>
       if (n <? String.length done)%nat then Some (External "no space left on device")
       else None |}.

(** A transaction whose fields hold a comma, a quote and a line
    feed. *)
Definition awkward : models.Transaction :=
  models.mkTransaction "0xabc" (time.Instant 1630000000 0) "a,b"
    (String csv.quote "quoted") "ETH_TRANSFER" "" (String "x" (String csv.LF "y")) ""
    "1.000000000000000000" "0".

(** A transaction whose fields hold a comma, a quote, a line feed, a
    carriage return before a line feed and a lone carriage return. *)
Definition multiline : models.Transaction :=
  models.mkTransaction "0xabc" (time.Instant 1630000000 0) "a,b"
    (String csv.quote "quoted") "ETH_TRANSFER"
    (String "p" (String csv.CR "q"))
    (String "x" (String csv.CR (String csv.LF "y")))
    (String "u" (String csv.LF "v"))
    "1.000000000000000000" "0".

End host.

(** * Lemmas

    ** Parsing integers *)

Lemma is_digit_range c : is_digit c = true -> 0 <= byte_of c - 48 <= 9.
Proof. unfold is_digit. intros H. apply andb_prop in H. destruct H as [H1 H2]. lia. Qed.

Lemma digits_value_ge s : forall n, all_digits s = true -> 0 <= n -> n <= digits_value s n.
Proof.
  induction s as [|c s IH]; intros n Hd Hn; simpl in *; [lia|].
  apply andb_prop in Hd. destruct Hd as [Hc Hs].
  pose proof (is_digit_range c Hc).
  specialize (IH (n * 10 + (byte_of c - 48)) Hs). lia.
Qed.

Lemma uwrap64_small z : 0 <= z < 18446744073709551616 -> uwrap64 z = z.
Proof. intros H. unfold uwrap64. change (2 ^ 64) with 18446744073709551616. apply Z.mod_small. lia. Qed.

Lemma wrap64_small z : - 9223372036854775808 <= z < 9223372036854775808 -> wrap64 z = z.
Proof.
  intros H. unfold wrap64.
  change (2 ^ 64) with 18446744073709551616. change (2 ^ 63) with 9223372036854775808.
  rewrite Z.mod_small; lia.
Qed.

Lemma ParseUint_loop_step c rest n :
  strconv.ParseUint_loop (String c rest) n =
  if is_digit c then
    if n >=? 1844674407370955162 then (18446744073709551615, Some strconv.ErrRange)
    else
      let n1 := uwrap64 (uwrap64 (n * 10) + (byte_of c - 48)) in
      if (n1 <? uwrap64 (n * 10)) || (n1 >? 18446744073709551615)
      then (18446744073709551615, Some strconv.ErrRange)
      else strconv.ParseUint_loop rest n1
  else (0, Some strconv.ErrSyntax).
Proof. reflexivity. Qed.

(** The digit loop returns the value when it fits 64 bits, and reports
    a range error when it does not. *)
Lemma ParseUint_loop_digits s : forall n,
  all_digits s = true -> 0 <= n <= 18446744073709551615 ->
  strconv.ParseUint_loop s n =
    if digits_value s n <=? 18446744073709551615 then (digits_value s n, None)
    else (18446744073709551615, Some strconv.ErrRange).
Proof.
  induction s as [|c s IH]; intros n Hd Hn.
  - simpl. destruct (Z.leb_spec n 18446744073709551615); [reflexivity|lia].
  - rewrite ParseUint_loop_step. cbn [all_digits digits_value] in *.
    apply andb_prop in Hd. destruct Hd as [Hc Hs]. rewrite Hc.
    pose proof (is_digit_range c Hc) as Hr.
    pose proof (digits_value_ge s (n * 10 + (byte_of c - 48)) Hs) as Hge.
    destruct (Z.geb_spec n 1844674407370955162) as [Hcut|Hcut].
    + destruct (Z.leb_spec (digits_value s (n * 10 + (byte_of c - 48))) 18446744073709551615);
        [lia|reflexivity].
    + cbv zeta. rewrite (uwrap64_small (n * 10)) by lia.
      destruct (Z_lt_dec (n * 10 + (byte_of c - 48)) 18446744073709551616) as [Hfit|Hover].
      * rewrite uwrap64_small by lia.
        replace (n * 10 + (byte_of c - 48) <? n * 10) with false by (symmetry; apply Z.ltb_ge; lia).
        replace (n * 10 + (byte_of c - 48) >? 18446744073709551615) with false
          by (symmetry; rewrite Z.gtb_ltb; apply Z.ltb_ge; lia).
        simpl. apply IH; [assumption|lia].
      * assert (Hw : uwrap64 (n * 10 + (byte_of c - 48)) = n * 10 + (byte_of c - 48) - 18446744073709551616).
        { unfold uwrap64. change (2 ^ 64) with 18446744073709551616.
          symmetry. apply Z.mod_unique with (q := 1); lia. }
        rewrite Hw.
        replace (n * 10 + (byte_of c - 48) - 18446744073709551616 <? n * 10) with true
          by (symmetry; apply Z.ltb_lt; lia).
        simpl.
        destruct (Z.leb_spec (digits_value s (n * 10 + (byte_of c - 48))) 18446744073709551615);
          [lia|reflexivity].
Qed.

Lemma ParseUint_loop_nondigit s : forall n,
  all_digits s = false -> snd (strconv.ParseUint_loop s n) <> None.
Proof.
  induction s as [|c s IH]; intros n Hd; [discriminate|].
  rewrite ParseUint_loop_step. cbn [all_digits] in Hd.
  destruct (is_digit c); [|simpl; discriminate].
  simpl in Hd.
  destruct (n >=? 1844674407370955162); [simpl; discriminate|].
  cbv zeta.
  destruct (_ || _); [simpl; discriminate|]. apply IH. assumption.
Qed.

Lemma ParseUint_loop_bad s : forall n,
  all_digits s = false ->
  strconv.ParseUint_loop s n = (0, Some strconv.ErrSyntax) \/
  strconv.ParseUint_loop s n = (18446744073709551615, Some strconv.ErrRange).
Proof.
  induction s as [|c s IH]; intros n Hd; [discriminate|].
  rewrite ParseUint_loop_step. cbn [all_digits] in Hd.
  destruct (is_digit c); [|left; reflexivity].
  simpl in Hd.
  destruct (n >=? 1844674407370955162); [right; reflexivity|].
  cbv zeta.
  destruct (_ || _); [right; reflexivity|]. apply IH. assumption.
Qed.

Lemma ParseInt_as_unfold fn c rest :
  strconv.ParseInt_as fn (String c rest) =
  let s0 := String c rest in
  let neg := Ascii.eqb c "-" in
  let (un, err) := strconv.ParseUint (numeral_body s0) in
  match err with
  | Some strconv.ErrSyntax => (0, Some (strconv.syntaxError fn s0))
  | _ =>
      if negb neg && (un >=? 9223372036854775808)
      then (9223372036854775807, Some (strconv.rangeError fn s0))
      else if neg && (un >? 9223372036854775808)
      then (- 9223372036854775808, Some (strconv.rangeError fn s0))
      else (if neg then wrap64 (- wrap64 un) else wrap64 un, None)
  end.
Proof.
  unfold strconv.ParseInt_as, numeral_body.
  rewrite (orb_comm (Ascii.eqb c "+")). reflexivity.
Qed.

Lemma ParseUint_nonempty s :
  String.eqb s "" = false -> strconv.ParseUint s = strconv.ParseUint_loop s 0.
Proof. destruct s; [discriminate|reflexivity]. Qed.

(** [ParseInt] accepts exactly the integer strings whose value fits a
    signed 64-bit integer, and returns that value. *)
Lemma ParseInt_as_valid fn s :
  int64_string s = true -> strconv.ParseInt_as fn s = (integer_value s, None).
Proof.
  unfold int64_string, integer_string, integer_value, minInt64, maxInt64.
  change (2 ^ 63) with 9223372036854775808.
  intros H. repeat (apply andb_prop in H; destruct H as [H ?]).
  apply negb_true_iff in H.
  destruct s as [|c rest]; [discriminate|].
  rewrite ParseInt_as_unfold. cbv zeta.
  rewrite ParseUint_nonempty by assumption.
  rewrite ParseUint_loop_digits by (assumption || lia).
  set (body := numeral_body (String c rest)) in *.
  pose proof (digits_value_ge body 0 ltac:(assumption) ltac:(lia)) as Hge.
  cbn [numeral_sign] in *.
  destruct (Ascii.eqb c "-"); cbn [negb andb].
  - destruct (Z.leb_spec (digits_value body 0) 18446744073709551615); [|lia].
    replace (digits_value body 0 >? 9223372036854775808) with false
      by (symmetry; rewrite Z.gtb_ltb; apply Z.ltb_ge; lia).
    f_equal.
    destruct (Z.eq_dec (digits_value body 0) 9223372036854775808) as [Heq|Hne].
    + rewrite Heq. reflexivity.
    + rewrite (wrap64_small (digits_value body 0)) by lia. apply wrap64_small. lia.
  - destruct (Z.leb_spec (digits_value body 0) 18446744073709551615); [|lia].
    replace (digits_value body 0 >=? 9223372036854775808) with false
      by (symmetry; rewrite Z.geb_leb; apply Z.leb_gt; lia).
    f_equal. apply wrap64_small. lia.
Qed.

Lemma ParseInt_as_invalid fn s :
  int64_string s = false -> snd (strconv.ParseInt_as fn s) <> None.
Proof.
  unfold int64_string, integer_string, integer_value, minInt64, maxInt64.
  change (2 ^ 63) with 9223372036854775808.
  intros H.
  destruct s as [|c rest]; [simpl; discriminate|].
  rewrite ParseInt_as_unfold. cbv zeta.
  set (body := numeral_body (String c rest)) in *.
  cbn [numeral_sign] in H.
  destruct (String.eqb body "") eqn:Hempty.
  { apply String.eqb_eq in Hempty. rewrite Hempty. simpl. discriminate. }
  rewrite ParseUint_nonempty by assumption.
  destruct (all_digits body) eqn:Hd.
  - rewrite ParseUint_loop_digits by (assumption || lia).
    pose proof (digits_value_ge body 0 Hd ltac:(lia)) as Hge.
    cbn [negb andb] in H.
    destruct (Z.leb_spec (digits_value body 0) 18446744073709551615).
    + destruct (Ascii.eqb c "-"); cbn [negb andb].
      * replace (digits_value body 0 >? 9223372036854775808) with true; [simpl; discriminate|].
        symmetry. rewrite Z.gtb_ltb. apply Z.ltb_lt.
        apply andb_false_iff in H. destruct H as [H|H];
          [apply Z.leb_gt in H|apply Z.leb_gt in H]; lia.
      * replace (digits_value body 0 >=? 9223372036854775808) with true; [simpl; discriminate|].
        symmetry. rewrite Z.geb_leb. apply Z.leb_le.
        apply andb_false_iff in H. destruct H as [H|H];
          [apply Z.leb_gt in H|apply Z.leb_gt in H]; lia.
    + destruct (Ascii.eqb c "-"); simpl; discriminate.
  - destruct (ParseUint_loop_bad body 0 Hd) as [Hs|Hr].
    + rewrite Hs. simpl. discriminate.
    + rewrite Hr. destruct (Ascii.eqb c "-"); simpl; discriminate.
Qed.

Lemma ParseInt_ok_iff s :
  snd (strconv.ParseInt s) = None <-> int64_string s = true.
Proof.
  unfold strconv.ParseInt. split.
  - intros H. destruct (int64_string s) eqn:Hv; [reflexivity|].
    exfalso. exact (ParseInt_as_invalid _ s Hv H).
  - intros H. rewrite (ParseInt_as_valid _ s H). reflexivity.
Qed.

(** ** [big.Int.SetString] accepts exactly the integer strings *)

Lemma scan_digits_all s : forall acc count,
  all_digits s = true ->
  big.scan_digits s acc count = (digits_value s acc, count + Z.of_nat (String.length s), EmptyString).
Proof.
  induction s as [|c s IH]; intros acc count Hd.
  - simpl. f_equal. f_equal. lia.
  - cbn [all_digits] in Hd. apply andb_prop in Hd. destruct Hd as [Hc Hs].
    cbn [big.scan_digits digits_value]. rewrite Hc. rewrite IH by assumption.
    f_equal. f_equal. cbn [String.length]. lia.
Qed.

Lemma scan_digits_bad s : forall acc count,
  all_digits s = false ->
  exists a n c rest, big.scan_digits s acc count = (a, n, String c rest).
Proof.
  induction s as [|c s IH]; intros acc count Hd; [discriminate|].
  cbn [all_digits] in Hd. cbn [big.scan_digits].
  destruct (is_digit c).
  - simpl in Hd. apply IH. assumption.
  - eauto.
Qed.

Lemma SetString_spec s :
  big.SetString s =
  if integer_string s then (Some (integer_value s), true) else (None, false).
Proof.
  unfold integer_string, integer_value.
  destruct s as [|c rest]; [reflexivity|].
  unfold big.SetString. cbn [numeral_sign].
  replace (if Ascii.eqb c "-" || Ascii.eqb c "+" then rest else String c rest)
    with (numeral_body (String c rest))
    by (unfold numeral_body; rewrite (orb_comm (Ascii.eqb c "+")); reflexivity).
  set (body := numeral_body (String c rest)).
  destruct (all_digits body) eqn:Hd.
  - rewrite scan_digits_all by assumption.
    destruct body as [|b body']; [reflexivity|].
    cbn [String.eqb negb andb String.length].
    replace (0 + Z.of_nat (S (String.length body')) =? 0) with false
      by (symmetry; apply Z.eqb_neq; lia).
    reflexivity.
  - destruct (scan_digits_bad body 0 0 Hd) as (a & n & c' & rest' & Hscan).
    rewrite Hscan. rewrite andb_false_r.
    destruct (n =? 0); reflexivity.
Qed.

Lemma SetString_malformed s : malformed s -> big.SetString s = (None, false).
Proof. unfold malformed. intros H. rewrite SetString_spec, H. reflexivity. Qed.

Lemma SetString_wellformed s :
  integer_string s = true -> big.SetString s = (Some (integer_value s), true).
Proof. intros H. rewrite SetString_spec, H. reflexivity. Qed.

(** ** The unit converter *)

Lemma weiPerEth_value :
  convert.weiPerEth = Ret weiPerEth_float.
Proof. vm_compute. reflexivity. Qed.

Lemma quoText_nil y digits : convert.quoText None y digits = Panic nil_deref.
Proof. reflexivity. Qed.

Lemma SetInt_some v : exists f, big.SetInt (Some v) = Ret f.
Proof.
  unfold big.SetInt. destruct (v =? 0); [eauto|].
  destruct (big.round _ _ _ _). eauto.
Qed.

Lemma SetInt_finite v : v <> 0 -> exists f, big.SetInt (Some v) = Ret f /\ big.fform f = big.finite.
Proof.
  intros Hv. unfold big.SetInt. apply Z.eqb_neq in Hv. rewrite Hv.
  destruct (big.round _ _ _ _). eauto.
Qed.

Lemma Quo_finite x y : big.fform y = big.finite -> exists q, big.Quo x y = Ret q.
Proof.
  intros Hy. unfold big.Quo. rewrite Hy.
  destruct (big.fform x); [eauto| |eauto].
  destruct (big.uquo _ _ _). eauto.
Qed.

(** With a non-nil dividend and a finite divisor the conversion
    returns the text of the rounded quotient. *)
Lemma quoText_some v y digits :
  big.fform y = big.finite -> exists s, convert.quoText (Some v) y digits = Ret s.
Proof.
  intros Hy. unfold convert.quoText.
  destruct (SetInt_some v) as [xf Hxf]. rewrite Hxf. cbn [exec_bind].
  destruct (Quo_finite xf y Hy) as [q Hq]. rewrite Hq. cbn [exec_bind]. eauto.
Qed.

Lemma quoText_wei v digits :
  exists s,
    convert.quoText (Some v) weiPerEth_float digits = Ret s.
Proof. apply quoText_some. reflexivity. Qed.

(** ** The four conversion functions: when they fail, panic or return *)

Ltac parse_timestamp_valid H :=
  unfold strconv.ParseInt; rewrite (ParseInt_as_valid _ _ H).

Ltac parse_timestamp_invalid H :=
  let v := fresh "v" in
  let e := fresh "e" in
  let Hp := fresh "Hp" in
  pose proof (ParseInt_as_invalid "ParseInt" _ H) as Hp;
  unfold strconv.ParseInt;
  destruct (strconv.ParseInt_as "ParseInt" _) as [v [e|]]; [|exfalso; apply Hp; reflexivity].

Ltac step_quoText :=
  match goal with
  | |- context [convert.quoText (Some ?v) ?y ?d] =>
      let s := fresh "s" in
      let Hs := fresh "Hs" in
      destruct (quoText_some v y d ltac:(assumption || reflexivity)) as [s Hs];
      rewrite Hs; cbn [exec_bind]
  end.

Section Normal.
Variable tx : NormalTransaction.t.
Local Abbreviation ts := (NormalTransaction.TimeStamp tx).
Local Abbreviation value := (NormalTransaction.Value tx).
Local Abbreviation gasPrice := (NormalTransaction.GasPrice tx).
Local Abbreviation gasUsed := (NormalTransaction.GasUsed tx).

Lemma ConvertNormal_invalid_timestamp :
  int64_string ts = false ->
  exists e, convert.ConvertNormalTxToModel tx = Ret (models.zeroTransaction, Some (NumError e)).
Proof.
  intros H. unfold convert.ConvertNormalTxToModel. parse_timestamp_invalid H. eauto.
Qed.

Lemma ConvertNormal_malformed :
  int64_string ts = true ->
  malformed value \/ malformed gasPrice \/ malformed gasUsed ->
  convert.ConvertNormalTxToModel tx = Panic nil_deref.
Proof.
  intros H Hbad. unfold convert.ConvertNormalTxToModel. parse_timestamp_valid H.
  rewrite !SetString_spec.
  unfold malformed in Hbad.
  destruct (integer_string gasPrice), (integer_string gasUsed);
    try reflexivity.
  destruct (integer_string value); [intuition discriminate|].
  cbn [big.Mul exec_bind]. rewrite weiPerEth_value. cbn [exec_bind].
  step_quoText. reflexivity.
Qed.

Lemma ConvertNormal_wellformed :
  int64_string ts = true ->
  integer_string value = true -> integer_string gasPrice = true ->
  integer_string gasUsed = true ->
  exists m, convert.ConvertNormalTxToModel tx = Ret (m, None) /\
            models.Hash m = NormalTransaction.Hash tx /\
            models.Timestamp m = time.Unix (integer_value ts) 0 /\
            models.Type_ m = models.TypeEthTransfer /\
            convert.quoText (Some (integer_value value)) weiPerEth_float 18
              = Ret (models.Value m) /\
            convert.quoText (Some (integer_value gasPrice * integer_value gasUsed))
              weiPerEth_float 18 = Ret (models.GasFee m).
Proof.
  intros H Hv Hp Hu. unfold convert.ConvertNormalTxToModel. parse_timestamp_valid H.
  rewrite !SetString_spec. rewrite Hv, Hp, Hu.
  cbn [big.Mul exec_bind]. rewrite weiPerEth_value. cbn [exec_bind].
  do 2 step_quoText. eexists. split; [reflexivity|].
  cbn [models.Hash models.Timestamp models.Type_ models.Value models.GasFee].
  repeat split; assumption.
Qed.

End Normal.

Section Internal.
Variable tx : InternalTransaction.t.
Local Abbreviation ts := (InternalTransaction.TimeStamp tx).
Local Abbreviation value := (InternalTransaction.Value tx).

Lemma ConvertInternal_invalid_timestamp :
  int64_string ts = false ->
  exists e, convert.ConvertInternalTxToModel tx = Ret (models.zeroTransaction, Some (NumError e)).
Proof.
  intros H. unfold convert.ConvertInternalTxToModel. parse_timestamp_invalid H. eauto.
Qed.

Lemma ConvertInternal_malformed :
  int64_string ts = true -> malformed value ->
  convert.ConvertInternalTxToModel tx = Panic nil_deref.
Proof.
  intros H Hbad. unfold convert.ConvertInternalTxToModel. parse_timestamp_valid H.
  rewrite SetString_spec. unfold malformed in Hbad. rewrite Hbad.
  rewrite weiPerEth_value. reflexivity.
Qed.

(** Whenever the internal-transfer conversion returns a transaction,
    its gas fee is the literal "0". *)
Lemma ConvertInternal_wellformed :
  int64_string ts = true -> integer_string value = true ->
  exists m, convert.ConvertInternalTxToModel tx = Ret (m, None) /\
            models.GasFee m = "0" /\
            models.Type_ m = models.TypeInternalTx /\
            convert.quoText (Some (integer_value value)) weiPerEth_float 18
              = Ret (models.Value m).
Proof.
  intros H Hv. unfold convert.ConvertInternalTxToModel. parse_timestamp_valid H.
  rewrite SetString_spec. rewrite Hv.
  rewrite weiPerEth_value. cbn [exec_bind].
  step_quoText. eexists. split; [reflexivity|].
  cbn [models.GasFee models.Type_ models.Value].
  repeat split; assumption.
Qed.

End Internal.

Section ERC721.
Variable tx : ERC721Transaction.t.
Local Abbreviation ts := (ERC721Transaction.TimeStamp tx).
Local Abbreviation gasPrice := (ERC721Transaction.GasPrice tx).
Local Abbreviation gasUsed := (ERC721Transaction.GasUsed tx).

Lemma ConvertERC721_invalid_timestamp :
  int64_string ts = false ->
  exists e, convert.ConvertERC721TxToModel tx = Ret (models.zeroTransaction, Some (NumError e)).
Proof.
  intros H. unfold convert.ConvertERC721TxToModel. parse_timestamp_invalid H. eauto.
Qed.

Lemma ConvertERC721_malformed :
  int64_string ts = true -> malformed gasPrice \/ malformed gasUsed ->
  convert.ConvertERC721TxToModel tx = Panic nil_deref.
Proof.
  intros H Hbad. unfold convert.ConvertERC721TxToModel. parse_timestamp_valid H.
  rewrite !SetString_spec. unfold malformed in Hbad.
  destruct (integer_string gasPrice), (integer_string gasUsed);
    try reflexivity.
  intuition discriminate.
Qed.

(** Whenever the ERC-721 conversion returns a transaction, its value is
    the literal "1". *)
Lemma ConvertERC721_wellformed :
  int64_string ts = true ->
  integer_string gasPrice = true -> integer_string gasUsed = true ->
  exists m, convert.ConvertERC721TxToModel tx = Ret (m, None) /\
            models.Value m = "1" /\
            models.TokenID m = ERC721Transaction.TokenID tx /\
            convert.quoText (Some (integer_value gasPrice * integer_value gasUsed))
              weiPerEth_float 18
              = Ret (models.GasFee m).
Proof.
  intros H Hp Hu. unfold convert.ConvertERC721TxToModel. parse_timestamp_valid H.
  rewrite !SetString_spec. rewrite Hp, Hu.
  cbn [big.Mul exec_bind]. rewrite weiPerEth_value. cbn [exec_bind].
  step_quoText. eexists. split; [reflexivity|]. simpl. auto.
Qed.

End ERC721.

Section ERC20.
Variable tx : ERC20Transaction.t.
Local Abbreviation ts := (ERC20Transaction.TimeStamp tx).
Local Abbreviation value := (ERC20Transaction.Value tx).
Local Abbreviation gasPrice := (ERC20Transaction.GasPrice tx).
Local Abbreviation gasUsed := (ERC20Transaction.GasUsed tx).
Local Abbreviation tokenDecimal := (ERC20Transaction.TokenDecimal tx).

Lemma ConvertERC20_invalid_timestamp :
  int64_string ts = false ->
  exists e, convert.ConvertERC20TxToModel tx = Ret (models.zeroTransaction, Some (NumError e)).
Proof.
  intros H. unfold convert.ConvertERC20TxToModel. parse_timestamp_invalid H. eauto.
Qed.

Lemma Exp_ten k :
  exists p, big.Exp (big.NewInt 10) (big.NewInt k) = Ret (Some p) /\ p <> 0.
Proof.
  unfold big.Exp, big.NewInt. eexists. split; [reflexivity|].
  destruct (Z.leb_spec k 0); [lia|].
  apply Z.pow_nonzero; lia.
Qed.

Lemma ConvertERC20_malformed :
  int64_string ts = true ->
  malformed value \/ malformed gasPrice \/ malformed gasUsed ->
  convert.ConvertERC20TxToModel tx = Panic nil_deref.
Proof.
  intros H Hbad. unfold convert.ConvertERC20TxToModel. parse_timestamp_valid H.
  rewrite !SetString_spec. unfold malformed in Hbad.
  destruct (integer_string gasPrice), (integer_string gasUsed);
    try reflexivity.
  destruct (integer_string value); [intuition discriminate|].
  cbn [big.Mul exec_bind]. rewrite weiPerEth_value. cbn [exec_bind].
  step_quoText.
  destruct (strconv.Atoi _) as [tokenDecimals ?].
  destruct (Exp_ten tokenDecimals) as (p & Hp & Hnz). rewrite Hp. cbn [exec_bind].
  destruct (SetInt_finite p Hnz) as (f & Hf & _). rewrite Hf. reflexivity.
Qed.

(** With well-formed amounts the ERC-20 conversion returns, whatever
    the token's decimals field holds: a decimals field that [Atoi]
    rejects is not reported. *)
Lemma ConvertERC20_wellformed :
  int64_string ts = true ->
  integer_string value = true -> integer_string gasPrice = true ->
  integer_string gasUsed = true ->
  exists m, convert.ConvertERC20TxToModel tx = Ret (m, None) /\
            models.AssetSymbol m = ERC20Transaction.TokenSymbol tx /\
            models.Type_ m = models.TypeERC20Transfer.
Proof.
  intros H Hv Hp Hu. unfold convert.ConvertERC20TxToModel. parse_timestamp_valid H.
  rewrite !SetString_spec. rewrite Hv, Hp, Hu.
  cbn [big.Mul exec_bind]. rewrite weiPerEth_value. cbn [exec_bind].
  step_quoText.
  destruct (strconv.Atoi _) as [tokenDecimals ?].
  destruct (Exp_ten tokenDecimals) as (p & Hpow & Hnz). rewrite Hpow. cbn [exec_bind].
  destruct (SetInt_finite p Hnz) as (f & Hf & Hfin). rewrite Hf. cbn [exec_bind].
  step_quoText. eexists. split; [reflexivity|]. simpl. auto.
Qed.

End ERC20.

(** ** Traces *)

Lemma gets_cons e tr :
  gets (e :: tr) = (gets tr ++ match e with EvGet b p => [(b, p)] | _ => [] end)%list.
Proof. unfold gets. simpl. rewrite flat_map_app. simpl. rewrite app_nil_r. reflexivity. Qed.

Lemma sleeps_cons e tr :
  sleeps (e :: tr) = (sleeps tr ++ match e with EvSleep d => [d] | _ => [] end)%list.
Proof. unfold sleeps. simpl. rewrite flat_map_app. simpl. rewrite app_nil_r. reflexivity. Qed.

Lemma exports_cons e tr :
  exports (e :: tr) =
  (exports tr ++ match e with EvExport txs d f => [(txs, d, f)] | _ => [] end)%list.
Proof. unfold exports. simpl. rewrite flat_map_app. simpl. rewrite app_nil_r. reflexivity. Qed.

(** ** Laws of the [io] monad used below *)

Lemma bind_ext {A B} (m : io A) (k1 k2 : A -> io B) tr :
  (forall a tr', k1 a tr' = k2 a tr') -> bind m k1 tr = bind m k2 tr.
Proof.
  intros H. unfold bind. destruct (m tr) as [[a| | | |] tr']; auto.
Qed.

Lemma bind_val {A B} (m : io A) (k : A -> io B) tr a tr' :
  m tr = (Val a, tr') -> bind m k tr = k a tr'.
Proof. intros H. unfold bind. rewrite H. reflexivity. Qed.

Lemma bind_assoc {A B C} (m : io A) (k : A -> io B) (h : B -> io C) tr :
  bind (bind m k) h tr = bind m (fun a => bind (k a) h) tr.
Proof.
  unfold bind. destruct (m tr) as [[a| | | |] tr']; reflexivity.
Qed.

(** ** Record-level parse errors are skipped *)

Lemma not_panics_cases {T} (conv : T -> exec convert.converted) tx :
  ~ panics conv tx -> exists m oe, conv tx = Ret (m, oe).
Proof.
  intros Hn. destruct (conv tx) as [[m oe]|msg] eqn:Hc; [eauto|].
  exfalso. apply Hn. exists msg. assumption.
Qed.

(** The whole-range conversion loop over records none of which panics:
    the survivors are appended in order and one warning per failed
    record is logged. *)
Lemma convert_logged_run {T} (conv : T -> exec convert.converted) hash warning :
  forall txs acc tr,
    Forall (fun tx => ~ panics conv tx) txs ->
    app.convert_logged conv hash warning txs acc tr =
    (Val (acc ++ survivors conv txs)%list,
     (rev (log_events (warnings conv hash warning txs)) ++ tr)%list).
Proof.
  induction txs as [|tx txs IH]; intros acc tr Hall.
  - cbn. rewrite app_nil_r. reflexivity.
  - inversion Hall as [|? ? Htx Hrest]; subst.
    destruct (not_panics_cases conv tx Htx) as (m & oe & Hc).
    cbn [app.convert_logged survivors warnings flat_map]. rewrite Hc.
    destruct oe as [e|].
    + unfold log_Printf at 1. unfold bind at 1. unfold emit at 1.
      rewrite IH by assumption. cbn [List.app log_events map rev fst snd].
      fold (warnings conv hash warning txs). fold (survivors conv txs).
      rewrite <- app_assoc. reflexivity.
    + rewrite IH by assumption. cbn [List.app].
      fold (warnings conv hash warning txs). fold (survivors conv txs).
      rewrite <- app_assoc. reflexivity.
Qed.




(** ** Whole-range mode: the goroutines and the barrier *)

(** Under every schedule the four goroutines run to completion: no send
    blocks, the wait group reaches zero, every result channel holds one
    value and the error channel holds the failures in schedule order. *)
Lemma run_goroutines_complete sched f tr :
  is_schedule sched = true ->
  app.run_goroutines sched f (app.mkChannels [] [] [] [] [] 4) tr =
  (Val (app.mkChannels [payload (app.fetchedNormal f)] [payload (app.fetchedInternal f)]
          [payload (app.fetchedERC20 f)] [payload (app.fetchedERC721 f)]
          (recorded_errors sched f) 0),
   (map starting (rev sched) ++ tr)%list).
Proof.
  intros Hs.
  destruct sched as [|a [|b [|c [|d [|x rest]]]]]; try discriminate Hs.
  destruct f as [[nN eN] [nI eI] [n20 e20] [n721 e721]].
  destruct a, b, c, d; try discriminate Hs;
    destruct eN, eI, e20, e721; reflexivity.
Qed.

(** ** The retrying transport *)

Lemma backoff_exact i : forall d,
  0 <= d -> d * 2 ^ Z.of_nat i <= maxInt64 -> backoff d i = d * 2 ^ Z.of_nat i.
Proof.
  unfold maxInt64. change (2 ^ 63) with 9223372036854775808.
  induction i as [|i IH]; intros d Hd Hb.
  - simpl. lia.
  - cbn [backoff]. rewrite Nat2Z.inj_succ, Z.pow_succ_r in * by lia.
    assert (0 < 2 ^ Z.of_nat i) by (apply Z.pow_pos_nonneg; lia).
    rewrite wrap64_small by nia.
    rewrite IH by nia. lia.
Qed.

Section Transport.
Variable E : Env.
Variable c : api.EtherscanClient.
Variable base : string.
Variable params : list (string * string).

Local Abbreviation loop n := (api.makeRequest_loop E n c base params).

(** A reply that is not retryable ends the call at once: one request,
    no sleep, and the reply decides the result. *)
Lemma attempt_settled n retries delay tr :
  retries <= api.MaxRetries c ->
  retryable (http_Get E tr base params) = false ->
  loop (S n) retries delay tr =
    (Val (settle (http_Get E tr base params)), EvGet base params :: tr).
Proof.
  intros Hr Hnot. cbn [api.makeRequest_loop].
  replace (retries <=? api.MaxRetries c) with true by (symmetry; apply Z.leb_le; lia).
  unfold bind at 1. unfold api.HTTPClient_Get.
  destruct (http_Get E tr base params) as [err|s body]; [discriminate|].
  cbn [retryable] in Hnot. rewrite Hnot. cbn [settle].
  destruct (negb (s =? 200)); [reflexivity|].
  destruct body; reflexivity.
Qed.

(** A retryable reply with retries left: the call sleeps for the
    current delay and goes on with the delay doubled. *)
Lemma attempt_retried n retries delay tr :
  retries <= api.MaxRetries c ->
  retryable (http_Get E tr base params) = true ->
  wrap64 (retries + 1) <= api.MaxRetries c ->
  exists format args,
    loop (S n) retries delay tr =
    loop n (wrap64 (retries + 1)) (wrap64 (delay * 2))
      (EvSleep delay :: EvPrint format args :: EvGet base params :: tr).
Proof.
  intros Hr Hre Hleft. cbn [api.makeRequest_loop].
  replace (retries <=? api.MaxRetries c) with true by (symmetry; apply Z.leb_le; lia).
  unfold bind at 1. unfold api.HTTPClient_Get.
  destruct (http_Get E tr base params) as [err|s body]; cbn [retryable] in Hre.
  - replace (wrap64 (retries + 1) >? api.MaxRetries c) with false
      by (symmetry; rewrite Z.gtb_ltb; apply Z.ltb_ge; lia).
    do 2 eexists. reflexivity.
  - rewrite Hre.
    replace (wrap64 (retries + 1) >? api.MaxRetries c) with false
      by (symmetry; rewrite Z.gtb_ltb; apply Z.ltb_ge; lia).
    do 2 eexists. reflexivity.
Qed.

(** A retryable reply with no retry left: the call fails. *)
Lemma attempt_exhausted n retries delay tr :
  retries <= api.MaxRetries c ->
  retryable (http_Get E tr base params) = true ->
  api.MaxRetries c < wrap64 (retries + 1) ->
  exists err,
    loop (S n) retries delay tr = (Val ("", Some err), EvGet base params :: tr).
Proof.
  intros Hr Hre Hleft. cbn [api.makeRequest_loop].
  replace (retries <=? api.MaxRetries c) with true by (symmetry; apply Z.leb_le; lia).
  unfold bind at 1. unfold api.HTTPClient_Get.
  destruct (http_Get E tr base params) as [err|s body]; cbn [retryable] in Hre.
  - replace (wrap64 (retries + 1) >? api.MaxRetries c) with true
      by (symmetry; rewrite Z.gtb_ltb; apply Z.ltb_lt; lia).
    eexists. reflexivity.
  - rewrite Hre.
    replace (wrap64 (retries + 1) >? api.MaxRetries c) with true
      by (symmetry; rewrite Z.gtb_ltb; apply Z.ltb_lt; lia).
    eexists. reflexivity.
Qed.

(** Whatever the remote answers, the call ends within the budget: it
    issues at most [MaxRetries - retries + 1] further requests. *)
Lemma attempts_bounded : forall (j n : nat) retries delay tr,
  0 <= retries -> retries + Z.of_nat j = api.MaxRetries c ->
  api.MaxRetries c < maxInt64 -> (j < n)%nat ->
  exists r tr',
    loop n retries delay tr = (Val r, tr') /\
    (List.length (gets tr') <= List.length (gets tr) + S j)%nat.
Proof.
  unfold maxInt64. change (2 ^ 63) with 9223372036854775808.
  induction j as [|j IH]; intros n retries delay tr H0 Hsum Hmax Hn;
    (destruct n as [|n]; [lia|]).
  - destruct (retryable (http_Get E tr base params)) eqn:Hre.
    + destruct (attempt_exhausted n retries delay tr) as [err Herr];
        [lia|assumption|rewrite wrap64_small; lia|].
      rewrite Herr. do 2 eexists. split; [reflexivity|].
      rewrite gets_cons, length_app. simpl. lia.
    + rewrite attempt_settled by (assumption || lia).
      do 2 eexists. split; [reflexivity|].
      rewrite gets_cons, length_app. simpl. lia.
  - destruct (retryable (http_Get E tr base params)) eqn:Hre.
    + destruct (attempt_retried n retries delay tr) as (fmt & args & Hstep);
        [lia|assumption|rewrite wrap64_small; lia|].
      rewrite Hstep. rewrite wrap64_small by lia.
      destruct (IH n (retries + 1) (wrap64 (delay * 2))
                  (EvSleep delay :: EvPrint fmt args :: EvGet base params :: tr))
        as (r & tr' & Hrun & Hlen); [lia|lia|lia|lia|].
      rewrite Hrun. do 2 eexists. split; [reflexivity|].
      rewrite !gets_cons, !length_app in Hlen. simpl in Hlen. lia.
    + rewrite attempt_settled by (assumption || lia).
      do 2 eexists. split; [reflexivity|].
      rewrite gets_cons, length_app. simpl. lia.
Qed.

(** Against a remote that always answers with a retryable failure the
    call issues exactly [MaxRetries - retries + 1] requests, sleeps
    before each but the first with doubling delays, and fails. *)
Lemma always_failing : forall (j n : nat) retries delay tr,
  (forall h, retryable (http_Get E h base params) = true) ->
  0 <= retries -> retries + Z.of_nat j = api.MaxRetries c ->
  api.MaxRetries c < maxInt64 -> (j < n)%nat ->
  exists err tr',
    loop n retries delay tr = (Val ("", Some err), tr') /\
    gets tr' = (gets tr ++ repeat (base, params) (S j))%list /\
    sleeps tr' = (sleeps tr ++ map (backoff delay) (seq 0 j))%list.
Proof.
  unfold maxInt64. change (2 ^ 63) with 9223372036854775808.
  intros j n retries delay tr Hall. revert n retries delay tr.
  induction j as [|j IH]; intros n retries delay tr H0 Hsum Hmax Hn;
    (destruct n as [|n]; [lia|]).
  - destruct (attempt_exhausted n retries delay tr) as [err Herr];
      [lia|apply Hall|rewrite wrap64_small; lia|].
    rewrite Herr. do 2 eexists. split; [reflexivity|].
    rewrite gets_cons, sleeps_cons. simpl. rewrite app_nil_r. auto.
  - destruct (attempt_retried n retries delay tr) as (fmt & args & Hstep);
      [lia|apply Hall|rewrite wrap64_small; lia|].
    rewrite Hstep. rewrite wrap64_small by lia.
    destruct (IH n (retries + 1) (wrap64 (delay * 2))
                (EvSleep delay :: EvPrint fmt args :: EvGet base params :: tr))
      as (err & tr' & Hrun & Hg & Hs); [lia|lia|lia|lia|].
    rewrite Hrun. do 2 eexists. split; [reflexivity|]. split.
    + rewrite Hg. rewrite !gets_cons. simpl. rewrite !app_nil_r, <- app_assoc. reflexivity.
    + rewrite Hs. rewrite !sleeps_cons. simpl. rewrite !app_nil_r, <- app_assoc.
      simpl. rewrite <- seq_shift, map_map. reflexivity.
Qed.

End Transport.

(** ** Pagination *)

Section Pagination.
Context {T : Type}.
Variable E : Env.
Variable fuel : nat.
Variable action : string.
Variable unmarshal : string -> error + list T.
Variable what : string.
Variable c : api.EtherscanClient.
Variable address : string.
Variables startBlock endBlock : Z.

Local Abbreviation page_request p :=
  (api.page_params action c address startBlock endBlock p api.DefaultOffset).
Local Abbreviation served p records :=
  (serves E unmarshal (api.BaseURL c) (page_request p) records).
Local Abbreviation page_progress p records := (@progress T what p records).

Lemma GetPaginated_served p records tr :
  0 <= api.MaxRetries c -> (0 < fuel)%nat -> served p records ->
  api.GetPaginated E fuel action unmarshal what c address startBlock endBlock p api.DefaultOffset tr =
  (Val (records, None), (page_progress p records ++ EvGet (api.BaseURL c) (page_request p) :: tr)%list).
Proof.
  intros Hmax Hfuel Hserve.
  destruct (Hserve tr) as (body & msg & raw & Hget & Henv & Hdec).
  unfold api.GetPaginated, api.requestWithRetry, api.makeRequest.
  destruct fuel as [|n]; [lia|].
  rewrite bind_assoc.
  erewrite bind_val; cycle 1.
  { apply attempt_settled; [lia|]. rewrite Hget. reflexivity. }
  rewrite Hget. cbn [settle Z.eqb Pos.eqb negb].
  rewrite Henv. cbn [Status Result String.eqb Ascii.eqb Bool.eqb negb].
  rewrite Hdec. unfold bind, ret, progress.
  destruct (0 <? len records); reflexivity.
Qed.

Lemma gets_progress p records l : gets (page_progress p records ++ l)%list = gets l.
Proof.
  unfold progress. destruct (0 <? len records); [|reflexivity].
  cbn [List.app]. rewrite gets_cons. apply app_nil_r.
Qed.

Lemma sleeps_progress p records l : sleeps (page_progress p records ++ l)%list = sleeps l.
Proof.
  unfold progress. destruct (0 <? len records); [|reflexivity].
  cbn [List.app]. rewrite sleeps_cons. apply app_nil_r.
Qed.

Lemma pages_from_succ p count :
  pages_from p (S count) = p :: pages_from (p + 1) count.
Proof.
  unfold pages_from. cbn [seq map]. rewrite Z.add_0_r. f_equal.
  rewrite <- seq_shift, map_map. apply map_ext. intros i. lia.
Qed.

Variable pages : Z -> list T.

Lemma GetAll_loop_pages : forall (j n : nat) p acc tr,
  0 <= api.MaxRetries c -> (0 < fuel)%nat ->
  1 <= p -> p + Z.of_nat j <= maxInt64 ->
  (forall q, p <= q <= p + Z.of_nat j -> served q (pages q)) ->
  (forall q, p <= q < p + Z.of_nat j -> len (pages q) = api.DefaultOffset) ->
  len (pages (p + Z.of_nat j)) < api.DefaultOffset ->
  (j < n)%nat ->
  exists tr',
    api.GetAll_loop E fuel action unmarshal what n c address startBlock endBlock p acc tr =
      (Val ((acc ++ List.concat (map pages (pages_from p (S j))))%list, None), tr') /\
    gets tr' = (gets tr ++ map (fun q => (api.BaseURL c, page_request q)) (pages_from p (S j)))%list /\
    sleeps tr' = (sleeps tr ++ repeat (200 * time.Millisecond) j)%list.
Proof.
  unfold maxInt64. change (2 ^ 63) with 9223372036854775808.
  induction j as [|j IH]; intros n p acc tr Hmax Hfuel Hp Hbound Hserve Hfull Hshort Hn;
    (destruct n as [|n]; [lia|]).
  - rewrite Z.add_0_r in *.
    assert (Hone : pages_from p 1 = [p]).
    { unfold pages_from. cbn [seq map]. rewrite Z.add_0_r. reflexivity. }
    rewrite Hone. cbn [map List.concat]. rewrite app_nil_r.
    cbn [api.GetAll_loop]. unfold fmt_Printf at 1. unfold bind at 1. unfold emit at 1.
    erewrite bind_val; cycle 1.
    { apply GetPaginated_served; [assumption|assumption|]. apply Hserve. lia. }
    cbv beta iota zeta.
    replace (len (pages p) <? api.DefaultOffset) with true by (symmetry; apply Z.ltb_lt; lia).
    unfold bind, fmt_Printf, emit, ret.
    eexists. split; [reflexivity|].
    rewrite gets_cons, sleeps_cons, gets_progress, sleeps_progress.
    rewrite !gets_cons, !sleeps_cons. rewrite !app_nil_r. auto.
  - rewrite Nat2Z.inj_succ in *.
    cbn [api.GetAll_loop]. unfold fmt_Printf at 1. unfold bind at 1. unfold emit at 1.
    erewrite bind_val; cycle 1.
    { apply GetPaginated_served; [assumption|assumption|]. apply Hserve. lia. }
    cbv beta iota zeta.
    replace (len (pages p) <? api.DefaultOffset) with false
      by (symmetry; apply Z.ltb_ge; rewrite Hfull; lia).
    unfold time_Sleep at 1. unfold bind at 1. unfold emit at 1.
    rewrite wrap64_small by lia.
    match goal with
    | |- context [api.GetAll_loop _ _ _ _ _ n _ _ _ _ (p + 1) ?acc' ?tr1] =>
        destruct (IH n (p + 1) acc' tr1) as (tr' & Hrun & Hg & Hs);
          try assumption; try lia
    end.
    + intros q Hq. apply Hserve. lia.
    + intros q Hq. apply Hfull. lia.
    + replace (p + 1 + Z.of_nat j) with (p + Z.succ (Z.of_nat j)) by lia. assumption.
    + exists tr'. split.
      * rewrite Hrun. f_equal. f_equal.
        rewrite (pages_from_succ p (S j)). cbn [map List.concat].
        rewrite <- app_assoc. reflexivity.
      * split.
        -- rewrite Hg. rewrite (pages_from_succ p (S j)). cbn [map].
           rewrite gets_cons, gets_progress, !gets_cons. rewrite !app_nil_r.
           rewrite <- app_assoc. reflexivity.
        -- rewrite Hs. rewrite sleeps_cons, sleeps_progress, !sleeps_cons.
           rewrite !app_nil_r. rewrite <- app_assoc. reflexivity.
Qed.

End Pagination.

(** ** Batch mode *)

Lemma convert_quiet_all {T} (conv : T -> exec convert.converted) (l : list T) :
  Forall (converts conv) l ->
  forall acc tr, app.convert_quiet conv l acc tr = (Val (acc ++ map (model_of conv) l)%list, tr).
Proof.
  induction 1 as [|tx l [m Hm] _ IH]; intros acc tr.
  - cbn. rewrite app_nil_r. reflexivity.
  - cbn [app.convert_quiet map]. unfold model_of at 1. rewrite Hm.
    rewrite IH. rewrite <- app_assoc. reflexivity.
Qed.

Lemma batch_category_ok {T} (get : io (list T * option error)) conv warning s e records :
  returns get records -> Forall (converts conv) records ->
  forall acc tr, exists tr',
    app.batch_category get conv warning s e acc tr =
    (Val (acc ++ map (model_of conv) records)%list, tr').
Proof.
  intros Hget Hconv acc tr. destruct (Hget tr) as [tr' Hrun].
  unfold app.batch_category. erewrite bind_val by exact Hrun.
  cbv beta iota. rewrite convert_quiet_all by assumption. eauto.
Qed.

Lemma batch_category_failed {T} (get : io (list T * option error)) conv warning s e :
  fails get ->
  forall acc tr, exists tr',
    app.batch_category get conv warning s e acc tr = (Val acc, tr').
Proof.
  intros Hget acc tr. destruct (Hget tr) as (l & err & tr' & Hrun).
  unfold app.batch_category. erewrite bind_val by exact Hrun.
  cbv beta iota. unfold bind, fmt_Printf, emit, ret. eauto.
Qed.

Lemma batch_category_state E fuel client address s e failed t records warning :
  category_state E fuel client address s e failed t records ->
  forall acc tr, exists tr',
    app.batch_category (GetAll_of E fuel t client address s e) (conv_of t) warning s e acc tr =
    (Val (acc ++ category_models failed t records)%list, tr').
Proof.
  unfold category_state, category_models. destruct failed.
  - intros H acc tr. rewrite app_nil_r. apply batch_category_failed. assumption.
  - intros [Hr Hc] acc tr. apply batch_category_ok; assumption.
Qed.

Section Batch.
Variable E : Env.
Variable fuel : nat.
Variable client : api.EtherscanClient.
Variable address : string.
Variables startBlock endBlock batchSize : Z.
Variable outputDir : string.

Variable failed : nat -> app.task -> bool.
Variable records : nat -> forall t : app.task, list (raw t).

Local Abbreviation cstart := (chunk_start startBlock batchSize).
Local Abbreviation cend := (chunk_end startBlock endBlock batchSize).
Local Abbreviation nchunks := (n_chunks startBlock endBlock batchSize).
Local Abbreviation cfile := (chunk_file address startBlock endBlock batchSize).
Local Abbreviation cmodels := (chunk_models failed records).

Hypothesis size_positive : 0 < batchSize.
Hypothesis start_in_range : minInt64 <= startBlock.
Hypothesis end_in_range : endBlock + batchSize <= maxInt64.

Lemma chunk_pending (j : nat) : cstart j < endBlock <-> (j < nchunks)%nat.
Proof.
  unfold chunk_start, n_chunks.
  set (X := endBlock - startBlock + batchSize - 1).
  pose proof (Z.mul_div_le X batchSize size_positive) as Hle.
  pose proof (Z.mul_succ_div_gt X batchSize size_positive) as Hgt.
  split.
  - intros H. apply Nat2Z.inj_lt.
    destruct (Z.le_gt_cases (X / batchSize) 0) as [Hneg|Hpos]; [nia|].
    rewrite Z2Nat.id by lia. nia.
  - intros H. apply Nat2Z.inj_lt in H.
    destruct (Z.le_gt_cases (X / batchSize) 0) as [Hneg|Hpos].
    + lia.
    + rewrite Z2Nat.id in H by lia. nia.
Qed.

Hypothesis remote :
  forall j t, (j < nchunks)%nat ->
    category_state E fuel client address (cstart j) (cend j)
      (failed j t) t (records j t).

Lemma processInBatches_loop_spec : forall (m n j : nat) allTxs processed total tr,
  (j + m = nchunks)%nat -> (m < n)%nat ->
  exists tr',
    app.processInBatches_loop E fuel n client address endBlock batchSize outputDir
      total (cstart j) allTxs processed tr =
    (Val (allTxs ++ flat_map cmodels (seq j m))%list, tr').
Proof.
  unfold maxInt64, minInt64 in *. change (2 ^ 63) with 9223372036854775808 in *.
  induction m as [|m IH]; intros n j allTxs processed total tr Hj Hn;
    (destruct n as [|n]; [lia|]).
  - cbn [app.processInBatches_loop].
    replace (cstart j <? endBlock) with false
      by (symmetry; apply Z.ltb_ge; pose proof (chunk_pending j); lia).
    exists tr. cbn. rewrite !app_nil_r. reflexivity.
  - assert (Hlt : cstart j < endBlock) by (apply chunk_pending; lia).
    assert (Hstart : - 9223372036854775808 <= cstart j).
    { unfold chunk_start. nia. }
    cbn [app.processInBatches_loop].
    replace (cstart j <? endBlock) with true by (symmetry; apply Z.ltb_lt; assumption).
    rewrite (wrap64_small (cstart j + batchSize)) by lia.
    replace (if cstart j + batchSize >? endBlock then endBlock else cstart j + batchSize)
      with (cend j)
      by (unfold chunk_end; rewrite Z.gtb_ltb;
          destruct (Z.ltb_spec endBlock (cstart j + batchSize)); lia).
    replace (cstart j + batchSize) with (cstart (S j))
      by (unfold chunk_start; lia).
    unfold fmt_Printf at 1. unfold bind at 1. unfold emit at 1.
    unfold fmt_Printf at 1. unfold bind at 1. unfold emit at 1.
    assert (Hj' : (j < nchunks)%nat) by lia.
    match goal with
    | |- context [bind (app.batch_category ?g ?cv ?w ?s ?e ?acc) ?k ?t] =>
        destruct (batch_category_state E fuel client address _ _ _ app.TNormal _ w
                    (remote j app.TNormal Hj') acc t) as [t1 H1];
        cbn [GetAll_of conv_of] in H1; erewrite (bind_val _ k) by exact H1
    end.
    unfold fmt_Printf at 1. unfold bind at 1. unfold emit at 1.
    match goal with
    | |- context [bind (app.batch_category ?g ?cv ?w ?s ?e ?acc) ?k ?t] =>
        destruct (batch_category_state E fuel client address _ _ _ app.TInternal _ w
                    (remote j app.TInternal Hj') acc t) as [t2 H2];
        cbn [GetAll_of conv_of] in H2; erewrite (bind_val _ k) by exact H2
    end.
    unfold fmt_Printf at 1. unfold bind at 1. unfold emit at 1.
    match goal with
    | |- context [bind (app.batch_category ?g ?cv ?w ?s ?e ?acc) ?k ?t] =>
        destruct (batch_category_state E fuel client address _ _ _ app.TERC20 _ w
                    (remote j app.TERC20 Hj') acc t) as [t3 H3];
        cbn [GetAll_of conv_of] in H3; erewrite (bind_val _ k) by exact H3
    end.
    unfold fmt_Printf at 1. unfold bind at 1. unfold emit at 1.
    match goal with
    | |- context [bind (app.batch_category ?g ?cv ?w ?s ?e ?acc) ?k ?t] =>
        destruct (batch_category_state E fuel client address _ _ _ app.TERC721 _ w
                    (remote j app.TERC721 Hj') acc t) as [t4 H4];
        cbn [GetAll_of conv_of] in H4; erewrite (bind_val _ k) by exact H4
    end.
    cbv zeta.
    fold (chunk_file address startBlock endBlock batchSize j).
    unfold app.ExportTransactionsToCSV at 1. unfold bind at 1.
    assert (Hmodels : (((([] ++ category_models (failed j app.TNormal) app.TNormal (records j app.TNormal))
                ++ category_models (failed j app.TInternal) app.TInternal (records j app.TInternal))
                ++ category_models (failed j app.TERC20) app.TERC20 (records j app.TERC20))
                ++ category_models (failed j app.TERC721) app.TERC721 (records j app.TERC721))%list
              = cmodels j).
    { unfold chunk_models, all_tasks. cbn [flat_map List.app].
      rewrite app_nil_r, <- !app_assoc. reflexivity. }
    rewrite Hmodels.
    match goal with
    | |- context [app.processInBatches_loop _ _ n _ _ _ _ _ ?tot _ ?acc ?pr] =>
        set (acc' := acc); set (pr' := pr)
    end.
    destruct (utils_ExportTransactionsToCSV E t4 (cmodels j) outputDir (cfile j)) as [werr|];
      unfold fmt_Printf at 1; unfold bind at 1; unfold emit at 1.
    + destruct (IH n (S j) acc' pr' total
                  (EvPrint "Warning: Error saving intermediate results: %v\n" [AErr werr]
                   :: EvExport (cmodels j) outputDir (cfile j) :: t4))
        as (tr' & Hrun); [lia|lia|].
      exists tr'. rewrite Hrun. unfold acc'. cbn [seq flat_map].
      rewrite <- app_assoc. reflexivity.
    + destruct (IH n (S j) acc' pr' total
                  (EvPrint "Saved intermediate results to %s\n" [AStr outputDir; AStr (cfile j)]
                   :: EvExport (cmodels j) outputDir (cfile j) :: t4))
        as (tr' & Hrun); [lia|lia|].
      exists tr'. rewrite Hrun. unfold acc'. cbn [seq flat_map].
      rewrite <- app_assoc. reflexivity.
Qed.

End Batch.

(** * The claims *)

(** C1 (defect in the code).  The wei-to-ETH conversion divides in
    [big.Float], whose quotient is rounded to max(64, bit length of the
    dividend) mantissa bits before it is printed.  From 16 ETH upwards
    a mantissa step exceeds 10^-18, and the printed last digit can
    differ from w / 10^18: 65000000000000000001 wei (above 2^64) is
    printed as 65.000000000000000002 by [ConvertNormalTxToModel], and
    16000000000000000001 wei as 16.000000000000000002 by
    [ConvertInternalTxToModel]. *)
Theorem wei_to_eth_last_digit_wrong :
  (exists m,
     convert.ConvertNormalTxToModel
       (sample.normal "65000000000000000001" "20000000000" "21000") = Ret (m, None) /\
     models.Value m = "65.000000000000000002" /\
     exact_decimal 65000000000000000001 18 = "65.000000000000000001" /\
     2 ^ 64 < 65000000000000000001) /\
  (exists m,
     convert.ConvertInternalTxToModel (sample.internal "16000000000000000001") = Ret (m, None) /\
     models.Value m = "16.000000000000000002" /\
     exact_decimal 16000000000000000001 18 = "16.000000000000000001").
Proof.
  split.
  - eexists. split; [vm_compute; reflexivity|].
    repeat split; vm_compute; reflexivity.
  - eexists. split; [vm_compute; reflexivity|].
    repeat split; vm_compute; reflexivity.
Qed.

(** C2 (defect in the code).  A malformed amount is not read as zero:
    [SetString] returns a nil pointer, the flag is discarded, and the
    next use of the pointer panics.  Shown for a malformed value, gas
    price and gas used of a normal transfer and for a malformed value
    of an internal transfer. *)
Theorem malformed_amount_panics :
  convert.ConvertNormalTxToModel (sample.normal "abc" "20000000000" "21000")
    = Panic nil_deref /\
  convert.ConvertNormalTxToModel (sample.normal "1000000000000000000" "" "21000")
    = Panic nil_deref /\
  convert.ConvertNormalTxToModel (sample.normal "1000000000000000000" "20000000000" "0x5208")
    = Panic nil_deref /\
  convert.ConvertInternalTxToModel (sample.internal "1.5") = Panic nil_deref.
Proof. repeat split; vm_compute; reflexivity. Qed.

(** C8 (defect in the code).  An ERC-721 record with a parsable
    timestamp does not always yield a transaction: with an empty gas
    price the conversion panics.  And the gas fee is the rounded
    [big.Float] quotient: for gasPrice 1000000000000000063 and gasUsed
    17 the product is 17000000000000001071 wei and the fee is printed
    as 17.000000000000001070. *)
Theorem erc721_conversion_defects :
  convert.ConvertERC721TxToModel (sample.erc721 "" "120000") = Panic nil_deref /\
  (exists m,
     convert.ConvertERC721TxToModel (sample.erc721 "1000000000000000063" "17") = Ret (m, None) /\
     models.Value m = "1" /\
     models.GasFee m = "17.000000000000001070" /\
     exact_decimal (1000000000000000063 * 17) 18 = "17.000000000000001071").
Proof.
  split; [vm_compute; reflexivity|].
  eexists. split; [vm_compute; reflexivity|].
  repeat split; vm_compute; reflexivity.
Qed.

(** C9 (defect in the code).  An internal-transfer record with a
    parsable timestamp and an empty value yields no transaction: the
    conversion panics. *)
Theorem internal_conversion_panics_on_empty_value :
  strconv.ParseInt (InternalTransaction.TimeStamp (sample.internal "")) = (1630000000, None) /\
  convert.ConvertInternalTxToModel (sample.internal "") = Panic nil_deref.
Proof. split; vm_compute; reflexivity. Qed.

(** C10 (defect in the code).  An ERC-20 record whose decimals field is
    not a number and whose gas fields are empty (as in records that
    carry no gas data) yields no transaction: the conversion panics
    before the decimals are read.  With well-formed amounts the
    decimals are indeed taken as 0 and the value is printed unscaled.
    A decimals field that overflows before its first bad byte is not
    taken as 0 either: [Atoi] returns the largest int with its error. *)
Theorem erc20_bad_decimals_cases :
  convert.ConvertERC20TxToModel (sample.erc20 "5" "abc" "" "") = Panic nil_deref /\
  (exists m,
     convert.ConvertERC20TxToModel
       (sample.erc20 "1000000000000000000" "abc" "20000000000" "65000") = Ret (m, None) /\
     models.Value m = "1000000000000000000") /\
  strconv.Atoi "99999999999999999999x"
    = (9223372036854775807, Some (strconv.rangeError "Atoi" "99999999999999999999x")).
Proof.
  split; [vm_compute; reflexivity|]. split.
  - eexists. split; vm_compute; reflexivity.
  - vm_compute. reflexivity.
Qed.

(** ** C7: a record whose timestamp does not parse *)

Lemma conversion_outcomes (t : app.task) (tx : raw t) :
  if int64_string (timestamp_of t tx) then
    (exists m, conv_of t tx = Ret (m, None)) \/ conv_of t tx = Panic nil_deref
  else exists e, conv_of t tx = Ret (models.zeroTransaction, Some (NumError e)).
Proof.
  destruct (int64_string (timestamp_of t tx)) eqn:Hts.
  - destruct t; cbn [raw conv_of timestamp_of] in *.
    + destruct (integer_string (NormalTransaction.Value tx)) eqn:Hv,
               (integer_string (NormalTransaction.GasPrice tx)) eqn:Hp,
               (integer_string (NormalTransaction.GasUsed tx)) eqn:Hu;
        try (right; apply ConvertNormal_malformed; unfold malformed; tauto).
      left. destruct (ConvertNormal_wellformed tx Hts Hv Hp Hu) as (m & Hm & _). eauto.
    + destruct (integer_string (InternalTransaction.Value tx)) eqn:Hv;
        try (right; apply ConvertInternal_malformed; unfold malformed; tauto).
      left. destruct (ConvertInternal_wellformed tx Hts Hv) as (m & Hm & _). eauto.
    + destruct (integer_string (ERC20Transaction.Value tx)) eqn:Hv,
               (integer_string (ERC20Transaction.GasPrice tx)) eqn:Hp,
               (integer_string (ERC20Transaction.GasUsed tx)) eqn:Hu;
        try (right; apply ConvertERC20_malformed; unfold malformed; tauto).
      left. destruct (ConvertERC20_wellformed tx Hts Hv Hp Hu) as (m & Hm & _). eauto.
    + destruct (integer_string (ERC721Transaction.GasPrice tx)) eqn:Hp,
               (integer_string (ERC721Transaction.GasUsed tx)) eqn:Hu;
        try (right; apply ConvertERC721_malformed; unfold malformed; tauto).
      left. destruct (ConvertERC721_wellformed tx Hts Hp Hu) as (m & Hm & _). eauto.
  - destruct t; cbn [raw conv_of timestamp_of] in *.
    + apply ConvertNormal_invalid_timestamp. assumption.
    + apply ConvertInternal_invalid_timestamp. assumption.
    + apply ConvertERC20_invalid_timestamp. assumption.
    + apply ConvertERC721_invalid_timestamp. assumption.
Qed.




(** ** C5: whole-range mode fails as a whole *)

Lemma some_failure_is_recorded sched f :
  is_schedule sched = true ->
  (exists t, fetch_error t f <> None) ->
  exists err rest, recorded_errors sched f = err :: rest.
Proof.
  intros Hs [t Ht].
  destruct sched as [|a [|b [|c [|d [|x rest]]]]]; try discriminate Hs.
  destruct f as [[nN eN] [nI eI] [n20 e20] [n721 e721]].
  destruct a, b, c, d; try discriminate Hs;
    destruct eN, eI, e20, e721;
    try (do 2 eexists; reflexivity);
    destruct t; cbn in Ht; congruence.
Qed.

(** C5.  In whole-range mode, under every schedule of the four
    goroutines: all four run to completion, and if at least one fetch
    failed, [main] ends through [log.Fatalf] (exit status 1) with the
    first error recorded on the error channel; nothing was converted,
    no directory was made and no file was written, whether or not the
    other three fetches succeeded. *)
Theorem whole_range_fails_as_a_whole :
  forall (E : Env) (fuel : nat) (fl : app.Flags) (sched : list app.task)
         (f : app.fetched) (tr : trace),
    app.address fl <> "" -> app.apiKey fl <> "" -> app.batchBlocks fl <= 0 ->
    is_schedule sched = true ->
    (exists t, fetch_error t f <> None) ->
    exists err started,
      hd_error (recorded_errors sched f) = Some err /\
      started =
        (map starting (rev sched) ++
         EvPrint "Block range: %d to %d\n" [AInt (app.startBlock fl); AInt (app.endBlock fl)]
         :: EvPrint "Fetching transactions for address: %s\n" [AStr (app.address fl)]
         :: tr)%list /\
      app.run_goroutines sched f (app.mkChannels [] [] [] [] [] 4)
        (EvPrint "Block range: %d to %d\n" [AInt (app.startBlock fl); AInt (app.endBlock fl)]
         :: EvPrint "Fetching transactions for address: %s\n" [AStr (app.address fl)] :: tr)
        = (Val (app.mkChannels [payload (app.fetchedNormal f)]
                  [payload (app.fetchedInternal f)] [payload (app.fetchedERC20 f)]
                  [payload (app.fetchedERC721 f)] (recorded_errors sched f) 0), started) /\
      app.main E fuel fl sched f tr = (Exited 1, EvLog "Error: %v" [AErr err] :: started) /\
      exports (EvLog "Error: %v" [AErr err] :: started) = exports tr.
Proof.
  intros E fuel fl sched f tr Haddr Hkey Hbatch Hs Hfail.
  destruct (some_failure_is_recorded sched f Hs Hfail) as (err & rest & Herr).
  exists err. eexists. split; [rewrite Herr; reflexivity|].
  split; [reflexivity|]. split.
  { apply run_goroutines_complete. assumption. }
  split.
  - unfold app.main.
    apply String.eqb_neq in Haddr. apply String.eqb_neq in Hkey.
    rewrite Haddr, Hkey.
    replace (0 <? app.batchBlocks fl) with false by (symmetry; apply Z.ltb_ge; lia).
    unfold fmt_Printf at 1. unfold bind at 1. unfold emit at 1.
    unfold fmt_Printf at 1. unfold bind at 1. unfold emit at 1.
    unfold app.main_whole_range.
    erewrite bind_val by (apply run_goroutines_complete; assumption).
    unfold app.main_collect. cbn [app.wg app.errorCh Z.eqb negb].
    rewrite Herr. reflexivity.
  - rewrite exports_cons. rewrite app_nil_r.
    assert (Hstart : forall l rest', exports (map starting l ++ rest')%list = exports rest').
    { induction l as [|a l IH]; intros rest'; [reflexivity|].
      cbn [map List.app]. rewrite exports_cons, IH. destruct a; apply app_nil_r. }
    rewrite Hstart. rewrite !exports_cons. rewrite !app_nil_r. reflexivity.
Qed.

(** The schedule in which the ERC-20 goroutine, the only one to fail,
    reports last. *)
Lemma whole_range_fails_as_a_whole_example :
  exists err tr',
    hd_error (recorded_errors [app.TNormal; app.TERC721; app.TInternal; app.TERC20]
                sample.fetched_one_failure) = Some err /\
    app.main (sample.env (fun _ => Response 200 (inr "last"))) 3 sample.flags
      [app.TNormal; app.TERC721; app.TInternal; app.TERC20]
      sample.fetched_one_failure [] = (Exited 1, EvLog "Error: %v" [AErr err] :: tr') /\
    exports (EvLog "Error: %v" [AErr err] :: tr') = [].
Proof.
  destruct (whole_range_fails_as_a_whole
              (sample.env (fun _ => Response 200 (inr "last"))) 3 sample.flags
              [app.TNormal; app.TERC721; app.TInternal; app.TERC20]
              sample.fetched_one_failure [])
    as (err & tr' & H1 & _ & _ & H3 & H4).
  - discriminate.
  - discriminate.
  - vm_compute. discriminate.
  - reflexivity.
  - exists app.TERC20. discriminate.
  - exists err, tr'. auto.
Defined.

(** ** C4: the retry policy *)

Lemma retryable_status s body :
  100 <= s <= 599 ->
  (retryable (Response s body) = true <-> s = 429 \/ 500 <= s <= 599).
Proof.
  intros Hs. cbn [retryable]. rewrite orb_true_iff, Z.eqb_eq, Z.geb_leb, Z.leb_le. lia.
Qed.

(** C4.  For a client with a non-negative retry count:
    - the defaults are 3 retries and a delay of one second;
    - among valid status codes, exactly 429 and 5xx are retried, and
      so is every connection failure;
    - a reply that is not retried ends the call with that one request
      and no sleep, and a status other than 200 then is an error;
    - a retried reply with retries left is followed by a sleep of the
      current delay, after which the delay is doubled;
    - whatever the remote answers, the call ends after at most
      MaxRetries + 1 requests;
    - if every reply is retryable the call fails after exactly
      MaxRetries + 1 requests, having slept RetryDelay, 2 RetryDelay,
      4 RetryDelay, ... before the retries;
    - the doubling is that of 64-bit integers, and is exact as long
      as the delay fits. *)
Theorem retry_policy :
  forall (E : Env) (c : api.EtherscanClient) (base : string)
         (params : list (string * string)),
    0 <= api.MaxRetries c < maxInt64 ->
    (forall key,
       api.MaxRetries (api.NewEtherscanClient key) = 3 /\
       api.RetryDelay (api.NewEtherscanClient key) = time.Second) /\
    (forall s body, 100 <= s <= 599 ->
       (retryable (Response s body) = true <-> s = 429 \/ 500 <= s <= 599)) /\
    (forall err, retryable (ConnError err) = true) /\
    (forall n retries delay tr,
       retries <= api.MaxRetries c ->
       retryable (http_Get E tr base params) = false ->
       api.makeRequest_loop E (S n) c base params retries delay tr =
         (Val (settle (http_Get E tr base params)), EvGet base params :: tr)) /\
    (forall s body, s <> 200 -> retryable (Response s body) = false ->
       settle (Response s body) =
         ("", Some (Errorf "API request failed with status code: %d" [s]))) /\
    (forall n retries delay tr,
       0 <= retries < api.MaxRetries c ->
       retryable (http_Get E tr base params) = true ->
       exists format args,
         api.makeRequest_loop E (S n) c base params retries delay tr =
         api.makeRequest_loop E n c base params (retries + 1) (wrap64 (delay * 2))
           (EvSleep delay :: EvPrint format args :: EvGet base params :: tr)) /\
    (forall fuel tr,
       (Z.to_nat (api.MaxRetries c) < fuel)%nat ->
       exists r tr',
         api.makeRequest E fuel c base params tr = (Val r, tr') /\
         (List.length (gets tr') <= List.length (gets tr) + Z.to_nat (api.MaxRetries c) + 1)%nat) /\
    ((forall h, retryable (http_Get E h base params) = true) ->
     forall fuel tr,
       (Z.to_nat (api.MaxRetries c) < fuel)%nat ->
       exists err tr',
         api.makeRequest E fuel c base params tr = (Val ("", Some err), tr') /\
         gets tr' = (gets tr ++ repeat (base, params) (Z.to_nat (api.MaxRetries c) + 1))%list /\
         sleeps tr' =
           (sleeps tr ++ map (backoff (api.RetryDelay c)) (seq 0 (Z.to_nat (api.MaxRetries c))))%list) /\
    (forall i, 0 <= api.RetryDelay c ->
       api.RetryDelay c * 2 ^ Z.of_nat i <= maxInt64 ->
       backoff (api.RetryDelay c) i = api.RetryDelay c * 2 ^ Z.of_nat i).
Proof.
  intros E c base params Hmax.
  assert (Hmax' := Hmax). unfold maxInt64 in Hmax'.
  change (2 ^ 63) with 9223372036854775808 in Hmax'.
  split; [intros key; split; reflexivity|].
  split; [apply retryable_status|].
  split; [reflexivity|].
  split; [intros; apply attempt_settled; assumption|].
  split.
  { intros s body Hs Hre. cbn [settle].
    replace (s =? 200) with false by (symmetry; apply Z.eqb_neq; assumption).
    reflexivity. }
  split.
  { intros n retries delay tr Hr Hre.
    destruct (attempt_retried E c base params n retries delay tr) as (fmt & args & Hstep);
      [lia|assumption|rewrite wrap64_small; lia|].
    rewrite wrap64_small in Hstep by lia. eauto. }
  split.
  { intros fuel tr Hfuel.
    destruct (attempts_bounded E c base params (Z.to_nat (api.MaxRetries c)) fuel 0
                (api.RetryDelay c) tr) as (r & tr' & Hrun & Hlen);
      [lia|lia|apply Hmax|assumption|].
    exists r, tr'. split; [exact Hrun|lia]. }
  split.
  { intros Hall fuel tr Hfuel.
    destruct (always_failing E c base params (Z.to_nat (api.MaxRetries c)) fuel 0
                (api.RetryDelay c) tr Hall) as (err & tr' & Hrun & Hg & Hs);
      [lia|lia|apply Hmax|assumption|].
    exists err, tr'. split; [exact Hrun|]. split; [|exact Hs].
    rewrite Hg. rewrite Nat.add_1_r. reflexivity. }
  intros i Hd Hfit. apply backoff_exact; assumption.
Qed.

(** The default client against a remote that always answers 503: four
    requests, and sleeps of one, two and four seconds. *)
Lemma retry_policy_example :
  exists err tr',
    api.makeRequest sample.overloaded 4 sample.client "base" [("page", "1")] [] =
      (Val ("", Some err), tr') /\
    gets tr' = repeat ("base", [("page", "1")]) 4 /\
    sleeps tr' = [1000000000; 2000000000; 4000000000].
Proof.
  destruct (retry_policy sample.overloaded sample.client "base" [("page", "1")])
    as (_ & _ & _ & _ & _ & _ & _ & Hfail & _).
  - vm_compute. split; [discriminate|reflexivity].
  - destruct (Hfail (fun h => eq_refl) 4%nat []) as (err & tr' & Hrun & Hg & Hs).
    + vm_compute. lia.
    + exists err, tr'. split; [exact Hrun|]. split; [exact Hg|exact Hs].
Defined.

(** ** C3: pagination *)

Lemma GetAll_of_unfold E fuel t :
  GetAll_of E fuel t = api.GetAll E fuel (action_of t) (Unmarshal_of E t) (what_of t).
Proof. destruct t; reflexivity. Qed.

Lemma len_app {A} (l1 l2 : list A) : len (l1 ++ l2)%list = len l1 + len l2.
Proof. unfold len. rewrite length_app. lia. Qed.

Lemma len_full_pages {A} (pages : Z -> list A) : forall (k : nat) p,
  (forall q, p <= q < p + Z.of_nat k -> len (pages q) = api.DefaultOffset) ->
  len (List.concat (map pages (pages_from p (S k)))) =
  Z.of_nat k * api.DefaultOffset + len (pages (p + Z.of_nat k)).
Proof.
  induction k as [|k IH]; intros p Hfull.
  - unfold pages_from. cbn [seq map List.concat]. rewrite app_nil_r.
    cbn [Z.of_nat]. rewrite Z.add_0_r. lia.
  - rewrite pages_from_succ. cbn [map List.concat]. rewrite len_app.
    rewrite IH by (intros q Hq; apply Hfull; lia).
    rewrite Hfull by lia.
    replace (p + 1 + Z.of_nat k) with (p + Z.of_nat (S k)) by lia. lia.
Qed.

(** C3.  For each of the four category fetchers: if the remote serves
    k pages of exactly 1000 records followed by a page of fewer, then
    [GetAll...] returns (with any fuel above k, so it terminates), its
    result is the pages concatenated in ascending page order, that is
    k * 1000 + finalSize records, and it issued exactly k + 1 requests,
    for the pages 1, 2, ..., k + 1 in this order, sleeping 200ms
    between two requests. *)
Theorem pagination_fetches_every_page :
  forall (E : Env) (fuel : nat) (t : app.task) (c : api.EtherscanClient)
         (address : string) (startBlock endBlock : Z) (k : nat)
         (pages : Z -> list (raw t)) (tr : trace),
    0 <= api.MaxRetries c ->
    Z.of_nat k + 1 <= maxInt64 ->
    (k < fuel)%nat ->
    (forall p, 1 <= p <= Z.of_nat k + 1 ->
       serves E (Unmarshal_of E t) (api.BaseURL c)
         (request_of t c address startBlock endBlock p) (pages p)) ->
    (forall p, 1 <= p <= Z.of_nat k -> len (pages p) = api.DefaultOffset) ->
    len (pages (Z.of_nat k + 1)) < api.DefaultOffset ->
    exists all tr',
      GetAll_of E fuel t c address startBlock endBlock tr = (Val (all, None), tr') /\
      all = List.concat (map pages (pages_from 1 (S k))) /\
      len all = Z.of_nat k * api.DefaultOffset + len (pages (Z.of_nat k + 1)) /\
      gets tr' =
        (gets tr ++ map (fun p => (api.BaseURL c, request_of t c address startBlock endBlock p))
                     (pages_from 1 (S k)))%list /\
      List.length (gets tr') = (List.length (gets tr) + k + 1)%nat /\
      sleeps tr' = (sleeps tr ++ repeat (200 * time.Millisecond) k)%list.
Proof.
  intros E fuel t c address startBlock endBlock k pages tr Hmax Hk Hfuel Hserve Hfull Hshort.
  rewrite GetAll_of_unfold. unfold api.GetAll.
  destruct (GetAll_loop_pages E fuel (action_of t) (Unmarshal_of E t) (what_of t) c address
              startBlock endBlock pages k fuel 1 [] tr) as (tr' & Hrun & Hg & Hs);
    try assumption; try lia.
  - intros q Hq. apply Hserve. lia.
  - intros q Hq. apply Hfull. lia.
  - replace (1 + Z.of_nat k) with (Z.of_nat k + 1) by lia. assumption.
  - do 2 eexists. split; [exact Hrun|]. split; [reflexivity|]. split.
    + cbn [List.app]. rewrite len_full_pages by (intros q Hq; apply Hfull; lia).
      replace (1 + Z.of_nat k) with (Z.of_nat k + 1) by lia. reflexivity.
    + split; [exact Hg|]. split; [|exact Hs].
      rewrite Hg, length_app, length_map. unfold pages_from.
      rewrite length_map, length_seq. lia.
Qed.

(** The normal-transaction fetcher against the sample remote with one
    full page and a second page of one record: 1001 records, two
    requests, one pause. *)
Lemma pagination_fetches_every_page_example :
  exists all tr',
    api.GetAllNormalTransactions sample.paged 2 sample.client "0xwallet" 0 999999999 [] =
      (Val (all, None), tr') /\
    len all = 1001 /\
    List.length (gets tr') = 2%nat /\
    sleeps tr' = [200000000].
Proof.
  destruct (pagination_fetches_every_page sample.paged 2 app.TNormal sample.client
              "0xwallet" 0 999999999 1
              (fun p => if p =? 1 then repeat (sample.one app.TNormal) 1000
                        else [sample.one app.TNormal]) [])
    as (all & tr' & Hrun & _ & Hlen & _ & Hcount & Hs).
  - vm_compute. discriminate.
  - vm_compute. discriminate.
  - lia.
  - intros p Hp h.
    assert (Hcases : p = 1 \/ p = 2) by lia.
    destruct Hcases; subst p; do 3 eexists; repeat split; reflexivity.
  - intros p Hp. assert (p = 1) by lia. subst p. reflexivity.
  - reflexivity.
  - exists all, tr'. split; [exact Hrun|]. split; [exact Hlen|]. split; [exact Hcount|exact Hs].
Defined.

(** ** C6: batch mode isolates a failure *)

Lemma only_failure_spec i cfail j t :
  only_failure i cfail j t = true <-> j = i /\ t = cfail.
Proof.
  unfold only_failure. rewrite andb_true_iff, Nat.eqb_eq.
  destruct t, cfail; cbn; intuition congruence.
Qed.

(** C6.  In batch mode, when the fetch of one category [cfail] fails
    for chunk [i], every other fetch of every chunk succeeds and the
    fetched records convert: the run goes on through all chunks; chunk
    i gets nothing from [cfail] and the converted records of its three
    other categories; every other chunk gets the converted records of
    all four; and the list handed to the final export is the chunks'
    lists in chunk order. *)
Theorem batch_failure_is_isolated :
  forall (E : Env) (fuel : nat) (client : api.EtherscanClient) (address : string)
         (startBlock endBlock batchSize : Z) (outputDir : string)
         (i : nat) (cfail : app.task)
         (records : nat -> forall t : app.task, list (raw t)) (tr : trace),
    0 < batchSize -> minInt64 <= startBlock -> endBlock + batchSize <= maxInt64 ->
    (i < n_chunks startBlock endBlock batchSize)%nat ->
    (n_chunks startBlock endBlock batchSize < fuel)%nat ->
    (forall j t, (j < n_chunks startBlock endBlock batchSize)%nat ->
       category_state E fuel client address
         (chunk_start startBlock batchSize j) (chunk_end startBlock endBlock batchSize j)
         (only_failure i cfail j t) t (records j t)) ->
    exists tr',
      app.processInBatches_loop E fuel fuel client address endBlock batchSize outputDir
        (wrap64 (endBlock - startBlock)) startBlock [] 0 tr =
        (Val (batch_models (only_failure i cfail) records
                (n_chunks startBlock endBlock batchSize)), tr') /\
      exports (snd (app.processInBatches E fuel client address startBlock endBlock
                      batchSize outputDir tr)) =
        (exports tr' ++
         [(batch_models (only_failure i cfail) records
             (n_chunks startBlock endBlock batchSize),
           outputDir, (address ++ "_tx_history_full.csv")%string)])%list /\
      chunk_models (only_failure i cfail) records i =
        flat_map (fun t => if task_eqb t cfail then []
                           else map (model_of (conv_of t)) (records i t)) all_tasks /\
      (forall j, j <> i ->
         chunk_models (only_failure i cfail) records j =
         flat_map (fun t => map (model_of (conv_of t)) (records j t)) all_tasks).
Proof.
  intros E fuel client address startBlock endBlock batchSize outputDir i cfail records tr
         Hsize Hstart Hend Hi Hfuel Hremote.
  destruct (processInBatches_loop_spec E fuel client address startBlock endBlock batchSize
              outputDir (only_failure i cfail) records Hsize Hstart Hend Hremote
              (n_chunks startBlock endBlock batchSize) fuel 0%nat [] 0
              (wrap64 (endBlock - startBlock)) tr) as [tr' Hrun]; [lia|assumption|].
  assert (Hzero : chunk_start startBlock batchSize 0 = startBlock)
    by (unfold chunk_start; cbn [Z.of_nat]; lia).
  rewrite Hzero in Hrun. cbn [List.app] in Hrun.
  fold (batch_models (only_failure i cfail) records (n_chunks startBlock endBlock batchSize))
    in Hrun.
  exists tr'. split; [exact Hrun|]. split.
  - unfold app.processInBatches. erewrite bind_val by exact Hrun.
    unfold app.ExportTransactionsToCSV at 1. unfold bind at 1.
    destruct (utils_ExportTransactionsToCSV E tr' _ outputDir _);
      cbn [snd log_Fatalf fmt_Printf emit];
      rewrite !exports_cons, app_nil_r; reflexivity.
  - split.
    + unfold chunk_models, category_models, only_failure. rewrite Nat.eqb_refl.
      reflexivity.
    + intros j Hj. unfold chunk_models, category_models, only_failure.
      apply Nat.eqb_neq in Hj. rewrite Hj. reflexivity.
Qed.

(** Blocks 0 to 20 in chunks of 10, the token-transfer fetch of the
    first chunk being rejected: three transactions from the first chunk
    and four from the second reach the combined file. *)
Lemma batch_failure_is_isolated_example :
  exists tr',
    exports (snd (app.processInBatches sample.partial 3 sample.client "0xwallet"
                    0 20 10 "./output" [])) =
      (exports tr' ++
       [(batch_models (only_failure 0 app.TERC20) (fun _ t => [sample.one t]) 2,
         "./output", "0xwallet_tx_history_full.csv")])%list /\
    len (batch_models (only_failure 0 app.TERC20) (fun _ t => [sample.one t]) 2) = 7.
Proof.
  destruct (batch_failure_is_isolated sample.partial 3 sample.client "0xwallet"
              0 20 10 "./output" 0 app.TERC20 (fun _ t => [sample.one t]) [])
    as (tr' & _ & Hx & _).
  - reflexivity.
  - vm_compute. discriminate.
  - vm_compute. discriminate.
  - vm_compute. lia.
  - vm_compute. lia.
  - intros j t Hj.
    assert (Hcases : j = 0%nat \/ j = 1%nat) by (vm_compute in Hj; lia).
    destruct Hcases; subst j; destruct t; cbv [category_state only_failure Nat.eqb task_eqb andb];
      first
        [ split;
          [ intros h; eexists; vm_compute; reflexivity
          | repeat constructor; eexists; vm_compute; reflexivity ]
        | intros h; do 3 eexists; vm_compute; reflexivity ].
  - exists tr'. split; [exact Hx|]. vm_compute. reflexivity.
Defined.

(** * Further properties of the conversions *)

Lemma digit_char_is_digit d : is_digit (digit_char d) = true.
Proof.
  unfold digit_char.
  pose proof (Z.mod_pos_bound d 10 ltac:(lia)) as Hr.
  remember (d mod 10) as r eqn:Er. clear Er.
  assert (Hc : r = 0 \/ r = 1 \/ r = 2 \/ r = 3 \/ r = 4 \/ r = 5 \/ r = 6 \/ r = 7
               \/ r = 8 \/ r = 9) by lia.
  repeat (destruct Hc as [Hc|Hc]; [subst r; reflexivity|]). subst r. reflexivity.
Qed.

Lemma digits_string_all_digits ds : all_digits (digits_string ds) = true.
Proof.
  induction ds as [|d ds IH]; [reflexivity|].
  cbn [digits_string all_digits]. rewrite digit_char_is_digit, IH. reflexivity.
Qed.

Lemma digits_string_length ds : String.length (digits_string ds) = List.length ds.
Proof. induction ds as [|d ds IH]; [reflexivity|]. cbn. rewrite IH. reflexivity. Qed.

Lemma fraction_digits_length d : forall count i,
  List.length (big.fraction_digits d i count) = count.
Proof.
  induction count as [|count IH]; intros i; [reflexivity|].
  cbn [big.fraction_digits List.length]. rewrite IH. reflexivity.
Qed.

Lemma fmtF_shape prec d :
  0 < prec -> has_fraction_digits (big.fmtF prec d) (Z.to_nat prec).
Proof.
  intros Hp. unfold big.fmtF.
  replace (0 <? prec) with true by (symmetry; apply Z.ltb_lt; assumption).
  eexists. eexists. split; [reflexivity|]. split.
  - destruct (0 <? big.dexp d); [apply digits_string_all_digits|reflexivity].
  - split; [apply digits_string_all_digits|].
    rewrite digits_string_length, fraction_digits_length. reflexivity.
Qed.

Lemma SetInt_nonneg v :
  0 <= v -> exists f, big.SetInt (Some v) = Ret f /\ big.neg f = false /\ big.fform f <> big.inf.
Proof.
  intros Hv. unfold big.SetInt.
  destruct (Z.eqb_spec v 0) as [->|Hnz].
  - eexists. split; [reflexivity|]. split; [reflexivity|discriminate].
  - destruct (big.round _ _ _ _). eexists. split; [reflexivity|].
    split; [apply Z.ltb_ge; assumption|discriminate].
Qed.

(** Dividing a non-negative amount by 10^18 and printing it with 18
    digits gives an unsigned decimal text with exactly 18 digits after
    the point. *)
Lemma quoText_wei_shape v s :
  0 <= v -> convert.quoText (Some v) weiPerEth_float 18 = Ret s ->
  has_fraction_digits s 18.
Proof.
  intros Hv. unfold convert.quoText.
  destruct (SetInt_nonneg v Hv) as (f & Hf & Hneg & Hform). rewrite Hf.
  cbn [exec_bind]. unfold big.Quo. cbn [big.fform big.neg big.prec weiPerEth_float].
  rewrite Hneg. cbn [xorb].
  destruct (big.fform f) eqn:Hff; [| |congruence].
  - cbn [exec_bind]. intros Hs. injection Hs as <-.
    unfold big.Text_f. cbn [big.fform big.neg]. cbn [String.append].
    apply (fmtF_shape 18). lia.
  - destruct (big.uquo _ _ _) as [m e]. cbn [exec_bind]. intros Hs. injection Hs as <-.
    unfold big.Text_f. cbn [big.fform big.neg]. cbn [String.append].
    apply (fmtF_shape 18). lia.
Qed.

(** X1.  A normal or internal record with a valid timestamp and
    well-formed, non-negative amounts converts to a transaction whose
    value has exactly 18 digits after the decimal point; so has the
    gas fee of a normal record. *)
Theorem eth_amounts_have_18_fraction_digits :
  (forall tx : NormalTransaction.t,
     int64_string (NormalTransaction.TimeStamp tx) = true ->
     integer_string (NormalTransaction.Value tx) = true ->
     integer_string (NormalTransaction.GasPrice tx) = true ->
     integer_string (NormalTransaction.GasUsed tx) = true ->
     0 <= integer_value (NormalTransaction.Value tx) ->
     0 <= integer_value (NormalTransaction.GasPrice tx) * integer_value (NormalTransaction.GasUsed tx) ->
     exists m, convert.ConvertNormalTxToModel tx = Ret (m, None) /\
               has_fraction_digits (models.Value m) 18 /\
               has_fraction_digits (models.GasFee m) 18) /\
  (forall tx : InternalTransaction.t,
     int64_string (InternalTransaction.TimeStamp tx) = true ->
     integer_string (InternalTransaction.Value tx) = true ->
     0 <= integer_value (InternalTransaction.Value tx) ->
     exists m, convert.ConvertInternalTxToModel tx = Ret (m, None) /\
               has_fraction_digits (models.Value m) 18).
Proof.
  split.
  - intros tx Hts Hv Hp Hu Hv0 Hg0.
    destruct (ConvertNormal_wellformed tx Hts Hv Hp Hu) as (m & Hm & _ & _ & _ & Hval & Hfee).
    exists m. split; [assumption|]. split.
    + eapply quoText_wei_shape; [exact Hv0|exact Hval].
    + eapply quoText_wei_shape; [exact Hg0|exact Hfee].
  - intros tx Hts Hv Hv0.
    destruct (ConvertInternal_wellformed tx Hts Hv) as (m & Hm & _ & _ & Hval).
    exists m. split; [assumption|].
    eapply quoText_wei_shape; [exact Hv0|exact Hval].
Qed.

(** X2.  An internal record with a valid timestamp and a well-formed
    value converts to a transaction whose gas fee is the literal "0". *)
Theorem internal_gas_fee_is_zero :
  forall tx : InternalTransaction.t,
    int64_string (InternalTransaction.TimeStamp tx) = true ->
    integer_string (InternalTransaction.Value tx) = true ->
    exists m, convert.ConvertInternalTxToModel tx = Ret (m, None) /\
              models.GasFee m = "0" /\
              models.Type_ m = models.TypeInternalTx.
Proof.
  intros tx Hts Hv.
  destruct (ConvertInternal_wellformed tx Hts Hv) as (m & Hm & Hfee & Hty & _). eauto.
Qed.

Lemma internal_gas_fee_is_zero_example :
  exists m, convert.ConvertInternalTxToModel (sample.internal "500000000000000000")
            = Ret (m, None) /\
            models.GasFee m = "0" /\
            models.Type_ m = models.TypeInternalTx.
Proof.
  apply (internal_gas_fee_is_zero (sample.internal "500000000000000000")); reflexivity.
Defined.

(** X3.  An ERC-721 record with a valid timestamp and well-formed gas
    fields converts to a transaction whose value is the literal "1",
    whose token id is the record's, and whose gas fee is the text of
    the rounded quotient of gasPrice * gasUsed by 10^18. *)
Theorem erc721_value_is_one :
  forall tx : ERC721Transaction.t,
    int64_string (ERC721Transaction.TimeStamp tx) = true ->
    integer_string (ERC721Transaction.GasPrice tx) = true ->
    integer_string (ERC721Transaction.GasUsed tx) = true ->
    exists m, convert.ConvertERC721TxToModel tx = Ret (m, None) /\
              models.Value m = "1" /\
              models.TokenID m = ERC721Transaction.TokenID tx /\
              convert.quoText
                (Some (integer_value (ERC721Transaction.GasPrice tx)
                       * integer_value (ERC721Transaction.GasUsed tx)))
                weiPerEth_float 18 = Ret (models.GasFee m).
Proof. intros tx Hts Hp Hu. exact (ConvertERC721_wellformed tx Hts Hp Hu). Qed.

Lemma erc721_value_is_one_example :
  exists m, convert.ConvertERC721TxToModel (sample.erc721 "20000000000" "120000")
            = Ret (m, None) /\
            models.Value m = "1" /\
            models.GasFee m = "0.002400000000000000".
Proof.
  destruct (erc721_value_is_one (sample.erc721 "20000000000" "120000"))
    as (m & Hm & Hv & _ & Hfee); try reflexivity.
  exists m. split; [exact Hm|]. split; [exact Hv|].
  vm_compute in Hfee. injection Hfee as Hfee. symmetry. exact Hfee.
Defined.

(** X4.  For a record of any category with a valid timestamp, the
    conversion panics exactly when one of the amount fields it reads
    is not an integer string, and returns a transaction otherwise. *)
Theorem conversion_panics_iff_malformed :
  (forall tx : NormalTransaction.t,
     int64_string (NormalTransaction.TimeStamp tx) = true ->
     (convert.ConvertNormalTxToModel tx = Panic nil_deref <->
      malformed (NormalTransaction.Value tx) \/ malformed (NormalTransaction.GasPrice tx)
      \/ malformed (NormalTransaction.GasUsed tx))) /\
  (forall tx : InternalTransaction.t,
     int64_string (InternalTransaction.TimeStamp tx) = true ->
     (convert.ConvertInternalTxToModel tx = Panic nil_deref <->
      malformed (InternalTransaction.Value tx))) /\
  (forall tx : ERC20Transaction.t,
     int64_string (ERC20Transaction.TimeStamp tx) = true ->
     (convert.ConvertERC20TxToModel tx = Panic nil_deref <->
      malformed (ERC20Transaction.Value tx) \/ malformed (ERC20Transaction.GasPrice tx)
      \/ malformed (ERC20Transaction.GasUsed tx))) /\
  (forall tx : ERC721Transaction.t,
     int64_string (ERC721Transaction.TimeStamp tx) = true ->
     (convert.ConvertERC721TxToModel tx = Panic nil_deref <->
      malformed (ERC721Transaction.GasPrice tx) \/ malformed (ERC721Transaction.GasUsed tx))).
Proof.
  unfold malformed. repeat split.
  - intros Hp.
    destruct (integer_string (NormalTransaction.Value tx)) eqn:Hv,
             (integer_string (NormalTransaction.GasPrice tx)) eqn:Hg,
             (integer_string (NormalTransaction.GasUsed tx)) eqn:Hu; auto.
    destruct (ConvertNormal_wellformed tx H Hv Hg Hu) as (m & Hm & _). congruence.
  - apply ConvertNormal_malformed. assumption.
  - intros Hp.
    destruct (integer_string (InternalTransaction.Value tx)) eqn:Hv; auto.
    destruct (ConvertInternal_wellformed tx H Hv) as (m & Hm & _). congruence.
  - apply ConvertInternal_malformed. assumption.
  - intros Hp.
    destruct (integer_string (ERC20Transaction.Value tx)) eqn:Hv,
             (integer_string (ERC20Transaction.GasPrice tx)) eqn:Hg,
             (integer_string (ERC20Transaction.GasUsed tx)) eqn:Hu; auto.
    destruct (ConvertERC20_wellformed tx H Hv Hg Hu) as (m & Hm & _). congruence.
  - apply ConvertERC20_malformed. assumption.
  - intros Hp.
    destruct (integer_string (ERC721Transaction.GasPrice tx)) eqn:Hg,
             (integer_string (ERC721Transaction.GasUsed tx)) eqn:Hu; auto.
    destruct (ConvertERC721_wellformed tx H Hg Hu) as (m & Hm & _). congruence.
  - apply ConvertERC721_malformed. assumption.
Qed.

(** * Further properties of the client and of the two modes

    ** What a computation adds to the trace *)

Lemma only_adds_refl P tr : only_adds P tr tr.
Proof. exists []. split; [reflexivity|constructor]. Qed.

Lemma only_adds_cons P e tr tr' : P e -> only_adds P tr tr' -> only_adds P tr (e :: tr').
Proof.
  intros He (l & -> & Hl). exists (e :: l). split; [reflexivity|]. constructor; assumption.
Qed.

Lemma only_adds_trans P a b c : only_adds P a b -> only_adds P b c -> only_adds P a c.
Proof.
  intros (l1 & -> & H1) (l2 & -> & H2). exists (l2 ++ l1)%list.
  split; [apply app_assoc|]. apply Forall_app. split; assumption.
Qed.

Lemma only_adds_weaken (P Q : event -> Prop) tr tr' :
  (forall e, P e -> Q e) -> only_adds P tr tr' -> only_adds Q tr tr'.
Proof.
  intros HPQ (l & -> & Hl). exists l. split; [reflexivity|].
  eapply Forall_impl; [exact HPQ|exact Hl].
Qed.

Lemma adds_ret {A} P (a : A) : adds P (ret a).
Proof. intros tr. apply only_adds_refl. Qed.

Lemma adds_emit P e : P e -> adds P (emit e).
Proof. intros He tr. cbn. apply only_adds_cons; [assumption|apply only_adds_refl]. Qed.

Lemma adds_bind {A B} P (m : io A) (k : A -> io B) :
  adds P m -> (forall a, adds P (k a)) -> adds P (bind m k).
Proof.
  intros Hm Hk tr. unfold bind. specialize (Hm tr).
  destruct (m tr) as [[a| | | |] tr1]; cbn [snd] in *; try assumption.
  eapply only_adds_trans; [exact Hm|apply Hk].
Qed.

Lemma adds_weaken {A} (P Q : event -> Prop) (m : io A) :
  (forall e, P e -> Q e) -> adds P m -> adds Q m.
Proof. intros HPQ Hm tr. eapply only_adds_weaken; [exact HPQ|apply Hm]. Qed.

Lemma mkdirs_cons e tr :
  mkdirs (e :: tr) = (mkdirs tr ++ match e with EvMkdirAll d => [d] | _ => [] end)%list.
Proof. unfold mkdirs. cbn [rev]. rewrite flat_map_app. cbn. rewrite app_nil_r. reflexivity. Qed.

Lemma logs_cons e tr :
  logs (e :: tr) = (logs tr ++ match e with EvLog f a => [(f, a)] | _ => [] end)%list.
Proof. unfold logs. cbn [rev]. rewrite flat_map_app. cbn. rewrite app_nil_r. reflexivity. Qed.

Lemma only_adds_no_file tr tr' :
  only_adds no_file_event tr tr' -> exports tr' = exports tr /\ mkdirs tr' = mkdirs tr.
Proof.
  intros (l & -> & Hl). induction Hl as [|e l He _ IH]; [split; reflexivity|].
  cbn [List.app]. rewrite exports_cons, mkdirs_cons. destruct IH as [-> ->].
  destruct e; cbn in He; try contradiction; rewrite !app_nil_r; split; reflexivity.
Qed.

Lemma transport_event_no_file c base params e :
  transport_event c base params e -> no_file_event e.
Proof. destruct e; cbn; tauto. Qed.

Lemma fetch_event_no_file t c address s e ev :
  fetch_event t c address s e ev -> no_file_event ev.
Proof. destruct ev; cbn; tauto. Qed.

(** ** The retry loop, whatever the remote answers *)

Lemma backoff_succ i : forall d, backoff d (S i) = wrap64 (backoff d i * 2).
Proof.
  induction i as [|i IH]; intros d; [reflexivity|].
  change (backoff d (S (S i))) with (backoff (wrap64 (d * 2)) (S i)).
  rewrite IH. reflexivity.
Qed.

Lemma makeRequest_loop_adds E c base params : forall n retries i,
  adds (transport_event c base params)
    (api.makeRequest_loop E n c base params retries (backoff (api.RetryDelay c) i)).
Proof.
  induction n as [|n IH]; intros retries i; [intros tr; apply only_adds_refl|].
  cbn [api.makeRequest_loop].
  destruct (retries <=? api.MaxRetries c); [|apply adds_ret].
  apply adds_bind.
  { intros tr. cbn. apply only_adds_cons; [split; reflexivity|apply only_adds_refl]. }
  intros [err|s body].
  - destruct (_ >? _); [apply adds_ret|].
    apply adds_bind; [apply adds_emit; exact I|]. intros _.
    apply adds_bind; [apply adds_emit; exists i; reflexivity|]. intros _.
    rewrite <- backoff_succ. apply IH.
  - destruct (_ || _).
    + destruct (_ >? _); [apply adds_ret|].
      apply adds_bind; [apply adds_emit; exact I|]. intros _.
      apply adds_bind; [apply adds_emit; exists i; reflexivity|]. intros _.
      rewrite <- backoff_succ. apply IH.
    + destruct (negb _); [apply adds_ret|]. destruct body; apply adds_ret.
Qed.

Lemma makeRequest_adds E fuel c base params :
  adds (transport_event c base params) (api.makeRequest E fuel c base params).
Proof. apply (makeRequest_loop_adds E c base params fuel 0 0%nat). Qed.

Section FetcherFrame.
Context {T : Type}.
Variable E : Env.
Variable fuel : nat.
Variable action : string.
Variable unmarshal : string -> error + list T.
Variable what : string.
Variable c : api.EtherscanClient.
Variable address : string.
Variables startBlock endBlock : Z.

(** The events of a fetcher with this action. *)
Local Abbreviation page_event :=
  (fun e : event =>
     match e with
     | EvGet b p =>
         b = api.BaseURL c /\
         exists page,
           p = api.page_params action c address startBlock endBlock page api.DefaultOffset
     | EvSleep d => d = 200 * time.Millisecond \/ exists i, d = backoff (api.RetryDelay c) i
     | EvPrint _ _ => True
     | _ => False
     end).

Lemma GetPaginated_adds page :
  adds page_event
    (api.GetPaginated E fuel action unmarshal what c address startBlock endBlock page
       api.DefaultOffset).
Proof.
  unfold api.GetPaginated, api.requestWithRetry.
  apply adds_bind.
  - apply adds_bind.
    + eapply adds_weaken; [|apply makeRequest_adds].
      intros [b p|d|f a|f a|d|txs d f]; cbn; try tauto.
      intros [-> ->]. split; [reflexivity|]. exists page. reflexivity.
    + intros [body [err|]]; [apply adds_ret|].
      destruct (Unmarshal_APIResponse E body) as [err|apiResp]; [apply adds_ret|].
      destruct (negb _); [apply adds_ret|].
      destruct (unmarshal _); apply adds_ret.
  - intros [err|transactions]; [apply adds_ret|].
    apply adds_bind; [|intros _; apply adds_ret].
    destruct (0 <? len transactions); [apply adds_emit; exact I|apply adds_ret].
Qed.

Lemma GetAll_loop_adds : forall n page acc,
  adds page_event
    (api.GetAll_loop E fuel action unmarshal what n c address startBlock endBlock page acc).
Proof.
  induction n as [|n IH]; intros page acc; [intros tr; apply only_adds_refl|].
  cbn [api.GetAll_loop].
  apply adds_bind; [apply adds_emit; exact I|]. intros _.
  apply adds_bind; [apply GetPaginated_adds|].
  intros [transactions [err|]]; [apply adds_ret|].
  cbv zeta. destruct (_ <? _).
  - apply adds_bind; [apply adds_emit; exact I|]. intros _. apply adds_ret.
  - apply adds_bind; [apply adds_emit; left; reflexivity|]. intros _. apply IH.
Qed.

End FetcherFrame.

Lemma GetAll_of_adds E fuel t c address startBlock endBlock :
  adds (fetch_event t c address startBlock endBlock)
    (GetAll_of E fuel t c address startBlock endBlock).
Proof.
  rewrite GetAll_of_unfold. unfold api.GetAll.
  eapply adds_weaken; [|apply GetAll_loop_adds].
  intros e He. exact He.
Qed.

(** X5.  Whatever the remote answers and however the call ends, a
    category fetcher only talks to the network and the console: every
    request goes to the client's base URL and asks for some page of the
    given address and block range (with 1000 records per page, ascending
    order and the client's API key), every sleep is the 200ms pause
    between pages or the retry delay doubled some number of times, and
    no directory or file is touched. *)
Theorem fetchers_only_use_the_network :
  forall (E : Env) (fuel : nat) (t : app.task) (c : api.EtherscanClient)
         (address : string) (startBlock endBlock : Z) (tr : trace),
    only_adds (fetch_event t c address startBlock endBlock) tr
      (snd (GetAll_of E fuel t c address startBlock endBlock tr)) /\
    exports (snd (GetAll_of E fuel t c address startBlock endBlock tr)) = exports tr /\
    mkdirs (snd (GetAll_of E fuel t c address startBlock endBlock tr)) = mkdirs tr.
Proof.
  intros E fuel t c address startBlock endBlock tr.
  pose proof (GetAll_of_adds E fuel t c address startBlock endBlock tr) as Hadds.
  split; [exact Hadds|].
  apply only_adds_no_file.
  eapply only_adds_weaken; [|exact Hadds].
  intros e. apply fetch_event_no_file.
Qed.

(** ** The retrying transport: recovery and the degenerate budget *)

Section Recovery.
Variable E : Env.
Variable c : api.EtherscanClient.
Variable base : string.
Variable params : list (string * string).
Variable r : HttpReply.

Lemma recovers_after : forall (j n : nat) retries delay tr,
  (forall h, (List.length (gets tr) <= List.length (gets h) < List.length (gets tr) + j)%nat ->
             retryable (http_Get E h base params) = true) ->
  (forall h, List.length (gets h) = (List.length (gets tr) + j)%nat ->
             http_Get E h base params = r) ->
  retryable r = false ->
  0 <= retries -> retries + Z.of_nat j <= api.MaxRetries c ->
  api.MaxRetries c < maxInt64 -> (j < n)%nat ->
  exists tr',
    api.makeRequest_loop E n c base params retries delay tr = (Val (settle r), tr') /\
    gets tr' = (gets tr ++ repeat (base, params) (S j))%list /\
    sleeps tr' = (sleeps tr ++ map (backoff delay) (seq 0 j))%list.
Proof.
  unfold maxInt64. change (2 ^ 63) with 9223372036854775808.
  induction j as [|j IH]; intros n retries delay tr Hbad Hgood Hr H0 Hsum Hmax Hn;
    (destruct n as [|n]; [lia|]).
  - assert (Hget : http_Get E tr base params = r) by (apply Hgood; lia).
    rewrite attempt_settled by (lia || (rewrite Hget; assumption)).
    rewrite Hget. eexists. split; [reflexivity|].
    rewrite gets_cons, sleeps_cons. cbn. rewrite app_nil_r. auto.
  - destruct (attempt_retried E c base params n retries delay tr) as (fmt & args & Hstep);
      [lia|apply Hbad; lia|rewrite wrap64_small; lia|].
    rewrite Hstep. rewrite wrap64_small by lia.
    set (tr1 := EvSleep delay :: EvPrint fmt args :: EvGet base params :: tr).
    assert (Hlen : List.length (gets tr1) = S (List.length (gets tr))).
    { unfold tr1. rewrite !gets_cons, !length_app. cbn. lia. }
    destruct (IH n (retries + 1) (wrap64 (delay * 2)) tr1) as (tr' & Hrun & Hg & Hs);
      try lia; try assumption.
    + intros h Hh. apply Hbad. lia.
    + intros h Hh. apply Hgood. lia.
    + exists tr'. split; [exact Hrun|]. split.
      * rewrite Hg. unfold tr1. rewrite !gets_cons. cbn. rewrite !app_nil_r, <- app_assoc.
        reflexivity.
      * rewrite Hs. unfold tr1. rewrite !sleeps_cons. cbn. rewrite !app_nil_r, <- app_assoc.
        cbn. rewrite <- seq_shift, map_map. reflexivity.
Qed.

End Recovery.

(** X6.  If the remote answers the first j requests of a call with a
    retryable failure (connection error, 429, or a status of 500 and
    above) and the next one with any other reply, and j does not exceed
    MaxRetries, then [makeRequest] returns what that reply gives (its
    body for a 200, an error otherwise) after exactly j + 1 requests,
    having slept RetryDelay, 2 RetryDelay, ... before the retries. *)
Theorem request_recovers_after_transient_failures :
  forall (E : Env) (fuel : nat) (c : api.EtherscanClient) (base : string)
         (params : list (string * string)) (j : nat) (r : HttpReply) (tr : trace),
    Z.of_nat j <= api.MaxRetries c -> api.MaxRetries c < maxInt64 -> (j < fuel)%nat ->
    (forall h, (List.length (gets tr) <= List.length (gets h) < List.length (gets tr) + j)%nat ->
               retryable (http_Get E h base params) = true) ->
    (forall h, List.length (gets h) = (List.length (gets tr) + j)%nat ->
               http_Get E h base params = r) ->
    retryable r = false ->
    exists tr',
      api.makeRequest E fuel c base params tr = (Val (settle r), tr') /\
      gets tr' = (gets tr ++ repeat (base, params) (S j))%list /\
      sleeps tr' = (sleeps tr ++ map (backoff (api.RetryDelay c)) (seq 0 j))%list.
Proof.
  intros E fuel c base params j r tr Hj Hmax Hfuel Hbad Hgood Hr.
  unfold api.makeRequest.
  apply (recovers_after E c base params r j fuel 0 (api.RetryDelay c) tr); try assumption; lia.
Qed.

(** The default client against a remote that fails twice and then
    answers: three requests, sleeps of one and two seconds, and the
    body of the third reply. *)
Lemma request_recovers_after_transient_failures_example :
  exists tr',
    api.makeRequest (scenario.flaky 2) 3 sample.client "base" [("page", "1")] [] =
      (Val ("last", None), tr') /\
    gets tr' = repeat ("base", [("page", "1")]) 3 /\
    sleeps tr' = [1000000000; 2000000000].
Proof.
  destruct (request_recovers_after_transient_failures (scenario.flaky 2) 3 sample.client
              "base" [("page", "1")] 2 (Response 200 (inr "last")) [])
    as (tr' & Hrun & Hg & Hs).
  - vm_compute. discriminate.
  - vm_compute. reflexivity.
  - lia.
  - intros h Hh. cbn [scenario.flaky http_Get].
    replace (List.length (gets h) <? 2)%nat with true
      by (symmetry; apply Nat.ltb_lt; cbn in Hh; lia).
    reflexivity.
  - intros h Hh. cbn [scenario.flaky http_Get].
    replace (List.length (gets h) <? 2)%nat with false
      by (symmetry; apply Nat.ltb_ge; cbn in Hh; lia).
    reflexivity.
  - reflexivity.
  - exists tr'. split; [exact Hrun|]. split; [exact Hg|exact Hs].
Defined.

(** X7.  A client whose MaxRetries is negative cannot fetch anything:
    every fetcher returns the error "failed to make API request after
    %d retries" without sending a single request. *)
Theorem negative_retry_budget_sends_nothing :
  forall (E : Env) (fuel : nat) (t : app.task) (c : api.EtherscanClient)
         (address : string) (startBlock endBlock : Z) (tr : trace),
    api.MaxRetries c < 0 -> (0 < fuel)%nat ->
    exists tr',
      GetAll_of E fuel t c address startBlock endBlock tr =
        (Val ([], Some (Errorf "failed to make API request after %d retries"
                          [api.MaxRetries c])), tr') /\
      gets tr' = gets tr /\ sleeps tr' = sleeps tr.
Proof.
  intros E fuel t c address startBlock endBlock tr Hneg Hfuel.
  rewrite GetAll_of_unfold. unfold api.GetAll.
  destruct fuel as [|n]; [lia|].
  cbn [api.GetAll_loop]. unfold fmt_Printf at 1. unfold bind at 1. unfold emit at 1.
  unfold api.GetPaginated, api.requestWithRetry, api.makeRequest.
  cbn [api.makeRequest_loop].
  replace (0 <=? api.MaxRetries c) with false by (symmetry; apply Z.leb_gt; lia).
  unfold bind, ret. eexists. split; [reflexivity|].
  rewrite gets_cons, sleeps_cons, !app_nil_r. auto.
Qed.

Lemma negative_retry_budget_sends_nothing_example :
  exists tr',
    api.GetAllNormalTransactions sample.paged 1
      (api.mkClient "key" api.EtherscanBaseURL (-1) time.Second (10 * time.Second))
      "0xwallet" 0 999999999 [] =
      (Val ([], Some (Errorf "failed to make API request after %d retries" [-1])), tr') /\
    gets tr' = [] /\ sleeps tr' = [].
Proof.
  apply (negative_retry_budget_sends_nothing sample.paged 1 app.TNormal
           (api.mkClient "key" api.EtherscanBaseURL (-1) time.Second (10 * time.Second))
           "0xwallet" 0 999999999 []).
  - reflexivity.
  - lia.
Defined.

(** ** One page *)

Section OnePage.
Context {T : Type}.
Variable E : Env.
Variable fuel : nat.
Variable action : string.
Variable unmarshal : string -> error + list T.
Variable what : string.
Variable c : api.EtherscanClient.
Variable address : string.
Variables startBlock endBlock : Z.

Local Abbreviation page_request p :=
  (api.page_params action c address startBlock endBlock p api.DefaultOffset).

Lemma GetPaginated_envelope_error p status msg tr :
  0 <= api.MaxRetries c -> (0 < fuel)%nat -> status <> "1" ->
  answers_envelope E (api.BaseURL c) (page_request p) status msg ->
  api.GetPaginated E fuel action unmarshal what c address startBlock endBlock p
    api.DefaultOffset tr =
  (Val ([], Some (ErrorfS "API returned error: %s" msg)),
   EvGet (api.BaseURL c) (page_request p) :: tr).
Proof.
  intros Hmax Hfuel Hst Hans.
  destruct (Hans tr) as (body & raw & Hget & Henv).
  unfold api.GetPaginated, api.requestWithRetry, api.makeRequest.
  destruct fuel as [|n]; [lia|].
  rewrite bind_assoc.
  erewrite bind_val; cycle 1.
  { apply attempt_settled; [lia|]. rewrite Hget. reflexivity. }
  rewrite Hget. cbn [settle Z.eqb Pos.eqb negb].
  rewrite Henv. cbn [Status Message].
  apply String.eqb_neq in Hst. rewrite Hst. reflexivity.
Qed.

Lemma GetPaginated_status_error p status tr :
  0 <= api.MaxRetries c -> (0 < fuel)%nat ->
  status <> 200 -> status <> 429 -> status < 500 ->
  answers_status E (api.BaseURL c) (page_request p) status ->
  api.GetPaginated E fuel action unmarshal what c address startBlock endBlock p
    api.DefaultOffset tr =
  (Val ([], Some (Errorf "API request failed with status code: %d" [status])),
   EvGet (api.BaseURL c) (page_request p) :: tr).
Proof.
  intros Hmax Hfuel H200 H429 H500 Hans.
  destruct (Hans tr) as (body & Hget).
  assert (Hre : retryable (Response status body) = false).
  { cbn [retryable]. apply orb_false_iff. split; [apply Z.eqb_neq; assumption|].
    rewrite Z.geb_leb. apply Z.leb_gt. assumption. }
  unfold api.GetPaginated, api.requestWithRetry, api.makeRequest.
  destruct fuel as [|n]; [lia|].
  rewrite bind_assoc.
  erewrite bind_val; cycle 1.
  { apply attempt_settled; [lia|]. rewrite Hget. exact Hre. }
  rewrite Hget. cbn [settle].
  replace (status =? 200) with false by (symmetry; apply Z.eqb_neq; assumption).
  reflexivity.
Qed.

Variable pages : Z -> list T.

(** Full pages keep the loop going. *)
Lemma GetAll_loop_full_pages : forall (j n : nat) p acc tr,
  0 <= api.MaxRetries c -> (0 < fuel)%nat ->
  1 <= p -> p + Z.of_nat j <= maxInt64 ->
  (forall q, p <= q < p + Z.of_nat j ->
     serves E unmarshal (api.BaseURL c) (page_request q) (pages q) /\
     len (pages q) = api.DefaultOffset) ->
  exists tr',
    api.GetAll_loop E fuel action unmarshal what (j + n) c address startBlock endBlock p acc tr =
    api.GetAll_loop E fuel action unmarshal what n c address startBlock endBlock
      (p + Z.of_nat j) (acc ++ List.concat (map pages (pages_from p j)))%list tr' /\
    gets tr' = (gets tr ++ map (fun q => (api.BaseURL c, page_request q)) (pages_from p j))%list /\
    sleeps tr' = (sleeps tr ++ repeat (200 * time.Millisecond) j)%list.
Proof.
  unfold maxInt64. change (2 ^ 63) with 9223372036854775808.
  induction j as [|j IH]; intros n p acc tr Hmax Hfuel Hp Hbound Hfull.
  - exists tr. cbn [Nat.add Z.of_nat]. rewrite Z.add_0_r.
    unfold pages_from. cbn [seq map List.concat repeat]. rewrite !app_nil_r. auto.
  - rewrite Nat2Z.inj_succ in *.
    cbn [Nat.add api.GetAll_loop]. unfold fmt_Printf at 1. unfold bind at 1. unfold emit at 1.
    destruct (Hfull p) as [Hserve Hlen]; [lia|].
    erewrite bind_val; cycle 1.
    { apply GetPaginated_served; [assumption|assumption|exact Hserve]. }
    cbv beta iota zeta.
    replace (len (pages p) <? api.DefaultOffset) with false
      by (symmetry; apply Z.ltb_ge; rewrite Hlen; lia).
    unfold time_Sleep at 1. unfold bind at 1. unfold emit at 1.
    rewrite wrap64_small by lia.
    match goal with
    | |- context [api.GetAll_loop _ _ _ _ _ (j + n) _ _ _ _ (p + 1) ?acc' ?tr1] =>
        destruct (IH n (p + 1) acc' tr1) as (tr' & Hrun & Hg & Hs);
          try assumption; try lia
    end.
    + intros q Hq. apply Hfull. lia.
    + exists tr'. split.
      * rewrite Hrun. rewrite (pages_from_succ p j). cbn [map List.concat].
        rewrite <- app_assoc.
        replace (p + 1 + Z.of_nat j) with (p + Z.succ (Z.of_nat j)) by lia. reflexivity.
      * split.
        -- rewrite Hg. rewrite (pages_from_succ p j). cbn [map].
           rewrite gets_cons, gets_progress, !gets_cons. rewrite !app_nil_r.
           rewrite <- app_assoc. reflexivity.
        -- rewrite Hs. rewrite sleeps_cons, sleeps_progress, !sleeps_cons.
           rewrite !app_nil_r. rewrite <- app_assoc. reflexivity.
Qed.

End OnePage.

Lemma GetPaginated_of_unfold E fuel t :
  GetPaginated_of E fuel t =
  api.GetPaginated E fuel (action_of t) (Unmarshal_of E t) (what_of t).
Proof. destruct t; reflexivity. Qed.

Lemma Get_of_unfold E fuel t :
  Get_of E fuel t = api.Get E fuel (action_of t) (Unmarshal_of E t) (what_of t).
Proof. destruct t; reflexivity. Qed.

(** X8.  When the remote answers the first page request with status
    200 and an envelope whose status field is not "1" (the way the
    service reports, among other things, that an address has no
    transactions of the category), the fetcher fails with "API returned
    error: <message>" after that one request; nothing is retried. *)
Theorem api_error_status_fails_the_fetch :
  forall (E : Env) (fuel : nat) (t : app.task) (c : api.EtherscanClient)
         (address : string) (startBlock endBlock : Z) (status msg : string) (tr : trace),
    0 <= api.MaxRetries c -> (0 < fuel)%nat -> status <> "1" ->
    answers_envelope E (api.BaseURL c) (request_of t c address startBlock endBlock 1)
      status msg ->
    GetAll_of E fuel t c address startBlock endBlock tr =
      (Val ([], Some (ErrorfS "API returned error: %s" msg)),
       EvGet (api.BaseURL c) (request_of t c address startBlock endBlock 1)
       :: EvPrint ("Fetching " ++ what_of t ++ " page %d...\n") [AInt 1] :: tr).
Proof.
  intros E fuel t c address startBlock endBlock status msg tr Hmax Hfuel Hst Hans.
  rewrite GetAll_of_unfold. unfold api.GetAll.
  destruct fuel as [|n] eqn:Hn; [lia|].
  cbn [api.GetAll_loop]. unfold fmt_Printf at 1. unfold bind at 1. unfold emit at 1.
  erewrite bind_val; cycle 1.
  { rewrite <- Hn. eapply GetPaginated_envelope_error; try eassumption. lia. }
  reflexivity.
Qed.

Lemma api_error_status_fails_the_fetch_example :
  api.GetAllERC721Transfers scenario.nothing_found 1 sample.client "0xwallet" 0 999999999 [] =
    (Val ([], Some (ErrorfS "API returned error: %s" "No transactions found")),
     [EvGet api.EtherscanBaseURL
        (request_of app.TERC721 sample.client "0xwallet" 0 999999999 1);
      EvPrint "Fetching ERC721 NFT transfers page %d...\n" [AInt 1]]).
Proof.
  apply (api_error_status_fails_the_fetch scenario.nothing_found 1 app.TERC721 sample.client
           "0xwallet" 0 999999999 "0" "No transactions found" []).
  - vm_compute. discriminate.
  - lia.
  - discriminate.
  - intros h. do 2 eexists. split; reflexivity.
Defined.

(** X9.  [Get...] (the fetcher without "All") asks for page 1 with
    1000 records per page and returns what that page holds after this
    single request, also when the page is full and more records
    exist. *)
Theorem Get_returns_the_first_page_only :
  forall (E : Env) (fuel : nat) (t : app.task) (c : api.EtherscanClient)
         (address : string) (startBlock endBlock : Z) (records : list (raw t)) (tr : trace),
    0 <= api.MaxRetries c -> (0 < fuel)%nat ->
    serves E (Unmarshal_of E t) (api.BaseURL c)
      (request_of t c address startBlock endBlock 1) records ->
    Get_of E fuel t c address startBlock endBlock tr =
      (Val (records, None),
       (progress (what_of t) 1 records
        ++ EvGet (api.BaseURL c) (request_of t c address startBlock endBlock 1) :: tr)%list).
Proof.
  intros E fuel t c address startBlock endBlock records tr Hmax Hfuel Hserve.
  rewrite Get_of_unfold. unfold api.Get.
  apply GetPaginated_served; assumption.
Qed.

(** Against the sample remote holding 1001 normal transactions,
    [GetNormalTransactions] returns the first thousand. *)
Lemma Get_returns_the_first_page_only_example :
  exists tr',
    api.GetNormalTransactions sample.paged 1 sample.client "0xwallet" 0 999999999 [] =
      (Val (repeat (sample.one app.TNormal) 1000, None), tr') /\
    List.length (gets tr') = 1%nat.
Proof.
  eexists. split.
  - apply (Get_returns_the_first_page_only sample.paged 1 app.TNormal sample.client
             "0xwallet" 0 999999999 (repeat (sample.one app.TNormal) 1000) []).
    + vm_compute. discriminate.
    + lia.
    + intros h. do 3 eexists. repeat split; reflexivity.
  - reflexivity.
Defined.

(** X10.  All or nothing: if the remote serves k full pages and then
    refuses page k + 1 with a status that is neither 200 nor retried,
    [GetAll...] returns the status error and no record at all; the
    k * 1000 records already fetched are dropped.  It has then issued
    k + 1 requests. *)
Theorem page_failure_discards_fetched_pages :
  forall (E : Env) (fuel : nat) (t : app.task) (c : api.EtherscanClient)
         (address : string) (startBlock endBlock : Z) (k : nat)
         (pages : Z -> list (raw t)) (status : Z) (tr : trace),
    0 <= api.MaxRetries c -> Z.of_nat k + 1 <= maxInt64 -> (k < fuel)%nat ->
    (forall p, 1 <= p <= Z.of_nat k ->
       serves E (Unmarshal_of E t) (api.BaseURL c)
         (request_of t c address startBlock endBlock p) (pages p) /\
       len (pages p) = api.DefaultOffset) ->
    status <> 200 -> status <> 429 -> status < 500 ->
    answers_status E (api.BaseURL c)
      (request_of t c address startBlock endBlock (Z.of_nat k + 1)) status ->
    exists tr',
      GetAll_of E fuel t c address startBlock endBlock tr =
        (Val ([], Some (Errorf "API request failed with status code: %d" [status])), tr') /\
      gets tr' =
        (gets tr ++ map (fun p => (api.BaseURL c, request_of t c address startBlock endBlock p))
                     (pages_from 1 (S k)))%list /\
      sleeps tr' = (sleeps tr ++ repeat (200 * time.Millisecond) k)%list.
Proof.
  intros E fuel t c address startBlock endBlock k pages status tr
         Hmax Hk Hfuel Hfull H200 H429 H500 Hans.
  rewrite GetAll_of_unfold. unfold api.GetAll.
  destruct (GetAll_loop_full_pages E fuel (action_of t) (Unmarshal_of E t) (what_of t) c
              address startBlock endBlock pages k (fuel - k) 1 [] tr)
    as (tr1 & Hrun & Hg & Hs); try assumption; try lia.
  { intros q Hq. apply Hfull. lia. }
  replace (k + (fuel - k))%nat with fuel in Hrun by lia.
  rewrite Hrun. clear Hrun.
  destruct (fuel - k)%nat as [|n] eqn:Hn; [lia|].
  cbn [api.GetAll_loop]. unfold fmt_Printf at 1. unfold bind at 1. unfold emit at 1.
  erewrite bind_val; cycle 1.
  { eapply GetPaginated_status_error; try eassumption; try lia.
    replace (1 + Z.of_nat k) with (Z.of_nat k + 1) by lia. exact Hans. }
  eexists. split; [reflexivity|]. split.
  - rewrite !gets_cons, Hg, app_nil_r, <- app_assoc. f_equal.
    replace (S k) with (k + 1)%nat by lia.
    unfold pages_from. rewrite seq_app, map_app, map_app. cbn [seq map Nat.add].
    replace (1 + Z.of_nat k) with (1 + Z.of_nat (0 + k)) by lia. reflexivity.
  - rewrite !sleeps_cons, Hs, !app_nil_r. reflexivity.
Qed.

Lemma page_failure_discards_fetched_pages_example :
  exists tr',
    api.GetAllNormalTransactions scenario.second_page_refused 2 sample.client "0xwallet"
      0 999999999 [] =
      (Val ([], Some (Errorf "API request failed with status code: %d" [403])), tr') /\
    List.length (gets tr') = 2%nat.
Proof.
  destruct (page_failure_discards_fetched_pages scenario.second_page_refused 2 app.TNormal
              sample.client "0xwallet" 0 999999999 1
              (fun _ => repeat (sample.one app.TNormal) 1000) 403 [])
    as (tr' & Hrun & Hg & _).
  - vm_compute. discriminate.
  - vm_compute. discriminate.
  - lia.
  - intros p Hp. assert (p = 1) by lia. subst p. split; [|reflexivity].
    intros h. do 3 eexists. repeat split; reflexivity.
  - discriminate.
  - discriminate.
  - reflexivity.
  - intros h. eexists. reflexivity.
  - exists tr'. split; [exact Hrun|]. rewrite Hg. reflexivity.
Defined.

(** X11.  The page loop has no bound of its own: against a remote on
    which every page is full, [GetAll...] does not return within any
    number of iterations, and in n iterations it issues n requests. *)
Theorem full_pages_never_end :
  forall (E : Env) (fuel : nat) (t : app.task) (c : api.EtherscanClient)
         (address : string) (startBlock endBlock : Z)
         (pages : Z -> list (raw t)) (tr : trace),
    0 <= api.MaxRetries c -> Z.of_nat fuel < maxInt64 ->
    (forall p, 1 <= p ->
       serves E (Unmarshal_of E t) (api.BaseURL c)
         (request_of t c address startBlock endBlock p) (pages p) /\
       len (pages p) = api.DefaultOffset) ->
    exists tr',
      GetAll_of E fuel t c address startBlock endBlock tr = (OutOfFuel, tr') /\
      List.length (gets tr') = (List.length (gets tr) + fuel)%nat.
Proof.
  intros E fuel t c address startBlock endBlock pages tr Hmax Hfuel Hfull.
  rewrite GetAll_of_unfold. unfold api.GetAll.
  destruct fuel as [|n] eqn:Hn.
  - exists tr. split; [reflexivity|lia].
  - rewrite <- Hn.
    destruct (GetAll_loop_full_pages E fuel (action_of t) (Unmarshal_of E t) (what_of t) c
                address startBlock endBlock pages fuel 0 1 [] tr)
      as (tr1 & Hrun & Hg & _); try assumption; try lia.
    { intros q Hq. apply Hfull. lia. }
    replace (fuel + 0)%nat with fuel in Hrun by lia.
    rewrite Hrun. exists tr1. split; [reflexivity|].
    rewrite Hg, length_app, length_map. unfold pages_from. rewrite length_map, length_seq. lia.
Qed.

Lemma full_pages_never_end_example :
  exists tr',
    api.GetAllInternalTransactions scenario.bottomless 3 sample.client "0xwallet"
      0 999999999 [] = (OutOfFuel, tr') /\
    List.length (gets tr') = 3%nat.
Proof.
  apply (full_pages_never_end scenario.bottomless 3 app.TInternal sample.client "0xwallet"
           0 999999999 (fun _ => repeat (sample.one app.TInternal) 1000) []).
  - vm_compute. discriminate.
  - vm_compute. reflexivity.
  - intros p Hp. split; [|reflexivity].
    intros h. do 3 eexists. repeat split; reflexivity.
Defined.

(** ** Whole-range mode: conversion and output *)

Lemma logs_log_events ws tr :
  logs (rev (log_events ws) ++ tr)%list = (logs tr ++ ws)%list.
Proof.
  unfold logs. rewrite rev_app_distr, rev_involutive, flat_map_app. f_equal.
  induction ws as [|[f a] ws IH]; [reflexivity|]. cbn. f_equal. exact IH.
Qed.

Lemma only_adds_log_events ws tr :
  only_adds no_file_event tr (rev (log_events ws) ++ tr)%list.
Proof.
  exists (rev (log_events ws)). split; [reflexivity|].
  apply Forall_rev. unfold log_events. apply Forall_map.
  apply Forall_forall. intros w _. exact I.
Qed.

(** With a record that panics the loop panics, having added nothing
    but warnings to the trace. *)
Lemma convert_logged_panics {T} (conv : T -> exec convert.converted) hash warning :
  forall txs acc tr,
    Exists (panics conv) txs ->
    exists msg tx tr',
      In tx txs /\ conv tx = Panic msg /\
      app.convert_logged conv hash warning txs acc tr = (Panicked msg, tr') /\
      only_adds no_file_event tr tr'.
Proof.
  induction txs as [|tx txs IH]; intros acc tr Hex; [inversion Hex|].
  cbn [app.convert_logged].
  destruct (conv tx) as [[m [e|]]|msg] eqn:Hc.
  - assert (Hrest : Exists (panics conv) txs).
    { inversion Hex as [? ? [msg Hp]|]; subst; [congruence|assumption]. }
    unfold log_Printf at 1. unfold bind at 1. unfold emit at 1.
    destruct (IH acc (EvLog warning [AStr (hash tx); AErr e] :: tr) Hrest)
      as (msg & tx' & tr' & Hin & Hp & Hrun & Hadds).
    exists msg, tx', tr'. split; [right; assumption|]. split; [assumption|].
    split; [assumption|].
    eapply only_adds_trans; [|exact Hadds].
    apply only_adds_cons; [exact I|apply only_adds_refl].
  - assert (Hrest : Exists (panics conv) txs).
    { inversion Hex as [? ? [msg Hp]|]; subst; [congruence|assumption]. }
    destruct (IH (acc ++ [m])%list tr Hrest) as (msg & tx' & tr' & Hin & Hp & Hrun & Hadds).
    exists msg, tx', tr'. split; [right; assumption|]. auto.
  - exists msg, tx, tr. split; [left; reflexivity|]. split; [assumption|].
    split; [reflexivity|apply only_adds_refl].
Qed.

Lemma bind_panicked {A B} (m : io A) (k : A -> io B) tr msg tr' :
  m tr = (Panicked msg, tr') -> bind m k tr = (Panicked msg, tr').
Proof. intros H. unfold bind. rewrite H. reflexivity. Qed.

Lemma panics_dec {T} (conv : T -> exec convert.converted) (txs : list T) :
  Forall (fun tx => ~ panics conv tx) txs \/ Exists (panics conv) txs.
Proof.
  induction txs as [|tx txs [IH|IH]].
  - left. constructor.
  - destruct (conv tx) as [r|msg] eqn:Hc.
    + left. constructor; [|assumption]. intros [msg Hp]. congruence.
    + right. apply Exists_cons_hd. exists msg. assumption.
  - right. apply Exists_cons_tl. assumption.
Qed.

Lemma conversion_panic_message (t : app.task) (tx : raw t) msg :
  conv_of t tx = Panic msg -> msg = nil_deref.
Proof.
  intros Hp. pose proof (conversion_outcomes t tx) as Hout.
  destruct (int64_string (timestamp_of t tx)).
  - destruct Hout as [[m Hm]|Hn]; congruence.
  - destruct Hout as [e He]. congruence.
Qed.

Lemma no_errors_recorded sched f :
  (forall t, fetch_error t f = None) -> recorded_errors sched f = [].
Proof.
  intros Hok. unfold recorded_errors.
  induction sched as [|t sched IH]; [reflexivity|].
  cbn [flat_map]. rewrite (Hok t), IH. reflexivity.
Qed.

Lemma payload_ok (t : app.task) (f : app.fetched) :
  fetch_error t f = None ->
  match t return list (raw t) -> Prop with
  | app.TNormal => fun l => payload (app.fetchedNormal f) = l
  | app.TInternal => fun l => payload (app.fetchedInternal f) = l
  | app.TERC20 => fun l => payload (app.fetchedERC20 f) = l
  | app.TERC721 => fun l => payload (app.fetchedERC721 f) = l
  end (fetched_records t f).
Proof.
  destruct t; cbn [fetch_error fetched_records]; unfold payload; intros ->; reflexivity.
Qed.

Lemma only_adds_starting sched tr :
  only_adds no_file_event tr (map starting (rev sched) ++ tr)%list.
Proof.
  exists (map starting (rev sched)). split; [reflexivity|].
  apply Forall_map. apply Forall_forall. intros t _. destruct t; exact I.
Qed.

Lemma logs_starting sched tr : logs (map starting (rev sched) ++ tr)%list = logs tr.
Proof.
  induction (rev sched) as [|t l IH]; [reflexivity|].
  cbn [map List.app]. rewrite logs_cons, IH. destruct t; apply app_nil_r.
Qed.

Section WholeRange.
Variable E : Env.
Variable fuel : nat.
Variable fl : app.Flags.
Variable sched : list app.task.
Variable f : app.fetched.
Variable tr : trace.

Hypothesis address_given : app.address fl <> "".
Hypothesis apiKey_given : app.apiKey fl <> "".
Hypothesis whole_range : app.batchBlocks fl <= 0.
Hypothesis schedule : is_schedule sched = true.
Hypothesis fetches_ok : forall t, fetch_error t f = None.

(** The trace when the goroutines are done. *)
Local Abbreviation fetched_trace := (map starting (rev sched) ++ banner fl ++ tr)%list.

Lemma main_until_collect :
  app.main E fuel fl sched f tr =
  app.main_collect E fl
    (app.mkChannels [fetched_records app.TNormal f] [fetched_records app.TInternal f]
       [fetched_records app.TERC20 f] [fetched_records app.TERC721 f] [] 0)
    fetched_trace.
Proof.
  unfold app.main.
  apply String.eqb_neq in address_given. apply String.eqb_neq in apiKey_given.
  rewrite address_given, apiKey_given.
  replace (0 <? app.batchBlocks fl) with false by (symmetry; apply Z.ltb_ge; lia).
  unfold fmt_Printf at 1. unfold bind at 1. unfold emit at 1.
  unfold fmt_Printf at 1. unfold bind at 1. unfold emit at 1.
  unfold app.main_whole_range.
  erewrite bind_val by (apply run_goroutines_complete; exact schedule).
  rewrite (no_errors_recorded sched f fetches_ok).
  rewrite (payload_ok app.TNormal f (fetches_ok _)).
  rewrite (payload_ok app.TInternal f (fetches_ok _)).
  rewrite (payload_ok app.TERC20 f (fetches_ok _)).
  rewrite (payload_ok app.TERC721 f (fetches_ok _)).
  reflexivity.
Qed.

(** The output stage of [main]: make the directory, export, report. *)
Local Abbreviation output_stage allTxs :=
  (bind (app.MkdirAll E (app.outputDir fl))
     (fun merr =>
        match merr with
        | Some err => log_Fatalf "Error creating output directory: %v" [AErr err]
        | None =>
            bind (app.ExportTransactionsToCSV E allTxs (app.outputDir fl)
                    (app.address fl ++ "_tx_history.csv"))
              (fun xerr =>
                 match xerr with
                 | Some err => log_Fatalf "Error exporting to CSV: %v" [AErr err]
                 | None =>
                     fmt_Printf "Exported transaction history to %s\n"
                       [AStr (app.outputDir fl); AStr (app.address fl ++ "_tx_history.csv")]
                 end)
        end)).

(** The trace when the records are converted and counted. *)
Local Abbreviation converted_trace :=
  (EvPrint "Total transactions: %d\n" [AInt (len (whole_range_models f))]
   :: EvPrint "Total transactions processed: %d\n" [AInt (len (whole_range_models f))]
   :: rev (log_events (whole_range_warnings f)) ++ fetched_trace)%list.

Lemma main_until_output :
  (forall t, Forall (fun tx => ~ panics (conv_of t) tx) (fetched_records t f)) ->
  app.main E fuel fl sched f tr = output_stage (whole_range_models f) converted_trace.
Proof.
  intros Hnp. rewrite main_until_collect.
  unfold app.main_collect. cbn [app.wg app.errorCh Z.eqb negb].
  cbn [app.normalTxCh app.internalTxCh app.erc20TxCh app.erc721TxCh].
  unfold app.recv at 1. unfold ret at 1. unfold bind at 1.
  erewrite bind_val by (apply (convert_logged_run (conv_of app.TNormal)); apply Hnp).
  unfold app.recv at 1. unfold ret at 1. unfold bind at 1.
  erewrite bind_val by (apply (convert_logged_run (conv_of app.TInternal)); apply Hnp).
  unfold app.recv at 1. unfold ret at 1. unfold bind at 1.
  erewrite bind_val by (apply (convert_logged_run (conv_of app.TERC20)); apply Hnp).
  unfold app.recv at 1. unfold ret at 1. unfold bind at 1.
  erewrite bind_val by (apply (convert_logged_run (conv_of app.TERC721)); apply Hnp).
  unfold fmt_Printf at 1. unfold bind at 1. unfold emit at 1.
  unfold fmt_Printf at 1. unfold bind at 1. unfold emit at 1.
  assert (Hm : (((([] ++ survivors (conv_of app.TNormal) (fetched_records app.TNormal f))
                  ++ survivors (conv_of app.TInternal) (fetched_records app.TInternal f))
                 ++ survivors (conv_of app.TERC20) (fetched_records app.TERC20 f))
                ++ survivors (conv_of app.TERC721) (fetched_records app.TERC721 f))%list
               = whole_range_models f).
  { unfold whole_range_models, all_tasks. cbn [flat_map List.app].
    rewrite app_nil_r, <- !app_assoc. reflexivity. }
  rewrite Hm.
  assert (Hw : forall rest,
             (rev (log_events (warnings (conv_of app.TERC721) ERC721Transaction.Hash
                                 "Warning: Failed to process ERC721 transaction %s: %v"
                                 (fetched_records app.TERC721 f)))
              ++ rev (log_events (warnings (conv_of app.TERC20) ERC20Transaction.Hash
                                    "Warning: Failed to process ERC20 transaction %s: %v"
                                    (fetched_records app.TERC20 f)))
              ++ rev (log_events (warnings (conv_of app.TInternal) InternalTransaction.Hash
                                    "Warning: Failed to process internal transaction %s: %v"
                                    (fetched_records app.TInternal f)))
              ++ rev (log_events (warnings (conv_of app.TNormal) NormalTransaction.Hash
                                    "Warning: Failed to process normal transaction %s: %v"
                                    (fetched_records app.TNormal f)))
              ++ rest)%list
             = (rev (log_events (whole_range_warnings f)) ++ rest)%list).
  { intros rest. unfold whole_range_warnings, all_tasks, log_events.
    cbn [flat_map hash_of warning_of]. rewrite app_nil_r.
    rewrite !map_app, !rev_app_distr, <- !app_assoc. reflexivity. }
  cbn [conv_of] in Hw. rewrite Hw. reflexivity.
Qed.

End WholeRange.

Lemma converted_trace_reads (fl : app.Flags) sched ws n tr :
  let ct := (EvPrint "Total transactions: %d\n" [AInt n]
             :: EvPrint "Total transactions processed: %d\n" [AInt n]
             :: rev (log_events ws) ++ map starting (rev sched) ++ banner fl ++ tr)%list in
  exports ct = exports tr /\ mkdirs ct = mkdirs tr /\ logs ct = (logs tr ++ ws)%list.
Proof.
  intros ct. split; [|split].
  - apply only_adds_no_file. unfold ct.
    do 2 (apply only_adds_cons; [exact I|]).
    eapply only_adds_trans; [|apply only_adds_log_events].
    eapply only_adds_trans; [|apply only_adds_starting].
    unfold banner. cbn [List.app].
    do 2 (apply only_adds_cons; [exact I|]). apply only_adds_refl.
  - apply only_adds_no_file. unfold ct.
    do 2 (apply only_adds_cons; [exact I|]).
    eapply only_adds_trans; [|apply only_adds_log_events].
    eapply only_adds_trans; [|apply only_adds_starting].
    unfold banner. cbn [List.app].
    do 2 (apply only_adds_cons; [exact I|]). apply only_adds_refl.
  - unfold ct. rewrite !logs_cons, !app_nil_r, logs_log_events, logs_starting.
    unfold banner. cbn [List.app]. rewrite !logs_cons, !app_nil_r. reflexivity.
Qed.

(** X12.  Whole-range mode, when the four fetches succeed and no record
    panics: whatever the order in which the goroutines finish, [main]
    makes the output directory and exports one file,
    <address>_tx_history.csv, holding the converted normal, internal,
    ERC-20 and ERC-721 records, in this order of categories and in the
    order fetched within a category; each record whose timestamp does
    not parse is left out and reported by one warning. *)
Theorem whole_range_exports_by_category :
  forall (E : Env) (fuel : nat) (fl : app.Flags) (sched : list app.task)
         (f : app.fetched) (tr : trace),
    app.address fl <> "" -> app.apiKey fl <> "" -> app.batchBlocks fl <= 0 ->
    is_schedule sched = true ->
    (forall t, fetch_error t f = None) ->
    (forall t, Forall (fun tx => ~ panics (conv_of t) tx) (fetched_records t f)) ->
    (forall h, os_MkdirAll E h (app.outputDir fl) = None) ->
    (forall h txs,
       utils_ExportTransactionsToCSV E h txs (app.outputDir fl)
         (app.address fl ++ "_tx_history.csv") = None) ->
    exists tr',
      app.main E fuel fl sched f tr = (Val tt, tr') /\
      mkdirs tr' = (mkdirs tr ++ [app.outputDir fl])%list /\
      exports tr' =
        (exports tr ++ [(whole_range_models f, app.outputDir fl,
                         (app.address fl ++ "_tx_history.csv")%string)])%list /\
      logs tr' = (logs tr ++ whole_range_warnings f)%list.
Proof.
  intros E fuel fl sched f tr Haddr Hkey Hbatch Hs Hok Hnp Hmk Hex.
  rewrite (main_until_output E fuel fl sched f tr) by assumption.
  unfold app.MkdirAll at 1. unfold bind at 1. rewrite Hmk.
  unfold app.ExportTransactionsToCSV at 1. unfold bind at 1. rewrite Hex.
  unfold fmt_Printf, emit. eexists. split; [reflexivity|].
  destruct (converted_trace_reads fl sched (whole_range_warnings f)
              (len (whole_range_models f)) tr) as (Hx & Hm & Hl).
  cbv zeta in Hx, Hm, Hl.
  do 3 rewrite mkdirs_cons. do 3 rewrite exports_cons. do 3 rewrite logs_cons.
  rewrite Hx, Hm, Hl, !app_nil_r. auto.
Qed.

(** The goroutines finishing in the order ERC-721, ERC-20, internal,
    normal: the file still starts with the normal record; the record
    with the unparsable timestamp is missing from it. *)
Lemma whole_range_exports_by_category_example :
  exists tr' m1 m2 m3 m4 w,
    app.main sample.paged 1 sample.flags
      [app.TERC721; app.TERC20; app.TInternal; app.TNormal] scenario.fetched_ok [] =
      (Val tt, tr') /\
    exports tr' = [([m1; m2; m3; m4], "./output", "0xwallet_tx_history.csv")] /\
    models.Type_ m1 = models.TypeEthTransfer /\
    models.Type_ m2 = models.TypeInternalTx /\
    models.Type_ m3 = models.TypeERC20Transfer /\
    models.Type_ m4 = models.TypeERC721Transfer /\
    logs tr' = [w].
Proof.
  destruct (whole_range_exports_by_category sample.paged 1 sample.flags
              [app.TERC721; app.TERC20; app.TInternal; app.TNormal] scenario.fetched_ok [])
    as (tr' & Hrun & _ & Hx & Hl).
  - discriminate.
  - discriminate.
  - vm_compute. discriminate.
  - reflexivity.
  - intros t. destruct t; reflexivity.
  - intros t. destruct t; repeat constructor; intros [msg Hp]; vm_compute in Hp; discriminate.
  - reflexivity.
  - reflexivity.
  - exists tr'. do 5 eexists. split; [exact Hrun|].
    split; [rewrite Hx; vm_compute; reflexivity|].
    split; [reflexivity|]. split; [reflexivity|]. split; [reflexivity|].
    split; [reflexivity|]. rewrite Hl. vm_compute. reflexivity.
Defined.

(** X13.  Whole-range mode, when the four fetches succeed and no record
    panics: if the output directory cannot be made, [main] ends through
    [log.Fatalf] (exit status 1) without attempting the export; if the
    directory is made and the export fails, [main] ends through
    [log.Fatalf] as well. *)
Theorem output_failures_are_fatal :
  forall (E : Env) (fuel : nat) (fl : app.Flags) (sched : list app.task)
         (f : app.fetched) (tr : trace),
    app.address fl <> "" -> app.apiKey fl <> "" -> app.batchBlocks fl <= 0 ->
    is_schedule sched = true ->
    (forall t, fetch_error t f = None) ->
    (forall t, Forall (fun tx => ~ panics (conv_of t) tx) (fetched_records t f)) ->
    (forall err,
       (forall h, os_MkdirAll E h (app.outputDir fl) = Some err) ->
       exists tr',
         app.main E fuel fl sched f tr = (Exited 1, tr') /\
         exports tr' = exports tr /\
         logs tr' = (logs tr ++ whole_range_warnings f
                     ++ [("Error creating output directory: %v", [AErr err])])%list) /\
    (forall err,
       (forall h, os_MkdirAll E h (app.outputDir fl) = None) ->
       (forall h txs,
          utils_ExportTransactionsToCSV E h txs (app.outputDir fl)
            (app.address fl ++ "_tx_history.csv") = Some err) ->
       exists tr',
         app.main E fuel fl sched f tr = (Exited 1, tr') /\
         exports tr' =
           (exports tr ++ [(whole_range_models f, app.outputDir fl,
                            (app.address fl ++ "_tx_history.csv")%string)])%list /\
         logs tr' = (logs tr ++ whole_range_warnings f
                     ++ [("Error exporting to CSV: %v", [AErr err])])%list).
Proof.
  intros E fuel fl sched f tr Haddr Hkey Hbatch Hs Hok Hnp.
  destruct (converted_trace_reads fl sched (whole_range_warnings f)
              (len (whole_range_models f)) tr) as (Hx & Hm & Hl).
  cbv zeta in Hx, Hm, Hl.
  split.
  - intros err Hmk.
    rewrite (main_until_output E fuel fl sched f tr) by assumption.
    unfold app.MkdirAll at 1. unfold bind at 1. rewrite Hmk.
    unfold log_Fatalf. eexists. split; [reflexivity|].
    do 2 rewrite exports_cons. do 2 rewrite logs_cons.
    rewrite Hx, Hl, !app_nil_r, <- app_assoc. auto.
  - intros err Hmk Hex.
    rewrite (main_until_output E fuel fl sched f tr) by assumption.
    unfold app.MkdirAll at 1. unfold bind at 1. rewrite Hmk.
    unfold app.ExportTransactionsToCSV at 1. unfold bind at 1. rewrite Hex.
    unfold log_Fatalf. eexists. split; [reflexivity|].
    do 3 rewrite exports_cons. do 3 rewrite logs_cons.
    rewrite Hx, Hl, !app_nil_r, <- !app_assoc. auto.
Qed.

Lemma output_failures_are_fatal_example :
  exists tr',
    app.main scenario.read_only 1 sample.flags
      [app.TNormal; app.TInternal; app.TERC20; app.TERC721] scenario.fetched_ok [] =
      (Exited 1, tr') /\
    exports tr' = [].
Proof.
  destruct (output_failures_are_fatal scenario.read_only 1 sample.flags
              [app.TNormal; app.TInternal; app.TERC20; app.TERC721] scenario.fetched_ok [])
    as [Hmkdir _].
  - discriminate.
  - discriminate.
  - vm_compute. discriminate.
  - reflexivity.
  - intros t. destruct t; reflexivity.
  - intros t. destruct t; repeat constructor; intros [msg Hp]; vm_compute in Hp; discriminate.
  - destruct (Hmkdir (External "mkdir ./output: read-only file system") (fun _ => eq_refl))
      as (tr' & Hrun & Hx & _).
    exists tr'. split; [exact Hrun|exact Hx].
Defined.

(** X14.  Whole-range mode, when the four fetches succeed but some
    fetched record has a valid timestamp and an amount field that is
    not an integer string: [main] panics with a nil pointer
    dereference; no directory is made and nothing is exported, however
    many other records are sound. *)
Theorem malformed_amount_aborts_the_export :
  forall (E : Env) (fuel : nat) (fl : app.Flags) (sched : list app.task)
         (f : app.fetched) (tr : trace),
    app.address fl <> "" -> app.apiKey fl <> "" -> app.batchBlocks fl <= 0 ->
    is_schedule sched = true ->
    (forall t, fetch_error t f = None) ->
    (exists t tx, In tx (fetched_records t f) /\ panics (conv_of t) tx) ->
    exists tr',
      app.main E fuel fl sched f tr = (Panicked nil_deref, tr') /\
      exports tr' = exports tr /\ mkdirs tr' = mkdirs tr.
Proof.
  intros E fuel fl sched f tr Haddr Hkey Hbatch Hs Hok (t0 & tx0 & Hin0 & Hp0).
  rewrite (main_until_collect E fuel fl sched f tr) by assumption.
  assert (Hstart : only_adds no_file_event tr
                     (map starting (rev sched) ++ banner fl ++ tr)%list).
  { eapply only_adds_trans; [|apply only_adds_starting].
    unfold banner. cbn [List.app].
    do 2 (apply only_adds_cons; [exact I|]). apply only_adds_refl. }
  revert Hstart. generalize (map starting (rev sched) ++ banner fl ++ tr)%list.
  intros tr0 Hstart.
  unfold app.main_collect. cbn [app.wg app.errorCh Z.eqb negb].
  cbn [app.normalTxCh app.internalTxCh app.erc20TxCh app.erc721TxCh].
  assert (Hdone : forall msg (t : app.task) (tx : raw t) tr',
             conv_of t tx = Panic msg -> only_adds no_file_event tr tr' ->
             exists tr'',
               (Panicked msg, tr') = (@Panicked unit nil_deref, tr'') /\
               exports tr'' = exports tr /\ mkdirs tr'' = mkdirs tr).
  { intros msg t tx tr' Hp Hadds. apply conversion_panic_message in Hp. subst msg.
    exists tr'. split; [reflexivity|]. apply only_adds_no_file. assumption. }
  unfold app.recv at 1. unfold ret at 1. unfold bind at 1. cbv beta iota.
  destruct (panics_dec (conv_of app.TNormal) (fetched_records app.TNormal f)) as [Hn1|Hp1].
  2:{ destruct (convert_logged_panics (conv_of app.TNormal) NormalTransaction.Hash
                  "Warning: Failed to process normal transaction %s: %v" _ [] tr0 Hp1)
        as (msg & tx & tr' & _ & Hp & Hrun & Hadds).
      erewrite bind_panicked by exact Hrun.
      apply (Hdone msg app.TNormal tx); [exact Hp|].
      eapply only_adds_trans; eassumption. }
  erewrite bind_val by (apply (convert_logged_run (conv_of app.TNormal)); exact Hn1).
  match goal with
  | |- context [bind _ _ ?t1] =>
      assert (H1 : only_adds no_file_event tr t1)
        by (eapply only_adds_trans; [exact Hstart|apply only_adds_log_events]);
      revert H1; generalize t1; intros tr1 H1
  end.
  unfold app.recv at 1. unfold ret at 1. unfold bind at 1. cbv beta iota.
  destruct (panics_dec (conv_of app.TInternal) (fetched_records app.TInternal f)) as [Hn2|Hp2].
  2:{ match goal with
      | |- context [bind (app.convert_logged _ _ _ _ ?acc) _ _] =>
          destruct (convert_logged_panics (conv_of app.TInternal) InternalTransaction.Hash
                      "Warning: Failed to process internal transaction %s: %v" _ acc tr1 Hp2)
            as (msg & tx & tr' & _ & Hp & Hrun & Hadds)
      end.
      erewrite bind_panicked by exact Hrun.
      apply (Hdone msg app.TInternal tx); [exact Hp|].
      eapply only_adds_trans; eassumption. }
  erewrite bind_val by (apply (convert_logged_run (conv_of app.TInternal)); exact Hn2).
  match goal with
  | |- context [bind _ _ ?t1] =>
      assert (H2 : only_adds no_file_event tr t1)
        by (eapply only_adds_trans; [exact H1|apply only_adds_log_events]);
      revert H2; generalize t1; intros tr2 H2
  end.
  unfold app.recv at 1. unfold ret at 1. unfold bind at 1. cbv beta iota.
  destruct (panics_dec (conv_of app.TERC20) (fetched_records app.TERC20 f)) as [Hn3|Hp3].
  2:{ match goal with
      | |- context [bind (app.convert_logged _ _ _ _ ?acc) _ _] =>
          destruct (convert_logged_panics (conv_of app.TERC20) ERC20Transaction.Hash
                      "Warning: Failed to process ERC20 transaction %s: %v" _ acc tr2 Hp3)
            as (msg & tx & tr' & _ & Hp & Hrun & Hadds)
      end.
      erewrite bind_panicked by exact Hrun.
      apply (Hdone msg app.TERC20 tx); [exact Hp|].
      eapply only_adds_trans; eassumption. }
  erewrite bind_val by (apply (convert_logged_run (conv_of app.TERC20)); exact Hn3).
  match goal with
  | |- context [bind _ _ ?t1] =>
      assert (H3 : only_adds no_file_event tr t1)
        by (eapply only_adds_trans; [exact H2|apply only_adds_log_events]);
      revert H3; generalize t1; intros tr3 H3
  end.
  unfold app.recv at 1. unfold ret at 1. unfold bind at 1. cbv beta iota.
  destruct (panics_dec (conv_of app.TERC721) (fetched_records app.TERC721 f)) as [Hn4|Hp4].
  2:{ match goal with
      | |- context [bind (app.convert_logged _ _ _ _ ?acc) _ _] =>
          destruct (convert_logged_panics (conv_of app.TERC721) ERC721Transaction.Hash
                      "Warning: Failed to process ERC721 transaction %s: %v" _ acc tr3 Hp4)
            as (msg & tx & tr' & _ & Hp & Hrun & Hadds)
      end.
      erewrite bind_panicked by exact Hrun.
      apply (Hdone msg app.TERC721 tx); [exact Hp|].
      eapply only_adds_trans; eassumption. }
  exfalso.
  assert (Hnone : forall t, Forall (fun tx => ~ panics (conv_of t) tx) (fetched_records t f))
    by (intros t; destruct t; assumption).
  specialize (Hnone t0). rewrite Forall_forall in Hnone.
  exact (Hnone tx0 Hin0 Hp0).
Qed.

Lemma malformed_amount_aborts_the_export_example :
  exists tr',
    app.main sample.paged 1 sample.flags
      [app.TNormal; app.TInternal; app.TERC20; app.TERC721] scenario.fetched_malformed [] =
      (Panicked nil_deref, tr') /\
    exports tr' = [] /\ mkdirs tr' = [].
Proof.
  apply (malformed_amount_aborts_the_export sample.paged 1 sample.flags
           [app.TNormal; app.TInternal; app.TERC20; app.TERC721] scenario.fetched_malformed []).
  - discriminate.
  - discriminate.
  - vm_compute. discriminate.
  - reflexivity.
  - intros t. destruct t; reflexivity.
  - exists app.TInternal, (sample.internal ""). split; [left; reflexivity|].
    exists nil_deref. reflexivity.
Defined.

(** ** Batch mode: the files it writes *)

Lemma convert_quiet_trace {T} (conv : T -> exec convert.converted) :
  forall txs acc tr, snd (app.convert_quiet conv txs acc tr) = tr.
Proof.
  induction txs as [|tx txs IH]; intros acc tr; [reflexivity|].
  cbn [app.convert_quiet]. destruct (conv tx) as [[m [e|]]|msg]; try apply IH. reflexivity.
Qed.

Lemma batch_category_adds {T} (P : event -> Prop) (get : io (list T * option error))
    conv warning s e acc :
  adds P get -> (forall f a, P (EvPrint f a)) ->
  adds P (app.batch_category get conv warning s e acc).
Proof.
  intros Hget Hprint. unfold app.batch_category.
  apply adds_bind; [exact Hget|].
  intros [txs [err|]].
  - apply adds_bind; [apply adds_emit; apply Hprint|]. intros _. apply adds_ret.
  - intros tr. rewrite convert_quiet_trace. apply only_adds_refl.
Qed.

Lemma batch_category_state_frame E fuel client address s e failed t records warning :
  category_state E fuel client address s e failed t records ->
  forall acc tr, exists tr',
    app.batch_category (GetAll_of E fuel t client address s e) (conv_of t) warning s e acc tr =
    (Val (acc ++ category_models failed t records)%list, tr') /\
    exports tr' = exports tr /\ mkdirs tr' = mkdirs tr.
Proof.
  intros Hstate acc tr.
  destruct (batch_category_state E fuel client address s e failed t records warning
              Hstate acc tr) as [tr' Hrun].
  exists tr'. split; [exact Hrun|].
  apply only_adds_no_file.
  pose proof (batch_category_adds no_file_event (GetAll_of E fuel t client address s e)
                (conv_of t) warning s e acc) as Hadds.
  specialize (Hadds ltac:(eapply adds_weaken; [|apply GetAll_of_adds];
                          intros ev; apply fetch_event_no_file)
                    ltac:(intros; exact I) tr).
  rewrite Hrun in Hadds. exact Hadds.
Qed.

Section BatchFiles.
Variable E : Env.
Variable fuel : nat.
Variable client : api.EtherscanClient.
Variable address : string.
Variables startBlock endBlock batchSize : Z.
Variable outputDir : string.

Variable failed : nat -> app.task -> bool.
Variable records : nat -> forall t : app.task, list (raw t).

Local Abbreviation cstart := (chunk_start startBlock batchSize).
Local Abbreviation cend := (chunk_end startBlock endBlock batchSize).
Local Abbreviation nchunks := (n_chunks startBlock endBlock batchSize).
Local Abbreviation cfile := (chunk_file address startBlock endBlock batchSize).
Local Abbreviation cmodels := (chunk_models failed records).

Hypothesis size_positive : 0 < batchSize.
Hypothesis start_in_range : minInt64 <= startBlock.
Hypothesis end_in_range : endBlock + batchSize <= maxInt64.

Hypothesis remote :
  forall j t, (j < nchunks)%nat ->
    category_state E fuel client address (cstart j) (cend j)
      (failed j t) t (records j t).

Lemma processInBatches_loop_files : forall (m n j : nat) allTxs processed total tr,
  (j + m = nchunks)%nat -> (m < n)%nat ->
  exists tr',
    app.processInBatches_loop E fuel n client address endBlock batchSize outputDir
      total (cstart j) allTxs processed tr =
    (Val (allTxs ++ flat_map cmodels (seq j m))%list, tr') /\
    exports tr' =
      (exports tr ++ map (fun i => (cmodels i, outputDir, cfile i)) (seq j m))%list /\
    mkdirs tr' = mkdirs tr.
Proof.
  unfold maxInt64, minInt64 in *. change (2 ^ 63) with 9223372036854775808 in *.
  induction m as [|m IH]; intros n j allTxs processed total tr Hj Hn;
    (destruct n as [|n]; [lia|]).
  - cbn [app.processInBatches_loop].
    replace (cstart j <? endBlock) with false
      by (symmetry; apply Z.ltb_ge;
          pose proof (chunk_pending startBlock endBlock batchSize size_positive j); lia).
    exists tr. cbn. rewrite !app_nil_r. auto.
  - assert (Hlt : cstart j < endBlock)
      by (apply (chunk_pending startBlock endBlock batchSize size_positive); lia).
    assert (Hstart : - 9223372036854775808 <= cstart j).
    { unfold chunk_start. nia. }
    cbn [app.processInBatches_loop].
    replace (cstart j <? endBlock) with true by (symmetry; apply Z.ltb_lt; assumption).
    rewrite (wrap64_small (cstart j + batchSize)) by lia.
    replace (if cstart j + batchSize >? endBlock then endBlock else cstart j + batchSize)
      with (cend j)
      by (unfold chunk_end; rewrite Z.gtb_ltb;
          destruct (Z.ltb_spec endBlock (cstart j + batchSize)); lia).
    replace (cstart j + batchSize) with (cstart (S j))
      by (unfold chunk_start; lia).
    unfold fmt_Printf at 1. unfold bind at 1. unfold emit at 1.
    unfold fmt_Printf at 1. unfold bind at 1. unfold emit at 1.
    assert (Hj' : (j < nchunks)%nat) by lia.
    match goal with
    | |- context [bind (app.batch_category ?g ?cv ?w ?s ?e ?acc) ?k ?t] =>
        destruct (batch_category_state_frame E fuel client address _ _ _ app.TNormal _ w
                    (remote j app.TNormal Hj') acc t) as (t1 & H1 & X1 & M1);
        cbn [GetAll_of conv_of] in H1; erewrite (bind_val _ k) by exact H1
    end.
    unfold fmt_Printf at 1. unfold bind at 1. unfold emit at 1.
    match goal with
    | |- context [bind (app.batch_category ?g ?cv ?w ?s ?e ?acc) ?k ?t] =>
        destruct (batch_category_state_frame E fuel client address _ _ _ app.TInternal _ w
                    (remote j app.TInternal Hj') acc t) as (t2 & H2 & X2 & M2);
        cbn [GetAll_of conv_of] in H2; erewrite (bind_val _ k) by exact H2
    end.
    unfold fmt_Printf at 1. unfold bind at 1. unfold emit at 1.
    match goal with
    | |- context [bind (app.batch_category ?g ?cv ?w ?s ?e ?acc) ?k ?t] =>
        destruct (batch_category_state_frame E fuel client address _ _ _ app.TERC20 _ w
                    (remote j app.TERC20 Hj') acc t) as (t3 & H3 & X3 & M3);
        cbn [GetAll_of conv_of] in H3; erewrite (bind_val _ k) by exact H3
    end.
    unfold fmt_Printf at 1. unfold bind at 1. unfold emit at 1.
    match goal with
    | |- context [bind (app.batch_category ?g ?cv ?w ?s ?e ?acc) ?k ?t] =>
        destruct (batch_category_state_frame E fuel client address _ _ _ app.TERC721 _ w
                    (remote j app.TERC721 Hj') acc t) as (t4 & H4 & X4 & M4);
        cbn [GetAll_of conv_of] in H4; erewrite (bind_val _ k) by exact H4
    end.
    cbv zeta.
    fold (chunk_file address startBlock endBlock batchSize j).
    unfold app.ExportTransactionsToCSV at 1. unfold bind at 1.
    assert (Hmodels : (((([] ++ category_models (failed j app.TNormal) app.TNormal (records j app.TNormal))
                ++ category_models (failed j app.TInternal) app.TInternal (records j app.TInternal))
                ++ category_models (failed j app.TERC20) app.TERC20 (records j app.TERC20))
                ++ category_models (failed j app.TERC721) app.TERC721 (records j app.TERC721))%list
              = cmodels j).
    { unfold chunk_models, all_tasks. cbn [flat_map List.app].
      rewrite app_nil_r, <- !app_assoc. reflexivity. }
    rewrite Hmodels.
    assert (Hx4 : exports t4 = exports tr).
    { rewrite X4, !exports_cons, X3, !exports_cons, X2, !exports_cons, X1, !exports_cons.
      rewrite !app_nil_r. reflexivity. }
    assert (Hm4 : mkdirs t4 = mkdirs tr).
    { rewrite M4, !mkdirs_cons, M3, !mkdirs_cons, M2, !mkdirs_cons, M1, !mkdirs_cons.
      rewrite !app_nil_r. reflexivity. }
    match goal with
    | |- context [app.processInBatches_loop _ _ n _ _ _ _ _ ?tot _ ?acc ?pr] =>
        set (acc' := acc); set (pr' := pr)
    end.
    destruct (utils_ExportTransactionsToCSV E t4 (cmodels j) outputDir (cfile j)) as [werr|];
      unfold fmt_Printf at 1; unfold bind at 1; unfold emit at 1.
    + destruct (IH n (S j) acc' pr' total
                  (EvPrint "Warning: Error saving intermediate results: %v\n" [AErr werr]
                   :: EvExport (cmodels j) outputDir (cfile j) :: t4))
        as (tr' & Hrun & Hx & Hm); [lia|lia|].
      exists tr'. rewrite Hrun. unfold acc'. cbn [seq flat_map map].
      rewrite <- app_assoc. split; [reflexivity|]. split.
      * rewrite Hx. do 2 rewrite exports_cons. rewrite Hx4, app_nil_r, <- app_assoc.
        reflexivity.
      * rewrite Hm. do 2 rewrite mkdirs_cons. rewrite Hm4, !app_nil_r. reflexivity.
    + destruct (IH n (S j) acc' pr' total
                  (EvPrint "Saved intermediate results to %s\n" [AStr outputDir; AStr (cfile j)]
                   :: EvExport (cmodels j) outputDir (cfile j) :: t4))
        as (tr' & Hrun & Hx & Hm); [lia|lia|].
      exists tr'. rewrite Hrun. unfold acc'. cbn [seq flat_map map].
      rewrite <- app_assoc. split; [reflexivity|]. split.
      * rewrite Hx. do 2 rewrite exports_cons. rewrite Hx4, app_nil_r, <- app_assoc.
        reflexivity.
      * rewrite Hm. do 2 rewrite mkdirs_cons. rewrite Hm4, !app_nil_r. reflexivity.
Qed.

End BatchFiles.

(** X15.  Batch mode, for a remote on which each category of each
    chunk either fails or yields records that convert: the run calls
    the export once per chunk, in chunk order, with the file
    <address>_tx_history_blocks_<start>_<end>.csv and the transactions
    of that chunk alone, and then once more with
    <address>_tx_history_full.csv and the transactions of all chunks in
    order.  An intermediate export that fails changes none of this; the
    run ends normally when the final export succeeds and through
    [log.Fatalf] otherwise.  Chunk j covers the blocks from
    startBlock + j * batchSize to the start of the next chunk (the last
    one to endBlock), so two consecutive chunks share their boundary
    block number.  An empty range gives no chunk and a combined file
    without transactions. *)
Theorem batch_mode_writes_a_file_per_chunk :
  forall (E : Env) (fuel : nat) (client : api.EtherscanClient) (address : string)
         (startBlock endBlock batchSize : Z) (outputDir : string)
         (failed : nat -> app.task -> bool)
         (records : nat -> forall t : app.task, list (raw t)) (tr : trace),
    0 < batchSize -> minInt64 <= startBlock -> endBlock + batchSize <= maxInt64 ->
    (n_chunks startBlock endBlock batchSize < fuel)%nat ->
    (forall j t, (j < n_chunks startBlock endBlock batchSize)%nat ->
       category_state E fuel client address
         (chunk_start startBlock batchSize j) (chunk_end startBlock endBlock batchSize j)
         (failed j t) t (records j t)) ->
    exists r tr',
      app.processInBatches E fuel client address startBlock endBlock batchSize outputDir tr
        = (r, tr') /\
      (r = Val tt \/ r = Exited 1) /\
      ((forall h txs,
          utils_ExportTransactionsToCSV E h txs outputDir
            (address ++ "_tx_history_full.csv") = None) -> r = Val tt) /\
      exports tr' =
        (exports tr
         ++ map (fun j => (chunk_models failed records j, outputDir,
                           chunk_file address startBlock endBlock batchSize j))
              (seq 0 (n_chunks startBlock endBlock batchSize))
         ++ [(batch_models failed records (n_chunks startBlock endBlock batchSize),
              outputDir, (address ++ "_tx_history_full.csv")%string)])%list /\
      mkdirs tr' = mkdirs tr /\
      (forall j, (S j < n_chunks startBlock endBlock batchSize)%nat ->
         chunk_end startBlock endBlock batchSize j = chunk_start startBlock batchSize (S j)) /\
      (forall j, (S j = n_chunks startBlock endBlock batchSize)%nat ->
         chunk_end startBlock endBlock batchSize j = endBlock) /\
      (endBlock <= startBlock -> n_chunks startBlock endBlock batchSize = 0%nat).
Proof.
  intros E fuel client address startBlock endBlock batchSize outputDir failed records tr
         Hsize Hstart Hend Hfuel Hremote.
  destruct (processInBatches_loop_files E fuel client address startBlock endBlock batchSize
              outputDir failed records Hsize Hstart Hend Hremote
              (n_chunks startBlock endBlock batchSize) fuel 0%nat [] 0
              (wrap64 (endBlock - startBlock)) tr) as (tr1 & Hrun & Hx & Hm); [lia|assumption|].
  assert (Hzero : chunk_start startBlock batchSize 0 = startBlock)
    by (unfold chunk_start; cbn [Z.of_nat]; lia).
  rewrite Hzero in Hrun. cbn [List.app] in Hrun.
  fold (batch_models failed records (n_chunks startBlock endBlock batchSize)) in Hrun.
  unfold app.processInBatches. erewrite bind_val by exact Hrun.
  unfold app.ExportTransactionsToCSV at 1. unfold bind at 1.
  pose proof (chunk_pending startBlock endBlock batchSize Hsize) as Hpend.
  assert (Hchunks :
            (forall j, (S j < n_chunks startBlock endBlock batchSize)%nat ->
               chunk_end startBlock endBlock batchSize j = chunk_start startBlock batchSize (S j)) /\
            (forall j, (S j = n_chunks startBlock endBlock batchSize)%nat ->
               chunk_end startBlock endBlock batchSize j = endBlock) /\
            (endBlock <= startBlock -> n_chunks startBlock endBlock batchSize = 0%nat)).
  { split; [|split].
    - intros j Hj. apply Hpend in Hj. unfold chunk_end, chunk_start in *. lia.
    - intros j Hj.
      assert (Hnot : ~ chunk_start startBlock batchSize (S j) < endBlock)
        by (rewrite Hpend; lia).
      unfold chunk_end, chunk_start in *. lia.
    - intros Hempty.
      destruct (n_chunks startBlock endBlock batchSize) as [|n] eqn:Hn; [reflexivity|].
      assert (Hlt : chunk_start startBlock batchSize 0 < endBlock) by (apply Hpend; lia).
      lia. }
  destruct (utils_ExportTransactionsToCSV E tr1 _ outputDir _) as [err|] eqn:Hfinal.
  - do 2 eexists. split; [reflexivity|]. split; [right; reflexivity|]. split.
    { intros Hnone. rewrite Hnone in Hfinal. discriminate. }
    split.
    { do 2 rewrite exports_cons. rewrite Hx, app_nil_r, <- app_assoc. reflexivity. }
    split; [do 2 rewrite mkdirs_cons; rewrite Hm, !app_nil_r; reflexivity|].
    exact Hchunks.
  - do 2 eexists. split; [reflexivity|]. split; [left; reflexivity|]. split.
    { intros _. reflexivity. }
    split.
    { cbn [fmt_Printf emit]. do 2 rewrite exports_cons.
      rewrite Hx, app_nil_r, <- app_assoc. reflexivity. }
    split; [cbn [fmt_Printf emit]; do 2 rewrite mkdirs_cons; rewrite Hm, !app_nil_r;
            reflexivity|].
    exact Hchunks.
Qed.

(** Blocks 0 to 20 in chunks of 10, the token-transfer fetch of the
    first chunk being rejected: files for the blocks 0 to 10 (three
    transactions) and 10 to 20 (four), then the combined file
    (seven). *)
Lemma batch_mode_writes_a_file_per_chunk_example :
  exists tr',
    app.processInBatches sample.partial 3 sample.client "0xwallet" 0 20 10 "./output" []
      = (Val tt, tr') /\
    map (fun x => (len (fst (fst x)), snd x)) (exports tr') =
      [(3, "0xwallet_tx_history_blocks_0_10.csv");
       (4, "0xwallet_tx_history_blocks_10_20.csv");
       (7, "0xwallet_tx_history_full.csv")].
Proof.
  destruct (batch_mode_writes_a_file_per_chunk sample.partial 3 sample.client "0xwallet"
              0 20 10 "./output" (only_failure 0 app.TERC20) (fun _ t => [sample.one t]) [])
    as (r & tr' & Hrun & _ & Hr & Hx & _).
  - reflexivity.
  - vm_compute. discriminate.
  - vm_compute. discriminate.
  - vm_compute. lia.
  - intros j t Hj.
    assert (Hcases : j = 0%nat \/ j = 1%nat) by (vm_compute in Hj; lia).
    destruct Hcases; subst j; destruct t; cbv [category_state only_failure Nat.eqb task_eqb andb];
      first
        [ split;
          [ intros h; eexists; vm_compute; reflexivity
          | repeat constructor; eexists; vm_compute; reflexivity ]
        | intros h; do 3 eexists; vm_compute; reflexivity ].
  - exists tr'. split.
    + rewrite Hrun. f_equal. apply Hr. reflexivity.
    + rewrite Hx. vm_compute. reflexivity.
Defined.
(** * The CSV export

    ** Strings *)

Lemma sapp_assoc (a b c : string) : ((a ++ b) ++ c)%string = (a ++ (b ++ c))%string.
Proof. induction a as [|x a IH]; [reflexivity|]. cbn. rewrite IH. reflexivity. Qed.

Lemma sapp_nil_r (a : string) : (a ++ "")%string = a.
Proof. induction a as [|x a IH]; [reflexivity|]. cbn. rewrite IH. reflexivity. Qed.

Lemma sapp_nonempty (a : string) c : (a ++ String c "")%string <> "".
Proof. destruct a; discriminate. Qed.

Lemma special_false c :
  csv.special c = false ->
  Ascii.eqb c csv.quote = false /\ Ascii.eqb c csv.comma = false /\
  Ascii.eqb c csv.LF = false /\ Ascii.eqb c csv.CR = false.
Proof.
  unfold csv.special. intros H.
  repeat (apply orb_false_iff in H; destruct H as [H ?]). auto.
Qed.

(** ** Lines cut as they are *)

Lemma plain_lines_char c s line :
  Ascii.eqb c csv.LF = false ->
  plain_lines (String c s) line = plain_lines s (line ++ String c "").
Proof. intros Hc. cbn [plain_lines]. rewrite Hc. reflexivity. Qed.

Lemma plain_lines_LF s line :
  plain_lines (String csv.LF s) line = (line ++ String csv.LF "")%string :: plain_lines s "".
Proof. reflexivity. Qed.

Lemma plain_lines_plain a : forall s line,
  csv.has_special a = false ->
  plain_lines (a ++ s) line = plain_lines s (line ++ a).
Proof.
  induction a as [|c a IH]; intros s line Hs.
  - cbn. rewrite sapp_nil_r. reflexivity.
  - cbn [csv.has_special] in Hs. apply orb_false_iff in Hs. destruct Hs as [Hc Ha].
    destruct (special_false c Hc) as (_ & _ & Hl & _).
    cbn [String.append]. rewrite plain_lines_char by assumption.
    rewrite IH by assumption. rewrite sapp_assoc. reflexivity.
Qed.

(** ** One line *)

Lemma emptyLine_false line :
  line <> "" -> csv.emptyLine (line ++ String csv.LF "") = false.
Proof.
  intros Hne. destruct line as [|c line]; [congruence|].
  unfold csv.emptyLine. cbn [String.append String.eqb].
  destruct (Ascii.eqb c csv.LF); [|reflexivity].
  destruct line; reflexivity.
Qed.

Lemma reaches_start : reaches None "" csv.FieldStart "" [].
Proof. intros more. reflexivity. Qed.

Lemma reaches_pending fields field : reaches (Some (fields, field)) "" csv.Quoted field fields.
Proof. intros more. reflexivity. Qed.

(** One more byte of the line. *)
Lemma reaches_step pending line at_ field fields c at' field' fields' :
  reaches pending line at_ field fields ->
  (forall more, csv.parseLine (String c more) at_ field fields
                = csv.parseLine more at' field' fields') ->
  reaches pending (line ++ String c "") at' field' fields'.
Proof.
  intros Hr Hstep more. rewrite sapp_assoc. cbn [String.append].
  rewrite Hr. apply Hstep.
Qed.

Lemma parse_nonquoted a : forall more field fields,
  csv.has_special a = false ->
  csv.parseLine (a ++ more) csv.NonQuoted field fields =
  csv.parseLine more csv.NonQuoted (field ++ a) fields.
Proof.
  induction a as [|c a IH]; intros more field fields Hs.
  - cbn. rewrite sapp_nil_r. reflexivity.
  - cbn [csv.has_special] in Hs. apply orb_false_iff in Hs. destruct Hs as [Hc Ha].
    destruct (special_false c Hc) as (Hq & Hm & Hl & _).
    cbn [String.append csv.parseLine]. rewrite Hq, Hm, Hl. cbn [andb].
    rewrite IH by assumption. rewrite sapp_assoc. reflexivity.
Qed.

(** A field written without quotes, read from the start of a field. *)
Lemma parse_plain_field f more fields :
  csv.fieldNeedsQuotes f = false -> f <> "" ->
  csv.parseLine (f ++ more) csv.FieldStart "" fields =
  csv.parseLine more csv.NonQuoted f fields.
Proof.
  intros Hq Hne. destruct f as [|c f]; [congruence|].
  unfold csv.fieldNeedsQuotes in Hq.
  change (String.eqb (String c f) "") with false in Hq. cbv iota in Hq.
  destruct (String.eqb (String c f) "\."); [discriminate|].
  destruct (csv.has_special (String c f)) eqn:Hs; [discriminate|].
  cbn [csv.has_special] in Hs. apply orb_false_iff in Hs. destruct Hs as [Hc Hf].
  destruct (special_false c Hc) as (Hcq & Hcm & Hcl & _).
  cbn [String.append csv.parseLine]. rewrite Hcq, Hcm, Hcl. cbn [andb].
  apply parse_nonquoted. assumption.
Qed.

Lemma plain_field_no_special f :
  csv.fieldNeedsQuotes f = false -> csv.has_special f = false.
Proof.
  intros Hq. destruct f as [|c f]; [reflexivity|].
  unfold csv.fieldNeedsQuotes in Hq.
  change (String.eqb (String c f) "") with false in Hq. cbv iota in Hq.
  destruct (String.eqb (String c f) "\."); [discriminate|].
  destruct (csv.has_special (String c f)); [discriminate|reflexivity].
Qed.

(** A field written without quotes and the comma after it. *)
Lemma reaches_plain_field pending line fields f :
  csv.fieldNeedsQuotes f = false ->
  reaches pending line csv.FieldStart "" fields ->
  reaches pending (line ++ f ++ String csv.comma "") csv.FieldStart "" (fields ++ [f]).
Proof.
  intros Hq Hr more. rewrite !sapp_assoc. cbn [String.append]. rewrite Hr.
  destruct f as [|c f].
  - reflexivity.
  - rewrite parse_plain_field by (assumption || discriminate). reflexivity.
Qed.

(** A field written without quotes at the end of its line. *)
Lemma parse_last_plain_field pending line fields f :
  csv.fieldNeedsQuotes f = false ->
  reaches pending line csv.FieldStart "" fields ->
  parse_from pending (line ++ f ++ String csv.LF "") = csv.Complete (fields ++ [f]).
Proof.
  intros Hq Hr. rewrite Hr.
  destruct f as [|c f].
  - reflexivity.
  - rewrite parse_plain_field by (assumption || discriminate). reflexivity.
Qed.

(** The closing quote of a field and what follows it. *)
Lemma reaches_closing_quote pending line field fields :
  reaches pending line csv.Quoted field fields ->
  reaches pending (line ++ String csv.quote (String csv.comma "")) csv.FieldStart ""
    (fields ++ [field]).
Proof. intros Hr more. rewrite sapp_assoc. cbn [String.append]. rewrite Hr. reflexivity. Qed.

Lemma parse_last_closing_quote pending line field fields :
  reaches pending line csv.Quoted field fields ->
  parse_from pending (line ++ String csv.quote (String csv.LF "")) = csv.Complete (fields ++ [field]).
Proof. intros Hr. rewrite Hr. reflexivity. Qed.

(** ** From lines to records *)

(** A line that runs out inside a quoted field. *)
Lemma readRecords_unfinished line rest pending n records field fields :
  reaches pending line csv.Quoted field fields ->
  in_record pending line ->
  csv.readRecords ((line ++ String csv.LF "")%string :: rest) pending n records =
  csv.readRecords rest (Some (fields, (field ++ String csv.LF "")%string)) n records.
Proof.
  intros Hr Hin.
  assert (Hp : parse_from pending (line ++ String csv.LF "")
               = csv.Unfinished fields (field ++ String csv.LF "")).
  { rewrite Hr. reflexivity. }
  cbn [csv.readRecords]. destruct pending as [[fs fd]|].
  - cbn [parse_from] in Hp. rewrite Hp. reflexivity.
  - rewrite emptyLine_false by (destruct Hin; congruence).
    cbn [parse_from] in Hp. rewrite Hp. reflexivity.
Qed.

(** A line that completes a record. *)
Lemma readRecords_complete line rest pending n records fields :
  parse_from pending (line ++ String csv.LF "") = csv.Complete fields ->
  in_record pending line ->
  n = 0%nat \/ n = List.length fields ->
  csv.readRecords ((line ++ String csv.LF "")%string :: rest) pending n records =
  csv.readRecords rest None (List.length fields) (records ++ [fields]).
Proof.
  intros Hp Hin Hn.
  assert (Hcount : (if (0 <? n)%nat
                    then if (List.length fields =? n)%nat
                         then csv.readRecords rest None n (records ++ [fields])
                         else inl csv.ErrFieldCount
                    else csv.readRecords rest None (List.length fields) (records ++ [fields]))
                   = csv.readRecords rest None (List.length fields) (records ++ [fields])).
  { destruct Hn as [-> | ->]; [reflexivity|].
    rewrite Nat.eqb_refl. destruct (0 <? List.length fields)%nat; reflexivity. }
  cbn [csv.readRecords]. destruct pending as [[fs fd]|].
  - cbn [parse_from] in Hp. rewrite Hp. exact Hcount.
  - rewrite emptyLine_false by (destruct Hin; congruence).
    cbn [parse_from] in Hp. rewrite Hp. exact Hcount.
Qed.

(** The inside of a quoted field, over as many lines as it holds line
    feeds. *)
Lemma read_quoted_content f : forall pending line field fields,
  reaches pending line csv.Quoted field fields ->
  in_record pending line ->
  exists pending' line',
    reaches pending' line' csv.Quoted (field ++ f) fields /\
    in_record pending' line' /\
    forall s n records,
      csv.readRecords (plain_lines (csv.escape f ++ s) line) pending n records =
      csv.readRecords (plain_lines s line') pending' n records.
Proof.
  induction f as [|c f IH]; intros pending line field fields Hr Hin.
  - exists pending, line. rewrite sapp_nil_r. repeat split; assumption.
  - cbn [csv.escape]. destruct (Ascii.eqb c csv.quote) eqn:Hq.
    + apply Ascii.eqb_eq in Hq. subst c.
      destruct (IH pending (line ++ String csv.quote (String csv.quote ""))%string
                  (field ++ String csv.quote "")%string fields)
        as (pending' & line' & Hr' & Hin' & Hrun).
      * intros more. rewrite sapp_assoc. cbn [String.append]. rewrite Hr. reflexivity.
      * right. destruct line; discriminate.
      * exists pending', line'. rewrite sapp_assoc in Hr'. cbn [String.append] in Hr'.
        split; [exact Hr'|]. split; [exact Hin'|].
        intros s n records. cbn [String.append].
        rewrite !plain_lines_char by reflexivity.
        rewrite sapp_assoc. cbn [String.append]. apply Hrun.
    + destruct (Ascii.eqb c csv.LF) eqn:Hl.
      * apply Ascii.eqb_eq in Hl. subst c.
        destruct (IH (Some (fields, (field ++ String csv.LF "")%string)) ""%string
                    (field ++ String csv.LF "")%string fields)
          as (pending' & line' & Hr' & Hin' & Hrun).
        -- apply reaches_pending.
        -- left. discriminate.
        -- exists pending', line'. rewrite sapp_assoc in Hr'. cbn [String.append] in Hr'.
           split; [exact Hr'|]. split; [exact Hin'|].
           intros s n records. cbn [String.append].
           rewrite plain_lines_LF.
           rewrite (readRecords_unfinished line _ pending n records field fields Hr Hin).
           apply Hrun.
      * destruct (IH pending (line ++ String c "")%string (field ++ String c "")%string fields)
          as (pending' & line' & Hr' & Hin' & Hrun).
        -- apply (reaches_step pending line csv.Quoted field fields c); [assumption|].
           intros more. cbn [csv.parseLine]. rewrite Hq. reflexivity.
        -- right. apply sapp_nonempty.
        -- exists pending', line'. rewrite sapp_assoc in Hr'. cbn [String.append] in Hr'.
           split; [exact Hr'|]. split; [exact Hin'|].
           intros s n records. cbn [String.append].
           rewrite plain_lines_char by assumption. apply Hrun.
Qed.

(** A field and the comma after it. *)
Lemma read_field f pending line fields :
  reaches pending line csv.FieldStart "" fields ->
  exists pending' line',
    reaches pending' line' csv.FieldStart "" (fields ++ [f]) /\
    in_record pending' line' /\
    forall s n records,
      csv.readRecords (plain_lines (csv.writeField f ++ String csv.comma s) line)
        pending n records =
      csv.readRecords (plain_lines s line') pending' n records.
Proof.
  intros Hr. unfold csv.writeField. destruct (csv.fieldNeedsQuotes f) eqn:Hq.
  - destruct (read_quoted_content f pending (line ++ String csv.quote "")%string "" fields)
      as (pending' & line' & Hr' & Hin' & Hrun).
    + apply (reaches_step pending line csv.FieldStart "" fields csv.quote); [assumption|].
      intros more. reflexivity.
    + right. apply sapp_nonempty.
    + exists pending', (line' ++ String csv.quote (String csv.comma ""))%string.
      split; [apply reaches_closing_quote; exact Hr'|].
      split; [right; destruct line'; discriminate|].
      intros s n records. cbn [String.append].
      rewrite plain_lines_char by reflexivity.
      rewrite sapp_assoc. rewrite Hrun. cbn [String.append].
      rewrite !plain_lines_char by reflexivity.
      rewrite sapp_assoc. reflexivity.
  - exists pending, (line ++ f ++ String csv.comma "")%string.
    split; [apply reaches_plain_field; assumption|].
    split; [right; rewrite <- sapp_assoc; apply sapp_nonempty|].
    intros s n records.
    rewrite plain_lines_plain by (apply plain_field_no_special; assumption).
    rewrite plain_lines_char by reflexivity.
    rewrite sapp_assoc. reflexivity.
Qed.

(** The last field of a record and the line feed after it. *)
Lemma read_last_field f pending line fields s n records :
  reaches pending line csv.FieldStart "" fields ->
  in_record pending line \/ f <> "" ->
  n = 0%nat \/ n = List.length (fields ++ [f])%list ->
  csv.readRecords (plain_lines (csv.writeField f ++ String csv.LF s) line) pending n records =
  csv.readRecords (plain_lines s "") None (List.length (fields ++ [f])%list)
    (records ++ [fields ++ [f]])%list.
Proof.
  intros Hr Hin Hn. unfold csv.writeField. destruct (csv.fieldNeedsQuotes f) eqn:Hq.
  - destruct (read_quoted_content f pending (line ++ String csv.quote "")%string "" fields)
      as (pending' & line' & Hr' & Hin' & Hrun).
    + apply (reaches_step pending line csv.FieldStart "" fields csv.quote); [assumption|].
      intros more. reflexivity.
    + right. apply sapp_nonempty.
    + cbn [String.append]. rewrite plain_lines_char by reflexivity.
      rewrite sapp_assoc. rewrite Hrun. cbn [String.append].
      rewrite plain_lines_char by reflexivity. rewrite plain_lines_LF.
      apply readRecords_complete.
      * rewrite sapp_assoc. cbn [String.append].
        apply parse_last_closing_quote. exact Hr'.
      * right. apply sapp_nonempty.
      * exact Hn.
  - rewrite plain_lines_plain by (apply plain_field_no_special; assumption).
    rewrite plain_lines_LF.
    apply readRecords_complete.
    + rewrite sapp_assoc. apply parse_last_plain_field; assumption.
    + destruct Hin as [[Hp|Hl]|Hf].
      * left. exact Hp.
      * right. destruct line; [congruence|discriminate].
      * right. destruct line; [assumption|discriminate].
    + exact Hn.
Qed.

Lemma read_fields : forall record f pending line fields s n records,
  reaches pending line csv.FieldStart "" fields ->
  in_record pending line \/ f <> "" \/ record <> [] ->
  n = 0%nat \/ n = List.length (fields ++ f :: record)%list ->
  csv.readRecords
    (plain_lines (csv.writeField f ++ csv.writeFields false record ++ String csv.LF s) line)
    pending n records =
  csv.readRecords (plain_lines s "") None (List.length (fields ++ f :: record)%list)
    (records ++ [fields ++ f :: record])%list.
Proof.
  induction record as [|g record IH]; intros f pending line fields s n records Hr Hin Hn.
  - cbn [csv.writeFields String.append].
    apply read_last_field; [assumption| |assumption].
    destruct Hin as [Hin|[Hin|Hin]]; [left; assumption|right; assumption|congruence].
  - cbn [csv.writeFields]. rewrite !sapp_assoc. cbn [String.append].
    destruct (read_field f pending line fields Hr) as (pending' & line' & Hr' & Hin' & Hrun).
    rewrite Hrun.
    replace (fields ++ f :: g :: record)%list with ((fields ++ [f]) ++ g :: record)%list
      by (rewrite <- app_assoc; reflexivity).
    apply IH; [exact Hr'|left; exact Hin'|].
    rewrite <- app_assoc. exact Hn.
Qed.

(** A record that the reader does not take for an empty line: it has
    more than one field, or its field is not empty. *)
Lemma read_record record s n records :
  record <> [] -> record <> [""] ->
  n = 0%nat \/ n = List.length record ->
  csv.readRecords (plain_lines (csv.Write record ++ s) "") None n records =
  csv.readRecords (plain_lines s "") None (List.length record) (records ++ [record]).
Proof.
  intros Hne Hne1 Hn. destruct record as [|f record]; [congruence|].
  unfold csv.Write. cbn [csv.writeFields]. rewrite !sapp_assoc. cbn [String.append].
  apply (read_fields record f None "" [] s n records).
  - apply reaches_start.
  - destruct f; [|right; left; discriminate].
    destruct record; [congruence|right; right; discriminate].
  - exact Hn.
Qed.

Lemma read_text (k : nat) : forall rows n records,
  (2 <= k)%nat ->
  Forall (fun r => List.length r = k) rows ->
  n = 0%nat \/ n = k ->
  csv.readRecords (plain_lines (csv_text rows) "") None n records = inr (records ++ rows)%list.
Proof.
  induction rows as [|r rows IH]; intros n records Hk Hall Hn.
  - cbn. rewrite app_nil_r. reflexivity.
  - inversion Hall as [|? ? Hr Hrows]; subst. cbn [csv_text].
    rewrite read_record.
    + rewrite IH; [|assumption|assumption|right; reflexivity].
      rewrite <- app_assoc. reflexivity.
    + destruct r; [cbn in Hk; lia|discriminate].
    + intros ->. cbn in Hk. lia.
    + exact Hn.
Qed.

(** ** Lines as [readLine] returns them *)

Lemma snoc_is_LF line :
  String.eqb (line ++ String csv.LF "") (String csv.LF "") = String.eqb line "".
Proof.
  destruct line as [|x l]; [reflexivity|].
  cbn [String.append String.eqb]. destruct (Ascii.eqb x csv.LF); [|reflexivity].
  destruct l; reflexivity.
Qed.

Lemma snoc_not_empty line c : String.eqb (line ++ String c "") "" = false.
Proof. destruct line; reflexivity. Qed.

Lemma normalizeNL_snoc line :
  csv.normalizeNL (line ++ String csv.LF "") = (csv.dropCR line ++ String csv.LF "")%string.
Proof.
  induction line as [|c line IH]; [reflexivity|].
  cbn [String.append csv.normalizeNL csv.dropCR]. rewrite snoc_is_LF.
  destruct (Ascii.eqb c csv.CR && String.eqb line "") eqn:Hc.
  - apply andb_prop in Hc. destruct Hc as [_ Hl]. apply String.eqb_eq in Hl. subst line.
    reflexivity.
  - cbn [String.append]. rewrite IH. reflexivity.
Qed.

Lemma dropCR_snoc_CR line : csv.dropCR (line ++ String csv.CR "") = line.
Proof.
  induction line as [|c line IH]; [reflexivity|].
  cbn [String.append csv.dropCR]. rewrite snoc_not_empty, andb_false_r, IH. reflexivity.
Qed.

Lemma dropCR_snoc line c :
  Ascii.eqb c csv.CR = false -> csv.dropCR (line ++ String c "") = (line ++ String c "")%string.
Proof.
  intros Hc. induction line as [|x line IH].
  - cbn [String.append csv.dropCR]. rewrite Hc. reflexivity.
  - cbn [String.append csv.dropCR]. rewrite snoc_not_empty, andb_false_r, IH. reflexivity.
Qed.

(** On a text that ends with a line feed [readLine] returns the lines
    of the text without its carriage returns before line feeds. *)
Lemma readLines_plain_lines t : forall line,
  csv.readLines (t ++ String csv.LF "") line =
  plain_lines (drop_CR_before_LF (t ++ String csv.LF ""))
    (if starts_with_LF (t ++ String csv.LF "") then csv.dropCR line else line).
Proof.
  induction t as [|c t IH]; intros line.
  - cbn. rewrite normalizeNL_snoc. reflexivity.
  - cbn [String.append csv.readLines drop_CR_before_LF starts_with_LF].
    destruct (Ascii.eqb c csv.LF) eqn:Hl.
    + apply Ascii.eqb_eq in Hl. subst c.
      change (Ascii.eqb csv.LF csv.CR) with false. cbn [andb].
      rewrite plain_lines_LF, normalizeNL_snoc. f_equal.
      rewrite IH. destruct (starts_with_LF (t ++ String csv.LF "")); reflexivity.
    + rewrite IH. destruct (Ascii.eqb c csv.CR) eqn:Hc.
      * apply Ascii.eqb_eq in Hc. subst c. cbn [andb].
        destruct (starts_with_LF (t ++ String csv.LF "")).
        -- rewrite dropCR_snoc_CR. reflexivity.
        -- rewrite plain_lines_char by reflexivity. reflexivity.
      * cbn [andb]. rewrite plain_lines_char by assumption.
        destruct (starts_with_LF (t ++ String csv.LF "")); [|reflexivity].
        rewrite dropCR_snoc by assumption. reflexivity.
Qed.

(** ** Carriage returns before line feeds in the written text *)

Lemma drop_cons c s :
  Ascii.eqb c csv.CR && starts_with_LF s = false ->
  drop_CR_before_LF (String c s) = String c (drop_CR_before_LF s).
Proof. intros H. cbn [drop_CR_before_LF]. rewrite H. reflexivity. Qed.

Lemma drop_plain a : forall s,
  csv.has_special a = false ->
  drop_CR_before_LF (a ++ s) = (a ++ drop_CR_before_LF s)%string.
Proof.
  induction a as [|c a IH]; intros s Hs; [reflexivity|].
  cbn [csv.has_special] in Hs. apply orb_false_iff in Hs. destruct Hs as [Hc Ha].
  destruct (special_false c Hc) as (_ & _ & _ & Hr).
  cbn [String.append]. rewrite drop_cons by (rewrite Hr; reflexivity).
  rewrite IH by assumption. reflexivity.
Qed.

Lemma drop_plain_id a : csv.has_special a = false -> drop_CR_before_LF a = a.
Proof.
  intros Hs. rewrite <- (sapp_nil_r a) at 1. rewrite drop_plain by assumption.
  apply sapp_nil_r.
Qed.

Lemma starts_with_LF_escape f s :
  starts_with_LF (csv.escape f ++ s) =
  match f with
  | EmptyString => starts_with_LF s
  | _ => starts_with_LF f
  end.
Proof.
  destruct f as [|c f]; [reflexivity|].
  cbn [csv.escape]. destruct (Ascii.eqb c csv.quote) eqn:Hq; [|reflexivity].
  apply Ascii.eqb_eq in Hq. subst c. reflexivity.
Qed.

(** Dropping them inside a quoted field commutes with the doubling of
    quotes. *)
Lemma drop_escape f : forall s,
  starts_with_LF s = false ->
  drop_CR_before_LF (csv.escape f ++ s) =
  (csv.escape (drop_CR_before_LF f) ++ drop_CR_before_LF s)%string.
Proof.
  induction f as [|c f IH]; intros s Hs; [reflexivity|].
  cbn [csv.escape drop_CR_before_LF].
  destruct (Ascii.eqb c csv.quote) eqn:Hq.
  - apply Ascii.eqb_eq in Hq. subst c.
    change (Ascii.eqb csv.quote csv.CR) with false. cbn [andb csv.escape String.append].
    change (Ascii.eqb csv.quote csv.quote) with true. cbv iota.
    rewrite !drop_cons by reflexivity. rewrite IH by assumption. reflexivity.
  - cbn [String.append drop_CR_before_LF]. rewrite starts_with_LF_escape.
    destruct (Ascii.eqb c csv.CR) eqn:Hc.
    + cbn [andb]. destruct f as [|c' f'].
      * cbn [csv.escape String.append drop_CR_before_LF starts_with_LF]. rewrite Hs.
        cbn [csv.escape]. rewrite Hq. reflexivity.
      * destruct (starts_with_LF (String c' f')) eqn:Hl.
        -- apply IH. assumption.
        -- cbn [csv.escape]. rewrite Hq. cbn [String.append]. f_equal.
           apply IH. assumption.
    + cbn [andb csv.escape]. rewrite Hq. cbn [String.append]. f_equal.
      apply IH. assumption.
Qed.

Lemma has_special_drop f : csv.has_special (drop_CR_before_LF f) = csv.has_special f.
Proof.
  induction f as [|c f IH]; [reflexivity|].
  cbn [drop_CR_before_LF csv.has_special].
  destruct (Ascii.eqb c csv.CR && starts_with_LF f) eqn:Hc.
  - apply andb_prop in Hc. destruct Hc as [Hcr Hl].
    apply Ascii.eqb_eq in Hcr. subst c. rewrite IH.
    destruct f as [|c' f']; [discriminate|].
    cbn [starts_with_LF] in Hl. apply Ascii.eqb_eq in Hl. subst c'. reflexivity.
  - cbn [csv.has_special]. rewrite IH. reflexivity.
Qed.

Lemma fieldNeedsQuotes_drop f :
  csv.fieldNeedsQuotes (drop_CR_before_LF f) = csv.fieldNeedsQuotes f.
Proof.
  destruct (csv.has_special f) eqn:Hs.
  - pose proof (has_special_drop f) as Hd. rewrite Hs in Hd.
    unfold csv.fieldNeedsQuotes. rewrite Hs, Hd.
    destruct f as [|c f]; [discriminate|].
    destruct (drop_CR_before_LF (String c f)) as [|c' f'] eqn:He; [discriminate|].
    change (String.eqb (String c f) "") with false.
    change (String.eqb (String c' f') "") with false. cbv iota.
    destruct (String.eqb (String c' f') "\."), (String.eqb (String c f) "\."); reflexivity.
  - rewrite drop_plain_id by assumption. reflexivity.
Qed.

Lemma drop_writeField f s :
  drop_CR_before_LF (csv.writeField f ++ s) =
  (csv.writeField (drop_CR_before_LF f) ++ drop_CR_before_LF s)%string.
Proof.
  unfold csv.writeField. rewrite fieldNeedsQuotes_drop.
  destruct (csv.fieldNeedsQuotes f) eqn:Hq.
  - cbn [String.append]. rewrite !sapp_assoc. cbn [String.append].
    rewrite drop_cons by reflexivity. rewrite drop_escape by reflexivity.
    rewrite drop_cons by reflexivity. reflexivity.
  - pose proof (plain_field_no_special f Hq) as Hs.
    rewrite drop_plain by assumption. rewrite (drop_plain_id f) by assumption. reflexivity.
Qed.

Lemma drop_writeFields : forall record first s,
  drop_CR_before_LF (csv.writeFields first record ++ s) =
  (csv.writeFields first (map drop_CR_before_LF record) ++ drop_CR_before_LF s)%string.
Proof.
  induction record as [|f record IH]; intros first s; [reflexivity|].
  cbn [csv.writeFields map]. rewrite !sapp_assoc.
  destruct first.
  - cbn [String.append]. rewrite drop_writeField.
    rewrite IH. reflexivity.
  - cbn [String.append]. rewrite drop_cons by reflexivity.
    rewrite drop_writeField. rewrite IH. reflexivity.
Qed.

Lemma drop_csv_text : forall rows,
  drop_CR_before_LF (csv_text rows) = csv_text (map (map drop_CR_before_LF) rows).
Proof.
  induction rows as [|r rows IH]; [reflexivity|].
  cbn [csv_text map]. unfold csv.Write. rewrite !sapp_assoc.
  rewrite drop_writeFields. cbn [String.append].
  rewrite drop_cons by reflexivity. rewrite IH. reflexivity.
Qed.

Lemma csv_text_ends_with_LF : forall rows,
  rows <> [] -> exists t, csv_text rows = (t ++ String csv.LF "")%string.
Proof.
  induction rows as [|r rows IH]; intros Hne; [congruence|].
  cbn [csv_text]. destruct rows as [|r' rows].
  - exists (csv.writeFields true r). cbn [csv_text]. rewrite sapp_nil_r. reflexivity.
  - destruct (IH ltac:(discriminate)) as [t Ht]. rewrite Ht.
    exists (csv.Write r ++ t)%string. rewrite sapp_assoc. reflexivity.
Qed.

(** What [ReadAll] returns for the text of rows of the same width. *)
Lemma ReadAll_csv_text (k : nat) rows :
  (2 <= k)%nat ->
  Forall (fun r => List.length r = k) rows ->
  csv.ReadAll (csv_text rows) = inr (map (map drop_CR_before_LF) rows).
Proof.
  intros Hk Hall. unfold csv.ReadAll.
  destruct rows as [|r rows]; [reflexivity|].
  destruct (csv_text_ends_with_LF (r :: rows) ltac:(discriminate)) as [t Ht].
  rewrite Ht, readLines_plain_lines, <- Ht.
  replace (if starts_with_LF (csv_text (r :: rows)) then csv.dropCR "" else "") with ""
    by (destruct (starts_with_LF _); reflexivity).
  rewrite drop_csv_text.
  apply (read_text k _ 0%nat []); [assumption| |left; reflexivity].
  apply Forall_map. revert Hall. apply Forall_impl. intros row Hrow.
  rewrite length_map. exact Hrow.
Qed.

(** ** The export *)

Lemma csv_text_app a b : csv_text (a ++ b) = (csv_text a ++ csv_text b)%string.
Proof.
  induction a as [|r a IH]; [reflexivity|].
  cbn [List.app csv_text]. rewrite IH, sapp_assoc. reflexivity.
Qed.

Lemma write_records_ok H : forall txs done,
  writes_succeed H (done ++ map (models.CSVRecord (utils.Format_RFC3339 H)) txs) ->
  utils.write_records H txs (csv_text done) =
  utils.mkOutcome None true
    (csv_text (done ++ map (models.CSVRecord (utils.Format_RFC3339 H)) txs)).
Proof.
  induction txs as [|tx txs IH]; intros done Hok.
  - cbn. rewrite app_nil_r. reflexivity.
  - cbn [utils.write_records map].
    rewrite (Hok done (map (models.CSVRecord (utils.Format_RFC3339 H)) txs) _ eq_refl).
    replace (csv_text done ++ csv.Write (models.CSVRecord (utils.Format_RFC3339 H) tx))%string
      with (csv_text (done ++ [models.CSVRecord (utils.Format_RFC3339 H) tx]))
      by (rewrite csv_text_app; cbn [csv_text]; rewrite sapp_nil_r; reflexivity).
    rewrite IH.
    + rewrite <- app_assoc. reflexivity.
    + rewrite <- app_assoc. exact Hok.
Qed.

(** X16.  When the directory can be made, the file created and every
    record handed to the writer, [ExportTransactionsToCSV] returns nil
    and has written the header line followed by one line per
    transaction, in order; every row has the ten columns of the header;
    and what [csv.NewReader(file).ReadAll()] returns for that text is
    the header and the ten fields of each transaction, commas, quotes
    and line feeds in them included, with one change: a carriage
    return that stands directly before a line feed in a field is not
    returned. *)
Theorem csv_export_reads_back :
  forall (H : utils.Host) (transactions : list models.Transaction) (filePath : string),
    utils.MkdirAll H (utils.filepath_Dir H filePath) 493 = None ->
    utils.Create H filePath = None ->
    writes_succeed H (csv_rows H transactions) ->
    utils.ExportTransactionsToCSV H transactions filePath =
      utils.mkOutcome None true (csv_text (csv_rows H transactions)) /\
    csv.ReadAll (csv_text (csv_rows H transactions)) =
      inr (map (map drop_CR_before_LF) (csv_rows H transactions)) /\
    List.length (csv_rows H transactions) = S (List.length transactions) /\
    Forall (fun row => List.length row = List.length models.CSVHeaders)
      (csv_rows H transactions).
Proof.
  intros H transactions filePath Hmk Hcr Hw.
  assert (Hwidth : Forall (fun row => List.length row = List.length models.CSVHeaders)
                     (csv_rows H transactions)).
  { unfold csv_rows. constructor; [reflexivity|].
    apply Forall_map. apply Forall_forall. intros tx _. reflexivity. }
  split; [|split; [|split]].
  - unfold utils.ExportTransactionsToCSV. cbv zeta. rewrite Hmk, Hcr.
    pose proof (Hw [] (map (models.CSVRecord (utils.Format_RFC3339 H)) transactions)
                  models.CSVHeaders eq_refl) as Hh.
    cbn [csv_text] in Hh. rewrite Hh.
    replace (csv.Write models.CSVHeaders) with (csv_text [models.CSVHeaders])
      by (cbn [csv_text]; apply sapp_nil_r).
    apply (write_records_ok H transactions [models.CSVHeaders]). exact Hw.
  - apply (ReadAll_csv_text (List.length models.CSVHeaders)); [cbn; lia|exact Hwidth].
  - unfold csv_rows. cbn [List.length]. rewrite length_map. reflexivity.
  - exact Hwidth.
Qed.

(** A transaction whose fields hold a comma, a quote, line feeds and
    carriage returns is written in quotes where needed and read back
    as it was, but for the carriage return before the line feed. *)
Lemma csv_export_reads_back_example :
  exists text,
    utils.ExportTransactionsToCSV host.sound [host.multiline] "./output/x.csv" =
      utils.mkOutcome None true text /\
    csv.ReadAll text =
      inr [models.CSVHeaders;
           ["0xabc"; "1630000000"; "a,b"; String csv.quote "quoted"; "ETH_TRANSFER";
            String "p" (String csv.CR "q"); String "x" (String csv.LF "y");
            String "u" (String csv.LF "v"); "1.000000000000000000"; "0"]].
Proof.
  destruct (csv_export_reads_back host.sound [host.multiline] "./output/x.csv")
    as (Hrun & Hread & _).
  - reflexivity.
  - reflexivity.
  - intros done rest row _. reflexivity.
  - eexists. split; [exact Hrun|]. rewrite Hread. reflexivity.
Defined.

Lemma write_records_fails H : forall done tx rest err before,
  writes_succeed H (before ++ map (models.CSVRecord (utils.Format_RFC3339 H)) done) ->
  utils.Writer_Write H
    (csv_text (before ++ map (models.CSVRecord (utils.Format_RFC3339 H)) done))
    (csv.Write (models.CSVRecord (utils.Format_RFC3339 H) tx)) = Some err ->
  utils.write_records H (done ++ tx :: rest) (csv_text before) =
  utils.mkOutcome (Some (Wrapf "failed to write transaction record: %w" err)) true
    (csv_text (before ++ map (models.CSVRecord (utils.Format_RFC3339 H)) done)).
Proof.
  induction done as [|d done IH]; intros tx rest err before Hok Hfail.
  - cbn [List.app map] in *. rewrite app_nil_r in *.
    cbn [utils.write_records]. rewrite Hfail. reflexivity.
  - cbn [List.app map utils.write_records] in *.
    rewrite (Hok before (map (models.CSVRecord (utils.Format_RFC3339 H)) done) _ eq_refl).
    replace (csv_text before ++ csv.Write (models.CSVRecord (utils.Format_RFC3339 H) d))%string
      with (csv_text (before ++ [models.CSVRecord (utils.Format_RFC3339 H) d]))
      by (rewrite csv_text_app; cbn [csv_text]; rewrite sapp_nil_r; reflexivity).
    replace (before ++ models.CSVRecord (utils.Format_RFC3339 H) d
                       :: map (models.CSVRecord (utils.Format_RFC3339 H)) done)%list
      with ((before ++ [models.CSVRecord (utils.Format_RFC3339 H) d])
            ++ map (models.CSVRecord (utils.Format_RFC3339 H)) done)%list in *
      by (rewrite <- app_assoc; reflexivity).
    apply IH; assumption.
Qed.

(** X17.  [ExportTransactionsToCSV] stops at the first failure and
    wraps its error: when the directory cannot be made nothing is
    created; when the file cannot be created nothing is written; and
    when handing the record of some transaction to the writer fails,
    the records of the transactions before it (and the header) have
    been handed over, nothing after them is, and the error is
    "failed to write transaction record". *)
Theorem csv_export_stops_at_the_first_failure :
  forall (H : utils.Host) (filePath : string),
    (forall transactions err,
       utils.MkdirAll H (utils.filepath_Dir H filePath) 493 = Some err ->
       utils.ExportTransactionsToCSV H transactions filePath =
         utils.mkOutcome (Some (Wrapf "failed to create directory: %w" err)) false "") /\
    (forall transactions err,
       utils.MkdirAll H (utils.filepath_Dir H filePath) 493 = None ->
       utils.Create H filePath = Some err ->
       utils.ExportTransactionsToCSV H transactions filePath =
         utils.mkOutcome (Some (Wrapf "failed to create CSV file: %w" err)) false "") /\
    (forall done tx rest err,
       utils.MkdirAll H (utils.filepath_Dir H filePath) 493 = None ->
       utils.Create H filePath = None ->
       writes_succeed H (csv_rows H done) ->
       utils.Writer_Write H (csv_text (csv_rows H done))
         (csv.Write (models.CSVRecord (utils.Format_RFC3339 H) tx)) = Some err ->
       utils.ExportTransactionsToCSV H (done ++ tx :: rest) filePath =
         utils.mkOutcome (Some (Wrapf "failed to write transaction record: %w" err)) true
           (csv_text (csv_rows H done))).
Proof.
  intros H filePath. split; [|split].
  - intros transactions err Hmk. unfold utils.ExportTransactionsToCSV. cbv zeta.
    rewrite Hmk. reflexivity.
  - intros transactions err Hmk Hcr. unfold utils.ExportTransactionsToCSV. cbv zeta.
    rewrite Hmk, Hcr. reflexivity.
  - intros done tx rest err Hmk Hcr Hw Hfail.
    unfold utils.ExportTransactionsToCSV. cbv zeta. rewrite Hmk, Hcr.
    pose proof (Hw [] (map (models.CSVRecord (utils.Format_RFC3339 H)) done)
                  models.CSVHeaders eq_refl) as Hh.
    cbn [csv_text] in Hh. rewrite Hh.
    replace (csv.Write models.CSVHeaders) with (csv_text [models.CSVHeaders])
      by (cbn [csv_text]; apply sapp_nil_r).
    apply (write_records_fails H done tx rest err [models.CSVHeaders]); assumption.
Qed.

(** On a host whose writer fails after 200 bytes the second of three
    transactions cannot be handed over: the header and the first
    transaction are, the third is never tried. *)
Lemma csv_export_stops_at_the_first_failure_example :
  utils.ExportTransactionsToCSV (host.full_after 200)
    ([host.awkward] ++ host.awkward :: [host.awkward]) "./output/x.csv" =
  utils.mkOutcome
    (Some (Wrapf "failed to write transaction record: %w" (External "no space left on device")))
    true (csv_text (csv_rows (host.full_after 200) [host.awkward])).
Proof.
  destruct (csv_export_stops_at_the_first_failure (host.full_after 200) "./output/x.csv")
    as (_ & _ & Hwrite).
  apply Hwrite.
  - reflexivity.
  - reflexivity.
  - intros done rest row Hrows.
    destruct done as [|a [|b done]]; cbn in Hrows.
    + injection Hrows as <- _. reflexivity.
    + injection Hrows as <- <- _. reflexivity.
    + injection Hrows as _ _ Hnil. destruct done; discriminate.
  - reflexivity.
Defined.

(** * Exact amounts

    The conversions divide in [big.Float] and print the quotient with a
    fixed number of decimals.  This part shows when the printed text is
    the exact decimal: the digits of [utoa], the decimal that
    [decimal.init] builds and [decimal.round] cuts, the rounding of
    [Float.uquo], and the four conversion functions on top. *)

(** ** The digits of a number *)

Lemma uint_digits_to_list u : uint_digits u = map digit_Z (DecimalFacts.to_list u).
Proof. induction u; cbn; congruence. Qed.

Lemma utoa_small n : 0 <= n < 10 -> utoa n = [n].
Proof.
  intros H. destruct n as [|p|p]; [reflexivity| |lia].
  do 4 (try (destruct p as [p|p|]; try reflexivity; try lia)).
Qed.

Lemma to_uint_normal (m : N) : Decimal.unorm (N.to_uint m) = N.to_uint m.
Proof.
  rewrite <- (DecimalN.Unsigned.of_to m) at 2. symmetry. apply DecimalN.Unsigned.to_of.
Qed.

Lemma to_uint_head (m : N) :
  (0 < m)%N ->
  exists h t, DecimalFacts.to_list (N.to_uint m) = h :: t /\ h <> DecimalFacts.d0.
Proof.
  intros Hm. pose proof (to_uint_normal m) as Hn.
  apply (f_equal DecimalFacts.to_list) in Hn. rewrite DecimalFacts.unorm_spec in Hn.
  unfold DecimalFacts.lunorm in Hn.
  destruct (DecimalFacts.lnzhead (DecimalFacts.to_list (N.to_uint m))) as [|h t] eqn:Hh.
  - exfalso. destruct m as [|p]; [lia|].
    assert (Hz : N.to_uint (N.pos p) = Decimal.zero).
    { apply DecimalFacts.to_list_inj. rewrite <- Hn. reflexivity. }
    cbn in Hz. exact (DecimalPos.Unsigned.to_uint_nonzero p Hz).
  - exists h, t. split; [symmetry; exact Hn|].
    intros ->. exact (DecimalFacts.lnzhead_neq_d0_head _ _ Hh).
Qed.

Lemma utoa_step n : 10 <= n -> utoa n = (utoa (n / 10) ++ [n mod 10])%list.
Proof.
  intros Hn.
  pose proof (Z.div_mod n 10 ltac:(lia)) as Hdm.
  pose proof (Z.mod_pos_bound n 10 ltac:(lia)) as Hb.
  set (a := n / 10) in *. set (b := n mod 10) in *.
  assert (Ha : 1 <= a) by lia.
  set (u := N.to_uint (Z.to_N a)).
  set (d := Decimal.app u (digit_uint b)).
  assert (Hlist : DecimalFacts.to_list d = (DecimalFacts.to_list u ++ DecimalFacts.to_list (digit_uint b))%list)
    by apply DecimalFacts.app_spec.
  assert (Hval : N.of_uint d = Z.to_N n).
  { unfold N.of_uint. rewrite DecimalPos.Unsigned.of_uint_alt.
    assert (Hrev : Decimal.rev d = match b with
                     | 0 => Decimal.D0 (Decimal.rev u) | 1 => Decimal.D1 (Decimal.rev u)
                     | 2 => Decimal.D2 (Decimal.rev u) | 3 => Decimal.D3 (Decimal.rev u)
                     | 4 => Decimal.D4 (Decimal.rev u) | 5 => Decimal.D5 (Decimal.rev u)
                     | 6 => Decimal.D6 (Decimal.rev u) | 7 => Decimal.D7 (Decimal.rev u)
                     | 8 => Decimal.D8 (Decimal.rev u) | _ => Decimal.D9 (Decimal.rev u)
                     end).
    { apply DecimalFacts.to_list_inj. rewrite DecimalFacts.rev_spec, Hlist, rev_app_distr.
      assert (Hc : b = 0 \/ b = 1 \/ b = 2 \/ b = 3 \/ b = 4 \/ b = 5 \/ b = 6 \/ b = 7
                   \/ b = 8 \/ b = 9) by lia.
      repeat (destruct Hc as [Hc|Hc];
              [rewrite Hc; cbn; rewrite DecimalFacts.rev_spec; reflexivity|]).
      rewrite Hc. cbn. rewrite DecimalFacts.rev_spec. reflexivity. }
    rewrite Hrev.
    assert (Hu : DecimalPos.Unsigned.of_lu (Decimal.rev u) = Z.to_N a).
    { rewrite <- DecimalPos.Unsigned.of_uint_alt.
      exact (DecimalN.Unsigned.of_to (Z.to_N a)). }
    assert (Hc : b = 0 \/ b = 1 \/ b = 2 \/ b = 3 \/ b = 4 \/ b = 5 \/ b = 6 \/ b = 7
                 \/ b = 8 \/ b = 9) by lia.
    repeat (destruct Hc as [Hc|Hc];
            [rewrite Hc in *; cbn [DecimalPos.Unsigned.of_lu]; rewrite Hu; lia|]).
    rewrite Hc in *. cbn [DecimalPos.Unsigned.of_lu]. rewrite Hu. lia. }
  assert (Hnorm : Decimal.unorm d = d).
  { apply DecimalFacts.to_list_inj. rewrite DecimalFacts.unorm_spec, Hlist.
    destruct (to_uint_head (Z.to_N a) ltac:(lia)) as (h & t & Hht & Hh0).
    fold u in Hht. rewrite Hht. cbn [List.app]. unfold DecimalFacts.lunorm.
    rewrite DecimalFacts.lnzhead_head_nd0 by assumption. reflexivity. }
  unfold utoa. rewrite <- Hval, DecimalN.Unsigned.to_of, Hnorm.
  rewrite !uint_digits_to_list, Hlist, map_app. f_equal.
  assert (Hc : b = 0 \/ b = 1 \/ b = 2 \/ b = 3 \/ b = 4 \/ b = 5 \/ b = 6 \/ b = 7
               \/ b = 8 \/ b = 9) by lia.
  repeat (destruct Hc as [Hc|Hc]; [rewrite Hc; reflexivity|]). rewrite Hc. reflexivity.
Qed.

Lemma lval_snoc l x : lval (l ++ [x])%list = lval l * 10 + x.
Proof. unfold lval. rewrite fold_left_app. reflexivity. Qed.

Lemma lval_app l1 l2 :
  lval (l1 ++ l2)%list = lval l1 * 10 ^ Z.of_nat (List.length l2) + lval l2.
Proof.
  induction l2 as [|x l2 IH] using rev_ind.
  - rewrite app_nil_r. cbn [List.length Z.of_nat]. change (lval []) with 0.
    rewrite Z.pow_0_r. lia.
  - rewrite app_assoc, !lval_snoc, IH, length_app. cbn [List.length].
    rewrite Nat2Z.inj_add. change (Z.of_nat 1) with 1.
    rewrite Z.pow_add_r by lia. lia.
Qed.

Lemma lval_cons h t : lval (h :: t) = h * 10 ^ Z.of_nat (List.length t) + lval t.
Proof. change (h :: t) with ([h] ++ t)%list. rewrite lval_app. unfold lval at 1. cbn. reflexivity. Qed.

Lemma lval_bound ds : digit_list ds -> 0 <= lval ds < 10 ^ Z.of_nat (List.length ds).
Proof.
  induction ds as [|x ds IH] using rev_ind; intros Hd.
  - unfold lval. cbn. lia.
  - apply Forall_app in Hd. destruct Hd as [Hds Hx]. inversion Hx; subst.
    specialize (IH Hds). rewrite lval_snoc, length_app. cbn [List.length].
    rewrite Nat2Z.inj_add. change (Z.of_nat 1) with 1. rewrite Z.pow_add_r by lia. lia.
Qed.

Lemma lval_inj a : forall b,
  digit_list a -> digit_list b -> List.length a = List.length b -> lval a = lval b -> a = b.
Proof.
  induction a as [|x a IH]; intros [|y b] Ha Hb Hlen Hv; try discriminate; [reflexivity|].
  inversion Ha; subst. inversion Hb; subst.
  rewrite !lval_cons in Hv. injection Hlen as Hlen. rewrite <- Hlen in Hv.
  pose proof (lval_bound a ltac:(assumption)) as Ba.
  pose proof (lval_bound b ltac:(assumption)) as Bb. rewrite <- Hlen in Bb.
  assert (Hxy : x = y) by nia. subst y. f_equal. apply IH; try assumption. lia.
Qed.

Lemma lval_repeat0 m : lval (repeat 0 m) = 0.
Proof.
  induction m as [|m IH]; [reflexivity|]. cbn [repeat]. rewrite lval_cons, IH. lia.
Qed.

Lemma digit_list_repeat0 m : digit_list (repeat 0 m).
Proof. apply Forall_forall. intros x Hx. apply repeat_spec in Hx. lia. Qed.

(** Induction over the decimal digits of a number. *)
Lemma digits_ind (P : Z -> Prop) :
  (forall n, 0 <= n < 10 -> P n) ->
  (forall n, 10 <= n -> P (n / 10) -> P n) ->
  forall n, 0 <= n -> P n.
Proof.
  intros Hsmall Hstep n Hn. revert Hn.
  induction n as [n IH] using (well_founded_induction (Z.lt_wf 0)). intros Hn.
  destruct (Z_lt_dec n 10) as [Hlt|Hge]; [apply Hsmall; lia|].
  apply Hstep; [lia|]. apply IH.
  - split; [apply Z.div_pos; lia|]. apply Z.div_lt; lia.
  - apply Z.div_pos; lia.
Qed.

Lemma utoa_digit_list n : 0 <= n -> digit_list (utoa n).
Proof.
  revert n. apply digits_ind.
  - intros n Hn. rewrite utoa_small by assumption. constructor; [lia|constructor].
  - intros n Hn IH. rewrite utoa_step by assumption. apply Forall_app. split; [exact IH|].
    constructor; [|constructor]. pose proof (Z.mod_pos_bound n 10). lia.
Qed.

Lemma lval_utoa n : 0 <= n -> lval (utoa n) = n.
Proof.
  revert n. apply digits_ind.
  - intros n Hn. rewrite utoa_small by assumption. unfold lval. cbn. lia.
  - intros n Hn IH. rewrite utoa_step by assumption. rewrite lval_snoc, IH.
    pose proof (Z.div_mod n 10). lia.
Qed.

Lemma utoa_head n : 1 <= n -> exists h t, utoa n = h :: t /\ 1 <= h <= 9.
Proof.
  intros Hn. assert (H0 : 0 <= n) by lia. revert n H0 Hn. apply (digits_ind (fun n => 1 <= n -> _)).
  - intros n Hn H1. rewrite utoa_small by assumption. exists n, []. split; [reflexivity|lia].
  - intros n Hn IH _. rewrite utoa_step by assumption.
    destruct IH as (h & t & Ht & Hh).
    { pose proof (Z.div_le_lower_bound n 10 1). lia. }
    rewrite Ht. exists h, (t ++ [n mod 10])%list. split; [reflexivity|assumption].
Qed.

Lemma utoa_nonnil n : 0 <= n -> utoa n <> [].
Proof.
  intros Hn. destruct (Z.eq_dec n 0) as [->|Hnz]; [discriminate|].
  destruct (utoa_head n ltac:(lia)) as (h & t & Ht & _). rewrite Ht. discriminate.
Qed.

(** A digit list without leading zero is the digit list of its value. *)
Lemma utoa_lval ds :
  digit_list ds -> (exists h t, ds = h :: t /\ 1 <= h) -> utoa (lval ds) = ds.
Proof.
  induction ds as [|x ds IH] using rev_ind; intros Hd (h & t & Hht & Hh).
  - discriminate.
  - apply Forall_app in Hd. destruct Hd as [Hds Hx]. inversion Hx as [|? ? Hx9 _]; subst.
    rewrite lval_snoc. destruct ds as [|h' t'].
    + cbn in Hht. injection Hht as <- <-. unfold lval. cbn. apply utoa_small. lia.
    + cbn in Hht. injection Hht as <- Ht.
      assert (Hpos : 1 <= lval (h' :: t')).
      { rewrite lval_cons. inversion Hds; subst.
        pose proof (lval_bound t' ltac:(assumption)).
        assert (0 < 10 ^ Z.of_nat (List.length t')) by (apply Z.pow_pos_nonneg; lia). nia. }
      rewrite utoa_step by lia.
      replace ((lval (h' :: t') * 10 + x) / 10) with (lval (h' :: t'))
        by (apply Z.div_unique with (r := x); lia).
      replace ((lval (h' :: t') * 10 + x) mod 10) with x
        by (apply Z.mod_unique with (q := lval (h' :: t')); lia).
      rewrite IH; [reflexivity|assumption|eauto].
Qed.

Lemma utoa_length_bounds n :
  1 <= n -> 10 ^ (Z.of_nat (List.length (utoa n)) - 1) <= n < 10 ^ Z.of_nat (List.length (utoa n)).
Proof.
  intros Hn. pose proof (lval_bound (utoa n) (utoa_digit_list n ltac:(lia))) as Hb.
  rewrite lval_utoa in Hb by lia. split; [|lia].
  destruct (utoa_head n Hn) as (h & t & Ht & Hh).
  pose proof (lval_utoa n ltac:(lia)) as Hv. rewrite Ht in *. rewrite lval_cons in Hv.
  cbn [List.length]. rewrite Nat2Z.inj_succ.
  replace (Z.succ (Z.of_nat (List.length t)) - 1) with (Z.of_nat (List.length t)) by lia.
  pose proof (utoa_digit_list n ltac:(lia)) as Hd. rewrite Ht in Hd. inversion Hd; subst.
  pose proof (lval_bound t ltac:(assumption)).
  assert (0 < 10 ^ Z.of_nat (List.length t)) by (apply Z.pow_pos_nonneg; lia). nia.
Qed.

(** The length of the digit list is decided by the size. *)
Lemma utoa_length_unique n (L : nat) :
  10 ^ (Z.of_nat L - 1) <= n < 10 ^ Z.of_nat L -> 1 <= n -> List.length (utoa n) = L.
Proof.
  intros Hb Hn. pose proof (utoa_length_bounds n Hn) as Hu.
  set (L' := List.length (utoa n)) in *.
  destruct (Nat.lt_trichotomy L' L) as [Hlt|[Heq|Hgt]]; [|assumption|].
  - exfalso. assert (10 ^ Z.of_nat L' <= 10 ^ (Z.of_nat L - 1))
      by (apply Z.pow_le_mono_r; lia). lia.
  - exfalso. assert (10 ^ Z.of_nat L <= 10 ^ (Z.of_nat L' - 1))
      by (apply Z.pow_le_mono_r; lia). lia.
Qed.

Lemma fixed_digits_length c : forall b, List.length (fixed_digits c b) = c.
Proof.
  induction c as [|c IH]; intros b; [reflexivity|].
  cbn [fixed_digits]. rewrite length_app, IH. cbn. lia.
Qed.

Lemma fixed_digits_digit_list c : forall b, digit_list (fixed_digits c b).
Proof.
  induction c as [|c IH]; intros b; [constructor|].
  cbn [fixed_digits]. apply Forall_app. split; [apply IH|].
  constructor; [|constructor]. pose proof (Z.mod_pos_bound b 10). lia.
Qed.

Lemma lval_fixed_digits c : forall b,
  0 <= b < 10 ^ Z.of_nat c -> lval (fixed_digits c b) = b.
Proof.
  induction c as [|c IH]; intros b Hb.
  - cbn in *. unfold lval. cbn. lia.
  - cbn [fixed_digits]. rewrite lval_snoc, IH.
    + pose proof (Z.div_mod b 10). lia.
    + rewrite Nat2Z.inj_succ, Z.pow_succ_r in Hb by lia. split.
      * apply Z.div_pos; lia.
      * apply Z.div_lt_upper_bound; lia.
Qed.

(** The digits of n * 10^c + b are those of n followed by the c digits
    of b. *)
Lemma utoa_app_fixed n c b :
  1 <= n -> 0 <= b < 10 ^ Z.of_nat c ->
  utoa (n * 10 ^ Z.of_nat c + b) = (utoa n ++ fixed_digits c b)%list.
Proof.
  intros Hn Hb.
  assert (Hv : lval (utoa n ++ fixed_digits c b)%list = n * 10 ^ Z.of_nat c + b).
  { rewrite lval_app, fixed_digits_length, lval_utoa, lval_fixed_digits by lia. reflexivity. }
  rewrite <- Hv. apply utoa_lval.
  - apply Forall_app. split; [apply utoa_digit_list; lia|apply fixed_digits_digit_list].
  - destruct (utoa_head n Hn) as (h & t & Ht & Hh). rewrite Ht.
    exists h, (t ++ fixed_digits c b)%list. split; [reflexivity|lia].
Qed.

(** The digits of a number below 10^k, padded to k places. *)
Lemma pad_fixed_digits (k : nat) b :
  0 <= b < 10 ^ Z.of_nat k -> (1 <= k)%nat ->
  (repeat 0 (k - List.length (utoa b)) ++ utoa b)%list = fixed_digits k b.
Proof.
  intros Hb Hk.
  assert (Hlen : (List.length (utoa b) <= k)%nat).
  { destruct (Z.eq_dec b 0) as [->|Hnz]; [cbn; lia|].
    pose proof (utoa_length_bounds b ltac:(lia)) as Hu.
    destruct (le_lt_dec (List.length (utoa b)) k) as [Hle|Hgt]; [assumption|exfalso].
    assert (10 ^ Z.of_nat k <= 10 ^ (Z.of_nat (List.length (utoa b)) - 1))
      by (apply Z.pow_le_mono_r; lia). lia. }
  apply lval_inj.
  - apply Forall_app. split; [apply digit_list_repeat0|apply utoa_digit_list; lia].
  - apply fixed_digits_digit_list.
  - rewrite length_app, repeat_length, fixed_digits_length. lia.
  - rewrite lval_app, lval_repeat0, lval_utoa, lval_fixed_digits by lia. lia.
Qed.

(** ** Trailing zeros *)

Lemma drop_zeros_split l : exists z, l = (repeat 0 z ++ big.drop_zeros l)%list.
Proof.
  induction l as [|x l (z & IH)]; [exists 0%nat; reflexivity|].
  destruct (Z.eq_dec x 0) as [->|Hx].
  - exists (S z). cbn [big.drop_zeros repeat List.app]. f_equal. exact IH.
  - exists 0%nat. destruct x; try reflexivity. congruence.
Qed.

Lemma trim_split ds : exists z, ds = (big.trim_digits ds ++ repeat 0 z)%list.
Proof.
  unfold big.trim_digits. destruct (drop_zeros_split (rev ds)) as (z & Hz).
  exists z. apply (f_equal (@rev Z)) in Hz. rewrite rev_involutive, rev_app_distr in Hz.
  rewrite Hz at 1. f_equal. apply rev_repeat.
Qed.

Lemma drop_zeros_head l : forall t, big.drop_zeros l <> 0 :: t.
Proof.
  induction l as [|x l IH]; intros t; [discriminate|].
  destruct x; cbn [big.drop_zeros]; [apply IH| |]; intros H; discriminate.
Qed.

Lemma trim_app_zeros ds z : big.trim_digits (ds ++ repeat 0 z)%list = big.trim_digits ds.
Proof.
  unfold big.trim_digits. rewrite rev_app_distr, rev_repeat. f_equal.
  induction z as [|z IH]; [reflexivity|]. cbn [repeat List.app big.drop_zeros]. exact IH.
Qed.

Lemma trim_nonzero_last l x : x <> 0 -> big.trim_digits (l ++ [x])%list = (l ++ [x])%list.
Proof.
  intros Hx. unfold big.trim_digits. rewrite rev_app_distr. cbn [rev List.app].
  replace (big.drop_zeros (x :: rev l)) with (x :: rev l) by (destruct x; congruence || reflexivity).
  cbn [rev]. rewrite rev_involutive. reflexivity.
Qed.

(** ** Reading digits by position *)

Lemma dig_app_zeros ds z i : dig (ds ++ repeat 0 z)%list i = dig ds i.
Proof.
  unfold dig. rewrite length_app, repeat_length.
  destruct (Z.leb_spec 0 i) as [H0|H0]; cbn [andb]; [|reflexivity].
  destruct (Z.ltb_spec i (Z.of_nat (List.length ds))) as [H1|H1].
  - replace (i <? Z.of_nat (List.length ds + z)) with true by (symmetry; apply Z.ltb_lt; lia).
    apply app_nth1. lia.
  - destruct (i <? Z.of_nat (List.length ds + z)); [|reflexivity].
    rewrite app_nth2 by lia. apply nth_repeat.
Qed.

Lemma digit_at_trim ds e i : big.digit_at (big.mkDecimal (big.trim_digits ds) e) i = dig ds i.
Proof.
  destruct (trim_split ds) as (z & Hz). rewrite Hz at 2. rewrite dig_app_zeros. reflexivity.
Qed.

Lemma dig_app_r l1 l2 i :
  0 <= i -> dig (l1 ++ l2)%list (Z.of_nat (List.length l1) + i) = dig l2 i.
Proof.
  intros Hi. unfold dig. rewrite length_app.
  replace (0 <=? Z.of_nat (List.length l1) + i) with true by (symmetry; apply Z.leb_le; lia).
  replace (0 <=? i) with true by (symmetry; apply Z.leb_le; lia). cbn [andb].
  destruct (Z.ltb_spec i (Z.of_nat (List.length l2))) as [H1|H1].
  - replace (Z.of_nat (List.length l1) + i <? Z.of_nat (List.length l1 + List.length l2))
      with true by (symmetry; apply Z.ltb_lt; lia).
    rewrite app_nth2 by lia. f_equal. lia.
  - replace (Z.of_nat (List.length l1) + i <? Z.of_nat (List.length l1 + List.length l2))
      with false by (symmetry; apply Z.ltb_ge; lia).
    reflexivity.
Qed.

Lemma dig_negative ds i : i < 0 -> dig ds i = 0.
Proof. intros Hi. unfold dig. replace (0 <=? i) with false by (symmetry; apply Z.leb_gt; lia). reflexivity. Qed.

Lemma fraction_digits_window ds e : forall count i,
  big.fraction_digits (big.mkDecimal (big.trim_digits ds) e) i count = window ds i count.
Proof.
  induction count as [|count IH]; intros i; [reflexivity|].
  cbn [big.fraction_digits window]. rewrite digit_at_trim, IH. reflexivity.
Qed.

Lemma window_app ds : forall c1 c2 i,
  window ds i (c1 + c2) = (window ds i c1 ++ window ds (i + Z.of_nat c1) c2)%list.
Proof.
  induction c1 as [|c1 IH]; intros c2 i.
  - cbn. rewrite Z.add_0_r. reflexivity.
  - cbn [Nat.add window List.app]. rewrite IH. do 3 f_equal. lia.
Qed.

Lemma window_negative ds : forall count i,
  i + Z.of_nat count <= 0 -> window ds i count = repeat 0 count.
Proof.
  induction count as [|count IH]; intros i Hi; [reflexivity|].
  cbn [window repeat]. rewrite dig_negative by lia. f_equal. apply IH. lia.
Qed.

Lemma window_whole : forall ds pre,
  window (pre ++ ds)%list (Z.of_nat (List.length pre)) (List.length ds) = ds.
Proof.
  induction ds as [|x ds IH]; intros pre; [reflexivity|].
  cbn [List.length window]. f_equal.
  - replace (Z.of_nat (List.length pre)) with (Z.of_nat (List.length pre) + 0) by lia.
    rewrite dig_app_r by lia. reflexivity.
  - replace (pre ++ x :: ds)%list with ((pre ++ [x]) ++ ds)%list by (rewrite <- app_assoc; reflexivity).
    replace (Z.of_nat (List.length pre) + 1) with (Z.of_nat (List.length (pre ++ [x])%list))
      by (rewrite length_app; cbn; lia).
    apply IH.
Qed.

Lemma firstn_repeat_le {A} (x : A) : forall (n m : nat),
  (n <= m)%nat -> firstn n (repeat x m) = repeat x n.
Proof.
  induction n as [|n IH]; intros m Hm; [reflexivity|].
  destruct m as [|m]; [lia|]. cbn. f_equal. apply IH. lia.
Qed.

Lemma firstn_trim ds (a : nat) :
  (a <= List.length ds)%nat ->
  (firstn (Nat.min (List.length (big.trim_digits ds)) a) (big.trim_digits ds)
   ++ repeat 0 (a - Nat.min (List.length (big.trim_digits ds)) a))%list = firstn a ds.
Proof.
  intros Ha. destruct (trim_split ds) as (z & Hz).
  remember (big.trim_digits ds) as t eqn:Et. clear Et. subst ds.
  rewrite length_app, repeat_length in Ha.
  rewrite firstn_app. destruct (Nat.le_gt_cases a (List.length t)) as [Hle|Hgt].
  - rewrite Nat.min_r by lia. replace (a - a)%nat with 0%nat by lia.
    replace (a - List.length t)%nat with 0%nat by lia. reflexivity.
  - rewrite Nat.min_l by lia. rewrite firstn_all, firstn_all2 by lia. f_equal.
    symmetry. apply firstn_repeat_le. lia.
Qed.

(** ** Printing a canonical decimal *)

Lemma exact_decimal_fixed w (k : nat) :
  0 <= w -> (1 <= k)%nat ->
  exact_decimal w k =
  (digits_string (utoa (w / 10 ^ Z.of_nat k)) ++ "." ++
   digits_string (fixed_digits k (w mod 10 ^ Z.of_nat k)))%string.
Proof.
  intros Hw Hk. unfold exact_decimal. cbv zeta.
  rewrite pad_fixed_digits; [reflexivity| |assumption].
  apply Z.mod_pos_bound. apply Z.pow_pos_nonneg; lia.
Qed.

Lemma fixed_digits_zero c : fixed_digits c 0 = repeat 0 c.
Proof.
  apply lval_inj.
  - apply fixed_digits_digit_list.
  - apply digit_list_repeat0.
  - rewrite fixed_digits_length, repeat_length. reflexivity.
  - rewrite lval_repeat0. apply lval_fixed_digits.
    split; [lia|]. apply Z.pow_pos_nonneg; lia.
Qed.

Lemma window_nil : forall count i, window [] i count = repeat 0 count.
Proof.
  induction count as [|count IH]; intros i; [reflexivity|].
  cbn [window repeat]. rewrite IH. f_equal.
  unfold dig. cbn [List.length Z.of_nat]. destruct (0 <=? i) eqn:H0; [|reflexivity].
  replace (i <? 0) with false by (symmetry; apply Z.ltb_ge; apply Z.leb_le; assumption).
  reflexivity.
Qed.

Lemma window_all ds : window ds 0 (List.length ds) = ds.
Proof. exact (window_whole ds []). Qed.

Lemma fmtF_zero (k : nat) :
  (1 <= k)%nat -> big.fmtF (Z.of_nat k) (big.mkDecimal [] 0) = exact_decimal 0 k.
Proof.
  intros Hk. rewrite exact_decimal_fixed by lia.
  rewrite Z.div_0_l, Z.mod_0_l by (apply Z.pow_nonzero; lia).
  unfold big.fmtF. cbn [big.dexp big.dmant].
  replace (0 <? Z.of_nat k) with true by (symmetry; apply Z.ltb_lt; lia).
  cbn [Z.ltb Z.compare]. rewrite Nat2Z.id. do 3 f_equal.
  rewrite fixed_digits_zero.
  change (big.mkDecimal [] 0) with (big.mkDecimal (big.trim_digits []) 0).
  rewrite fraction_digits_window. apply window_nil.
Qed.

Lemma div_small_pow R (k : nat) :
  0 <= R < 10 ^ Z.of_nat k -> R / 10 ^ Z.of_nat k = 0 /\ R mod 10 ^ Z.of_nat k = R.
Proof. intros H. split; [apply Z.div_small|apply Z.mod_small]; assumption. Qed.

Lemma fmtF_canon R (k : nat) :
  1 <= R -> (1 <= k)%nat ->
  big.fmtF (Z.of_nat k) (canon R (Z.of_nat k)) = exact_decimal R k.
Proof.
  intros HR Hk. rewrite exact_decimal_fixed by lia.
  assert (Hpow : 0 < 10 ^ Z.of_nat k) by (apply Z.pow_pos_nonneg; lia).
  unfold big.fmtF, canon. cbn [big.dexp big.dmant].
  replace (0 <? Z.of_nat k) with true by (symmetry; apply Z.ltb_lt; lia).
  rewrite Nat2Z.id, fraction_digits_window.
  pose proof (utoa_length_bounds R HR) as Hlen.
  set (U := utoa R) in *. set (L := List.length U) in *.
  destruct (Z_lt_dec R (10 ^ Z.of_nat k)) as [Hsmall|Hbig].
  - destruct (div_small_pow R k ltac:(lia)) as [Hdiv Hmod]. rewrite Hdiv, Hmod.
    assert (HL : (L <= k)%nat).
    { destruct (le_lt_dec L k) as [Hle|Hgt]; [assumption|exfalso].
      assert (10 ^ Z.of_nat k <= 10 ^ (Z.of_nat L - 1)) by (apply Z.pow_le_mono_r; lia). lia. }
    replace (0 <? Z.of_nat L - Z.of_nat k) with false by (symmetry; apply Z.ltb_ge; lia).
    change (utoa 0) with [0]. do 3 f_equal.
    replace k with ((k - L) + L)%nat at 2 by lia.
    rewrite window_app, window_negative by lia.
    replace (Z.of_nat L - Z.of_nat k + Z.of_nat (k - L)) with 0 by lia.
    unfold L at 2. rewrite window_all.
    rewrite <- (pad_fixed_digits k R) by lia. reflexivity.
  - pose proof (Z.div_mod R (10 ^ Z.of_nat k) ltac:(lia)) as Hdm.
    pose proof (Z.mod_pos_bound R (10 ^ Z.of_nat k) Hpow) as Hb.
    set (a := R / 10 ^ Z.of_nat k) in *. set (b := R mod 10 ^ Z.of_nat k) in *.
    assert (Ha : 1 <= a) by nia.
    assert (HU : U = (utoa a ++ fixed_digits k b)%list).
    { unfold U. rewrite Hdm. rewrite Z.mul_comm. apply utoa_app_fixed; assumption. }
    assert (HL : L = (List.length (utoa a) + k)%nat).
    { unfold L. rewrite HU, length_app, fixed_digits_length. reflexivity. }
    replace (Z.of_nat L - Z.of_nat k) with (Z.of_nat (List.length (utoa a))) by lia.
    assert (Hla : (1 <= List.length (utoa a))%nat).
    { destruct (utoa a) eqn:Hu; [exfalso; exact (utoa_nonnil a ltac:(lia) Hu)|cbn; lia]. }
    replace (0 <? Z.of_nat (List.length (utoa a))) with true by (symmetry; apply Z.ltb_lt; lia).
    f_equal.
    + f_equal. unfold big.dlen. cbn [big.dmant].
      rewrite Z.min_comm. rewrite <- Nat2Z.inj_min, Nat2Z.id.
      rewrite <- Nat2Z.inj_sub by lia. rewrite Nat2Z.id.
      rewrite Nat.min_comm.
      rewrite firstn_trim by (fold U; fold L; lia).
      fold U. rewrite HU. rewrite firstn_app, firstn_all, Nat.sub_diag. cbn. apply app_nil_r.
    + do 2 f_equal. rewrite HU.
      rewrite <- (fixed_digits_length k b) at 2. apply window_whole.
Qed.

(** ** Rounding a decimal *)

Lemma drop_nines_split l :
  digit_list l ->
  exists i, l = (repeat 9 i ++ big.drop_nines l)%list /\
            (big.drop_nines l = [] \/ exists d t, big.drop_nines l = d :: t /\ 0 <= d <= 8).
Proof.
  induction l as [|x l IH]; intros Hd.
  - exists 0%nat. split; [reflexivity|left; reflexivity].
  - inversion Hd as [|? ? Hx Hl]; subst. cbn [big.drop_nines].
    destruct (Z.geb_spec x 9) as [H9|H9].
    + destruct (IH Hl) as (i & Hi & Hrest). exists (S i). split; [|exact Hrest].
      cbn [repeat List.app]. replace x with 9 by lia. f_equal. exact Hi.
    + exists 0%nat. split; [reflexivity|]. right. exists x, l. split; [reflexivity|lia].
Qed.

Lemma lval_repeat9 i : lval (repeat 9 i) = 10 ^ Z.of_nat i - 1.
Proof.
  induction i as [|i IH]; [reflexivity|].
  replace (repeat 9 (S i)) with (repeat 9 i ++ [9])%list by (rewrite <- repeat_cons; reflexivity).
  rewrite lval_snoc, IH, Nat2Z.inj_succ, Z.pow_succ_r by lia. lia.
Qed.

Lemma trim_nonnil h t : h <> 0 -> big.trim_digits (h :: t) <> [].
Proof.
  intros Hh Hnil. destruct (trim_split (h :: t)) as (z & Hz). rewrite Hnil in Hz.
  cbn [List.app] in Hz. destruct z; [discriminate|]. cbn in Hz. congruence.
Qed.

Lemma utoa_pow10 (i : nat) : utoa (10 ^ Z.of_nat i) = 1 :: repeat 0 i.
Proof.
  replace (10 ^ Z.of_nat i) with (1 * 10 ^ Z.of_nat i + 0) by lia.
  rewrite utoa_app_fixed.
  - rewrite fixed_digits_zero. reflexivity.
  - lia.
  - split; [lia|apply Z.pow_pos_nonneg; lia].
Qed.

Lemma canon_times_pow N (c : nat) k :
  1 <= N -> canon (N * 10 ^ Z.of_nat c) (k + Z.of_nat c) = canon N k.
Proof.
  intros HN. unfold canon.
  replace (N * 10 ^ Z.of_nat c) with (N * 10 ^ Z.of_nat c + 0) by lia.
  assert (Hp : 0 < 10 ^ Z.of_nat c) by (apply Z.pow_pos_nonneg; lia).
  rewrite utoa_app_fixed by lia.
  rewrite fixed_digits_zero, trim_app_zeros, length_app, repeat_length. f_equal. lia.
Qed.

(** No rounding is needed when the decimal has at most k digits after
    the point. *)
Lemma dround_canon_exact N (j k : nat) :
  1 <= N -> (j <= k)%nat ->
  big.dround (canon N (Z.of_nat j)) (big.dexp (canon N (Z.of_nat j)) + Z.of_nat k) =
  canon (N * 10 ^ Z.of_nat (k - j)) (Z.of_nat k).
Proof.
  intros HN Hj.
  replace (Z.of_nat k) with (Z.of_nat j + Z.of_nat (k - j)) at 2 by lia.
  rewrite canon_times_pow by assumption.
  unfold big.dround.
  destruct (trim_split (utoa N)) as (z & Hz).
  apply (f_equal (@List.length Z)) in Hz. rewrite length_app, repeat_length in Hz.
  unfold canon at 1 2. unfold big.dlen. cbn [big.dexp big.dmant].
  replace (_ || _) with true; [reflexivity|].
  symmetry. apply orb_true_iff. right. rewrite Z.geb_leb. apply Z.leb_le.
  unfold canon. cbn [big.dmant]. lia.
Qed.

Lemma app_inv_length {A} (l1 : list A) : forall l1' l2 l2',
  (l1 ++ l2)%list = (l1' ++ l2')%list -> List.length l2 = List.length l2' ->
  l1 = l1' /\ l2 = l2'.
Proof.
  induction l1 as [|x l1 IH]; intros [|y l1'] l2 l2' Heq Hlen.
  - split; [reflexivity|exact Heq].
  - exfalso. apply (f_equal (@List.length A)) in Heq. cbn in Heq. rewrite length_app in Heq. lia.
  - exfalso. apply (f_equal (@List.length A)) in Heq. cbn in Heq. rewrite length_app in Heq. lia.
  - cbn in Heq. injection Heq as -> Heq. destruct (IH _ _ _ Heq Hlen) as [-> ->]. auto.
Qed.

Lemma trim_longer a (c : nat) b :
  1 <= a -> 0 < b < 10 ^ Z.of_nat c ->
  (List.length (utoa a) < List.length (big.trim_digits (utoa a ++ fixed_digits c b)))%nat.
Proof.
  intros Ha Hb.
  destruct (trim_split (utoa a ++ fixed_digits c b)%list) as (z & Hz).
  set (t := big.trim_digits (utoa a ++ fixed_digits c b)%list) in *.
  destruct (Nat.lt_ge_cases (List.length (utoa a)) (List.length t)) as [Hlt|Hge]; [assumption|].
  exfalso.
  assert (Hlen : (List.length (utoa a) + c = List.length t + z)%nat).
  { apply (f_equal (@List.length Z)) in Hz.
    rewrite !length_app, fixed_digits_length, repeat_length in Hz. exact Hz. }
  assert (Hfix : fixed_digits c b = repeat 0 c).
  { replace z with ((z - c) + c)%nat in Hz by lia.
    rewrite repeat_app, app_assoc in Hz.
    apply app_inv_length in Hz; [tauto|].
    rewrite fixed_digits_length, repeat_length. reflexivity. }
  pose proof (lval_fixed_digits c b ltac:(lia)) as Hv.
  rewrite Hfix, lval_repeat0 in Hv. lia.
Qed.

Lemma fixed_digits_head (c : nat) b :
  (1 <= c)%nat -> 0 <= b < 10 ^ Z.of_nat c ->
  exists f F', fixed_digits c b = f :: F' /\ List.length F' = (c - 1)%nat /\ digit_list F' /\
               0 <= f <= 9 /\ b = f * 10 ^ Z.of_nat (c - 1) + lval F'.
Proof.
  intros Hc Hb.
  pose proof (fixed_digits_length c b) as Hlen.
  pose proof (fixed_digits_digit_list c b) as Hd.
  pose proof (lval_fixed_digits c b Hb) as Hv.
  remember (fixed_digits c b) as F eqn:EF. clear EF.
  destruct F as [|f F']; [cbn in Hlen; lia|].
  cbn [List.length] in Hlen. apply Forall_cons_iff in Hd. destruct Hd as [Hf0 HdF].
  exists f, F'. repeat split; try assumption; try lia.
  rewrite lval_cons in Hv. replace (c - 1)%nat with (List.length F') by lia. lia.
Qed.

Lemma dig_head x l : dig (x :: l) 0 = x.
Proof. unfold dig. cbn [List.length]. rewrite Nat2Z.inj_succ. cbn. destruct (0 <? Z.succ _) eqn:H; [reflexivity|]. apply Z.ltb_ge in H. lia. Qed.

(** The successor of a number, digit by digit. *)
Lemma utoa_succ_nines front d (i : nat) :
  digit_list front -> 0 <= d <= 8 ->
  (front = [] \/ exists h t, front = h :: t /\ 1 <= h) ->
  (front <> [] \/ 1 <= d + 1) ->
  utoa (lval (front ++ d :: repeat 9 i)%list + 1) = (front ++ (d + 1) :: repeat 0 i)%list.
Proof.
  intros Hf Hd Hhead _.
  assert (Hv : lval (front ++ (d + 1) :: repeat 0 i)%list = lval (front ++ d :: repeat 9 i)%list + 1).
  { rewrite !lval_app. cbn [List.length]. rewrite !repeat_length, !lval_cons, !repeat_length.
    rewrite lval_repeat0, lval_repeat9. lia. }
  rewrite <- Hv. apply utoa_lval.
  - apply Forall_app. split; [assumption|]. constructor; [lia|apply digit_list_repeat0].
  - destruct Hhead as [->|(h & t & -> & Hh)].
    + exists (d + 1), (repeat 0 i). split; [reflexivity|lia].
    + exists h, (t ++ (d + 1) :: repeat 0 i)%list. split; [reflexivity|lia].
Qed.

Section Rounding.
Variable N : Z.
Variables c k : nat.
Hypothesis N_pos : 1 <= N.
Hypothesis c_pos : (1 <= c)%nat.

Local Abbreviation j := (Z.of_nat k + Z.of_nat c).
Local Abbreviation a := (N / 10 ^ Z.of_nat c).
Local Abbreviation b := (N mod 10 ^ Z.of_nat c).
Local Abbreviation x := (canon N j).

Lemma pow_c_pos : 0 < 10 ^ Z.of_nat c.
Proof. apply Z.pow_pos_nonneg; lia. Qed.

Lemma N_split : N = a * 10 ^ Z.of_nat c + b /\ 0 <= b < 10 ^ Z.of_nat c /\ 0 <= a.
Proof.
  pose proof pow_c_pos as Hp.
  pose proof (Z.div_mod N (10 ^ Z.of_nat c) ltac:(lia)).
  pose proof (Z.mod_pos_bound N (10 ^ Z.of_nat c) Hp).
  assert (0 <= a) by (apply Z.div_pos; lia). lia.
Qed.

(** Nothing but a half or more is left of the number: it rounds to 1. *)
Lemma dround_to_one :
  a = 0 -> 2 * b > 10 ^ Z.of_nat c ->
  big.dround x (big.dexp x + Z.of_nat k) = canon 1 (Z.of_nat k).
Proof.
  intros Ha Hb. destruct N_split as (HN & Hbb & _). rewrite Ha in HN.
  assert (Hpow : 10 ^ Z.of_nat c = 10 * 10 ^ (Z.of_nat c - 1)).
  { replace (Z.of_nat c) with (Z.succ (Z.of_nat c - 1)) at 1 by lia.
    rewrite Z.pow_succ_r by lia. reflexivity. }
  assert (HL : List.length (utoa N) = c).
  { apply utoa_length_unique; [|assumption]. lia. }
  destruct (utoa_head N N_pos) as (h & t & Ht & Hh).
  pose proof (lval_utoa N ltac:(lia)) as Hv. rewrite Ht, lval_cons in Hv.
  pose proof (utoa_digit_list N ltac:(lia)) as Hd. rewrite Ht in Hd.
  apply Forall_cons_iff in Hd. destruct Hd as [_ Hdt].
  pose proof (lval_bound t Hdt) as Bt.
  assert (Hlt : Z.of_nat (List.length t) = Z.of_nat c - 1) by (rewrite Ht in HL; cbn in HL; lia).
  rewrite Hlt in *.
  assert (Hh5 : 5 <= h) by nia.
  assert (Hdlen : 1 <= big.dlen x).
  { unfold big.dlen, canon. cbn [big.dmant]. rewrite Ht.
    pose proof (trim_nonnil h t ltac:(lia)) as Hne.
    destruct (big.trim_digits (h :: t)); [congruence|cbn [List.length]; lia]. }
  assert (Hn : big.dexp x + Z.of_nat k = 0) by (unfold canon; cbn [big.dexp]; lia).
  rewrite Hn. unfold big.dround.
  replace ((0 <? 0) || (0 >=? big.dlen x)) with false
    by (symmetry; apply orb_false_iff; split; [reflexivity|rewrite Z.geb_leb; apply Z.leb_gt; lia]).
  assert (Hd0 : big.digit_at x 0 = h).
  { unfold canon. rewrite digit_at_trim, Ht. apply dig_head. }
  assert (Hup : big.shouldRoundUp x 0 = true).
  { unfold big.shouldRoundUp. rewrite Hd0.
    destruct ((h =? 5) && (0 + 1 =? big.dlen x)) eqn:Hc1.
    - exfalso. apply andb_prop in Hc1. destruct Hc1 as [H5 H1].
      apply Z.eqb_eq in H5. apply Z.eqb_eq in H1.
      destruct (trim_split (utoa N)) as (z & Hz).
      assert (Htr : big.trim_digits (utoa N) = [h]).
      { unfold big.dlen, canon in H1. cbn [big.dmant] in H1.
        destruct (big.trim_digits (utoa N)) as [|y [|y' l]] eqn:Et; cbn in H1; try lia.
        rewrite Ht in Hz. cbn in Hz. injection Hz as Hhy _. rewrite Hhy. reflexivity. }
      rewrite Htr, Ht in Hz. cbn in Hz. injection Hz as Hz. rewrite Hz, lval_repeat0 in Hv. nia.
    - rewrite Z.geb_leb. apply Z.leb_le. assumption. }
  rewrite Hup. unfold big.roundUp.
  replace ((0 <? 0) || (0 >=? big.dlen x)) with false
    by (symmetry; apply orb_false_iff; split; [reflexivity|rewrite Z.geb_leb; apply Z.leb_gt; lia]).
  cbn [Z.to_nat firstn rev big.drop_nines].
  unfold canon. cbn [big.dexp]. rewrite HL. change (utoa 1) with [1].
  change (big.trim_digits [1]) with [1]. cbn [List.length]. f_equal. lia.
Qed.

Hypothesis a_pos : 1 <= a.

Lemma U_split : utoa N = (utoa a ++ fixed_digits c b)%list.
Proof.
  destruct N_split as (HN & Hbb & _). rewrite HN at 1.
  apply utoa_app_fixed; assumption.
Qed.

Lemma n_value : big.dexp x + Z.of_nat k = Z.of_nat (List.length (utoa a)).
Proof.
  unfold canon. cbn [big.dexp]. rewrite U_split, length_app, fixed_digits_length. lia.
Qed.

Lemma dexp_value : big.dexp x = Z.of_nat (List.length (utoa a)) - Z.of_nat k.
Proof. pose proof n_value. lia. Qed.

(** Nothing is left of the number: no rounding. *)
Lemma dround_nothing_left :
  b = 0 -> big.dround x (big.dexp x + Z.of_nat k) = canon a (Z.of_nat k).
Proof.
  intros Hb. rewrite n_value. unfold big.dround.
  assert (Htrim : big.trim_digits (utoa N) = big.trim_digits (utoa a)).
  { rewrite U_split, Hb, fixed_digits_zero. apply trim_app_zeros. }
  assert (Hx : x = canon a (Z.of_nat k)).
  { unfold canon at 1. rewrite Htrim. unfold canon. f_equal.
    rewrite U_split, length_app, fixed_digits_length. lia. }
  replace (_ || _) with true; [exact Hx|].
  symmetry. apply orb_true_iff. right. rewrite Z.geb_leb. apply Z.leb_le.
  unfold big.dlen, canon. cbn [big.dmant]. rewrite Htrim.
  destruct (trim_split (utoa a)) as (z & Hz).
  apply (f_equal (@List.length Z)) in Hz. rewrite length_app in Hz. lia.
Qed.

Hypothesis b_pos : 0 < b.

Lemma dlen_longer : Z.of_nat (List.length (utoa a)) < big.dlen x.
Proof.
  unfold big.dlen, canon. cbn [big.dmant]. rewrite U_split.
  destruct N_split as (_ & Hbb & _).
  pose proof (trim_longer a c b a_pos ltac:(lia)). lia.
Qed.

Lemma in_range :
  (Z.of_nat (List.length (utoa a)) <? 0)
  || (Z.of_nat (List.length (utoa a)) >=? big.dlen x) = false.
Proof.
  pose proof dlen_longer. apply orb_false_iff. split.
  - apply Z.ltb_ge. lia.
  - rewrite Z.geb_leb. apply Z.leb_gt. lia.
Qed.

Lemma kept_digits :
  firstn (List.length (utoa a)) (big.dmant x) = utoa a.
Proof.
  unfold canon. cbn [big.dmant].
  destruct (trim_split (utoa N)) as (z & Hz).
  pose proof dlen_longer as Hl. unfold big.dlen, canon in Hl. cbn [big.dmant] in Hl.
  assert (Hfirst : firstn (List.length (utoa a)) (utoa N) = utoa a).
  { rewrite U_split, firstn_app, firstn_all, Nat.sub_diag. cbn. apply app_nil_r. }
  rewrite Hz in Hfirst at 1. rewrite firstn_app in Hfirst.
  replace (List.length (utoa a) - List.length (big.trim_digits (utoa N)))%nat with 0%nat
    in Hfirst by lia.
  cbn [firstn] in Hfirst. rewrite app_nil_r in Hfirst. exact Hfirst.
Qed.

Lemma first_dropped :
  exists f F', fixed_digits c b = f :: F' /\ List.length F' = (c - 1)%nat /\ digit_list F' /\
               0 <= f <= 9 /\ b = f * 10 ^ Z.of_nat (c - 1) + lval F' /\
               big.digit_at x (Z.of_nat (List.length (utoa a))) = f.
Proof.
  destruct N_split as (_ & Hbb & _).
  destruct (fixed_digits_head c b c_pos Hbb) as (f & F' & HF & Hlen & Hd & Hf & Hv).
  exists f, F'. repeat split; try assumption; try lia.
  unfold canon. rewrite digit_at_trim, U_split, HF.
  replace (Z.of_nat (List.length (utoa a))) with (Z.of_nat (List.length (utoa a)) + 0) by lia.
  rewrite dig_app_r by lia. apply dig_head.
Qed.

Lemma pow_c_split : 10 ^ Z.of_nat c = 10 * 10 ^ Z.of_nat (c - 1).
Proof.
  replace (Z.of_nat c) with (Z.succ (Z.of_nat (c - 1))) at 1 by lia.
  rewrite Z.pow_succ_r by lia. reflexivity.
Qed.

(** An exact half is left of the number when the first dropped digit
    is a 5 and the last. *)
Lemma tie_is_half f F' :
  fixed_digits c b = f :: F' -> List.length F' = (c - 1)%nat ->
  big.dlen x = Z.of_nat (List.length (utoa a)) + 1 -> lval F' = 0.
Proof.
  intros HF Hlen Hdl.
  destruct (trim_split (utoa N)) as (z & Hz).
  unfold big.dlen, canon in Hdl. cbn [big.dmant] in Hdl.
  assert (Hz' : ((utoa a ++ [f]) ++ F')%list = (big.trim_digits (utoa N) ++ repeat 0 z)%list).
  { rewrite <- Hz, U_split, HF, <- app_assoc. reflexivity. }
  assert (Hzc : z = (c - 1)%nat).
  { apply (f_equal (@List.length Z)) in Hz'.
    rewrite !length_app, repeat_length in Hz'. cbn [List.length] in Hz'. lia. }
  apply app_inv_length in Hz'; [|rewrite repeat_length; lia].
  destruct Hz' as [_ ->]. apply lval_repeat0.
Qed.

Lemma shouldRoundUp_decides :
  2 * b <> 10 ^ Z.of_nat c ->
  big.shouldRoundUp x (Z.of_nat (List.length (utoa a))) = (2 * b >? 10 ^ Z.of_nat c).
Proof.
  intros Hne. destruct first_dropped as (f & F' & HF & Hlen & Hd & Hf & Hv & Hdig).
  pose proof (lval_bound F' Hd) as BF. rewrite Hlen in BF.
  pose proof pow_c_split as Hp.
  unfold big.shouldRoundUp. rewrite Hdig.
  destruct ((f =? 5) && (Z.of_nat (List.length (utoa a)) + 1 =? big.dlen x)) eqn:Hc1.
  - exfalso. apply andb_prop in Hc1. destruct Hc1 as [H5 H1].
    apply Z.eqb_eq in H5. apply Z.eqb_eq in H1.
    pose proof (tie_is_half f F' HF Hlen ltac:(lia)) as H0. nia.
  - rewrite Z.geb_leb, Z.gtb_ltb.
    destruct (Z.leb_spec 5 f) as [H5|H5]; symmetry.
    + apply Z.ltb_lt.
      destruct (Z.eq_dec (2 * b) (10 ^ Z.of_nat c)); [contradiction|]. nia.
    + apply Z.ltb_ge. nia.
Qed.

Lemma dround_down :
  2 * b < 10 ^ Z.of_nat c ->
  big.dround x (big.dexp x + Z.of_nat k) = canon a (Z.of_nat k).
Proof.
  intros Hb. rewrite n_value. unfold big.dround. rewrite in_range.
  rewrite shouldRoundUp_decides by lia.
  replace (2 * b >? 10 ^ Z.of_nat c) with false by (symmetry; rewrite Z.gtb_ltb; apply Z.ltb_ge; lia).
  unfold big.roundDown. rewrite in_range, Nat2Z.id, kept_digits.
  destruct (utoa_head a a_pos) as (h & t & Ht & Hh).
  pose proof (trim_nonnil h t ltac:(lia)) as Hne. rewrite <- Ht in Hne.
  destruct (big.trim_digits (utoa a)) as [|y l] eqn:Et; [congruence|].
  unfold canon at 2. rewrite Et. f_equal. apply dexp_value.
Qed.

Lemma dround_up :
  2 * b > 10 ^ Z.of_nat c ->
  big.dround x (big.dexp x + Z.of_nat k) = canon (a + 1) (Z.of_nat k).
Proof.
  intros Hb. rewrite n_value. unfold big.dround. rewrite in_range.
  rewrite shouldRoundUp_decides by lia.
  replace (2 * b >? 10 ^ Z.of_nat c) with true by (symmetry; rewrite Z.gtb_ltb; apply Z.ltb_lt; lia).
  unfold big.roundUp. rewrite in_range, Nat2Z.id, kept_digits.
  pose proof (utoa_digit_list a ltac:(lia)) as Hda.
  destruct (drop_nines_split (rev (utoa a)) ltac:(apply Forall_rev; exact Hda))
    as (i & Hi & Hrest).
  pose proof (lval_utoa a ltac:(lia)) as Hva.
  destruct Hrest as [Hnil|(d & front & Hcons & Hd8)].
  - rewrite Hnil in *. rewrite app_nil_r in Hi.
    apply (f_equal (@rev Z)) in Hi. rewrite rev_involutive, rev_repeat in Hi.
    assert (Hlen : List.length (utoa a) = i) by (rewrite Hi; apply repeat_length).
    rewrite Hi, lval_repeat9 in Hva.
    replace (a + 1) with (10 ^ Z.of_nat i) by lia.
    unfold canon at 2. rewrite utoa_pow10.
    change (1 :: repeat 0 i) with ([1] ++ repeat 0 i)%list.
    rewrite trim_app_zeros. change (big.trim_digits [1]) with [1].
    f_equal. rewrite dexp_value, length_app, repeat_length, Hlen. cbn [List.length]. lia.
  - rewrite Hcons in *.
    apply (f_equal (@rev Z)) in Hi. rewrite rev_involutive, rev_app_distr, rev_repeat in Hi.
    cbn [rev] in Hi. rewrite <- app_assoc in Hi. cbn [List.app] in Hi.
    assert (Hdf : digit_list (rev front)).
    { rewrite Hi in Hda. apply Forall_app in Hda. tauto. }
    assert (Hsucc : utoa (a + 1) = (rev front ++ (d + 1) :: repeat 0 i)%list).
    { rewrite <- Hva. rewrite Hi. apply utoa_succ_nines; try assumption; try lia.
      destruct (utoa_head a a_pos) as (h & t & Ht & Hh).
      destruct (rev front) as [|h' t'] eqn:Hf; [left; reflexivity|right].
      rewrite Ht in Hi. cbn in Hi. injection Hi as -> _. exists h', t'. split; [reflexivity|lia]. }
    unfold canon at 2. rewrite Hsucc.
    replace (rev front ++ (d + 1) :: repeat 0 i)%list
      with ((rev front ++ [d + 1]) ++ repeat 0 i)%list by (rewrite <- app_assoc; reflexivity).
    rewrite trim_app_zeros, trim_nonzero_last by lia.
    f_equal. rewrite dexp_value. rewrite Hi at 1.
    rewrite ?length_app. cbn [List.length]. rewrite ?length_app, ?repeat_length.
    cbn [List.length]. rewrite ?repeat_length. lia.
Qed.

End Rounding.

(** ** From the rounded decimal to the text *)

Lemma pow10_split (k c : nat) : 10 ^ (Z.of_nat k + Z.of_nat c) = 10 ^ Z.of_nat k * 10 ^ Z.of_nat c.
Proof. apply Z.pow_add_r; lia. Qed.

(** A decimal N / 10^j that lies within half a unit of the k-th place
    of v / 10^k is printed, with k digits, as v / 10^k. *)
Lemma text_near N (j k : nat) v :
  1 <= N -> 1 <= v -> (1 <= k)%nat ->
  2 * Z.abs (N * 10 ^ Z.of_nat k - v * 10 ^ Z.of_nat j) < 10 ^ Z.of_nat j ->
  big.fmtF (Z.of_nat k)
    (big.dround (canon N (Z.of_nat j)) (big.dexp (canon N (Z.of_nat j)) + Z.of_nat k))
  = exact_decimal v k.
Proof.
  intros HN Hv Hk Hnear.
  assert (Hpj : 0 < 10 ^ Z.of_nat j) by (apply Z.pow_pos_nonneg; lia).
  assert (Hpk : 0 < 10 ^ Z.of_nat k) by (apply Z.pow_pos_nonneg; lia).
  destruct (le_lt_dec j k) as [Hjk|Hjk].
  - rewrite dround_canon_exact by assumption.
    assert (Hsplit : 10 ^ Z.of_nat k = 10 ^ Z.of_nat j * 10 ^ Z.of_nat (k - j)).
    { rewrite <- Z.pow_add_r by lia. f_equal. lia. }
    assert (Hp : 0 < 10 ^ Z.of_nat (k - j)) by (apply Z.pow_pos_nonneg; lia).
    assert (Hval : v = N * 10 ^ Z.of_nat (k - j)).
    { rewrite Hsplit in Hnear.
      replace (N * (10 ^ Z.of_nat j * 10 ^ Z.of_nat (k - j)) - v * 10 ^ Z.of_nat j)
        with ((N * 10 ^ Z.of_nat (k - j) - v) * 10 ^ Z.of_nat j) in Hnear by ring.
      rewrite Z.abs_mul, (Z.abs_eq (10 ^ Z.of_nat j)) in Hnear by lia.
      assert (Z.abs (N * 10 ^ Z.of_nat (k - j) - v) = 0) by nia. lia. }
    rewrite <- Hval. apply fmtF_canon; assumption.
  - set (c := (j - k)%nat).
    assert (Hc : (1 <= c)%nat) by (unfold c; lia).
    assert (Hj : Z.of_nat j = Z.of_nat k + Z.of_nat c) by (unfold c; lia).
    assert (Hpc : 0 < 10 ^ Z.of_nat c) by (apply Z.pow_pos_nonneg; lia).
    revert Hnear Hpj. rewrite Hj. intros Hnear Hpj. rewrite pow10_split in Hnear.
    destruct (N_split N c HN Hc) as (Hsplit & Hb & Ha).
    pose proof (dround_to_one N c k HN Hc) as Hone.
    pose proof (dround_nothing_left N c k HN Hc) as Hnone.
    pose proof (dround_down N c k HN Hc) as Hdown.
    pose proof (dround_up N c k HN Hc) as Hup.
    revert Hsplit Hb Ha Hone Hnone Hdown Hup.
    generalize (N / 10 ^ Z.of_nat c) (N mod 10 ^ Z.of_nat c).
    intros a b Hsplit Hb Ha Hone Hnone Hdown Hup.
    assert (Hnear' : 2 * Z.abs (N - v * 10 ^ Z.of_nat c) < 10 ^ Z.of_nat c).
    { replace (N * 10 ^ Z.of_nat k - v * (10 ^ Z.of_nat k * 10 ^ Z.of_nat c))
        with ((N - v * 10 ^ Z.of_nat c) * 10 ^ Z.of_nat k) in Hnear by ring.
      rewrite Z.abs_mul, (Z.abs_eq (10 ^ Z.of_nat k)) in Hnear by lia. nia. }
    assert (Hcases : (v = a /\ 2 * b < 10 ^ Z.of_nat c) \/ (v = a + 1 /\ 2 * b > 10 ^ Z.of_nat c)).
    { rewrite Hsplit in Hnear'.
      destruct (Z_lt_dec v a) as [Hlt|Hge]; [exfalso; nia|].
      destruct (Z_lt_dec (a + 1) v) as [Hgt|Hle]; [exfalso; nia|].
      assert (Hv' : v = a \/ v = a + 1) by lia.
      destruct Hv' as [Hv' | Hv']; [left|right]; split; try assumption; lia. }
    destruct Hcases as [[Hva Hlow]|[Hva Hhigh]]; subst v.
    + destruct (Z.eq_dec b 0) as [Hb0|Hb0].
      * rewrite (Hnone Hv Hb0). apply fmtF_canon; assumption.
      * rewrite (Hdown Hv ltac:(lia) Hlow). apply fmtF_canon; assumption.
    + destruct (Z.eq_dec a 0) as [Ha0|Ha0].
      * rewrite (Hone Ha0 Hhigh). rewrite Ha0. apply fmtF_canon; [lia|assumption].
      * rewrite (Hup ltac:(lia) ltac:(lia) Hhigh). apply fmtF_canon; assumption.
Qed.

(** ** The rounded quotient of [big.Float] *)

Lemma bitLen_bounds n : 1 <= n -> 1 <= big.bitLen n /\ 2 ^ (big.bitLen n - 1) <= n < 2 ^ big.bitLen n.
Proof.
  intros Hn. unfold big.bitLen.
  destruct (Z.leb_spec n 0); [lia|].
  pose proof (Z.log2_nonneg n). pose proof (Z.log2_spec n ltac:(lia)) as Hs.
  replace (Z.log2 n + 1 - 1) with (Z.log2 n) by lia.
  replace (Z.log2 n + 1) with (Z.succ (Z.log2 n)) by lia. split; [lia|exact Hs].
Qed.

Lemma bitLen_unique n b : 1 <= b -> 2 ^ (b - 1) <= n < 2 ^ b -> big.bitLen n = b.
Proof.
  intros Hb Hn.
  assert (0 < 2 ^ (b - 1)) by (apply Z.pow_pos_nonneg; lia).
  unfold big.bitLen. destruct (Z.leb_spec n 0); [lia|].
  rewrite (Z.log2_unique n (b - 1)); [lia|lia|].
  replace (Z.succ (b - 1)) with b by lia. exact Hn.
Qed.

Lemma pow2_pos n : 0 <= n -> 0 < 2 ^ n.
Proof. intros. apply Z.pow_pos_nonneg; lia. Qed.

Lemma pow2_succ n : 0 <= n -> 2 ^ (n + 1) = 2 * 2 ^ n.
Proof. intros. replace (n + 1) with (Z.succ n) by lia. apply Z.pow_succ_r. assumption. Qed.

Lemma pow2_lt_inv a b : 0 <= b -> 2 ^ a < 2 ^ b -> a < b.
Proof. intros Hb H. apply (Z.pow_lt_mono_r_iff 2); [lia|assumption|assumption]. Qed.

(** Splitting an integer at bit r: the bits above, the bit itself and
    the bits below. *)
Lemma split_at_bit q r :
  0 <= q -> 0 <= r ->
  q = 2 ^ (r + 1) * Z.shiftr q (r + 1) + 2 ^ r * Z.b2z (Z.testbit q r)
      + Z.land q (Z.ones r) /\
  0 <= Z.land q (Z.ones r) < 2 ^ r.
Proof.
  intros Hq Hr. pose proof (pow2_pos r Hr) as Hp.
  rewrite Z.land_ones by assumption.
  rewrite Z.shiftr_div_pow2 by lia.
  rewrite Z.testbit_spec' by assumption.
  rewrite pow2_succ by assumption. rewrite (Z.mul_comm 2 (2 ^ r)).
  rewrite <- Z.div_div by lia.
  pose proof (Z.div_mod q (2 ^ r) ltac:(lia)) as H1.
  pose proof (Z.div_mod (q / 2 ^ r) 2 ltac:(lia)) as H2.
  pose proof (Z.mod_pos_bound q (2 ^ r) Hp).
  split; [|assumption].
  revert H1 H2. generalize (q mod 2 ^ r) (q / 2 ^ r / 2) ((q / 2 ^ r) mod 2).
  generalize (q / 2 ^ r). intros h l hh hb H1 H2. rewrite H1 at 1. rewrite H2. ring.
Qed.

(** [round] applied to the truncated quotient q of X = q * D + rem by D,
    with the sticky bit set exactly when the remainder is not zero:
    the result M * 2^w (in units of the last bit of q) is within half
    a unit of the last kept bit of X / D. *)
Lemma round_quotient p q D rem e :
  1 <= p -> 1 <= q -> p < big.bitLen q -> 1 <= D -> 0 <= rem < D ->
  exists M E w,
    big.round p q e (negb (rem =? 0)) = (M, E) /\
    1 <= M /\ 1 <= w <= big.bitLen q - p + 1 /\
    E - big.bitLen M = e - big.bitLen q + w /\
    2 * Z.abs (M * 2 ^ w * D - (q * D + rem)) <= 2 ^ (big.bitLen q - p) * D.
Proof.
  intros Hp Hq Hbits HD Hrem.
  destruct (bitLen_bounds q Hq) as (_ & Hlo & Hhi).
  unfold big.round. destruct (Z.leb_spec (big.bitLen q) p) as [|_]; [lia|].
  set (bits := big.bitLen q) in *. set (r := bits - p - 1).
  assert (Hr : 0 <= r) by (unfold r; lia).
  destruct (split_at_bit q r ltac:(lia) Hr) as (Hsplit & Hlow).
  set (t := Z.shiftr q (r + 1)) in *.
  set (rbit := Z.testbit q r) in *.
  set (l2 := Z.land q (Z.ones r)) in *.
  pose proof (pow2_pos r Hr) as HP.
  pose proof (pow2_succ r Hr) as HP1.
  assert (Hbp : bits - p = r + 1) by (unfold r; lia).
  rewrite Hbp, HP1.
  assert (Hpp : 0 < 2 ^ (p - 1)) by (apply pow2_pos; lia).
  assert (Hp2 : 2 ^ p = 2 * 2 ^ (p - 1)).
  { replace p with (p - 1 + 1) at 1 by lia. apply pow2_succ. lia. }
  assert (Hb1 : 2 ^ (bits - 1) = 2 ^ (r + 1) * 2 ^ (p - 1)).
  { rewrite <- Z.pow_add_r by lia. f_equal. unfold r. lia. }
  assert (Hb2 : 2 ^ bits = 2 ^ (r + 1) * 2 ^ p).
  { rewrite <- Z.pow_add_r by lia. f_equal. unfold r. lia. }
  assert (Ht : 2 ^ (p - 1) <= t < 2 ^ p).
  { unfold t. rewrite Z.shiftr_div_pow2 by lia. split.
    - apply Z.div_le_lower_bound; [rewrite HP1; lia|]. lia.
    - apply Z.div_lt_upper_bound; [rewrite HP1; lia|]. lia. }
  assert (Hbt : big.bitLen t = p) by (apply bitLen_unique; [lia|exact Ht]).
  rewrite HP1 in Hsplit. set (P := 2 ^ r) in *.
  assert (Hrb : Z.b2z rbit = 0 \/ Z.b2z rbit = 1) by (destruct rbit; cbn; lia).
  destruct (rbit && (negb (rem =? 0) || negb (l2 =? 0) || Z.odd t)) eqn:Hinc.
  - apply andb_prop in Hinc. destruct Hinc as [Hrbit _]. rewrite Hrbit in Hsplit.
    cbn [Z.b2z] in Hsplit.
    assert (Herr : 2 * Z.abs ((t + 1) * (2 * P) * D - (q * D + rem)) <= 2 * P * D).
    { replace ((t + 1) * (2 * P) * D - (q * D + rem)) with ((P - l2) * D - rem)
        by (rewrite Hsplit at 1; ring).
      assert (1 * D <= (P - l2) * D) by (apply Z.mul_le_mono_nonneg_r; lia).
      assert ((P - l2) * D <= P * D) by (apply Z.mul_le_mono_nonneg_r; lia).
      rewrite Z.abs_eq by lia. lia. }
    destruct (Z.gtb_spec (big.bitLen (t + 1)) p) as [Hover|Hfit].
    + assert (Ht1 : t + 1 = 2 ^ p).
      { destruct (Z.eq_dec (t + 1) (2 ^ p)) as [|Hne]; [assumption|exfalso].
        assert (big.bitLen (t + 1) = p) by (apply bitLen_unique; lia). lia. }
      assert (Hhalf : Z.shiftr (t + 1) 1 = 2 ^ (p - 1)).
      { rewrite Z.shiftr_div_pow2 by lia. rewrite Ht1, Hp2. change (2 ^ 1) with 2.
        rewrite Z.mul_comm. apply Z.div_mul. lia. }
      exists (Z.shiftr (t + 1) 1), (e + 1), (r + 2). split; [reflexivity|].
      rewrite Hhalf.
      assert (big.bitLen (2 ^ (p - 1)) = p).
      { apply bitLen_unique; [lia|]. lia. }
      split; [lia|]. split; [lia|]. split; [unfold r; lia|].
      replace (r + 2) with (r + 1 + 1) by lia.
      rewrite (pow2_succ (r + 1)) by lia. rewrite HP1. fold P.
      replace (2 ^ (p - 1) * (2 * (2 * P))) with ((t + 1) * (2 * P)) by (rewrite Ht1, Hp2; ring).
      exact Herr.
    + exists (t + 1), e, (r + 1). split; [reflexivity|].
      assert (big.bitLen (t + 1) = p).
      { destruct (bitLen_bounds (t + 1) ltac:(lia)) as (? & Hl1 & Hh1).
        assert (p <= big.bitLen (t + 1)); [|lia].
        destruct (Z_lt_le_dec (big.bitLen (t + 1)) p) as [Hlt|]; [exfalso|assumption].
        assert (2 ^ big.bitLen (t + 1) <= 2 ^ (p - 1)) by (apply Z.pow_le_mono_r; lia).
        lia. }
      split; [lia|]. split; [lia|]. split; [unfold r; lia|].
      rewrite HP1. fold P. exact Herr.
  - exists t, e, (r + 1). split; [reflexivity|].
    split; [lia|]. split; [lia|]. split; [unfold r; lia|].
    rewrite HP1. fold P.
    replace (t * (2 * P) * D - (q * D + rem)) with (- ((P * Z.b2z rbit + l2) * D + rem))
      by (rewrite Hsplit at 1; ring).
    rewrite Z.abs_opp.
    destruct rbit.
    + cbn [andb] in Hinc. apply orb_false_elim in Hinc. destruct Hinc as [Hinc _].
      apply orb_false_elim in Hinc. destruct Hinc as [Hr0 Hl0].
      apply negb_false_iff, Z.eqb_eq in Hr0. apply negb_false_iff, Z.eqb_eq in Hl0.
      rewrite Hr0, Hl0. cbn [Z.b2z]. rewrite Z.abs_eq by nia. nia.
    + cbn [Z.b2z].
      assert (l2 * D <= (P - 1) * D) by (apply Z.mul_le_mono_nonneg_r; lia).
      assert (0 <= l2 * D) by (apply Z.mul_nonneg_nonneg; lia).
      replace (P * 0 + l2) with l2 by ring.
      rewrite Z.abs_eq by lia. lia.
Qed.

(** [SetInt] of a positive integer is exact. *)
Lemma SetInt_positive v :
  1 <= v ->
  big.SetInt (Some v)
  = Ret (big.mkFloat (Z.max (big.bitLen v) 64) false big.finite v (big.bitLen v)).
Proof.
  intros Hv. unfold big.SetInt. rewrite Z.abs_eq by lia.
  destruct (Z.eqb_spec v 0); [lia|].
  unfold big.round. destruct (Z.leb_spec (big.bitLen v) (Z.max (big.bitLen v) 64)); [|lia].
  destruct (Z.ltb_spec v 0); [lia|]. reflexivity.
Qed.

(** The quotient of two positive integers v / D as [Quo] rounds it:
    a mantissa M with j bits after the point, within half a unit of
    the last place of v / D.  The condition says that the quotient
    needs no more mantissa bits than the precision offers below 1/D. *)
Lemma uquo_near v D :
  1 <= v -> 1 <= D ->
  let p := Z.max (Z.max (big.bitLen v) 64) (Z.max (big.bitLen D) 64) in
  v * 2 ^ big.bitLen D < 2 ^ p * D ->
  exists M E (j : nat),
    big.uquo p (big.mkFloat (Z.max (big.bitLen v) 64) false big.finite v (big.bitLen v))
               (big.mkFloat (Z.max (big.bitLen D) 64) false big.finite D (big.bitLen D))
    = (M, E) /\
    1 <= M /\ E - big.bitLen M = - Z.of_nat j /\
    2 * Z.abs (M * D - v * 2 ^ Z.of_nat j) < 2 ^ Z.of_nat j.
Proof.
  intros Hv HD p Hfit.
  destruct (bitLen_bounds v Hv) as (Hbx & Hvlo & Hvhi).
  destruct (bitLen_bounds D HD) as (HbY & HDlo & HDhi).
  unfold big.uquo. cbn [big.mant big.exp].
  set (bx := big.bitLen v) in *. set (bY := big.bitLen D) in *.
  assert (Hpx : bx <= p) by (unfold p; lia).
  assert (Hp64 : 64 <= p) by (unfold p; lia).
  set (dd := p + 1 + bY - bx).
  assert (Hdd : 2 <= dd) by (unfold dd; lia).
  replace (Z.max 0 dd) with dd by lia.
  rewrite Z.shiftl_mul_pow2 by lia.
  set (X := v * 2 ^ dd).
  pose proof (Z.div_mod X D ltac:(lia)) as HX.
  pose proof (Z.mod_pos_bound X D ltac:(lia)) as Hrem.
  set (q := X / D) in *. set (rem := X mod D) in *.
  assert (Hdd2 : 2 ^ dd = 2 ^ (p + 1 - bx) * 2 ^ bY).
  { rewrite <- Z.pow_add_r by lia. f_equal. unfold dd. lia. }
  assert (HpY : 0 < 2 ^ bY) by (apply pow2_pos; lia).
  assert (Hpp : 0 < 2 ^ p) by (apply pow2_pos; lia).
  assert (Hpx1 : 2 ^ (p + 1 - bx) * 2 ^ (bx - 1) = 2 ^ p).
  { rewrite <- Z.pow_add_r by lia. f_equal. lia. }
  assert (Hpx2 : 2 ^ (p + 1 - bx) * 2 ^ bx = 2 * 2 ^ p).
  { rewrite <- Z.pow_add_r by lia. rewrite <- pow2_succ by lia. f_equal. lia. }
  assert (Hpd : 0 < 2 ^ (p + 1 - bx)) by (apply pow2_pos; lia).
  assert (HbY2 : 2 ^ bY = 2 * 2 ^ (bY - 1)).
  { replace bY with (bY - 1 + 1) at 1 by lia. apply pow2_succ. lia. }
  (* 2^p * D <= X < 2^(p+2) * D *)
  assert (HXlo : 2 ^ p * D <= X).
  { unfold X. rewrite Hdd2.
    assert (2 ^ p * D <= 2 ^ p * 2 ^ bY) by (apply Z.mul_le_mono_nonneg_l; lia).
    assert (2 ^ (p + 1 - bx) * 2 ^ (bx - 1) * 2 ^ bY <= 2 ^ (p + 1 - bx) * v * 2 ^ bY).
    { apply Z.mul_le_mono_nonneg_r; [lia|]. apply Z.mul_le_mono_nonneg_l; lia. }
    rewrite Hpx1 in *. lia. }
  assert (HXhi : X < 4 * 2 ^ p * D).
  { unfold X. rewrite Hdd2.
    assert (2 ^ (p + 1 - bx) * v * 2 ^ bY < 2 ^ (p + 1 - bx) * 2 ^ bx * 2 ^ bY).
    { apply Z.mul_lt_mono_pos_r; [lia|]. apply Z.mul_lt_mono_pos_l; lia. }
    rewrite Hpx2 in *.
    assert (2 * 2 ^ p * (2 * 2 ^ (bY - 1)) <= 2 * 2 ^ p * (2 * D)).
    { apply Z.mul_le_mono_nonneg_l; lia. }
    rewrite HbY2. lia. }
  assert (Hqlo : 2 ^ p <= q).
  { unfold q. apply Z.div_le_lower_bound; lia. }
  assert (Hqhi : q < 4 * 2 ^ p).
  { unfold q. apply Z.div_lt_upper_bound; lia. }
  assert (Hq1 : 1 <= q) by lia.
  destruct (bitLen_bounds q Hq1) as (Hbq & Hbqlo & Hbqhi).
  set (bits := big.bitLen q) in *.
  assert (Hbits : bits = p + 1 \/ bits = p + 2).
  { assert (p < bits) by (apply pow2_lt_inv; lia).
    assert (bits - 1 < p + 2); [|lia].
    apply pow2_lt_inv; [lia|].
    replace (p + 2) with (p + 1 + 1) by lia. rewrite !pow2_succ by lia. lia. }
  (* the rounding step is coarser than 1/D only by less than 2^dd *)
  assert (HC : 2 ^ (bits - p) * D < 2 ^ dd).
  { destruct Hbits as [Hb|Hb]; rewrite Hb.
    - replace (p + 1 - p) with 1 by lia. change (2 ^ 1) with 2.
      assert (2 ^ 1 * 2 ^ bY <= 2 ^ dd).
      { rewrite <- Z.pow_add_r by lia. apply Z.pow_le_mono_r; unfold dd; lia. }
      change (2 ^ 1) with 2 in *. lia.
    - replace (p + 2 - p) with 2 by lia. change (2 ^ 2) with 4.
      destruct (Z.eq_dec bx p) as [Heq|Hne].
      + exfalso.
        assert (Hq2 : 2 * 2 ^ p <= q).
        { rewrite Hb in Hbqlo. replace (p + 2 - 1) with (p + 1) in Hbqlo by lia.
          rewrite pow2_succ in Hbqlo by lia. exact Hbqlo. }
        assert (2 * 2 ^ p * D <= q * D) by (apply Z.mul_le_mono_nonneg_r; lia).
        assert (Hdd3 : 2 ^ dd = 2 * 2 ^ bY).
        { unfold dd. rewrite Heq. replace (p + 1 + bY - p) with (bY + 1) by lia.
          apply pow2_succ. lia. }
        unfold X in HX. rewrite Hdd3 in HX. lia.
      + assert (2 ^ 2 * 2 ^ bY <= 2 ^ dd).
        { rewrite <- Z.pow_add_r by lia. apply Z.pow_le_mono_r; unfold dd; lia. }
        change (2 ^ 2) with 4 in *. lia. }
  destruct (round_quotient p q D rem (bx - bY - (bx + dd - bY) + bits)
              ltac:(lia) Hq1 ltac:(fold bits; lia) HD Hrem)
    as (M & E & w & Hround & HM & Hw & HE & Herr).
  fold bits in Hw, HE, Herr.
  assert (Hwdd : w <= dd).
  { assert (bits - p < dd); [|lia].
    apply pow2_lt_inv; [lia|].
    assert (0 < 2 ^ (bits - p)) by (apply pow2_pos; lia).
    assert (2 ^ (bits - p) * 1 <= 2 ^ (bits - p) * D) by (apply Z.mul_le_mono_nonneg_l; lia).
    lia. }
  exists M, E, (Z.to_nat (dd - w)). split; [exact Hround|].
  split; [exact HM|]. split; [lia|].
  rewrite Z2Nat.id by lia.
  assert (Hsplit : 2 ^ dd = 2 ^ (dd - w) * 2 ^ w).
  { rewrite <- Z.pow_add_r by lia. f_equal. lia. }
  assert (Hpw : 0 < 2 ^ w) by (apply pow2_pos; lia).
  assert (Hpj : 0 < 2 ^ (dd - w)) by (apply pow2_pos; lia).
  replace (q * D + rem) with (v * 2 ^ (dd - w) * 2 ^ w) in Herr
    by (rewrite (Z.mul_comm q D), <- HX; unfold X; rewrite Hsplit; ring).
  replace (M * 2 ^ w * D - v * 2 ^ (dd - w) * 2 ^ w)
    with ((M * D - v * 2 ^ (dd - w)) * 2 ^ w) in Herr by ring.
  rewrite Z.abs_mul, (Z.abs_eq (2 ^ w)) in Herr by lia.
  rewrite Hsplit in HC.
  apply (Z.mul_lt_mono_pos_r (2 ^ w)); [assumption|]. lia.
Qed.

Lemma decimal_init_canon M (j : nat) :
  1 <= M -> big.decimal_init M (- Z.of_nat j) = canon (M * 5 ^ Z.of_nat j) (Z.of_nat j).
Proof.
  intros HM. unfold big.decimal_init, canon.
  destruct (Z.eqb_spec M 0); [lia|].
  destruct (Z.ltb_spec (- Z.of_nat j) 0) as [Hneg|Hzero].
  - rewrite Z.opp_involutive. f_equal.
  - assert (j = 0%nat) by lia. subst j. cbn [Z.of_nat Z.opp].
    rewrite !Z.pow_0_r, Z.sub_0_r. reflexivity.
Qed.

(** [Text_f] of a positive Float that lies within half a unit of the
    k-th decimal place of v / 10^k. *)
Lemma Text_f_near p M E (j k : nat) v :
  1 <= M -> 1 <= v -> (1 <= k)%nat -> E - big.bitLen M = - Z.of_nat j ->
  2 * Z.abs (M * 10 ^ Z.of_nat k - v * 2 ^ Z.of_nat j) < 2 ^ Z.of_nat j ->
  big.Text_f (big.mkFloat p false big.finite M E) (Z.of_nat k) = exact_decimal v k.
Proof.
  intros HM Hv Hk HE Hnear. unfold big.Text_f. cbn [big.fform big.neg big.mant big.exp].
  destruct (Z.ltb_spec (Z.of_nat k) 0); [lia|].
  rewrite HE, decimal_init_canon by assumption.
  change ("" ++ ?s)%string with s.
  assert (H5 : 0 < 5 ^ Z.of_nat j) by (apply Z.pow_pos_nonneg; lia).
  apply text_near; try assumption; [lia|].
  replace (10 ^ Z.of_nat j) with (2 ^ Z.of_nat j * 5 ^ Z.of_nat j)
    by (rewrite <- Z.pow_mul_l; reflexivity).
  replace (M * 5 ^ Z.of_nat j * 10 ^ Z.of_nat k - v * (2 ^ Z.of_nat j * 5 ^ Z.of_nat j))
    with ((M * 10 ^ Z.of_nat k - v * 2 ^ Z.of_nat j) * 5 ^ Z.of_nat j) by ring.
  rewrite Z.abs_mul, (Z.abs_eq (5 ^ Z.of_nat j)) by lia.
  rewrite Z.mul_assoc. apply Z.mul_lt_mono_pos_r; assumption.
Qed.

(** The scaling the conversions apply, [quoText v (SetInt 10^k) k], is
    exact for amounts the precision can hold. *)
Lemma quoText_exact v (k : nat) :
  0 <= v -> (1 <= k)%nat ->
  v * 2 ^ big.bitLen (10 ^ Z.of_nat k)
    < 2 ^ Z.max (Z.max (big.bitLen v) 64) (Z.max (big.bitLen (10 ^ Z.of_nat k)) 64)
      * 10 ^ Z.of_nat k ->
  convert.quoText (Some v)
    (big.mkFloat (Z.max (big.bitLen (10 ^ Z.of_nat k)) 64) false big.finite
       (10 ^ Z.of_nat k) (big.bitLen (10 ^ Z.of_nat k)))
    (Z.of_nat k)
  = Ret (exact_decimal v k).
Proof.
  intros Hv Hk Hfit. set (D := 10 ^ Z.of_nat k) in *.
  assert (HD : 1 <= D).
  { assert (0 < D) by (apply Z.pow_pos_nonneg; lia). lia. }
  unfold convert.quoText.
  destruct (Z.eq_dec v 0) as [->|Hnz].
  - cbn [big.SetInt Z.eqb exec_bind]. unfold big.Quo. cbn [big.fform exec_bind].
    unfold big.Text_f. cbn [big.fform big.neg].
    destruct (Z.ltb_spec (Z.of_nat k) 0); [lia|].
    change ("" ++ ?s)%string with s.
    unfold big.dround. cbn [big.dexp].
    replace ((0 + Z.of_nat k <? 0) || (0 + Z.of_nat k >=? big.dlen (big.mkDecimal [] 0)))
      with true.
    + rewrite fmtF_zero by assumption. reflexivity.
    + symmetry. apply orb_true_iff. right. unfold big.dlen. cbn [big.dmant List.length].
      apply Z.geb_le. lia.
  - rewrite SetInt_positive by lia. cbn [exec_bind].
    destruct (uquo_near v D ltac:(lia) HD Hfit) as (M & E & j & Hq & HM & HE & Hnear).
    unfold big.Quo. cbn [big.fform big.prec big.neg xorb]. rewrite Hq. cbn [exec_bind].
    f_equal. apply (Text_f_near _ M E j k v); try assumption; lia.
Qed.

(** ** Division by one: a token without decimals *)

Lemma bitLen_shift t r :
  1 <= t -> 0 <= r -> big.bitLen (t * 2 ^ r) = big.bitLen t + r.
Proof.
  intros Ht Hr. destruct (bitLen_bounds t Ht) as (Hb & Hlo & Hhi).
  pose proof (pow2_pos r Hr) as HP.
  apply bitLen_unique; [lia|].
  replace (big.bitLen t + r - 1) with (big.bitLen t - 1 + r) by lia.
  rewrite !Z.pow_add_r by lia. split.
  - apply Z.mul_le_mono_nonneg_r; lia.
  - apply Z.mul_lt_mono_pos_r; lia.
Qed.

(** [round] drops low bits that are all zero without changing the value. *)
Lemma round_exact p t r e :
  1 <= t -> big.bitLen t = p -> 0 <= r ->
  big.round p (t * 2 ^ (r + 1)) e false = (t, e).
Proof.
  intros Ht Hp Hr. unfold big.round. rewrite bitLen_shift by lia. rewrite Hp.
  destruct (Z.leb_spec (p + (r + 1)) p); [lia|].
  replace (p + (r + 1) - p - 1) with r by lia.
  rewrite Z.mul_pow2_bits_low by lia. cbn [andb].
  rewrite Z.shiftr_div_pow2 by lia. rewrite Z.div_mul; [reflexivity|].
  apply Z.pow_nonzero; lia.
Qed.

Lemma one_float : big.SetInt (Some 1) = Ret (big.mkFloat 64 false big.finite 1 1).
Proof. reflexivity. Qed.

Lemma fmtF_canon_int v :
  1 <= v -> big.fmtF 0 (canon v 0) = digits_string (utoa v).
Proof.
  intros Hv. unfold big.fmtF, canon. cbn [big.dexp big.dmant]. rewrite Z.sub_0_r.
  change (0 <? 0) with false. cbv iota.
  assert (Hla : (1 <= List.length (utoa v))%nat).
  { destruct (utoa v) eqn:Hu; [exfalso; exact (utoa_nonnil v ltac:(lia) Hu)|cbn; lia]. }
  replace (0 <? Z.of_nat (List.length (utoa v))) with true by (symmetry; apply Z.ltb_lt; lia).
  f_equal. unfold big.dlen. cbn [big.dmant].
  rewrite <- Nat2Z.inj_min, Nat2Z.id.
  rewrite <- Nat2Z.inj_sub by lia. rewrite Nat2Z.id.
  rewrite firstn_trim by lia. apply firstn_all.
Qed.

(** Dividing by the Float 1 and printing without decimals gives back
    the integer, whatever its size. *)
Lemma quoText_one v :
  0 <= v ->
  convert.quoText (Some v) (big.mkFloat 64 false big.finite 1 1) 0
  = Ret (digits_string (utoa v)).
Proof.
  intros Hv. unfold convert.quoText.
  destruct (Z.eq_dec v 0) as [->|Hnz]; [reflexivity|].
  rewrite SetInt_positive by lia. cbn [exec_bind].
  destruct (bitLen_bounds v ltac:(lia)) as (Hbx & _).
  set (bx := big.bitLen v) in *. set (p := Z.max bx 64).
  unfold big.Quo. cbn [big.fform big.prec big.neg xorb].
  replace (Z.max p 64) with p by (unfold p; lia).
  unfold big.uquo. cbn [big.mant big.exp]. fold bx.
  change (big.bitLen 1) with 1.
  replace (Z.max 0 (p + 1 + 1 - bx)) with (p - bx + (1 + 1)) by (unfold p; lia).
  rewrite Z.shiftl_mul_pow2 by (unfold p; lia).
  rewrite Z.div_1_r, Z.mod_1_r. cbn [Z.eqb negb].
  rewrite Z.pow_add_r by (unfold p; lia). rewrite Z.mul_assoc.
  assert (HP : 0 < 2 ^ (p - bx)) by (apply pow2_pos; unfold p; lia).
  assert (Hbt : big.bitLen (v * 2 ^ (p - bx)) = p).
  { rewrite bitLen_shift by (unfold p; lia). fold bx. lia. }
  rewrite (round_exact p) by (try assumption; nia).
  cbn [exec_bind]. f_equal.
  unfold big.Text_f. cbn [big.fform big.neg big.mant big.exp].
  change (0 <? 0) with false. cbv iota. change ("" ++ ?s)%string with s.
  rewrite Hbt.
  set (e := bx - 1 - (bx + (p - bx + (1 + 1)) - 1) + big.bitLen (v * 2 ^ (p - bx) * 2 ^ (1 + 1))).
  assert (He : e - p = - Z.of_nat (Z.to_nat (p - bx))).
  { unfold e. rewrite bitLen_shift by lia. rewrite Hbt. unfold p. lia. }
  rewrite He. rewrite decimal_init_canon by nia.
  set (j := Z.to_nat (p - bx)).
  assert (Hj : p - bx = Z.of_nat j) by (unfold j, p; lia).
  rewrite Hj.
  replace (v * 2 ^ Z.of_nat j * 5 ^ Z.of_nat j) with (v * 10 ^ Z.of_nat j)
    by (rewrite <- Z.mul_assoc, <- Z.pow_mul_l; reflexivity).
  replace (Z.of_nat j) with (0 + Z.of_nat j) at 2 4 by lia.
  rewrite canon_times_pow by lia.
  pose proof (dround_canon_exact v 0 0 ltac:(lia) ltac:(lia)) as Hd.
  cbn [Z.of_nat Nat.sub] in Hd. rewrite Z.pow_0_r, Z.mul_1_r in Hd. rewrite Hd.
  apply fmtF_canon_int. lia.
Qed.

(** ** Exact amounts *)

Lemma quoText_wei_exact v :
  0 <= v < 16 * 10 ^ 18 ->
  convert.quoText (Some v) weiPerEth_float 18 = Ret (exact_decimal v 18).
Proof.
  intros Hv.
  assert (Hb : big.bitLen v <= 64).
  { destruct (Z.eq_dec v 0) as [->|Hnz]; [cbn; lia|].
    destruct (bitLen_bounds v ltac:(lia)) as (Hb & Hlo & _).
    assert (big.bitLen v - 1 < 64); [|lia].
    apply pow2_lt_inv; lia. }
  assert (Hfit : v * 2 ^ big.bitLen (10 ^ Z.of_nat 18)
                 < 2 ^ Z.max (Z.max (big.bitLen v) 64) (Z.max (big.bitLen (10 ^ Z.of_nat 18)) 64)
                   * 10 ^ Z.of_nat 18).
  { change (big.bitLen (10 ^ Z.of_nat 18)) with 60.
    change (10 ^ Z.of_nat 18) with (10 ^ 18).
    replace (Z.max (Z.max (big.bitLen v) 64) (Z.max 60 64)) with 64 by lia.
    lia. }
  exact (quoText_exact v 18 (proj1 Hv) ltac:(lia) Hfit).
Qed.

Lemma quoText_token_exact v (d : nat) :
  0 <= v < 2 ^ 63 -> (1 <= d)%nat ->
  convert.quoText (Some v)
    (big.mkFloat (Z.max (big.bitLen (10 ^ Z.of_nat d)) 64) false big.finite
       (10 ^ Z.of_nat d) (big.bitLen (10 ^ Z.of_nat d)))
    (Z.of_nat d)
  = Ret (exact_decimal v d).
Proof.
  intros Hv Hd. apply quoText_exact; [lia|assumption|].
  set (D := 10 ^ Z.of_nat d).
  assert (HD : 1 <= D).
  { assert (0 < D) by (apply Z.pow_pos_nonneg; lia). lia. }
  destruct (bitLen_bounds D HD) as (HbY & Hlo & _).
  set (bY := big.bitLen D) in *.
  set (p := Z.max (Z.max (big.bitLen v) 64) (Z.max bY 64)).
  assert (HbY2 : 2 ^ bY = 2 * 2 ^ (bY - 1)).
  { replace bY with (bY - 1 + 1) at 1 by lia. apply pow2_succ. lia. }
  assert (Hp : 2 ^ 64 <= 2 ^ p) by (apply Z.pow_le_mono_r; unfold p; lia).
  assert (H1 : v * 2 ^ bY <= v * (2 * D)) by (apply Z.mul_le_mono_nonneg_l; lia).
  assert (H2 : 2 ^ 64 * D <= 2 ^ p * D) by (apply Z.mul_le_mono_nonneg_r; lia).
  assert (H3 : 2 * v * D < 2 ^ 64 * D) by (apply Z.mul_lt_mono_pos_r; lia).
  lia.
Qed.

(** X18.  A normal record with a valid timestamp whose value and gas
    fee (gas price times gas used) are non-negative integers below
    16 * 10^18 wei converts to exactly this transaction: value and gas
    fee are the amounts divided by 10^18, written in full with 18
    decimals, with no rounding error. *)
Theorem normal_amounts_below_16_eth_are_exact :
  forall tx : NormalTransaction.t,
    int64_string (NormalTransaction.TimeStamp tx) = true ->
    integer_string (NormalTransaction.Value tx) = true ->
    integer_string (NormalTransaction.GasPrice tx) = true ->
    integer_string (NormalTransaction.GasUsed tx) = true ->
    0 <= integer_value (NormalTransaction.Value tx) < 16 * 10 ^ 18 ->
    0 <= integer_value (NormalTransaction.GasPrice tx)
         * integer_value (NormalTransaction.GasUsed tx) < 16 * 10 ^ 18 ->
    convert.ConvertNormalTxToModel tx
    = Ret (models.mkTransaction
             (NormalTransaction.Hash tx)
             (time.Unix (integer_value (NormalTransaction.TimeStamp tx)) 0)
             (NormalTransaction.From tx) (NormalTransaction.To tx)
             models.TypeEthTransfer "" "" ""
             (exact_decimal (integer_value (NormalTransaction.Value tx)) 18)
             (exact_decimal (integer_value (NormalTransaction.GasPrice tx)
                             * integer_value (NormalTransaction.GasUsed tx)) 18),
           None).
Proof.
  intros tx Hts Hv Hp Hu Hval Hfee.
  unfold convert.ConvertNormalTxToModel. parse_timestamp_valid Hts.
  rewrite !SetString_spec. rewrite Hv, Hp, Hu.
  cbn [big.Mul exec_bind]. rewrite weiPerEth_value. cbn [exec_bind].
  rewrite (quoText_wei_exact _ Hfee). cbn [exec_bind].
  rewrite (quoText_wei_exact _ Hval). reflexivity.
Qed.

Lemma normal_amounts_below_16_eth_are_exact_example :
  convert.ConvertNormalTxToModel (sample.normal "15999999999999999999" "20000000000" "21000")
  = Ret (models.mkTransaction "0x123abc" (time.Instant 1630000000 0) "0xsender" "0xreceiver"
           "ETH_TRANSFER" "" "" "" "15.999999999999999999" "0.000420000000000000", None).
Proof.
  apply (normal_amounts_below_16_eth_are_exact
           (sample.normal "15999999999999999999" "20000000000" "21000"));
    try reflexivity; vm_compute; split; congruence.
Defined.

(** X19.  An internal record with a valid timestamp whose value is a
    non-negative integer below 16 * 10^18 wei converts to exactly this
    transaction: the value divided by 10^18 with 18 decimals, and the
    gas fee "0". *)
Theorem internal_value_below_16_eth_is_exact :
  forall tx : InternalTransaction.t,
    int64_string (InternalTransaction.TimeStamp tx) = true ->
    integer_string (InternalTransaction.Value tx) = true ->
    0 <= integer_value (InternalTransaction.Value tx) < 16 * 10 ^ 18 ->
    convert.ConvertInternalTxToModel tx
    = Ret (models.mkTransaction
             (InternalTransaction.Hash tx)
             (time.Unix (integer_value (InternalTransaction.TimeStamp tx)) 0)
             (InternalTransaction.From tx) (InternalTransaction.To tx)
             models.TypeInternalTx "" "" ""
             (exact_decimal (integer_value (InternalTransaction.Value tx)) 18)
             "0",
           None).
Proof.
  intros tx Hts Hv Hval.
  unfold convert.ConvertInternalTxToModel. parse_timestamp_valid Hts.
  rewrite SetString_spec. rewrite Hv.
  rewrite weiPerEth_value. cbn [exec_bind].
  rewrite (quoText_wei_exact _ Hval). reflexivity.
Qed.

Lemma internal_value_below_16_eth_is_exact_example :
  convert.ConvertInternalTxToModel (sample.internal "9223372036854775809")
  = Ret (models.mkTransaction "0x456" (time.Instant 1630000000 0) "0xcontract" "0xuser"
           "INTERNAL_TRANSFER" "" "" "" "9.223372036854775809" "0", None).
Proof.
  apply (internal_value_below_16_eth_is_exact (sample.internal "9223372036854775809"));
    try reflexivity; vm_compute; split; congruence.
Defined.

(** X20.  An ERC-721 record with a valid timestamp whose gas fee (gas
    price times gas used) is a non-negative integer below 16 * 10^18
    wei converts to exactly this transaction: the fee divided by 10^18
    with 18 decimals, the value "1" and the record's token id. *)
Theorem erc721_gas_fee_below_16_eth_is_exact :
  forall tx : ERC721Transaction.t,
    int64_string (ERC721Transaction.TimeStamp tx) = true ->
    integer_string (ERC721Transaction.GasPrice tx) = true ->
    integer_string (ERC721Transaction.GasUsed tx) = true ->
    0 <= integer_value (ERC721Transaction.GasPrice tx)
         * integer_value (ERC721Transaction.GasUsed tx) < 16 * 10 ^ 18 ->
    convert.ConvertERC721TxToModel tx
    = Ret (models.mkTransaction
             (ERC721Transaction.Hash tx)
             (time.Unix (integer_value (ERC721Transaction.TimeStamp tx)) 0)
             (ERC721Transaction.From tx) (ERC721Transaction.To tx)
             models.TypeERC721Transfer
             (ERC721Transaction.ContractAddress tx)
             (ERC721Transaction.TokenSymbol tx)
             (ERC721Transaction.TokenID tx)
             "1"
             (exact_decimal (integer_value (ERC721Transaction.GasPrice tx)
                             * integer_value (ERC721Transaction.GasUsed tx)) 18),
           None).
Proof.
  intros tx Hts Hp Hu Hfee.
  unfold convert.ConvertERC721TxToModel. parse_timestamp_valid Hts.
  rewrite !SetString_spec. rewrite Hp, Hu.
  cbn [big.Mul exec_bind]. rewrite weiPerEth_value. cbn [exec_bind].
  rewrite (quoText_wei_exact _ Hfee). reflexivity.
Qed.

Lemma erc721_gas_fee_below_16_eth_is_exact_example :
  convert.ConvertERC721TxToModel (sample.erc721 "123456789123" "120001")
  = Ret (models.mkTransaction "0x789ghi" (time.Instant 1630000000 0) "0xsender" "0xreceiver"
           "ERC721_TRANSFER" "0xnft" "NFT" "12345" "1" "0.014814938151549123", None).
Proof.
  apply (erc721_gas_fee_below_16_eth_is_exact (sample.erc721 "123456789123" "120001"));
    try reflexivity; vm_compute; split; congruence.
Defined.

(** X21.  An ERC-20 record with a valid timestamp, a decimals field
    that [Atoi] reads as a number d from 1 to 255 (the decimals of an
    ERC-20 token are a uint8), a token value that is a non-negative
    integer below 2^63 and a gas fee below 16 * 10^18 wei converts to
    exactly this transaction: the token value divided by 10^d with d
    decimals, and the gas fee divided by 10^18 with 18 decimals.  The
    bound on d keeps the divisor 10^d far below the 2^31 - 1 bits at
    which [big.Float.SetInt] overflows to an infinity. *)
Theorem erc20_amounts_scale_exactly :
  forall (tx : ERC20Transaction.t) (d : nat),
    int64_string (ERC20Transaction.TimeStamp tx) = true ->
    integer_string (ERC20Transaction.Value tx) = true ->
    integer_string (ERC20Transaction.GasPrice tx) = true ->
    integer_string (ERC20Transaction.GasUsed tx) = true ->
    fst (strconv.Atoi (ERC20Transaction.TokenDecimal tx)) = Z.of_nat d ->
    (1 <= d <= 255)%nat ->
    0 <= integer_value (ERC20Transaction.Value tx) < 2 ^ 63 ->
    0 <= integer_value (ERC20Transaction.GasPrice tx)
         * integer_value (ERC20Transaction.GasUsed tx) < 16 * 10 ^ 18 ->
    convert.ConvertERC20TxToModel tx
    = Ret (models.mkTransaction
             (ERC20Transaction.Hash tx)
             (time.Unix (integer_value (ERC20Transaction.TimeStamp tx)) 0)
             (ERC20Transaction.From tx) (ERC20Transaction.To tx)
             models.TypeERC20Transfer
             (ERC20Transaction.ContractAddress tx)
             (ERC20Transaction.TokenSymbol tx)
             ""
             (exact_decimal (integer_value (ERC20Transaction.Value tx)) d)
             (exact_decimal (integer_value (ERC20Transaction.GasPrice tx)
                             * integer_value (ERC20Transaction.GasUsed tx)) 18),
           None).
Proof.
  intros tx d Hts Hv Hp Hu Hd Hd1 Hval Hfee.
  unfold convert.ConvertERC20TxToModel. parse_timestamp_valid Hts.
  rewrite !SetString_spec. rewrite Hv, Hp, Hu.
  cbn [big.Mul exec_bind]. rewrite weiPerEth_value. cbn [exec_bind].
  rewrite (quoText_wei_exact _ Hfee). cbn [exec_bind].
  destruct (strconv.Atoi (ERC20Transaction.TokenDecimal tx)) as [n err].
  cbn [fst] in Hd. subst n.
  unfold big.Exp, big.NewInt. destruct (Z.leb_spec (Z.of_nat d) 0); [lia|].
  cbn [exec_bind].
  assert (0 < 10 ^ Z.of_nat d) by (apply Z.pow_pos_nonneg; lia).
  rewrite SetInt_positive by lia. cbn [exec_bind].
  rewrite (quoText_token_exact _ d Hval (proj1 Hd1)). reflexivity.
Qed.

Lemma erc20_amounts_scale_exactly_example :
  convert.ConvertERC20TxToModel (sample.erc20 "9223372036854775807" "6" "20000000000" "65000")
  = Ret (models.mkTransaction "0x789" (time.Instant 1630000000 0) "0xabc" "0xdef"
           "ERC20_TRANSFER" "0xtoken" "TEST" "" "9223372036854.775807"
           "0.001300000000000000", None).
Proof.
  apply (erc20_amounts_scale_exactly
           (sample.erc20 "9223372036854775807" "6" "20000000000" "65000") 6);
    try reflexivity; try lia; vm_compute; split; congruence.
Defined.

(** X22.  When [Atoi] reads the decimals field of an ERC-20 record as 0
    (the field is "0", or it is empty or not a number, in which case
    the error is dropped), the token value is not scaled: for every
    non-negative integer value, however large, the transaction's value
    is that integer in plain decimal digits, without a decimal point. *)
Theorem erc20_without_decimals_keeps_the_amount :
  forall tx : ERC20Transaction.t,
    int64_string (ERC20Transaction.TimeStamp tx) = true ->
    integer_string (ERC20Transaction.Value tx) = true ->
    integer_string (ERC20Transaction.GasPrice tx) = true ->
    integer_string (ERC20Transaction.GasUsed tx) = true ->
    fst (strconv.Atoi (ERC20Transaction.TokenDecimal tx)) = 0 ->
    0 <= integer_value (ERC20Transaction.Value tx) ->
    exists m,
      convert.ConvertERC20TxToModel tx = Ret (m, None) /\
      models.Value m = strconv.Itoa (integer_value (ERC20Transaction.Value tx)) /\
      models.AssetSymbol m = ERC20Transaction.TokenSymbol tx /\
      models.AssetContractAddr m = ERC20Transaction.ContractAddress tx.
Proof.
  intros tx Hts Hv Hp Hu Hd Hval.
  unfold convert.ConvertERC20TxToModel. parse_timestamp_valid Hts.
  rewrite !SetString_spec. rewrite Hv, Hp, Hu.
  cbn [big.Mul exec_bind]. rewrite weiPerEth_value. cbn [exec_bind].
  step_quoText.
  destruct (strconv.Atoi (ERC20Transaction.TokenDecimal tx)) as [n err].
  cbn [fst] in Hd. subst n.
  change (big.Exp (big.NewInt 10) (big.NewInt 0)) with (Ret (Some 1) : exec big.Int).
  cbn [exec_bind]. rewrite one_float. cbn [exec_bind].
  rewrite (quoText_one _ Hval). cbn [exec_bind].
  eexists. split; [reflexivity|].
  cbn [models.Value models.AssetSymbol models.AssetContractAddr].
  unfold strconv.Itoa. destruct (Z.ltb_spec (integer_value (ERC20Transaction.Value tx)) 0); [lia|].
  auto.
Qed.

Lemma erc20_without_decimals_keeps_the_amount_example :
  exists m,
    convert.ConvertERC20TxToModel
      (sample.erc20 "123456789012345678901234567890" "n/a" "20000000000" "65000")
    = Ret (m, None) /\
    models.Value m = "123456789012345678901234567890" /\
    models.AssetSymbol m = "TEST" /\
    models.AssetContractAddr m = "0xtoken".
Proof.
  apply (erc20_without_decimals_keeps_the_amount
           (sample.erc20 "123456789012345678901234567890" "n/a" "20000000000" "65000"));
    try reflexivity; vm_compute; congruence.
Defined.
